(* ===== verification/_CoqProject ===== *)
-Q . S2P
Prelude.v
Endian.v
CRC32.v
SHA256.v
Exec.v
Posix.v
PosixFacts.v
LogFormat.v
LogTheory.v
WAL.v
WALFacts.v
WalkFacts.v
WALTheory.v
WALSpec.v
WALTamper.v
Snapshot.v
SnapshotFacts.v
SaveFacts.v
SnapshotSpec.v
Engine.v
EngineFacts.v
EngineTheory.v
EngineSpec.v
Outcomes.v
Concurrent.v
ConcurrentFacts.v
ConcurrentSpec.v
Tools.v
Programs.v
Trace.v
