(* ===== verification/Prelude.v ===== *)
(** * LiteSpeedStore: a verification development

    LiteSpeedStore is a crash-safe key-value store in C++17.  Each key holds a
    history of values; every write goes to a hash-chained write-ahead log before
    it reaches memory, and a snapshot folds the state so that the log can be
    emptied.  This library models the whole of the store as functions on
    explicit states and proves what makes it correct: what survives a power cut,
    what tampering is detected, what every operation does on every branch, and
    that concurrent calls behave like sequential ones.

    ** Parts and files

    The program is layered, and the files follow it.

    - [Prelude]: bytes, machine integers and their casts, bitwise automation,
      lemmas that all parts use.
    - [Endian], [CRC32], [SHA256]: include/persistence/Endian.hpp, CRC32.hpp and
      SHA256.hpp, each with its functions and their proofs against a reference:
      inverse laws, the bit-serial checksum, FIPS 180-4 padding and chaining.
    - [Exec]: a state monad with C++ exceptions and power cuts, and its weakest
      preconditions.  [Posix]: files, directory, descriptors and the system calls
      the source uses; [PosixFacts]: their laws.
    - [WAL]: src/WAL.cpp and WAL.hpp, one definition per method ([open] is the
      constructor, [close] the destructor).  [LogFormat] and [LogTheory] hold the
      abstract log: a list of entries, its encoding, and [walk], the verdict on
      any bytes.  [WALFacts], [WalkFacts] and [WALTheory] connect the two;
      [WALSpec] and [WALTamper] hold the properties.
    - [Snapshot]: src/Snapshot.cpp and Snapshot.hpp; [SnapshotFacts] and
      [SaveFacts] prepare, [SnapshotSpec] holds the properties.
    - [Engine]: src/StorageEngine.cpp and StorageEngine.hpp, the map of histories
      and its methods, which call [WAL] and [Snapshot]; [EngineFacts] gives the
      specification of an operation ([op_spec]) and of the contents of a snapshot
      with a log ([contents]); [EngineTheory] and [EngineSpec] prove that the
      engine implements it, also across restarts.
    - [Concurrent]: the same methods cut into single accesses, with their loops,
      [m_mutex], and a step relation for any number of threads; [ConcurrentFacts]
      holds the invariant, [ConcurrentSpec] the properties.  [Outcomes] shows
      that the methods return as long as the system calls do.
    - [Tools]: tools/verify.cpp.  [Programs]: tools/demo.cpp, whose printed
      transcript is computed and is the one of the README, and the drivers under
      fuzz/.  [Trace]: include/FastTrace.hpp.

    ** How the code is represented

    An object is a Record with the members of the class ([WAL.wal],
    [StorageEngine.engine]); a method is a function from the object and the
    system to a result and the new object and system.  A result is [Ret], a C++
    exception [Throw], or [Halt].  Integers are [Z] with the casts written out;
    bytes are those of the Standard Library; a [double] is a sign, an exponent and
    a fraction, with its eight bytes in memory, and the arithmetic of [SpecFloat];
    hash maps are [gmap]s.

    What the environment decides is data.  The system holds a script, and each
    system call takes its next outcome: success, a short transfer, EINTR, or
    another error; so do [std::filesystem::exists] and the opening and the reads
    of an [std::ifstream].  When the script is used up the machine has lost power, and
    the call ends in [Halt].  A theorem about every script therefore covers every
    combination of failures and a power cut between any two calls.  Writes are
    pending until [fsync]; a power cut keeps a prefix of the pending updates of
    each file, may tear the last write, and keeps some earlier state of the names
    in directories that were not synchronised ([crash_disk]).  The byte order of the
    host and the order in which a hash map is enumerated are parameters; of the
    order only [Enumeration] is assumed, that it lists the map.

    Recursion that is not structural has fuel.  A loop around a system call has
    one unit more than there are outcomes in the script: each round uses one up,
    so the fuel is never what ends it: [Outcomes] proves that the methods of
    the engine, and those of the log that they call, end in [Halt] only when the
    script is used up, and theorems with a count of
    successful calls ([used]) show that the loop returns.  A script is a list, so
    an endless series of EINTR is left out.  The loops of [Concurrent] have no
    fuel; that they end is [ConcurrentSpec.runs_end].  The rest is total as
    written.

    ** What is proved

    - Durability: [WALSpec.acknowledged_appends_survive],
      [EngineSpec.acknowledged_ops_survive], [EngineSpec.snapshot_loses_nothing],
      [SnapshotSpec.save_is_atomic], [SnapshotSpec.save_then_load].
    - Tamper evidence: [WALTamper.changed_byte_is_located],
      [WALTamper.checkpoint_pins_contents] (up to an explicit SHA-256 collision),
      [WALSpec.verify_judges_file], [WALSpec.verify_ok_iff],
      [WALSpec.recover_keeps_evidence], [SnapshotSpec.load_detects_byte].
    - Functional behaviour on every branch: [WALSpec.append_effect], [open], [reset]
      and [close] likewise, [EngineSpec.operation_effect], the readers after a
      [set] or a [remove], [EngineSpec.construct_judges], [Tools.verify_tool_exit]
      (which exit code, for which file, and that [exists] may throw).
    - Refinement and round trips: [WALSpec.recover_replays],
      [WALSpec.appended_entries_replay], [SnapshotSpec.snapshot_roundtrip],
      [SnapshotSpec.load_accepts_exactly], and the codecs and checksums.
    - Invariants: [EngineSpec.histories_capped] over everything a program can do.
    - Concurrency: [ConcurrentSpec.linearizable], [ConcurrentSpec.mutual_exclusion],
      [ConcurrentSpec.no_deadlock], [ConcurrentSpec.runs_end].
    - What the code does not mean to do: any append that fails half-way poisons the
      log, a read error empties it, a rewritten length is taken for a torn write
      ([WALTamper]); two databases share a snapshot, a refused [set] comes back,
      entries are applied twice, an unreadable snapshot is skipped ([EngineSpec]).

    ** Not modelled

    src/main.cpp (a console program whose output is a formatted [double]), the
    benchmark and the tests, which use the library and have no logic of their own.
    Messages on [std::cerr] and [std::cout] are left out, but for the
    demonstration.  Allocation failures are left out.  All directories exist,
    there are no symbolic links, and a file is always called by the same path;
    permissions and free space show only as failed calls.  The inner mutex of the log is not interleaved on its own: in
    the engine it is only taken under [m_mutex], and a log used alone is modelled
    with one step per method.

    Planned: the durability theorems for interleaved threads, as a consequence of
    linearizability; several engines on one directory; main.cpp. *)

From Stdlib Require Export ZArith Lia ZifyNat Bool Init.Byte Strings.Byte.
From stdpp Require Export base numbers list option countable strings.

#[global] Open Scope Z_scope.

(** ** Bytes

    A [uint8_t] (and a [char] of a [std::string]) is a [byte] of the Standard
    Library; a buffer ([std::vector<uint8_t>], [std::string], the contents of a
    file) is a list of bytes. *)

Abbreviation byte := Corelib.Init.Byte.byte.
Abbreviation bytes := (list byte).

#[export] Instance byte_eq_dec : EqDecision byte := Byte.byte_eq_dec.

#[export] Program Instance byte_countable : Countable byte :=
  inj_countable Byte.to_N Byte.of_N _.
Next Obligation. intros b. apply Byte.of_to_N. Qed.

#[export] Instance byte_inhabited : Inhabited byte := populate x00.

(** The value of a byte, and [static_cast<uint8_t>]. *)
Definition Z_of_byte (b : byte) : Z := Z.of_N (Byte.to_N b).

Definition byte_of_Z (z : Z) : byte :=
  match Byte.of_N (Z.to_N (Z.land z 255)) with
  | Some b => b
  | None => x00
  end.

(** [static_cast<uint32_t>] and [static_cast<uint64_t>]: the value modulo the
    width, computed with a mask. *)
Definition u32 (z : Z) : Z := Z.land z 0xFFFFFFFF.
Definition u64 (z : Z) : Z := Z.land z 0xFFFFFFFFFFFFFFFF.

(** [static_cast<int64_t>] of an unsigned 64-bit value. *)
Definition i64 (z : Z) : Z :=
  if u64 z <? 2 ^ 63 then u64 z else u64 z - 2 ^ 64.

(** Ranges of the machine integers. *)
Definition is_u32 (z : Z) : Prop := 0 <= z < 2 ^ 32.
Definition is_u64 (z : Z) : Prop := 0 <= z < 2 ^ 64.
Definition is_i64 (z : Z) : Prop := - 2 ^ 63 <= z < 2 ^ 63.

(** [size()] of a container, as the code compares it with other integers. *)
Abbreviation zlen l := (Z.of_nat (length l)).

(** [lia] with quotients and remainders by constants. *)
Ltac mod_lia := Zify.zify; Z.to_euclidean_division_equations; lia.

(** ** Bit-level reasoning *)

Create HintDb zbits.
Create Rewrite HintDb zbits.

(** A value below [2 ^ n] has no bit from [n] on. *)
Lemma testbit_high (z n i : Z) : 0 <= z < 2 ^ n -> n <= i -> Z.testbit z i = false.
Proof.
  intros Hz Hi. destruct (decide (n < 0)) as [Hn|Hn].
  - rewrite Z.pow_neg_r in Hz by done. lia.
  - rewrite <- (Z.mod_small z (2 ^ n)) by done. apply Z.mod_pow2_bits_high. lia.
Qed.

Lemma testbit_ones_mask (n i : Z) :
  0 <= n -> 0 <= i -> Z.testbit (Z.ones n) i = (i <? n).
Proof.
  intros Hn Hi. destruct (Z.ltb_spec i n).
  - apply Z.ones_spec_low; lia.
  - apply Z.ones_spec_high; lia.
Qed.

(** Goals [x = y] on integers, bit by bit: the bits of the two sides are
    rewritten down to the bits of the atoms, and the comparisons of the index
    with constants are split. *)
Ltac zbit_rew :=
  repeat first
    [ rewrite Z.lor_spec | rewrite Z.land_spec | rewrite Z.lxor_spec
    | rewrite Z.shiftr_spec by lia | rewrite Z.shiftl_spec by lia
    | rewrite Z.lnot_spec by lia | rewrite testbit_ones_mask by lia
    | rewrite Z.testbit_0_l
    | rewrite Z.testbit_neg_r by lia ].

Ltac zbits_with t :=
  apply Z.bits_inj'; let i := fresh "i" in intros i ?; zbit_rew; t i.

(** ** Modular arithmetic of the casts *)

Lemma u32_mod z : u32 z = z mod 2 ^ 32.
Proof. unfold u32. change 0xFFFFFFFF with (Z.ones 32). by rewrite Z.land_ones. Qed.

Lemma u64_mod z : u64 z = z mod 2 ^ 64.
Proof. unfold u64. change 0xFFFFFFFFFFFFFFFF with (Z.ones 64). by rewrite Z.land_ones. Qed.

Lemma u32_range z : is_u32 (u32 z).
Proof. unfold is_u32. rewrite u32_mod. by apply Z.mod_pos_bound. Qed.

Lemma u64_range z : is_u64 (u64 z).
Proof. unfold is_u64. rewrite u64_mod. by apply Z.mod_pos_bound. Qed.

Lemma u32_id z : is_u32 z -> u32 z = z.
Proof. intros H. rewrite u32_mod. by apply Z.mod_small. Qed.

Lemma u64_id z : is_u64 z -> u64 z = z.
Proof. intros H. rewrite u64_mod. by apply Z.mod_small. Qed.

Lemma i64_range z : is_i64 (i64 z).
Proof.
  unfold i64, is_i64. pose proof (u64_range z) as H. unfold is_u64 in H.
  destruct (Z.ltb_spec (u64 z) (2 ^ 63)); lia.
Qed.

(** [static_cast<int64_t>(static_cast<uint64_t>(z))] gives [z] back. *)
Lemma i64_u64 z : is_i64 z -> i64 (u64 z) = z.
Proof.
  intros H. unfold i64, is_i64 in *. rewrite (u64_id (u64 z)) by apply u64_range.
  rewrite u64_mod. destruct (decide (0 <= z)).
  - rewrite Z.mod_small by lia. destruct (Z.ltb_spec z (2 ^ 63)); lia.
  - rewrite <- (Z_mod_plus_full z 1 (2 ^ 64)), Z.mod_small by lia.
    destruct (Z.ltb_spec (z + 1 * 2 ^ 64) (2 ^ 63)); lia.
Qed.

Lemma u64_i64 z : u64 (i64 z) = u64 z.
Proof.
  unfold i64. destruct (Z.ltb_spec (u64 z) (2 ^ 63)).
  - by rewrite (u64_id (u64 z)) by apply u64_range.
  - rewrite (u64_mod (u64 z - 2 ^ 64)). rewrite <- (Z_mod_plus_full _ 1).
    replace (u64 z - 2 ^ 64 + 1 * 2 ^ 64) with (u64 z) by lia.
    apply Z.mod_small, u64_range.
Qed.

#[export] Hint Resolve u32_range u64_range i64_range : zbits.

(** ** Byte conversions *)

Lemma Z_of_byte_range b : 0 <= Z_of_byte b < 256.
Proof. unfold Z_of_byte. pose proof (Byte.to_N_bounded b). lia. Qed.

Lemma Z_of_byte_of_Z z : Z_of_byte (byte_of_Z z) = z mod 256.
Proof.
  unfold byte_of_Z, Z_of_byte.
  assert (Hm : Z.land z 255 = z mod 256).
  { change 255 with (Z.ones 8). by rewrite Z.land_ones. }
  rewrite Hm. pose proof (Z.mod_pos_bound z 256 eq_refl) as Hr.
  destruct (Byte.of_N (Z.to_N (z mod 256))) as [b|] eqn:E.
  - apply Byte.to_of_N in E. rewrite E. lia.
  - apply Byte.of_N_None_iff in E. lia.
Qed.

Lemma Z_of_byte_inj b1 b2 : Z_of_byte b1 = Z_of_byte b2 -> b1 = b2.
Proof.
  unfold Z_of_byte. intros H%N2Z.inj.
  pose proof (Byte.of_to_N b1). pose proof (Byte.of_to_N b2). congruence.
Qed.

Lemma byte_of_Z_of_byte b : byte_of_Z (Z_of_byte b) = b.
Proof.
  apply Z_of_byte_inj. rewrite Z_of_byte_of_Z.
  apply Z.mod_small, Z_of_byte_range.
Qed.

Lemma byte_of_Z_mod z1 z2 : z1 mod 256 = z2 mod 256 -> byte_of_Z z1 = byte_of_Z z2.
Proof. intros H. apply Z_of_byte_inj. by rewrite !Z_of_byte_of_Z. Qed.

Lemma testbit_byte_of_Z z i :
  0 <= i -> Z.testbit (Z_of_byte (byte_of_Z z)) i = (i <? 8) && Z.testbit z i.
Proof.
  intros Hi. rewrite Z_of_byte_of_Z. change 256 with (2 ^ 8).
  destruct (Z.ltb_spec i 8); simpl.
  - apply Z.mod_pow2_bits_low. lia.
  - apply Z.mod_pow2_bits_high. lia.
Qed.

Lemma testbit_Z_of_byte_high b i : 8 <= i -> Z.testbit (Z_of_byte b) i = false.
Proof. apply testbit_high, Z_of_byte_range. Qed.

#[export] Hint Resolve Z_of_byte_range : zbits.
#[export] Hint Rewrite byte_of_Z_of_byte Z_of_byte_of_Z : zbits.

