(* ===== verification/Endian.v ===== *)
(** * Endian: the little-endian helpers of include/persistence/Endian.hpp

    [putLE32]/[putLE64] append to a buffer and [getLE32]/[getLE64] read through
    a pointer, as in the header.  [le_bytes] and [le_value] are the reference
    definitions (positional notation in base 256); the theorems say that the
    shift-and-mask code computes them, and that reading undoes writing.  A
    [double] is a datum of IEEE-754 with its representation in memory, through
    which [doubleToBits] and [bitsToDouble] copy it. *)

From S2P Require Import Prelude.

(** ** The code *)

(** [p[i]] through a [const uint8_t*]; the callers keep [i] in range. *)
Definition ptr_at (p : bytes) (i : nat) : Z := Z_of_byte (nth i p x00).

Definition putLE32 (buf : bytes) (v : Z) : bytes :=
  let buf := buf ++ [byte_of_Z v] in
  let buf := buf ++ [byte_of_Z (Z.shiftr v 8)] in
  let buf := buf ++ [byte_of_Z (Z.shiftr v 16)] in
  buf ++ [byte_of_Z (Z.shiftr v 24)].

Definition putLE64 (buf : bytes) (v : Z) : bytes :=
  fold_left (fun b i => b ++ [byte_of_Z (Z.shiftr v (8 * Z.of_nat i))]) (seq 0 8) buf.

Definition getLE32 (p : bytes) : Z :=
  Z.lor (Z.lor (Z.lor (ptr_at p 0) (Z.shiftl (ptr_at p 1) 8))
               (Z.shiftl (ptr_at p 2) 16))
        (Z.shiftl (ptr_at p 3) 24).

Definition getLE64 (p : bytes) : Z :=
  fold_left (fun v i => Z.lor v (Z.shiftl (ptr_at p i) (8 * Z.of_nat i))) (seq 0 8) 0.

(** A [double] is an IEEE-754 binary64 datum: the sign, the biased exponent of 11
    bits and the fraction of 52 bits. *)
Record double := Double { d_sign : bool; d_exponent : Z; d_fraction : Z }.

#[export] Instance double_eq_dec : EqDecision double.
Proof. solve_decision. Defined.

Inductive host_order := LittleEndianHost | BigEndianHost.

#[export] Instance host_order_eq_dec : EqDecision host_order.
Proof. solve_decision. Defined.

(** ** Reference definitions *)

Fixpoint le_bytes (n : nat) (z : Z) : bytes :=
  match n with
  | O => []
  | S n => byte_of_Z z :: le_bytes n (z / 256)
  end.

Fixpoint le_value (l : bytes) : Z :=
  match l with
  | [] => 0
  | b :: l => Z_of_byte b + 256 * le_value l
  end.

Definition object_of_u64 (h : host_order) (z : Z) : bytes :=
  match h with
  | LittleEndianHost => le_bytes 8 z
  | BigEndianHost => reverse (le_bytes 8 z)
  end.

Definition u64_of_object (h : host_order) (l : bytes) : Z :=
  match h with
  | LittleEndianHost => le_value l
  | BigEndianHost => le_value (reverse l)
  end.

(** The object representation of a [double], most significant byte first: the
    sign and seven bits of the exponent; its other four bits and four bits of
    the fraction; and the rest of the fraction in six bytes. *)
Definition ieee_bytes (d : double) : bytes :=
  let f := d_fraction d in
  [ byte_of_Z ((if d_sign d then 128 else 0) + d_exponent d / 16);
    byte_of_Z (d_exponent d mod 16 * 16 + f / 2 ^ 48);
    byte_of_Z (f / 2 ^ 40); byte_of_Z (f / 2 ^ 32); byte_of_Z (f / 2 ^ 24);
    byte_of_Z (f / 2 ^ 16); byte_of_Z (f / 2 ^ 8); byte_of_Z f ].

Definition double_of_ieee_bytes (l : bytes) : double :=
  let b i := Z_of_byte (nth i l x00) in
  Double (128 <=? b 0%nat) (b 0%nat mod 128 * 16 + b 1%nat / 16)
    (((((((b 1%nat mod 16) * 256 + b 2%nat) * 256 + b 3%nat) * 256 + b 4%nat) * 256 + b 5%nat) * 256 + b 6%nat) * 256
      + b 7%nat).

(** [memcpy] between a [double] and other memory moves these eight bytes, in the
    byte order of the host; a host stores [uint64_t] and [double] in the same
    order. *)
Definition object_of_double (h : host_order) (d : double) : bytes :=
  match h with
  | LittleEndianHost => reverse (ieee_bytes d)
  | BigEndianHost => ieee_bytes d
  end.

Definition double_of_object (h : host_order) (l : bytes) : double :=
  match h with
  | LittleEndianHost => double_of_ieee_bytes (reverse l)
  | BigEndianHost => double_of_ieee_bytes l
  end.

(** [memcpy(&bits, &d, sizeof(bits))] and back. *)
Definition doubleToBits (h : host_order) (d : double) : Z :=
  u64_of_object h (object_of_double h d).

Definition bitsToDouble (h : host_order) (bits : Z) : double :=
  double_of_object h (object_of_u64 h bits).

(** ** Facts about the reference definitions *)

Lemma length_le_bytes n z : length (le_bytes n z) = n.
Proof. revert z. induction n as [|n IH]; intros z; simpl; [done|]. by rewrite IH. Qed.

Lemma le_value_bound l : 0 <= le_value l < 256 ^ zlen l.
Proof.
  induction l as [|b l IH]; simpl length; simpl le_value; [lia|].
  rewrite Nat2Z.inj_succ, Z.pow_succ_r by lia. pose proof (Z_of_byte_range b). lia.
Qed.

Lemma le_value_le_bytes n z : le_value (le_bytes n z) = z mod 256 ^ Z.of_nat n.
Proof.
  revert z. induction n as [|n IH]; intros z; cbn [le_bytes le_value].
  - by rewrite Z.mod_1_r.
  - rewrite IH, Z_of_byte_of_Z, Nat2Z.inj_succ, Z.pow_succ_r by lia.
    by rewrite Z.rem_mul_r by lia.
Qed.

Lemma le_bytes_le_value l : le_bytes (length l) (le_value l) = l.
Proof.
  induction l as [|b l IH]; cbn [length le_bytes le_value]; [done|].
  pose proof (Z_of_byte_range b). f_equal.
  - rewrite <- (byte_of_Z_of_byte b) at 2. apply byte_of_Z_mod.
    by rewrite Z.mul_comm, Z_mod_plus_full.
  - rewrite Z.mul_comm, Z.div_add, Z.div_small, Z.add_0_l by lia. exact IH.
Qed.

Lemma le_value_app l1 l2 : le_value (l1 ++ l2) = le_value l1 + 256 ^ zlen l1 * le_value l2.
Proof.
  induction l1 as [|b l1 IH]; cbn [app le_value length].
  - simpl Z.of_nat. rewrite Z.pow_0_r. lia.
  - rewrite IH, Nat2Z.inj_succ, Z.pow_succ_r by lia. ring.
Qed.

Lemma le_bytes_inj n x y :
  0 <= x < 256 ^ Z.of_nat n -> 0 <= y < 256 ^ Z.of_nat n ->
  le_bytes n x = le_bytes n y -> x = y.
Proof.
  intros Hx Hy H%(f_equal le_value). rewrite !le_value_le_bytes in H.
  by rewrite !Z.mod_small in H.
Qed.

Lemma le_bytes_u64 z : le_bytes 8 (u64 z) = le_bytes 8 z.
Proof.
  rewrite <- (le_bytes_le_value (le_bytes 8 z)), le_value_le_bytes, length_le_bytes.
  by rewrite u64_mod.
Qed.

(** A byte shifted above [n] bits adds without carry to a value below [2 ^ n]. *)
Lemma lor_shiftl_add a b n : 0 <= n -> 0 <= a < 2 ^ n -> Z.lor a (Z.shiftl b n) = a + 2 ^ n * b.
Proof.
  intros Hn Ha. rewrite Z.shiftl_mul_pow2, (Z.mul_comm b) by done. symmetry.
  rewrite <- (Z.lxor_lor a (2 ^ n * b)), Z.add_nocarry_lxor; [done| |].
  all: apply Z.bits_inj'; intros i Hi; rewrite Z.land_spec, Z.testbit_0_l.
  all: destruct (Z.ltb_spec i n);
    [ rewrite (Z.mul_comm (2 ^ n)), Z.mul_pow2_bits_low, andb_false_r by lia; done
    | rewrite (testbit_high a n) by lia; done ].
Qed.

(** ** The code computes the reference definitions *)

Lemma putLE32_le buf v : putLE32 buf v = buf ++ le_bytes 4 v.
Proof.
  unfold putLE32. cbn [le_bytes]. rewrite <- !app_assoc. cbn [app].
  rewrite !Z.shiftr_div_pow2, !Z.div_div by lia. done.
Qed.

Lemma putLE64_le buf v : putLE64 buf v = buf ++ le_bytes 8 v.
Proof.
  unfold putLE64. cbn [seq fold_left le_bytes]. rewrite <- !app_assoc. cbn [app].
  rewrite !Z.shiftr_div_pow2, !Z.div_div, Z.div_1_r by lia. done.
Qed.

Lemma ptr_at_range p i : 0 <= ptr_at p i < 2 ^ 8.
Proof. apply Z_of_byte_range. Qed.

Lemma le_value_take_S p n :
  le_value (take (S n) p) = le_value (take n p) + 256 ^ Z.of_nat n * ptr_at p n.
Proof.
  revert n. induction p as [|b p IH]; intros n.
  - rewrite !take_nil. replace (ptr_at [] n) with 0 by (by destruct n).
    by rewrite Z.mul_0_r.
  - destruct n as [|n]; [rewrite Z.pow_0_r; change (ptr_at (b :: p) 0) with (Z_of_byte b); cbn [take le_value]; rewrite take_0; cbn [le_value]; lia|].
    cbn [take le_value]. specialize (IH n). cbn [take] in IH. rewrite IH.
    change (ptr_at (b :: p) (S n)) with (ptr_at p n).
    rewrite Nat2Z.inj_succ, Z.pow_succ_r by lia. ring.
Qed.

Lemma le_value_take_bound p n : 0 <= le_value (take n p) < 256 ^ Z.of_nat n.
Proof.
  pose proof (le_value_bound (take n p)) as H. rewrite length_take in H.
  split; [lia|]. eapply Z.lt_le_trans; [apply H|]. apply Z.pow_le_mono_r; lia.
Qed.

(** One round of a [get] loop appends a byte at the high end. *)
Lemma lor_ptr_at p n :
  Z.lor (le_value (take n p)) (Z.shiftl (ptr_at p n) (8 * Z.of_nat n)) =
  le_value (take (S n) p).
Proof.
  rewrite le_value_take_S. change 256 with (2 ^ 8). rewrite <- Z.pow_mul_r by lia.
  apply lor_shiftl_add; [lia|]. rewrite Z.pow_mul_r by lia. apply le_value_take_bound.
Qed.

Lemma getLE32_le p : getLE32 p = le_value (take 4 p).
Proof.
  unfold getLE32. rewrite <- (lor_ptr_at p 3), <- (lor_ptr_at p 2), <- (lor_ptr_at p 1).
  do 3 f_equal. rewrite le_value_take_S, take_0. cbn [le_value]. rewrite Z.pow_0_r. lia.
Qed.

Lemma getLE64_le p : getLE64 p = le_value (take 8 p).
Proof.
  assert (H : forall n, fold_left (fun v i => Z.lor v (Z.shiftl (ptr_at p i) (8 * Z.of_nat i)))
                          (seq 0 n) 0 = le_value (take n p)).
  { induction n as [|n IH]; [done|]. rewrite seq_S, fold_left_app, IH. apply lor_ptr_at. }
  apply H.
Qed.

(** Without a range hypothesis, reading gives the value modulo the width. *)
Lemma getLE32_le_bytes_u32 v rest : getLE32 (le_bytes 4 v ++ rest) = u32 v.
Proof.
  rewrite getLE32_le, take_app_le by (by rewrite length_le_bytes).
  by rewrite take_ge, le_value_le_bytes, u32_mod by (by rewrite length_le_bytes).
Qed.

Lemma getLE64_le_bytes_u64 v rest : getLE64 (le_bytes 8 v ++ rest) = u64 v.
Proof.
  rewrite getLE64_le, take_app_le by (by rewrite length_le_bytes).
  by rewrite take_ge, le_value_le_bytes, u64_mod by (by rewrite length_le_bytes).
Qed.

(** Writing at the end of a buffer and reading back. *)
Lemma getLE32_le_bytes v rest : is_u32 v -> getLE32 (le_bytes 4 v ++ rest) = v.
Proof.
  intros Hv. rewrite getLE32_le_bytes_u32. by apply u32_id.
Qed.

Lemma getLE64_le_bytes v rest : is_u64 v -> getLE64 (le_bytes 8 v ++ rest) = v.
Proof.
  intros Hv. rewrite getLE64_le_bytes_u64. by apply u64_id.
Qed.

Lemma getLE32_range p : is_u32 (getLE32 p).
Proof. rewrite getLE32_le. apply (le_value_take_bound p 4). Qed.

Lemma getLE64_range p : is_u64 (getLE64 p).
Proof. rewrite getLE64_le. apply (le_value_take_bound p 8). Qed.

#[export] Hint Resolve getLE32_range getLE64_range : zbits.

(** The four (eight) bytes read are the ones a [put] of the value writes. *)
Lemma le_bytes_getLE32 p : (4 <= length p)%nat -> le_bytes 4 (getLE32 p) = take 4 p.
Proof.
  intros Hp. rewrite getLE32_le.
  rewrite <- (le_bytes_le_value (take 4 p)) at 2. by rewrite length_take_le.
Qed.

Lemma le_bytes_getLE64 p : (8 <= length p)%nat -> le_bytes 8 (getLE64 p) = take 8 p.
Proof.
  intros Hp. rewrite getLE64_le.
  rewrite <- (le_bytes_le_value (take 8 p)) at 2. by rewrite length_take_le.
Qed.

Lemma getLE32_take l n : (4 <= n)%nat -> getLE32 (take n l) = getLE32 l.
Proof. intros Hn. rewrite !getLE32_le, take_take. by rewrite Nat.min_l. Qed.

(** *** Doubles *)

Lemma length_object_of_u64 h z : length (object_of_u64 h z) = 8%nat.
Proof. destruct h; unfold object_of_u64; [done|]. by rewrite length_reverse, length_le_bytes. Qed.

Lemma u64_of_object_of_u64 h z : is_u64 z -> u64_of_object h (object_of_u64 h z) = z.
Proof.
  intros Hz. destruct h; unfold u64_of_object, object_of_u64.
  - rewrite le_value_le_bytes. by apply Z.mod_small.
  - rewrite reverse_involutive, le_value_le_bytes. by apply Z.mod_small.
Qed.

Lemma object_of_u64_of_object h l : length l = 8%nat -> object_of_u64 h (u64_of_object h l) = l.
Proof.
  intros Hl. destruct h; unfold u64_of_object, object_of_u64.
  - rewrite <- Hl. apply le_bytes_le_value.
  - rewrite <- Hl, <- (length_reverse l), le_bytes_le_value. apply reverse_involutive.
Qed.

Lemma u64_of_object_range h l : length l = 8%nat -> is_u64 (u64_of_object h l).
Proof.
  intros Hl. unfold u64_of_object, is_u64. destruct h.
  - pose proof (le_value_bound l) as H. rewrite Hl in H. exact H.
  - pose proof (le_value_bound (reverse l)) as H. rewrite length_reverse, Hl in H. exact H.
Qed.

(** The fields are in range, and the bits they make up. *)
Record double_ok (d : double) : Prop := {
  ok_exponent : 0 <= d_exponent d < 2 ^ 11;
  ok_fraction : 0 <= d_fraction d < 2 ^ 52
}.

Definition ieee_bits (d : double) : Z :=
  (if d_sign d then 2 ^ 63 else 0) + d_exponent d * 2 ^ 52 + d_fraction d.

Lemma ieee_bits_range d : double_ok d -> is_u64 (ieee_bits d).
Proof. intros [He Hf]. unfold ieee_bits, is_u64. destruct (d_sign d); lia. Qed.

(** The object representation is that of the bits as a [uint64_t]. *)
Lemma ieee_bytes_bits d : double_ok d -> ieee_bytes d = reverse (le_bytes 8 (ieee_bits d)).
Proof.
  intros [He Hf]. change (reverse (le_bytes 8 (ieee_bits d))) with
    ((fun z => [byte_of_Z (z / 256 / 256 / 256 / 256 / 256 / 256 / 256); byte_of_Z (z / 256 / 256 / 256 / 256 / 256 / 256);
      byte_of_Z (z / 256 / 256 / 256 / 256 / 256); byte_of_Z (z / 256 / 256 / 256 / 256); byte_of_Z (z / 256 / 256 / 256);
      byte_of_Z (z / 256 / 256); byte_of_Z (z / 256); byte_of_Z z]) (ieee_bits d)).
  unfold ieee_bytes, ieee_bits. rewrite !Z.div_div by lia. repeat apply (f_equal2 cons); try done.
  all: apply byte_of_Z_mod; destruct (d_sign d); lia.
Qed.

Lemma object_of_double_bits h d : double_ok d -> object_of_double h d = object_of_u64 h (ieee_bits d).
Proof.
  intros Hd. unfold object_of_double, object_of_u64. rewrite ieee_bytes_bits by done.
  destruct h; [by rewrite reverse_involutive|done].
Qed.

(** Eight bytes, read as a [double] and as a [uint64_t]. *)
Lemma double_of_ieee_bytes_bits l :
  length l = 8%nat ->
  double_ok (double_of_ieee_bytes l) /\ ieee_bits (double_of_ieee_bytes l) = le_value (reverse l).
Proof.
  intros Hl. do 8 (destruct l as [|? l]; [done|]). destruct l; [|done]. unfold double_of_ieee_bytes, ieee_bits. cbv zeta beta. cbn [nth].
  change (reverse _) with [b6; b5; b4; b3; b2; b1; b0; b]. cbn [le_value d_sign d_exponent d_fraction].
  clear Hl. repeat match goal with b : byte |- _ =>
    let z := fresh "z" in pose proof (Z_of_byte_range b); set (z := Z_of_byte b) in *; clearbody z; clear b end.
  split; [split; cbn [d_exponent d_fraction]; lia|]. match goal with |- context [128 <=? ?z] => destruct (Z.leb_spec 128 z) end; lia.
Qed.

Lemma double_of_object_bits h l :
  length l = 8%nat ->
  double_ok (double_of_object h l) /\ ieee_bits (double_of_object h l) = u64_of_object h l.
Proof.
  intros Hl. unfold double_of_object, u64_of_object. destruct h.
  - rewrite <- (reverse_involutive l) at 3. apply double_of_ieee_bytes_bits. by rewrite length_reverse.
  - by apply double_of_ieee_bytes_bits.
Qed.

Lemma ieee_bits_inj d d' : double_ok d -> double_ok d' -> ieee_bits d = ieee_bits d' -> d = d'.
Proof.
  destruct d as [s e f], d' as [s' e' f']. intros [He Hf] [He' Hf']. unfold ieee_bits. cbn in *.
  intros E. assert (s = s') as -> by (destruct s, s'; try done; lia).
  assert (e = e') as -> by (destruct s'; lia). f_equal. lia.
Qed.

Lemma length_object_of_double h d : length (object_of_double h d) = 8%nat.
Proof. by destruct h. Qed.

(** Back and forth through memory. *)
Lemma double_of_object_of_double h d : double_ok d -> double_of_object h (object_of_double h d) = d.
Proof.
  intros Hd. destruct (double_of_object_bits h (object_of_double h d) (length_object_of_double h d)) as [Hok E].
  apply ieee_bits_inj; [done..|]. rewrite E, object_of_double_bits by done.
  by apply u64_of_object_of_u64, ieee_bits_range.
Qed.

Lemma doubleToBits_bits h d : double_ok d -> doubleToBits h d = ieee_bits d.
Proof.
  intros Hd. unfold doubleToBits. rewrite object_of_double_bits by done. by apply u64_of_object_of_u64, ieee_bits_range.
Qed.

Lemma bitsToDouble_spec h z : is_u64 z -> double_ok (bitsToDouble h z) /\ ieee_bits (bitsToDouble h z) = z.
Proof.
  intros Hz. unfold bitsToDouble. destruct (double_of_object_bits h (object_of_u64 h z) (length_object_of_u64 h z)) as [H1 H2].
  split; [done|]. by rewrite H2, u64_of_object_of_u64.
Qed.

Lemma bitsToDouble_bits h d : double_ok d -> bitsToDouble h (ieee_bits d) = d.
Proof.
  intros Hd. destruct (bitsToDouble_spec h (ieee_bits d) (ieee_bits_range d Hd)) as [H1 H2]. by apply ieee_bits_inj.
Qed.

(** ** Properties *)

(** C34: [putLE32]/[putLE64] append exactly the base-256 digits of the value and
    [getLE32]/[getLE64] read them back, whatever follows in the buffer. *)
Theorem endian_roundtrip buf v w rest :
  is_u32 v -> is_u64 w ->
  getLE32 (drop (length buf) (putLE32 buf v) ++ rest) = v /\
  getLE64 (drop (length buf) (putLE64 buf w) ++ rest) = w /\
  putLE32 buf v = buf ++ le_bytes 4 v /\ putLE64 buf w = buf ++ le_bytes 8 w.
Proof.
  intros Hv Hw. rewrite putLE32_le, putLE64_le, !drop_app_length.
  split_and!; [by apply getLE32_le_bytes|by apply getLE64_le_bytes|done|done].
Qed.

Lemma endian_roundtrip_witness :
  is_u32 0x314C5357 /\ getLE32 (putLE32 [] 0x314C5357) = 0x314C5357.
Proof.
  assert (H : is_u32 0x314C5357) by (unfold is_u32; lia).
  split; [exact H|].
  pose proof (endian_roundtrip [] 0x314C5357 0 [] H) as E.
  rewrite app_nil_r in E. apply E. unfold is_u64. lia.
Defined.

(** C35: [doubleToBits] gives the IEEE-754 binary64 encoding on every host, the
    sign in bit 63, the exponent in bits 52 to 62 and the fraction below,
    although the copied bytes are in another order on another host; bits that
    were written on one host are read back as the same [double] on another, and
    every 64 bits are the bits of one [double]. *)
Theorem doubleToBits_host_independent h h' d z :
  double_ok d -> is_u64 z ->
  doubleToBits h d = (if d_sign d then 2 ^ 63 else 0) + d_exponent d * 2 ^ 52 + d_fraction d /\
  bitsToDouble h' (doubleToBits h d) = d /\
  double_ok (bitsToDouble h z) /\ doubleToBits h' (bitsToDouble h z) = z.
Proof.
  intros Hd Hz. destruct (bitsToDouble_spec h z Hz) as [H1 H2]. rewrite !doubleToBits_bits by done.
  split_and!; [done|by apply bitsToDouble_bits|done|exact H2].
Qed.

(** The bytes of 1.0 on the two hosts, and its bits. *)
Lemma doubleToBits_host_independent_witness :
  let one := Double false 1023 0 in
  object_of_double LittleEndianHost one = [x00; x00; x00; x00; x00; x00; xf0; x3f] /\
  object_of_double BigEndianHost one = [x3f; xf0; x00; x00; x00; x00; x00; x00] /\
  bitsToDouble LittleEndianHost (doubleToBits BigEndianHost one) = one /\
  doubleToBits BigEndianHost one = 0x3FF0000000000000.
Proof.
  cbv zeta. split; [vm_compute; reflexivity|]. split; [vm_compute; reflexivity|].
  destruct (doubleToBits_host_independent BigEndianHost LittleEndianHost (Double false 1023 0) 0) as (H1 & H2 & _).
  - split; cbn; lia.
  - split; lia.
  - split; [exact H2|]. rewrite H1. vm_compute. reflexivity.
Defined.
