(* ===== verification/CRC32.v ===== *)
(** * CRC32: the table-driven checksum of include/persistence/CRC32.hpp

    [calculate] is the byte-at-a-time loop over a 256-entry table.  The
    reference is the bit-serial register of IEEE 802.3 in reflected form; a
    closed form, in which the whole message is one integer, gives the error
    detection property the WAL relies on: any burst of at most 32 bits (a
    changed byte in particular) changes the checksum. *)

From S2P Require Import Prelude Endian.

Module CRC32.

(** ** The code *)

Definition POLY : Z := 0xEDB88320.

(** The body of the inner loop that builds the table. *)
Definition table_round (c : Z) : Z :=
  if Z.land c 1 =? 1 then Z.lxor POLY (Z.shiftr c 1) else Z.shiftr c 1.

(** One table entry: eight rounds. *)
Definition table_entry (i : Z) : Z := Nat.iter 8 table_round i.

(** The [constexpr] table, computed when the file is compiled, as in C++. *)
Definition table : list Z :=
  Eval vm_compute in map (fun i => table_entry (Z.of_nat i)) (seq 0 256).

Definition crc_byte (crc : Z) (p : byte) : Z :=
  Z.lxor (nth (Z.to_nat (Z.land (Z.lxor crc (Z_of_byte p)) 0xFF)) table 0)
         (Z.shiftr crc 8).

Definition calculate (data : bytes) : Z :=
  u32 (Z.lnot (fold_left crc_byte data 0xFFFFFFFF)).

(** ** Reference: the bit-serial shift register *)

(** Shift one message bit [m] into the register. *)
Definition serial_bit (crc : Z) (m : bool) : Z :=
  let out := xorb (Z.testbit crc 0) m in
  Z.lxor (Z.shiftr crc 1) (if out then POLY else 0).

(** The bits of a byte in transmission order, least significant first. *)
Definition bits_of_byte (b : byte) : list bool :=
  map (fun i => Z.testbit (Z_of_byte b) (Z.of_nat i)) (seq 0 8).

Definition crc32_reference (data : bytes) : Z :=
  Z.lxor 0xFFFFFFFF (fold_left serial_bit (data ≫= bits_of_byte) 0xFFFFFFFF).

(** ** The round is linear and, on 32 bits, injective *)

Lemma table_round_testbit c :
  table_round c = Z.lxor (if Z.testbit c 0 then POLY else 0) (Z.shiftr c 1).
Proof.
  unfold table_round. change 1 with (Z.ones 1) at 1. rewrite Z.land_ones by lia.
  change (2 ^ 1) with 2. rewrite <- Z.bit0_mod.
  destruct (Z.testbit c 0); simpl; [done|]. by rewrite Z.lxor_0_l.
Qed.

Lemma table_round_lxor x y :
  table_round (Z.lxor x y) = Z.lxor (table_round x) (table_round y).
Proof.
  rewrite !table_round_testbit, Z.lxor_spec, Z.shiftr_lxor.
  apply Z.bits_inj'; intros i Hi. rewrite !Z.lxor_spec.
  destruct (Z.testbit x 0), (Z.testbit y 0); simpl xorb; rewrite ?Z.testbit_0_l;
    destruct (Z.testbit POLY i), (Z.testbit (Z.shiftr x 1) i), (Z.testbit (Z.shiftr y 1) i);
    reflexivity.
Qed.

Lemma iter_round_lxor n x y :
  Nat.iter n table_round (Z.lxor x y) =
  Z.lxor (Nat.iter n table_round x) (Nat.iter n table_round y).
Proof. induction n as [|n IH]; simpl; [done|]. by rewrite IH, table_round_lxor. Qed.

(** Rounds on a value whose low bits are zero only shift. *)
Lemma iter_round_shiftl n v :
  Nat.iter n table_round (Z.shiftl v (Z.of_nat n)) = v.
Proof.
  revert v. induction n as [|n IH]; intros v; [apply Z.shiftl_0_r|].
  rewrite <- Nat.add_1_r, Nat.iter_add. cbn [Nat.iter nat_rect].
  rewrite table_round_testbit, Z.shiftl_spec, Z.testbit_neg_r by lia.
  rewrite Z.lxor_0_l, Z.shiftr_shiftl_l by lia.
  replace (Z.of_nat (n + 1) - 1) with (Z.of_nat n) by lia. apply IH.
Qed.

Lemma table_round_range c : is_u32 c -> is_u32 (table_round c).
Proof.
  unfold is_u32. intros Hc. rewrite table_round_testbit.
  assert (Hs : 0 <= Z.shiftr c 1 < 2 ^ 31).
  { rewrite Z.shiftr_div_pow2 by lia. change (2 ^ 1) with 2.
    split; [apply Z.div_pos; lia|apply Z.div_lt_upper_bound; lia]. }
  destruct (Z.testbit c 0); [|rewrite Z.lxor_0_l; lia].
  split; [apply Z.lxor_nonneg; unfold POLY; lia|].
  destruct (decide (Z.lxor POLY (Z.shiftr c 1) = 0)) as [->|]; [lia|].
  assert (0 <= Z.lxor POLY (Z.shiftr c 1)) by (apply Z.lxor_nonneg; unfold POLY; lia).
  apply Z.log2_lt_pow2; [lia|]. eapply Z.le_lt_trans; [apply Z.log2_lxor; unfold POLY; lia|].
  apply Z.max_lub_lt; [done|].
  eapply Z.le_lt_trans; [apply Z.log2_le_mono with (b := 2 ^ 31 - 1); lia|done].
Qed.

Lemma table_round_zero c : is_u32 c -> table_round c = 0 -> c = 0.
Proof.
  unfold is_u32. rewrite table_round_testbit. intros Hc H.
  assert (Hs : Z.shiftr c 1 = c / 2) by (rewrite Z.shiftr_div_pow2 by lia; done).
  pose proof (Z.div_mod c 2 ltac:(lia)) as Hdm. rewrite <- Z.bit0_mod in Hdm.
  destruct (Z.testbit c 0); cbn [Z.b2z] in Hdm.
  - exfalso. apply Z.lxor_eq in H. unfold POLY in H. lia.
  - rewrite Z.lxor_0_l in H. lia.
Qed.

Lemma iter_round_range n c : is_u32 c -> is_u32 (Nat.iter n table_round c).
Proof. intros Hc. induction n; simpl; [done|by apply table_round_range]. Qed.

Lemma iter_round_zero n c : is_u32 c -> Nat.iter n table_round c = 0 -> c = 0.
Proof.
  intros Hc. induction n as [|n IH]; simpl; [done|]. intros H.
  apply IH, table_round_zero; [by apply iter_round_range|done].
Qed.

(** ** The table step is eight rounds *)

Lemma lxor_low_high n x :
  0 <= n -> x = Z.lxor (Z.land x (Z.ones n)) (Z.shiftl (Z.shiftr x n) n).
Proof.
  intros Hn. apply Z.bits_inj'; intros i Hi.
  rewrite Z.lxor_spec, Z.land_spec, testbit_ones_mask, Z.shiftl_spec by lia.
  destruct (Z.ltb_spec i n).
  - rewrite (Z.testbit_neg_r _ (i - n)) by lia. by rewrite andb_true_r, xorb_false_r.
  - rewrite Z.shiftr_spec, andb_false_r, xorb_false_l by lia. f_equal. lia.
Qed.

Lemma table_lookup i : 0 <= i < 256 -> nth (Z.to_nat i) table 0 = table_entry i.
Proof.
  intros Hi. change table with (map (fun i => table_entry (Z.of_nat i)) (seq 0 256)).
  rewrite (nth_indep _ 0 (table_entry (Z.of_nat 0))) by (rewrite length_map, length_seq; lia).
  rewrite (map_nth (fun i => table_entry (Z.of_nat i))), seq_nth by lia.
  f_equal. lia.
Qed.

Lemma crc_byte_rounds crc b :
  crc_byte crc b = Nat.iter 8 table_round (Z.lxor crc (Z_of_byte b)).
Proof.
  set (x := Z.lxor crc (Z_of_byte b)).
  rewrite (lxor_low_high 8 x), iter_round_lxor by lia.
  rewrite (iter_round_shiftl 8).
  unfold crc_byte. fold x. change (Z.ones 8) with 0xFF. rewrite table_lookup; last first.
  { change 0xFF with (Z.ones 8). rewrite Z.land_ones by lia. by apply Z.mod_pos_bound. }
  unfold table_entry. f_equal. unfold x. rewrite Z.shiftr_lxor.
  replace (Z.shiftr (Z_of_byte b) 8) with 0; [by rewrite Z.lxor_0_r|].
  rewrite Z.shiftr_div_pow2, Z.div_small by (try apply Z_of_byte_range; lia). done.
Qed.

(** ** The bit-serial register *)

(** After [n] serial bits the register still lacks the unread bits of the byte. *)
Lemma serial_bits_rounds n crc b :
  Z.lxor (fold_left serial_bit (map (fun i => Z.testbit (Z_of_byte b) (Z.of_nat i)) (seq 0 n)) crc)
         (Z.shiftr (Z_of_byte b) (Z.of_nat n)) =
  Nat.iter n table_round (Z.lxor crc (Z_of_byte b)).
Proof.
  induction n as [|n IH]; [by rewrite Z.shiftr_0_r|].
  rewrite seq_S, map_app, fold_left_app. rewrite Nat.iter_succ. cbn [map fold_left plus].
  rewrite <- IH, table_round_testbit, Z.lxor_spec, Z.shiftr_spec, Z.shiftr_lxor by lia.
  rewrite Z.shiftr_shiftr, Z.add_0_l by lia. unfold serial_bit.
  replace (Z.of_nat n + 1) with (Z.of_nat (S n)) by lia.
  rewrite Z.lxor_assoc, (Z.lxor_comm (Z.shiftr _ 1)), !Z.lxor_assoc.
  f_equal. by rewrite Z.lxor_comm.
Qed.

Lemma serial_byte crc b : fold_left serial_bit (bits_of_byte b) crc = crc_byte crc b.
Proof.
  rewrite crc_byte_rounds, <- serial_bits_rounds.
  rewrite (Z.shiftr_div_pow2 _ (Z.of_nat 8)), Z.div_small by (try apply Z_of_byte_range; lia).
  by rewrite Z.lxor_0_r.
Qed.

Lemma serial_bytes data crc :
  fold_left serial_bit (data ≫= bits_of_byte) crc = fold_left crc_byte data crc.
Proof.
  revert crc. induction data as [|b data IH]; intros crc; [done|].
  cbn [mbind list_bind fold_left]. rewrite fold_left_app, serial_byte. apply IH.
Qed.

(** ** The whole message as one integer *)

Lemma iter_round_le_value data crc :
  fold_left crc_byte data crc =
  Nat.iter (8 * length data) table_round (Z.lxor crc (le_value data)).
Proof.
  revert crc. induction data as [|b data IH]; intros crc.
  { cbn. by rewrite Z.lxor_0_r. }
  cbn [fold_left]. rewrite IH, crc_byte_rounds.
  replace (8 * length (b :: data))%nat with (8 * length data + 8)%nat by (cbn; lia).
  rewrite Nat.iter_add. f_equal.
  rewrite <- (iter_round_shiftl 8 (le_value data)) at 1. rewrite <- iter_round_lxor.
  f_equal. rewrite Z.lxor_assoc. f_equal. cbn [le_value].
  rewrite <- (lor_shiftl_add _ _ 8) by (try apply Z_of_byte_range; lia).
  apply Z.lxor_lor, Z.bits_inj'. intros i Hi. rewrite Z.land_spec, Z.testbit_0_l.
  destruct (Z.ltb_spec i 8).
  - by rewrite (Z.shiftl_spec_low _ 8 i), andb_false_r by lia.
  - by rewrite testbit_Z_of_byte_high by lia.
Qed.

Lemma fold_crc_range data crc : is_u32 crc -> is_u32 (fold_left crc_byte data crc).
Proof.
  revert crc. induction data as [|b data IH]; intros crc Hc; [done|]. cbn [fold_left].
  apply IH. rewrite crc_byte_rounds. apply iter_round_range.
  unfold is_u32 in *. pose proof (Z_of_byte_range b) as Hb. split.
  - apply Z.lxor_nonneg. lia.
  - destruct (decide (Z.lxor crc (Z_of_byte b) = 0)) as [->|Hne]; [lia|].
    apply Z.log2_lt_pow2; [|eapply Z.le_lt_trans; [apply Z.log2_lxor; lia|]].
    + assert (0 <= Z.lxor crc (Z_of_byte b)) by (apply Z.lxor_nonneg; lia). lia.
    + apply Z.max_lub_lt; (eapply Z.le_lt_trans; [apply Z.log2_le_mono with (b := 2 ^ 32 - 1); lia|done]).
Qed.

(** The final complement, on 32 bits, is an exclusive or and so is injective. *)
Lemma u32_lnot z : is_u32 z -> u32 (Z.lnot z) = Z.lxor 0xFFFFFFFF z.
Proof.
  intros Hz. unfold u32. change 0xFFFFFFFF with (Z.ones 32).
  apply Z.bits_inj'. intros i Hi.
  rewrite Z.land_spec, Z.lxor_spec, Z.lnot_spec, testbit_ones_mask by lia.
  destruct (Z.ltb_spec i 32); [by rewrite andb_true_r|].
  rewrite andb_false_r, (testbit_high z 32) by (done || lia). done.
Qed.

Lemma calculate_lxor data : calculate data = Z.lxor 0xFFFFFFFF (fold_left crc_byte data 0xFFFFFFFF).
Proof. apply u32_lnot, fold_crc_range. unfold is_u32. lia. Qed.

Lemma calculate_range data : is_u32 (calculate data).
Proof. apply u32_range. Qed.

(** Two messages of one length: the checksums differ by the rounds of the
    difference. *)
Lemma calculate_difference d1 d2 :
  length d1 = length d2 ->
  Z.lxor (calculate d1) (calculate d2) =
  Nat.iter (8 * length d1) table_round (Z.lxor (le_value d1) (le_value d2)).
Proof.
  intros Hlen. rewrite !calculate_lxor, !iter_round_le_value, !iter_round_lxor, <- Hlen.
  apply Z.bits_inj'. intros i Hi. rewrite !Z.lxor_spec.
  repeat match goal with |- context [Z.testbit ?x i] => destruct (Z.testbit x i) end; reflexivity.
Qed.

(** A burst error of at most 32 bits survives the remaining rounds. *)
Lemma burst_changes_checksum d1 d2 e k :
  length d1 = length d2 ->
  Z.lxor (le_value d1) (le_value d2) = Z.shiftl e (Z.of_nat k) ->
  0 < e < 2 ^ 32 -> (k <= 8 * length d1)%nat ->
  calculate d1 <> calculate d2.
Proof.
  intros Hlen Hd He Hk Heq.
  assert (Hz : Z.lxor (calculate d1) (calculate d2) = 0) by (rewrite Heq; apply Z.lxor_nilpotent).
  rewrite calculate_difference, Hd in Hz by done.
  replace (8 * length d1)%nat with ((8 * length d1 - k) + k)%nat in Hz by lia.
  rewrite Nat.iter_add, iter_round_shiftl in Hz.
  apply iter_round_zero in Hz; [lia|unfold is_u32; lia].
Qed.

(** ** Properties *)

(** C31: the table-driven loop computes the bit-serial CRC-32 register of
    IEEE 802.3 (reflected polynomial 0xEDB88320, initial value and final
    complement all ones), and the result is a [uint32_t]. *)
Theorem calculate_reference data :
  calculate data = crc32_reference data /\ is_u32 (calculate data).
Proof.
  split; [|apply calculate_range].
  rewrite calculate_lxor. unfold crc32_reference. by rewrite serial_bytes.
Qed.

(** The integers of two messages that differ in one byte. *)
Lemma le_value_one_byte p b1 b2 s :
  Z.lxor (le_value (p ++ b1 :: s)) (le_value (p ++ b2 :: s)) =
  Z.shiftl (Z.lxor (Z_of_byte b1) (Z_of_byte b2)) (Z.of_nat (8 * length p)).
Proof.
  assert (H : forall b, le_value (p ++ b :: s) =
    Z.lor (Z.lor (le_value p) (Z.shiftl (Z_of_byte b) (8 * zlen p)))
          (Z.shiftl (le_value s) (8 * zlen p + 8))).
  { intros b. pose proof (le_value_bound p) as Hp. pose proof (Z_of_byte_range b) as Hb.
    assert (Hpow : 256 ^ zlen p = 2 ^ (8 * zlen p)) by (rewrite Z.pow_mul_r by lia; done).
    rewrite Hpow in Hp. rewrite le_value_app, Hpow. cbn [le_value].
    rewrite !lor_shiftl_add; [|lia|done|lia|].
    - rewrite Z.pow_add_r by lia. change (2 ^ 8) with 256. ring.
    - rewrite lor_shiftl_add, Z.pow_add_r by (done || lia). nia. }
  rewrite !H, Nat2Z.inj_mul. change (Z.of_nat 8) with 8.
  apply Z.bits_inj'. intros i Hi. rewrite !Z.lxor_spec, !Z.lor_spec.
  rewrite !(Z.shiftl_spec _ (8 * _) i), !(Z.shiftl_spec _ (_ + _) i), Z.lxor_spec by lia.
  destruct (Z.ltb_spec i (8 * zlen p)).
  - rewrite !(Z.testbit_neg_r _ (i - 8 * zlen p)) by lia.
    rewrite !orb_false_r. apply xorb_nilpotent.
  - rewrite (testbit_high (le_value p) (8 * zlen p)), !orb_false_l;
      [|rewrite Z.pow_mul_r by lia; apply le_value_bound|done].
    destruct (Z.ltb_spec i (8 * zlen p + 8)).
    + rewrite !(Z.testbit_neg_r _ (i - (8 * zlen p + 8))) by lia. by rewrite !orb_false_r.
    + rewrite !(testbit_Z_of_byte_high _ (i - 8 * zlen p)) by lia. apply xorb_nilpotent.
Qed.

Lemma Z_of_byte_lxor_pos b1 b2 : b1 <> b2 -> 0 < Z.lxor (Z_of_byte b1) (Z_of_byte b2) < 2 ^ 32.
Proof.
  intros Hne. pose proof (Z_of_byte_range b1). pose proof (Z_of_byte_range b2).
  assert (0 <= Z.lxor (Z_of_byte b1) (Z_of_byte b2)) by (apply Z.lxor_nonneg; lia).
  assert (Z.lxor (Z_of_byte b1) (Z_of_byte b2) <> 0).
  { intros E%Z.lxor_eq%Z_of_byte_inj. done. }
  split; [lia|]. apply Z.log2_lt_pow2; [lia|].
  eapply Z.le_lt_trans; [apply Z.log2_lxor; lia|].
  apply Z.max_lub_lt; (eapply Z.le_lt_trans; [apply Z.log2_le_mono with (b := 2 ^ 8 - 1); lia|done]).
Qed.

(** Changing one byte of a message changes its checksum. *)
Lemma calculate_one_byte p b1 b2 s :
  b1 <> b2 -> calculate (p ++ b1 :: s) <> calculate (p ++ b2 :: s).
Proof.
  intros Hne. eapply burst_changes_checksum with (k := (8 * length p)%nat).
  - by rewrite !length_app.
  - apply le_value_one_byte.
  - by apply Z_of_byte_lxor_pos.
  - rewrite length_app. lia.
Qed.

(** C32: two messages of one length whose difference is a burst of at most 32
    bits, anywhere in the message, never have the same checksum. *)
Theorem calculate_detects_burst d1 d2 e k :
  length d1 = length d2 ->
  Z.lxor (le_value d1) (le_value d2) = Z.shiftl e (Z.of_nat k) ->
  0 < e < 2 ^ 32 -> (k <= 8 * length d1)%nat ->
  calculate d1 <> calculate d2.
Proof. apply burst_changes_checksum. Qed.

Lemma calculate_detects_burst_witness :
  Z.lxor (le_value [x31; x32; x33]) (le_value [x31; xff; x01]) = Z.shiftl 0x32cd 8 /\
  calculate [x31; x32; x33] <> calculate [x31; xff; x01].
Proof.
  split; [reflexivity|].
  apply (calculate_detects_burst _ _ 0x32cd 8); [reflexivity|reflexivity|lia|simpl; lia].
Defined.

(** The check value of CRC-32: the checksum of the ASCII string 123456789. *)
Example calculate_check_value :
  calculate [x31; x32; x33; x34; x35; x36; x37; x38; x39] = 0xCBF43926.
Proof. vm_compute. reflexivity. Qed.

End CRC32.
