(* ===== verification/SHA256.v ===== *)
(** * SHA256: the hash of include/persistence/SHA256.hpp

    The class keeps eight 32-bit words, a 64-byte buffer, the fill level of the
    buffer and the number of message bits already compressed.  [update] feeds
    bytes one at a time and [digest] pads and extracts.  The reference is the
    one-shot function of FIPS 180-4: pad the message, cut it into 64-byte
    blocks, compress them in order. *)

From S2P Require Import Prelude Endian.

(** ** The code *)

Definition Sha256Digest : Set := bytes.

(** [Sha256Digest{}]: thirty-two zero bytes. *)
Definition zero_digest : Sha256Digest := repeat x00 32.

Module SHA256.

Record ctx := Ctx {
  m_state : list Z;
  m_buffer : bytes;
  m_bufLen : nat;
  m_bitLen : Z
}.

Definition initial_state : list Z :=
  [0x6a09e667; 0xbb67ae85; 0x3c6ef372; 0xa54ff53a;
   0x510e527f; 0x9b05688c; 0x1f83d9ab; 0x5be0cd19].

(** The constructor: [reset()] on a zeroed buffer. *)
Definition init : ctx := Ctx initial_state (repeat x00 64) 0 0.

Definition rotr (x n : Z) : Z := u32 (Z.lor (Z.shiftr x n) (Z.shiftl x (32 - n))).

(** The round constants. *)
Definition K : list Z :=
  0x428a2f98 :: 0x71374491 :: 0xb5c0fbcf :: 0xe9b5dba5 :: 0x3956c25b :: 0x59f111f1 :: 0x923f82a4 :: 0xab1c5ed5 ::
  0xd807aa98 :: 0x12835b01 :: 0x243185be :: 0x550c7dc3 :: 0x72be5d74 :: 0x80deb1fe :: 0x9bdc06a7 :: 0xc19bf174 ::
  0xe49b69c1 :: 0xefbe4786 :: 0x0fc19dc6 :: 0x240ca1cc :: 0x2de92c6f :: 0x4a7484aa :: 0x5cb0a9dc :: 0x76f988da ::
  0x983e5152 :: 0xa831c66d :: 0xb00327c8 :: 0xbf597fc7 :: 0xc6e00bf3 :: 0xd5a79147 :: 0x06ca6351 :: 0x14292967 ::
  0x27b70a85 :: 0x2e1b2138 :: 0x4d2c6dfc :: 0x53380d13 :: 0x650a7354 :: 0x766a0abb :: 0x81c2c92e :: 0x92722c85 ::
  0xa2bfe8a1 :: 0xa81a664b :: 0xc24b8b70 :: 0xc76c51a3 :: 0xd192e819 :: 0xd6990624 :: 0xf40e3585 :: 0x106aa070 ::
  0x19a4c116 :: 0x1e376c08 :: 0x2748774c :: 0x34b0bcb5 :: 0x391c0cb3 :: 0x4ed8aa4a :: 0x5b9cca4f :: 0x682e6ff3 ::
  0x748f82ee :: 0x78a5636f :: 0x84c87814 :: 0x8cc70208 :: 0x90befffa :: 0xa4506ceb :: 0xbef9a3f7 :: 0xc67178f2 ::
  [].

(** [w[i]] for [i < 16]: a big-endian word of the block. *)
Definition block_word (p : bytes) (i : nat) : Z :=
  Z.lor (Z.lor (Z.lor (Z.shiftl (ptr_at p (i * 4 + 0)) 24) (Z.shiftl (ptr_at p (i * 4 + 1)) 16))
               (Z.shiftl (ptr_at p (i * 4 + 2)) 8))
        (ptr_at p (i * 4 + 3)).

(** [w[i]] for [16 <= i]: the array [w] is filled in order, so it is a list
    that grows; [uint32_t] sums wrap, which the last step of a sum does. *)
Definition schedule_step (w : list Z) (i : nat) : list Z :=
  let w15 := nth (i - 15) w 0 in
  let w2 := nth (i - 2) w 0 in
  let s0 := Z.lxor (Z.lxor (rotr w15 7) (rotr w15 18)) (Z.shiftr w15 3) in
  let s1 := Z.lxor (Z.lxor (rotr w2 17) (rotr w2 19)) (Z.shiftr w2 10) in
  w ++ [u32 (nth (i - 16) w 0 + s0 + nth (i - 7) w 0 + s1)].

Definition schedule (p : bytes) : list Z :=
  fold_left schedule_step (seq 16 48) (map (block_word p) (seq 0 16)).

(** The working variables [a .. h]. *)
Record vars := Vars { va : Z; vb : Z; vc : Z; vd : Z; ve : Z; vf : Z; vg : Z; vh : Z }.

Definition round (w : list Z) (v : vars) (i : nat) : vars :=
  let 'Vars a b c d e f g h := v in
  let S1 := Z.lxor (Z.lxor (rotr e 6) (rotr e 11)) (rotr e 25) in
  let ch := Z.lxor (Z.land e f) (Z.land (Z.lnot e) g) in
  let t1 := u32 (h + S1 + ch + nth i K 0 + nth i w 0) in
  let S0 := Z.lxor (Z.lxor (rotr a 2) (rotr a 13)) (rotr a 22) in
  let maj := Z.lxor (Z.lxor (Z.land a b) (Z.land a c)) (Z.land b c) in
  let t2 := u32 (S0 + maj) in
  Vars (u32 (t1 + t2)) a b c (u32 (d + t1)) e f g.

Definition transform (state : list Z) (p : bytes) : list Z :=
  let w := schedule p in
  let s i := nth i state 0 in
  let 'Vars a b c d e f g h :=
    fold_left (round w) (seq 0 64)
      (Vars (s 0%nat) (s 1%nat) (s 2%nat) (s 3%nat) (s 4%nat) (s 5%nat) (s 6%nat) (s 7%nat)) in
  [u32 (s 0%nat + a); u32 (s 1%nat + b); u32 (s 2%nat + c); u32 (s 3%nat + d);
   u32 (s 4%nat + e); u32 (s 5%nat + f); u32 (s 6%nat + g); u32 (s 7%nat + h)].

(** The body of the loop of [update]. *)
Definition update_byte (c : ctx) (b : byte) : ctx :=
  let buf := <[m_bufLen c := b]> (m_buffer c) in
  let n := S (m_bufLen c) in
  if (n =? 64)%nat
  then Ctx (transform (m_state c) buf) buf 0 (u64 (m_bitLen c + 512))
  else Ctx (m_state c) buf n (m_bitLen c).

Definition update (c : ctx) (data : bytes) : ctx := fold_left update_byte data c.

(** [while (m_bufLen < stop) m_buffer[m_bufLen++] = 0], which runs
    [stop - m_bufLen] times. *)
Fixpoint zero_fill (k : nat) (buf : bytes) (pos : nat) : bytes :=
  match k with
  | O => buf
  | S k => zero_fill k (<[pos := x00]> buf) (S pos)
  end.

(** The loop [for (int i = 7; i >= 0; --i)]: the bit count, most significant
    byte first. *)
Definition put_bits (buf : bytes) (pos : nat) (totalBits : Z) : bytes :=
  fold_left (fun buf i => <[(pos + (7 - i))%nat := byte_of_Z (Z.shiftr totalBits (Z.of_nat i * 8))]> buf)
    (rev (seq 0 8)) buf.

Definition word_bytes (s : Z) : bytes :=
  [byte_of_Z (Z.shiftr s 24); byte_of_Z (Z.shiftr s 16); byte_of_Z (Z.shiftr s 8); byte_of_Z s].

Definition digest (c : ctx) : Sha256Digest :=
  let totalBits := u64 (m_bitLen c + Z.of_nat (m_bufLen c) * 8) in
  let buf := <[m_bufLen c := x80]> (m_buffer c) in
  let n := S (m_bufLen c) in
  let '(state, buf, n) :=
    if (56 <? n)%nat
    then let buf := zero_fill (64 - n) buf n in (transform (m_state c) buf, buf, 0%nat)
    else (m_state c, buf, n) in
  let buf := zero_fill (56 - n) buf n in
  let buf := put_bits buf 56 totalBits in
  let state := transform state buf in
  concat (map (fun i => word_bytes (nth i state 0)) (seq 0 8)).

Definition hash (data : bytes) : Sha256Digest := digest (update init data).

End SHA256.

(** ** Reference: FIPS 180-4 *)

Module FIPS.

(** Big-endian representation on [n] bytes. *)
Definition be_bytes (n : nat) (z : Z) : bytes := rev (le_bytes n z).

(** Section 5.1.1: a one bit, the least number of zero bits that leaves eight
    bytes to a block boundary, the length in bits. *)
Definition zeros (len : nat) : nat := ((119 - len mod 64) mod 64)%nat.

Definition pad (msg : bytes) : bytes :=
  msg ++ [x80] ++ repeat x00 (zeros (length msg)) ++ be_bytes 8 (8 * zlen msg).

(** Section 6.2.2: the blocks are compressed in order. *)
Fixpoint compress_blocks (n : nat) (state : list Z) (m : bytes) : list Z :=
  match n with
  | O => state
  | S n => compress_blocks n (SHA256.transform state (take 64 m)) (drop 64 m)
  end.

Definition sha256 (msg : bytes) : bytes :=
  let m := pad msg in
  concat (map SHA256.word_bytes (compress_blocks (length m / 64) SHA256.initial_state m)).

End FIPS.

(** ** The context after a message *)

Lemma transform_word_bytes st p :
  concat (map (fun i => SHA256.word_bytes (nth i (SHA256.transform st p) 0)) (seq 0 8)) =
  concat (map SHA256.word_bytes (SHA256.transform st p)).
Proof. unfold SHA256.transform. by destruct (fold_left _ _ _). Qed.

Lemma length_transform st p : length (SHA256.transform st p) = 8%nat.
Proof. unfold SHA256.transform. by destruct (fold_left _ _ _). Qed.
#[local] Opaque SHA256.transform.

Lemma take_S_insert {A} (l : list A) (i : nat) (x : A) :
  (i < length l)%nat -> take (S i) (<[i := x]> l) = take i l ++ [x].
Proof.
  intros Hi. rewrite (take_S_r _ _ x) by (by apply list_lookup_insert_eq).
  by rewrite take_insert_ge by lia.
Qed.

Section compress.
Implicit Types m : bytes.

Lemma compress_blocks_app n st m m' :
  (64 * n <= length m)%nat ->
  FIPS.compress_blocks n st (m ++ m') = FIPS.compress_blocks n st m.
Proof.
  revert st m. induction n as [|n IH]; intros st m Hm; [done|]. cbn [FIPS.compress_blocks].
  rewrite take_app_le, drop_app_le by lia. apply IH. rewrite length_drop. lia.
Qed.

Lemma compress_blocks_S n st m :
  FIPS.compress_blocks (S n) st m =
  SHA256.transform (FIPS.compress_blocks n st m) (take 64 (drop (64 * n) m)).
Proof.
  revert st m. induction n as [|n IH]; intros st m; [done|].
  cbn [FIPS.compress_blocks] in IH |- *. rewrite IH, drop_drop.
  do 3 f_equal. lia.
Qed.
End compress.

(** [c] is the context after the bytes [m]: the full blocks are compressed and
    the rest of the message waits in the buffer. *)
Record ctx_after (c : SHA256.ctx) (m : bytes) (n : nat) : Prop := {
  ca_state : SHA256.m_state c = FIPS.compress_blocks n SHA256.initial_state m;
  ca_length : length m = (64 * n + SHA256.m_bufLen c)%nat;
  ca_bufLen : (SHA256.m_bufLen c < 64)%nat;
  ca_buffer : length (SHA256.m_buffer c) = 64%nat;
  ca_tail : take (SHA256.m_bufLen c) (SHA256.m_buffer c) = drop (64 * n) m;
  ca_bitLen : SHA256.m_bitLen c = u64 (512 * Z.of_nat n)
}.

#[local] Ltac ctx_cbn :=
  cbn [SHA256.m_state SHA256.m_buffer SHA256.m_bufLen SHA256.m_bitLen] in *.

Lemma ctx_after_init : ctx_after SHA256.init [] 0.
Proof. split; cbn; (done || lia). Qed.

Lemma u64_add_l a b : u64 (u64 a + b) = u64 (a + b).
Proof. rewrite !u64_mod. apply Z.add_mod_idemp_l. lia. Qed.

Lemma ctx_after_byte c m n b :
  ctx_after c m n -> exists n', ctx_after (SHA256.update_byte c b) (m ++ [b]) n'.
Proof.
  intros [Hst Hlen Hlt Hbuf Htl Hbl]. destruct c as [st buf l bl]; ctx_cbn.
  assert (Htl' : take (S l) (<[l:=b]> buf) = drop (64 * n) (m ++ [b])).
  { rewrite take_S_insert by lia. rewrite Htl, drop_app_le by lia. done. }
  unfold SHA256.update_byte; ctx_cbn.
  destruct (Nat.eqb_spec (S l) 64) as [E|E].
  - exists (S n). rewrite E, take_ge in Htl' by (rewrite length_insert; lia).
    split; ctx_cbn; rewrite ?length_app, ?length_insert; cbn [length]; try lia.
    + rewrite Hst, compress_blocks_S, <- Htl', compress_blocks_app by lia.
      by rewrite take_ge by (rewrite length_insert; lia).
    + rewrite drop_ge; [done|]. rewrite length_app; cbn. lia.
    + rewrite Hbl, u64_add_l. f_equal. lia.
  - exists n. split; ctx_cbn; rewrite ?length_app, ?length_insert; cbn [length]; try lia; try done.
    by rewrite compress_blocks_app by lia.
Qed.

Lemma ctx_after_update c m n data :
  ctx_after c m n -> exists n', ctx_after (SHA256.update c data) (m ++ data) n'.
Proof.
  revert c m n. induction data as [|b data IH]; intros c m n H.
  - exists n. by rewrite app_nil_r.
  - destruct (ctx_after_byte c m n b H) as [n1 H1].
    destruct (IH _ _ _ H1) as [n2 H2]. exists n2. by rewrite <- app_assoc in H2.
Qed.

(** ** Padding *)

Lemma zero_fill_spec k buf pos :
  (pos + k <= length buf)%nat ->
  SHA256.zero_fill k buf pos = take pos buf ++ repeat x00 k ++ drop (pos + k) buf.
Proof.
  revert buf pos. induction k as [|k IH]; intros buf pos Hk; cbn [SHA256.zero_fill repeat app].
  - by rewrite Nat.add_0_r, take_drop.
  - rewrite IH by (rewrite length_insert; lia).
    rewrite take_S_insert, <- app_assoc by lia. cbn [app].
    rewrite drop_insert_lt by lia. do 4 f_equal. lia.
Qed.

Lemma length_zero_fill k buf pos : length (SHA256.zero_fill k buf pos) = length buf.
Proof.
  revert buf pos. induction k as [|k IH]; intros buf pos; cbn; [done|].
  by rewrite IH, length_insert.
Qed.

Lemma put_bits_spec buf z :
  length buf = 64%nat -> SHA256.put_bits buf 56 z = take 56 buf ++ FIPS.be_bytes 8 z.
Proof.
  intros Hb. do 64 (destruct buf as [|? buf]; [done|]). destruct buf; [|done].
  unfold SHA256.put_bits, FIPS.be_bytes. cbn -[byte_of_Z Z.div Z.shiftr].
  rewrite !Z.shiftr_div_pow2, !Z.div_div, Z.div_1_r by lia. reflexivity.
Qed.

(** ** The digest is the padded hash *)

Lemma zeros_small n r : (r < 56)%nat -> FIPS.zeros (64 * n + r) = (55 - r)%nat.
Proof.
  intros Hr. unfold FIPS.zeros. mod_lia.
Qed.

Lemma zeros_large n r : (56 <= r < 64)%nat -> FIPS.zeros (64 * n + r) = (119 - r)%nat.
Proof.
  intros Hr. unfold FIPS.zeros. mod_lia.
Qed.

Lemma length_be_bytes n z : length (FIPS.be_bytes n z) = n.
Proof. unfold FIPS.be_bytes. by rewrite length_rev, length_le_bytes. Qed.

Lemma length_pad msg : length (FIPS.pad msg) = (length msg + 9 + FIPS.zeros (length msg))%nat.
Proof.
  unfold FIPS.pad. rewrite !length_app, repeat_length, length_be_bytes. cbn [length]. lia.
Qed.

(** The part of the padded message that [digest] still has to compress. *)
Lemma drop_pad n msg :
  (64 * n <= length msg)%nat ->
  drop (64 * n) (FIPS.pad msg) =
  (drop (64 * n) msg ++ [x80]) ++ repeat x00 (FIPS.zeros (length msg)) ++
  FIPS.be_bytes 8 (8 * zlen msg).
Proof. intros H. unfold FIPS.pad. by rewrite drop_app_le, <- app_assoc by lia. Qed.

Lemma sha256_blocks k msg :
  length (FIPS.pad msg) = (64 * k)%nat ->
  FIPS.sha256 msg =
  concat (map SHA256.word_bytes (FIPS.compress_blocks k SHA256.initial_state (FIPS.pad msg))).
Proof.
  intros H. unfold FIPS.sha256. cbv zeta. rewrite H, (Nat.mul_comm 64), Nat.div_mul by lia. done.
Qed.

Lemma compress_pad n msg :
  (64 * n <= length msg)%nat ->
  FIPS.compress_blocks n SHA256.initial_state (FIPS.pad msg) =
  FIPS.compress_blocks n SHA256.initial_state msg.
Proof. intros H. unfold FIPS.pad. by apply compress_blocks_app. Qed.

Lemma be_bytes_totalBits n r :
  FIPS.be_bytes 8 (u64 (u64 (512 * Z.of_nat n) + Z.of_nat r * 8)) =
  FIPS.be_bytes 8 (8 * Z.of_nat (64 * n + r)).
Proof.
  unfold FIPS.be_bytes. rewrite u64_add_l, le_bytes_u64. do 2 f_equal. lia.
Qed.

(** Room for the bit count in the current block. *)
Lemma digest_one_block c msg n :
  ctx_after c msg n -> (SHA256.m_bufLen c < 56)%nat -> SHA256.digest c = FIPS.sha256 msg.
Proof.
  intros [Hst Hlen Hlt Hbuf Htl Hbl] Hr. destruct c as [st buf r bl]; ctx_cbn.
  assert (Hz : FIPS.zeros (length msg) = (55 - r)%nat) by (rewrite Hlen; by apply zeros_small).
  assert (Hp : length (FIPS.pad msg) = (64 * S n)%nat) by (rewrite length_pad, Hz; lia).
  rewrite (sha256_blocks (S n)), compress_blocks_S, compress_pad, drop_pad by lia.
  unfold SHA256.digest; ctx_cbn. destruct (Nat.ltb_spec 56 (S r)); [lia|].
  rewrite transform_word_bytes. do 4 f_equal; [done|].
  rewrite put_bits_spec by (rewrite length_zero_fill, length_insert; lia).
  rewrite zero_fill_spec by (rewrite length_insert; lia).
  rewrite take_S_insert, Htl, Hz, Hbl, be_bytes_totalBits, Hlen by lia.
  rewrite app_assoc, take_app_le by
    (rewrite length_app, repeat_length, length_app, length_drop; cbn [length]; lia).
  rewrite (take_ge _ 56) by
    (rewrite length_app, repeat_length, length_app, length_drop; cbn [length]; lia).
  rewrite take_ge, <- app_assoc by
    (rewrite !length_app, repeat_length, length_drop, length_be_bytes; cbn [length]; lia).
  replace (56 - S r)%nat with (55 - r)%nat by lia. done.
Qed.

(** The bit count needs a block of its own. *)
Lemma digest_two_blocks c msg n :
  ctx_after c msg n -> (56 <= SHA256.m_bufLen c)%nat -> SHA256.digest c = FIPS.sha256 msg.
Proof.
  intros [Hst Hlen Hlt Hbuf Htl Hbl] Hr. destruct c as [st buf r bl]; ctx_cbn.
  assert (Hz : FIPS.zeros (length msg) = ((63 - r) + 56)%nat).
  { rewrite Hlen, zeros_large by lia. lia. }
  assert (Hp : length (FIPS.pad msg) = (64 * S (S n))%nat) by (rewrite length_pad, Hz; lia).
  rewrite (sha256_blocks (S (S n))), !compress_blocks_S, compress_pad by lia.
  set (B := drop (64 * n) msg ++ [x80]) in *.
  assert (HB : length B = S r) by (unfold B; rewrite length_app, length_drop; cbn [length]; lia).
  assert (Hd : drop (64 * n) (FIPS.pad msg) =
    (B ++ repeat x00 (63 - r)) ++ repeat x00 56 ++ FIPS.be_bytes 8 (8 * zlen msg)).
  { rewrite drop_pad, Hz, repeat_app by lia. fold B. by rewrite <- !app_assoc. }
  replace (64 * S n)%nat with (64 * n + 64)%nat by lia. rewrite <- drop_drop, Hd.
  rewrite take_app_length' by (rewrite length_app, repeat_length; lia).
  rewrite drop_app_length' by (rewrite length_app, repeat_length; lia).
  assert (E1 : SHA256.zero_fill (64 - S r) (<[r:=x80]> buf) (S r) = B ++ repeat x00 (63 - r)).
  { rewrite zero_fill_spec, take_S_insert, Htl by (rewrite ?length_insert; lia).
    fold B. rewrite drop_ge, app_nil_r by (rewrite length_insert; lia).
    do 2 f_equal. }
  assert (E2 : forall z, SHA256.put_bits (SHA256.zero_fill (56 - 0) (B ++ repeat x00 (63 - r)) 0) 56 z
    = repeat x00 56 ++ FIPS.be_bytes 8 z).
  { intros z. rewrite put_bits_spec by (rewrite length_zero_fill, length_app, repeat_length; lia).
    rewrite zero_fill_spec by (rewrite length_app, repeat_length; lia).
    rewrite take_0, app_nil_l. by rewrite take_app_length' by (rewrite repeat_length; lia). }
  unfold SHA256.digest; ctx_cbn. destruct (Nat.ltb_spec 56 (S r)); [|lia].
  rewrite transform_word_bytes, E1, E2, Hst, Hbl, be_bytes_totalBits, <- Hlen.
  rewrite (take_ge (repeat x00 56 ++ _)); [done|].
  rewrite length_app, repeat_length, length_be_bytes. lia.
Qed.

Lemma digest_after c msg n : ctx_after c msg n -> SHA256.digest c = FIPS.sha256 msg.
Proof.
  intros H. destruct (decide (SHA256.m_bufLen c < 56)%nat).
  - by apply (digest_one_block c msg n).
  - apply (digest_two_blocks c msg n); [done|lia].
Qed.

(** Any sequence of [update] calls hashes the concatenation of its arguments. *)
Lemma digest_updates parts :
  SHA256.digest (fold_left SHA256.update parts SHA256.init) = FIPS.sha256 (concat parts).
Proof.
  assert (H : forall c m n, ctx_after c m n ->
    exists n', ctx_after (fold_left SHA256.update parts c) (m ++ concat parts) n').
  { induction parts as [|d parts IH]; intros c m n Hc; cbn [fold_left concat].
    - exists n. by rewrite app_nil_r.
    - destruct (ctx_after_update c m n d Hc) as [n1 H1].
      destruct (IH _ _ _ H1) as [n2 H2]. exists n2. by rewrite <- app_assoc in H2. }
  destruct (H _ _ _ ctx_after_init) as [n Hn]. by apply digest_after with (n := n).
Qed.

Lemma length_concat_word_bytes ws : length (concat (map SHA256.word_bytes ws)) = (4 * length ws)%nat.
Proof. induction ws as [|w ws IH]; cbn [map concat length]; [done|]. rewrite length_app, IH. cbn. lia. Qed.

Lemma length_sha256 msg : length (FIPS.sha256 msg) = 32%nat.
Proof.
  unfold FIPS.sha256. cbv zeta. rewrite length_concat_word_bytes.
  assert (H : forall n st m, length st = 8%nat -> length (FIPS.compress_blocks n st m) = 8%nat).
  { induction n as [|n IH]; intros st m Hst; cbn [FIPS.compress_blocks]; [done|].
    apply IH, length_transform. }
  rewrite H; done.
Qed.

(** Hexadecimal literals for digests. *)
Definition hex_value (l : bytes) : Z := fold_left (fun v b => v * 256 + Z_of_byte b) l 0.

Example sha256_empty :
  hex_value (SHA256.hash []) = 0xe3b0c44298fc1c149afbf4c8996fb92427ae41e4649b934ca495991b7852b855.
Proof. vm_compute. reflexivity. Qed.

Example sha256_abc :
  hex_value (SHA256.hash [x61; x62; x63]) =
  0xba7816bf8f01cfea414140de5dae2223b00361a396177a9cb410ff61f20015ad.
Proof. vm_compute. reflexivity. Qed.

(** ** Properties *)

(** C30: whatever way a message is cut into [update] calls, [digest] returns the
    FIPS 180-4 hash of the whole message: pad to a multiple of 64 bytes with
    the bit length in the last eight, compress the blocks in order.  The digest
    has 32 bytes. *)
Theorem sha256_streaming parts :
  SHA256.digest (fold_left SHA256.update parts SHA256.init) = FIPS.sha256 (concat parts) /\
  length (SHA256.digest (fold_left SHA256.update parts SHA256.init)) = 32%nat.
Proof. rewrite digest_updates. split; [done|apply length_sha256]. Qed.
