(* ===== verification/Exec.v ===== *)
(** * Exec: effectful code as a state monad with exceptions and power cuts

    A C++ function that mutates a state [S] is a function from the state before
    the call to a result and the state after it.  The result is a value, a C++
    exception, or [Halt]: the machine lost power during the call.  The state
    after a [Throw] or a [Halt] is the one reached when it happened, so the
    effects that precede an exception are kept, as in the code. *)

From S2P Require Import Prelude.

(** [undefined_behaviour] is no exception of C++: it marks the point where the
    code has undefined behaviour and nothing more can be said. *)
Inductive exn :=
  | runtime_error (what : string)
  | length_error (what : string)
  | undefined_behaviour (what : string).

#[export] Instance exn_eq_dec : EqDecision exn.
Proof. solve_decision. Defined.

Inductive result (A : Type) :=
  | Ret (a : A)
  | Throw (e : exn)
  | Halt.
Arguments Ret {A} a.
Arguments Throw {A} e.
Arguments Halt {A}.

Definition M (S A : Type) : Type := S -> result A * S.

Definition ret {S A} (a : A) : M S A := fun s => (Ret a, s).
Definition throw {S A} (e : exn) : M S A := fun s => (Throw e, s).
Definition halt {S A} : M S A := fun s => (Halt, s).
Definition get {S} : M S S := fun s => (Ret s, s).
Definition modify {S} (f : S -> S) : M S unit := fun s => (Ret tt, f s).

Definition bind {S A B} (m : M S A) (f : A -> M S B) : M S B :=
  fun s =>
    match m s with
    | (Ret a, s') => f a s'
    | (Throw e, s') => (Throw e, s')
    | (Halt, s') => (Halt, s')
    end.

Declare Scope exec_scope.
Delimit Scope exec_scope with exec.
Notation "x <- m ;; k" := (bind m (fun x => k))
  (at level 100, m at next level, right associativity) : exec_scope.
Notation "'let*' p := m 'in' k" := (bind m (fun x => match x with p => k end))
  (at level 100, p pattern, m at level 99, right associativity) : exec_scope.
Notation "m ;;; k" := (bind m (fun _ => k))
  (at level 100, right associativity) : exec_scope.
#[global] Open Scope exec_scope.

(** Running code of a sub-object: [m] sees the part of the state that [sel]
    selects. *)
Definition zoom {S T A} (sel : S -> T) (upd : T -> S -> S) (m : M T A) : M S A :=
  fun s => let '(r, t) := m (sel s) in (r, upd t s).

(** ** Weakest preconditions *)

Definition wp {S A} (m : M S A) (s : S) (Q : result A -> S -> Prop) : Prop :=
  Q (fst (m s)) (snd (m s)).

Section wp.
Context {S : Type}.
Implicit Types s : S.

Lemma wp_run {A} (m : M S A) s Q r s' : m s = (r, s') -> wp m s Q -> Q r s'.
Proof. unfold wp. by intros ->. Qed.

Lemma wp_ret {A} (a : A) s Q : Q (Ret a) s -> wp (ret a) s Q.
Proof. done. Qed.

Lemma wp_throw {A} e s (Q : result A -> S -> Prop) : Q (Throw e) s -> wp (throw e) s Q.
Proof. done. Qed.

Lemma wp_get s Q : Q (Ret s) s -> wp get s Q.
Proof. done. Qed.

Lemma wp_modify f s Q : Q (Ret tt) (f s) -> wp (modify f) s Q.
Proof. done. Qed.

Lemma wp_bind {A B} (m : M S A) (f : A -> M S B) s Q :
  wp m s (fun r s' =>
    match r with
    | Ret a => wp (f a) s' Q
    | Throw e => Q (Throw e) s'
    | Halt => Q Halt s'
    end) ->
  wp (bind m f) s Q.
Proof. unfold wp, bind. by destruct (m s) as [[a|e|] s']. Qed.

Lemma wp_mono {A} (m : M S A) s (P Q : result A -> S -> Prop) :
  wp m s P -> (forall r s', P r s' -> Q r s') -> wp m s Q.
Proof. unfold wp. auto. Qed.

Lemma wp_zoom {T A} (sel : S -> T) upd (m : M T A) s Q :
  wp m (sel s) (fun r t => Q r (upd t s)) -> wp (zoom sel upd m) s Q.
Proof. unfold wp, zoom. by destruct (m (sel s)). Qed.
End wp.

(** ** The monad laws *)

Lemma bind_ret_l {S A B} (a : A) (f : A -> M S B) s : bind (ret a) f s = f a s.
Proof. done. Qed.

Lemma bind_assoc {S A B C} (m : M S A) (f : A -> M S B) (g : B -> M S C) s :
  bind (bind m f) g s = bind m (fun a => bind (f a) g) s.
Proof. unfold bind. by destruct (m s) as [[a|e|] s']. Qed.

Create HintDb exec.
#[export] Hint Resolve wp_ret wp_throw wp_get wp_modify : exec.

(** One step of symbolic execution of the code under a [wp]. *)
Ltac wp_step :=
  first
    [ apply wp_bind | apply wp_ret | apply wp_throw | apply wp_get | apply wp_modify ].
