(* ===== verification/Posix.v ===== *)
(** * Posix: the operating system the code runs on

    Files, the directory and file descriptors, with the system calls the source
    uses.  What the environment decides is explicit: the state holds a script,
    a list of outcomes, and every call takes the next one.  The script can make
    a call fail, be interrupted by a signal or transfer only part of the data.
    When the script is used up the machine has lost power: the call does not
    return, [Halt].  A theorem about all scripts therefore speaks of every
    combination of errors and of a power cut between any two system calls, and
    every loop around a system call ends, because each round uses up an outcome.

    Durability follows the documented behaviour of [fsync] on a file system that
    writes a file's updates back in order: a file has durable contents and a
    list of pending updates; [fsync] on the file makes the pending updates
    durable; [fsync] on a directory does the same for the names in it; a power
    cut keeps some prefix of the pending updates, and may tear the last write.
    The changes of names reach the disk in their order. *)

From Stdlib Require Import Strings.Ascii.
From stdpp Require Import gmap fin_maps.
From S2P Require Import Prelude Exec.

(** ** Files *)

Inductive fop :=
  | FWrite (off : nat) (data : bytes)
  | FTrunc (size : nat).

(** Contents of size [n]: cut, or extended with zero bytes. *)
Definition resize_bytes (n : nat) (c : bytes) : bytes :=
  take n c ++ repeat x00 (n - length c).

Definition apply_fop (c : bytes) (op : fop) : bytes :=
  match op with
  | FWrite off data => resize_bytes off c ++ data ++ drop (off + length data) c
  | FTrunc n => resize_bytes n c
  end.

Record file := File { f_durable : bytes; f_pending : list fop }.

(** What [read] and [fstat] see. *)
Definition f_data (f : file) : bytes := fold_left apply_fop (f_pending f) (f_durable f).

Definition f_update (op : fop) (f : file) : file := File (f_durable f) (f_pending f ++ [op]).
Definition f_sync (f : file) : file := File (f_data f) [].
Definition empty_file : file := File [] [].

(** The contents a power cut can leave. *)
Inductive crash_from : bytes -> list fop -> bytes -> Prop :=
  | crash_stop c ops : crash_from c ops c
  | crash_next c op ops c' : crash_from (apply_fop c op) ops c' -> crash_from c (op :: ops) c'
  | crash_torn c off data k ops :
      crash_from c (FWrite off data :: ops) (apply_fop c (FWrite off (take k data))).

Definition crash_content (f : file) (c : bytes) : Prop := crash_from (f_durable f) (f_pending f) c.

(** ** Paths *)

Definition is_slash (c : Ascii.ascii) : bool := Ascii.eqb c "/"%char.

(** A path cut at its slashes. *)
Fixpoint components (s : string) : list string :=
  match s with
  | EmptyString => [""%string]
  | String c s =>
      if is_slash c then ""%string :: components s else
      match components s with
      | x :: l => String c x :: l
      | [] => [String c ""]
      end
  end.

Definition absolute (s : string) : bool :=
  match s with
  | String c _ => is_slash c
  | EmptyString => false
  end.

(** A directory, by its path from the root or from the working directory; empty
    names and dots lead nowhere else. *)
Abbreviation directory := (bool * list string)%type.

Definition steps_of (l : list string) : list string :=
  List.filter (fun x => negb (String.eqb x "" || String.eqb x ".")) l.

(** The directory that a path names, and the one that holds the name at the end
    of a path. *)
Definition dir_named (s : string) : directory := (absolute s, steps_of (components s)).
Definition dir_of (path : string) : directory := (absolute path, steps_of (removelast (components path))).

(** ** The state of the system *)

Inductive outcome :=
  | Done            (** the call succeeds, in full *)
  | Short (k : nat) (** a transfer moves at most [k] bytes *)
  | Intr            (** -1 with errno EINTR *)
  | Err.            (** -1 with another errno *)

#[export] Instance outcome_eq_dec : EqDecision outcome.
Proof. solve_decision. Defined.

Inductive errno := EINTR | EIO | EBADF | ENOENT | EINVAL.

#[export] Instance errno_eq_dec : EqDecision errno.
Proof. solve_decision. Defined.

(** What a call returns: a count (or a descriptor, an offset), or -1 and errno. *)
Inductive rc := Rc (n : Z) | Fail (e : errno).

(** An open file description: a file and an offset, or a directory. *)
Inductive fdesc :=
  | FdFile (ino : nat) (off : nat) (app : bool)
  | FdDir (d : directory).

Record os := Os {
  os_inodes : gmap nat file;
  os_names : gmap string nat;
  os_names_log : list (gmap string nat); (** earlier states of the names that the disk may still have *)
  os_fds : gmap nat fdesc;
  os_script : list outcome
}.

Definition set_script (l : list outcome) (o : os) : os :=
  Os (os_inodes o) (os_names o) (os_names_log o) (os_fds o) l.
Definition set_inode (i : nat) (f : file) (o : os) : os :=
  Os (<[i := f]> (os_inodes o)) (os_names o) (os_names_log o) (os_fds o) (os_script o).
Definition set_fd (fd : nat) (d : fdesc) (o : os) : os :=
  Os (os_inodes o) (os_names o) (os_names_log o) (<[fd := d]> (os_fds o)) (os_script o).
Definition drop_fd (fd : nat) (o : os) : os :=
  Os (os_inodes o) (os_names o) (os_names_log o) (delete fd (os_fds o)) (os_script o).
Definition set_names (ns : gmap string nat) (o : os) : os :=
  Os (os_inodes o) ns (os_names_log o ++ [os_names o]) (os_fds o) (os_script o).

(** Names [old], with those in [d] as they are [now]. *)
Definition sync_dir (d : directory) (now old : gmap string nat) : gmap string nat :=
  filter (fun x => dir_of x.1 = d) now ∪ filter (fun x => dir_of x.1 <> d) old.

Definition sync_names (d : directory) (o : os) : os :=
  Os (os_inodes o) (os_names o) (sync_dir d (os_names o) <$> os_names_log o) (os_fds o) (os_script o).

(** The next outcome of the script, or a power cut. *)
Definition next : M os outcome := fun o =>
  match os_script o with
  | [] => (Halt, o)
  | x :: l => (Ret x, set_script l o)
  end.

(** A call that either fails or, on success, runs [body]. *)
Definition syscall {A} (fail : errno -> A) (body : M os A) : M os A :=
  x <- next ;;
  match x with
  | Intr => ret (fail EINTR)
  | Err => ret (fail EIO)
  | Done | Short _ => body
  end.

(** [fstat] and [lseek] are never interrupted: POSIX lists no EINTR for them. *)
Definition syscall_nointr {A} (fail : errno -> A) (body : M os A) : M os A :=
  x <- next ;;
  match x with
  | Err => ret (fail EIO)
  | Done | Short _ | Intr => body
  end.

Definition file_of (fd : nat) (o : os) : option (nat * nat * bool * file) :=
  match os_fds o !! fd with
  | Some (FdFile i off app) => f ← os_inodes o !! i; Some (i, off, app, f)
  | _ => None
  end.

Record oflags := OFlags { o_creat : bool; o_trunc : bool; o_append : bool }.

Definition fresh_fd (o : os) : nat := fresh (dom (os_fds o)).
Definition fresh_inode (o : os) : nat := fresh (dom (os_inodes o)).

Definition sys_open (path : string) (fl : oflags) : M os rc :=
  syscall Fail (
    o <- get ;;
    let fd := fresh_fd o in
    match os_names o !! path with
    | Some i =>
        match os_inodes o !! i with
        | Some f =>
            modify (fun o => set_fd fd (FdFile i 0 (o_append fl))
              (if o_trunc fl then set_inode i (f_update (FTrunc 0) f) o else o)) ;;;
            ret (Rc (Z.of_nat fd))
        | None => ret (Fail ENOENT)
        end
    | None =>
        if o_creat fl then
          let i := fresh_inode o in
          modify (fun o => set_fd fd (FdFile i 0 (o_append fl))
            (set_names (<[path := i]> (os_names o)) (set_inode i empty_file o))) ;;;
          ret (Rc (Z.of_nat fd))
        else ret (Fail ENOENT)
    end).

(** [open(dir, O_RDONLY)] on a directory; all directories exist. *)
Definition sys_open_dir (dir : string) : M os rc :=
  syscall Fail (
    o <- get ;;
    let fd := fresh_fd o in
    modify (set_fd fd (FdDir (dir_named dir))) ;;; ret (Rc (Z.of_nat fd))).

Definition sys_close (fd : nat) : M os rc :=
  x <- next ;;
  modify (drop_fd fd) ;;;
  match x with
  | Intr => ret (Fail EINTR)
  | Err => ret (Fail EIO)
  | Done | Short _ => ret (Rc 0)
  end.

(** How many of [n] bytes a transfer moves. *)
Definition transfer (x : outcome) (n : nat) : nat :=
  match x with
  | Short k => k `min` n
  | _ => n
  end.

Definition sys_write (fd : nat) (data : bytes) : M os rc :=
  x <- next ;;
  match x with
  | Intr => ret (Fail EINTR)
  | Err => ret (Fail EIO)
  | _ =>
      o <- get ;;
      match file_of fd o with
      | None => ret (Fail EBADF)
      | Some (i, off, app, f) =>
          let n := transfer x (length data) in
          let at_ := if app then length (f_data f) else off in
          modify (fun o => set_fd fd (FdFile i (at_ + n) app)
            (set_inode i (f_update (FWrite at_ (take n data)) f) o)) ;;;
          ret (Rc (Z.of_nat n))
      end
  end.

(** [read] also returns the bytes it put into the buffer. *)
Definition sys_read (fd : nat) (size : nat) : M os (rc * bytes) :=
  x <- next ;;
  match x with
  | Intr => ret (Fail EINTR, [])
  | Err => ret (Fail EIO, [])
  | _ =>
      o <- get ;;
      match file_of fd o with
      | None => ret (Fail EBADF, [])
      | Some (i, off, app, f) =>
          let data := take (transfer x size) (drop off (f_data f)) in
          modify (set_fd fd (FdFile i (off + length data) app)) ;;;
          ret (Rc (zlen data), data)
      end
  end.

Definition sys_fsync (fd : nat) : M os rc :=
  syscall Fail (
    o <- get ;;
    match os_fds o !! fd with
    | Some (FdFile i _ _) =>
        match os_inodes o !! i with
        | Some f => modify (set_inode i (f_sync f)) ;;; ret (Rc 0)
        | None => ret (Fail EBADF)
        end
    | Some (FdDir d) => modify (sync_names d) ;;; ret (Rc 0)
    | None => ret (Fail EBADF)
    end).

Definition sys_ftruncate (fd : nat) (size : Z) : M os rc :=
  syscall Fail (
    o <- get ;;
    if size <? 0 then ret (Fail EINVAL) else
    match file_of fd o with
    | None => ret (Fail EBADF)
    | Some (i, _, _, f) =>
        modify (set_inode i (f_update (FTrunc (Z.to_nat size)) f)) ;;; ret (Rc 0)
    end).

(** [st_size] of [fstat]. *)
Definition sys_fstat (fd : nat) : M os rc :=
  syscall_nointr Fail (
    o <- get ;;
    match file_of fd o with
    | None => ret (Fail EBADF)
    | Some (_, _, _, f) => ret (Rc (zlen (f_data f)))
    end).

Inductive whence := SEEK_SET | SEEK_CUR | SEEK_END.

Definition sys_lseek (fd : nat) (offset : Z) (w : whence) : M os rc :=
  syscall_nointr Fail (
    o <- get ;;
    match file_of fd o with
    | None => ret (Fail EBADF)
    | Some (i, off, app, f) =>
        let target := offset + match w with
                               | SEEK_SET => 0
                               | SEEK_CUR => Z.of_nat off
                               | SEEK_END => zlen (f_data f)
                               end in
        if target <? 0 then ret (Fail EINVAL) else
        modify (set_fd fd (FdFile i (Z.to_nat target) app)) ;;; ret (Rc target)
    end).

(** [std::filesystem::rename]: the new name refers to the file from one state of
    the names to the next. *)
Definition sys_rename (from to : string) : M os rc :=
  syscall Fail (
    o <- get ;;
    match os_names o !! from with
    | None => ret (Fail ENOENT)
    | Some i => modify (set_names (<[to := i]> (delete from (os_names o)))) ;;; ret (Rc 0)
    end).

(** [unlink] and [std::remove]: a file that is open stays until it is closed. *)
Definition sys_unlink (path : string) : M os rc :=
  syscall Fail (
    o <- get ;;
    match os_names o !! path with
    | None => ret (Fail ENOENT)
    | Some _ => modify (set_names (delete path (os_names o))) ;;; ret (Rc 0)
    end).

(** ** Power cuts *)

(** The files on disk after power comes back. *)
Definition disk : Type := gmap string bytes.

Definition crash_disk (o : os) (d : disk) : Prop :=
  exists ns, ns ∈ os_names_log o ++ [os_names o] /\
    forall path,
      match ns !! path with
      | Some i => exists f c, os_inodes o !! i = Some f /\ crash_content f c /\ d !! path = Some c
      | None => d !! path = None
      end.
