(* ===== verification/PosixFacts.v ===== *)
(** * PosixFacts: system calls on an open file

    [touch o fd i off f sc] is the system [o] with the descriptor [fd] open for
    appending on the file [f] with number [i] at offset [off], and the script
    [sc]; [touch_gen false] is the same without [O_APPEND].  Each call on [fd] is an equation on this form, so the symbolic
    execution of the WAL is rewriting. *)

From stdpp Require Import gmap.
From S2P Require Import Prelude Exec Posix.

Definition touch_gen (app : bool) (o : os) (fd i off : nat) (f : file) (sc : list outcome) : os :=
  set_script sc (set_fd fd (FdFile i off app) (set_inode i f o)).

#[global] Abbreviation touch := (touch_gen true).

Section touch.
Context (app : bool).
Implicit Types (o : os) (fd i off : nat) (f : file) (sc : list outcome).

Lemma touch_touch o fd i off f sc off' f' sc' :
  touch_gen app (touch_gen app o fd i off f sc) fd i off' f' sc' = touch_gen app o fd i off' f' sc'.
Proof. unfold touch_gen, set_script, set_fd, set_inode; cbn. by rewrite !insert_insert_eq. Qed.

Lemma script_touch o fd i off f sc : os_script (touch_gen app o fd i off f sc) = sc.
Proof. done. Qed.

Lemma file_of_touch o fd i off f sc :
  file_of fd (touch_gen app o fd i off f sc) = Some (i, off, app, f).
Proof. unfold file_of, touch_gen; cbn. by rewrite !lookup_insert_eq; cbn; rewrite ?lookup_insert_eq. Qed.

Lemma set_script_touch o fd i off f sc sc' :
  set_script sc' (touch_gen app o fd i off f sc) = touch_gen app o fd i off f sc'.
Proof. done. Qed.

Lemma set_fd_touch o fd i off f sc off' :
  set_fd fd (FdFile i off' app) (touch_gen app o fd i off f sc) = touch_gen app o fd i off' f sc.
Proof. unfold touch_gen, set_script, set_fd; cbn. by rewrite insert_insert_eq. Qed.

Lemma set_inode_touch o fd i off f sc f' :
  set_inode i f' (touch_gen app o fd i off f sc) = touch_gen app o fd i off f' sc.
Proof. unfold touch_gen, set_script, set_inode; cbn. by rewrite insert_insert_eq. Qed.

(** A system in which [fd] is open on a file is of the form [touch]. *)
Lemma touch_intro o fd i off f :
  file_of fd o = Some (i, off, app, f) -> touch_gen app o fd i off f (os_script o) = o.
Proof.
  unfold file_of, touch_gen, set_script, set_fd, set_inode. destruct o as [ino ns lg fds sc]; cbn.
  destruct (fds !! fd) as [[i' off' app'|]|] eqn:E; try done.
  destruct (ino !! i') as [f'|] eqn:E'; cbn; try done. intros [= <- <- -> <-].
  by rewrite !insert_id.
Qed.

Lemma next_touch o fd i off f sc :
  next (touch_gen app o fd i off f sc) =
  match sc with
  | [] => (Halt, touch_gen app o fd i off f [])
  | x :: sc => (Ret x, touch_gen app o fd i off f sc)
  end.
Proof. by destruct sc. Qed.
End touch.

Create Rewrite HintDb touch.
#[export] Hint Rewrite touch_touch script_touch file_of_touch set_script_touch set_fd_touch
  set_inode_touch next_touch : touch.

(** Which outcomes let a transfer make progress (or be retried). *)
Definition benign (x : outcome) : Prop :=
  match x with
  | Done | Intr => True
  | Short k => k <> O
  | Err => False
  end.

#[export] Instance benign_dec x : Decision (benign x).
Proof. destruct x; cbn; apply _. Defined.

(** [sc'] is what is left of [sc], after at most [n] calls if none fails. *)
Definition used (sc sc' : list outcome) (n : nat) : Prop :=
  sc' `suffix_of` sc /\ (Forall (eq Done) sc -> (length sc <= length sc' + n)%nat).

Lemma suffix_Forall (P : outcome -> Prop) sc sc' : sc' `suffix_of` sc -> Forall P sc -> Forall P sc'.
Proof. intros [l ->] H. by apply Forall_app in H as [_ H]. Qed.

Lemma benign_done sc : Forall (eq Done) sc -> Forall benign sc.
Proof. intros H. eapply Forall_impl; [exact H|]. by intros ? <-. Qed.

Lemma used_cons x sc sc' n : used sc sc' n -> used (x :: sc) sc' (S n).
Proof.
  intros [H L]. split; [by apply suffix_cons_r|]. intros [_ Hd]%Forall_cons. specialize (L Hd). cbn. lia.
Qed.

Lemma used_retry x sc sc' n : x <> Done -> used sc sc' n -> used (x :: sc) sc' n.
Proof.
  intros Hx [H L]. split; [by apply suffix_cons_r|]. intros [Hd _]%Forall_cons. by destruct Hx.
Qed.

Lemma used_refl sc : used sc sc 0.
Proof. split; [done|lia]. Qed.

Lemma used_trans sc sc1 sc2 n m : used sc sc1 n -> used sc1 sc2 m -> used sc sc2 (n + m).
Proof.
  intros [H1 L1] [H2 L2]. split; [by etrans|]. intros Hd.
  specialize (L1 Hd). specialize (L2 (suffix_Forall _ _ _ H1 Hd)). lia.
Qed.

Lemma used_le sc sc' n m : (n <= m)%nat -> used sc sc' n -> used sc sc' m.
Proof. intros Hn [H L]. split; [done|]. intros Hd. specialize (L Hd). lia. Qed.

Section calls.
Context (app : bool).
Implicit Types (o : os) (fd i off : nat) (f : file) (sc : list outcome).

Lemma sys_write_touch o fd i off f x sc data :
  app = true \/ off = length (f_data f) ->
  sys_write fd data (touch_gen app o fd i off f (x :: sc)) =
  match x with
  | Intr => (Ret (Fail EINTR), touch_gen app o fd i off f sc)
  | Err => (Ret (Fail EIO), touch_gen app o fd i off f sc)
  | _ => let n := transfer x (length data) in
      (Ret (Rc (Z.of_nat n)),
       touch_gen app o fd i (length (f_data f) + n) (f_update (FWrite (length (f_data f)) (take n data)) f) sc)
  end.
Proof.
  intros Happ. unfold sys_write, bind. rewrite next_touch. destruct x; cbn -[touch_gen f_data f_update]; try done.
  all: rewrite file_of_touch; cbn -[touch_gen f_data f_update];
    replace (if app then length (f_data f) else off) with (length (f_data f)) by (by destruct app, Happ);
    by rewrite set_inode_touch, set_fd_touch.
Qed.

Lemma sys_read_touch o fd i off f x sc size :
  sys_read fd size (touch_gen app o fd i off f (x :: sc)) =
  match x with
  | Intr => (Ret (Fail EINTR, []), touch_gen app o fd i off f sc)
  | Err => (Ret (Fail EIO, []), touch_gen app o fd i off f sc)
  | _ => let d := take (transfer x size) (drop off (f_data f)) in
      (Ret (Rc (zlen d), d), touch_gen app o fd i (off + length d) f sc)
  end.
Proof.
  unfold sys_read, bind. rewrite next_touch. destruct x; cbn -[touch_gen f_data]; try done.
  all: rewrite file_of_touch; cbn -[touch_gen f_data]; by rewrite set_fd_touch.
Qed.

Lemma sys_fsync_touch o fd i off f x sc :
  sys_fsync fd (touch_gen app o fd i off f (x :: sc)) =
  match x with
  | Intr => (Ret (Fail EINTR), touch_gen app o fd i off f sc)
  | Err => (Ret (Fail EIO), touch_gen app o fd i off f sc)
  | _ => (Ret (Rc 0), touch_gen app o fd i off (f_sync f) sc)
  end.
Proof.
  unfold sys_fsync, syscall, bind. rewrite next_touch.
  destruct x; cbn -[touch_gen f_sync]; try done.
  all: unfold touch_gen at 1; cbn; rewrite lookup_insert_eq; cbn; rewrite lookup_insert_eq.
  all: cbn -[touch_gen f_sync]; by rewrite set_inode_touch.
Qed.

Lemma sys_ftruncate_touch o fd i off f x sc size :
  sys_ftruncate fd size (touch_gen app o fd i off f (x :: sc)) =
  match x with
  | Intr => (Ret (Fail EINTR), touch_gen app o fd i off f sc)
  | Err => (Ret (Fail EIO), touch_gen app o fd i off f sc)
  | _ => if size <? 0 then (Ret (Fail EINVAL), touch_gen app o fd i off f sc)
         else (Ret (Rc 0), touch_gen app o fd i off (f_update (FTrunc (Z.to_nat size)) f) sc)
  end.
Proof.
  unfold sys_ftruncate, syscall, bind. rewrite next_touch.
  destruct x; cbn -[touch_gen f_update Z.ltb]; try done.
  all: destruct (size <? 0); [done|]; rewrite file_of_touch; cbn -[touch_gen f_update];
    by rewrite set_inode_touch.
Qed.

Lemma sys_fstat_touch o fd i off f x sc :
  sys_fstat fd (touch_gen app o fd i off f (x :: sc)) =
  match x with
  | Err => (Ret (Fail EIO), touch_gen app o fd i off f sc)
  | _ => (Ret (Rc (zlen (f_data f))), touch_gen app o fd i off f sc)
  end.
Proof.
  unfold sys_fstat, syscall_nointr, bind. rewrite next_touch.
  destruct x; cbn -[touch_gen f_data]; try done.
  all: rewrite file_of_touch; done.
Qed.

Definition seek_target (off : nat) (f : file) (offset : Z) (w : whence) : Z :=
  offset + match w with
           | SEEK_SET => 0
           | SEEK_CUR => Z.of_nat off
           | SEEK_END => zlen (f_data f)
           end.

Lemma sys_lseek_touch o fd i off f x sc offset w :
  0 <= offset ->
  sys_lseek fd offset w (touch_gen app o fd i off f (x :: sc)) =
  match x with
  | Err => (Ret (Fail EIO), touch_gen app o fd i off f sc)
  | _ => (Ret (Rc (seek_target off f offset w)),
          touch_gen app o fd i (Z.to_nat (seek_target off f offset w)) f sc)
  end.
Proof.
  intros Ho. unfold sys_lseek, syscall_nointr, bind. rewrite next_touch.
  assert (Hs : 0 <= seek_target off f offset w) by (unfold seek_target; destruct w; lia).
  destruct x; cbn -[touch_gen f_data Z.add Z.ltb]; try done.
  all: rewrite file_of_touch; cbn -[touch_gen f_data Z.add Z.ltb]; fold (seek_target off f offset w);
    destruct (Z.ltb_spec (seek_target off f offset w) 0); [lia|];
    cbn -[touch_gen f_data seek_target]; by rewrite set_fd_touch.
Qed.

(** Every call loses power on an empty script. *)
Lemma next_halt {A} o fd i off f (k : outcome -> M os A) :
  bind next k (touch_gen app o fd i off f []) = (Halt, touch_gen app o fd i off f []).
Proof. done. Qed.
End calls.

Lemma fresh_fd_none o : os_fds o !! fresh_fd o = None.
Proof.
  apply not_elem_of_dom. unfold fresh_fd. match goal with |- fresh ?X ∉ _ => exact (is_fresh X) end.
Qed.

Lemma fresh_inode_none o : os_inodes o !! fresh_inode o = None.
Proof.
  apply not_elem_of_dom. unfold fresh_inode. match goal with |- fresh ?X ∉ _ => exact (is_fresh X) end.
Qed.

(** ** Calls as rules *)

(** What a call does: lose power, fail without effect, or succeed. *)
Definition calls (app : bool) (m : M os rc) (o : os) (fd i off : nat) (f : file) (off' : nat) (f' : file) : Prop :=
  forall sc (Q : result rc -> os -> Prop),
  (sc = [] -> Q Halt (touch_gen app o fd i off f [])) ->
  (forall e sc', used sc sc' 1 -> ~ Forall (eq Done) sc -> Q (Ret (Fail e)) (touch_gen app o fd i off f sc')) ->
  (forall n sc', used sc sc' 1 -> Q (Ret (Rc n)) (touch_gen app o fd i off' f' sc')) ->
  wp m (touch_gen app o fd i off f sc) Q.

Ltac by_script eq :=
  let sc := fresh "sc" in let x := fresh "x" in
  let HH := fresh "HH" in let HF := fresh "HF" in let HS := fresh "HS" in
  let Q := fresh "Q" in let U := fresh "U" in
  intros sc Q HH HF HS; unfold wp; destruct sc as [|x sc]; [by apply HH|]; eq;
  assert (U : used (x :: sc) sc 1) by apply used_cons, used_refl;
  destruct x; cbn [fst snd];
  first [ by apply HS | apply HF; [exact U | intros Hall; apply Forall_cons in Hall as [Hall _]; done] ].

Section rules.
Context (app : bool).
Implicit Types (o : os) (fd i off : nat) (f : file).

Lemma fsync_calls o fd i off f : calls app (sys_fsync fd) o fd i off f off (f_sync f).
Proof. by_script ltac:(rewrite sys_fsync_touch). Qed.

Lemma ftruncate_calls o fd i off f (n : nat) :
  calls app (sys_ftruncate fd (Z.of_nat n)) o fd i off f off (f_update (FTrunc n) f).
Proof.
  by_script ltac:(rewrite sys_ftruncate_touch; destruct (Z.ltb_spec (Z.of_nat n) 0); [lia|]; rewrite Nat2Z.id).
Qed.

Lemma lseek_calls o fd i off f (n : Z) w :
  0 <= n -> calls app (sys_lseek fd n w) o fd i off f (Z.to_nat (seek_target off f n w)) f.
Proof. intros Hn. by_script ltac:(rewrite sys_lseek_touch by lia). Qed.

(** The system after the descriptor is closed. *)
Definition settle o i f (sc : list outcome) : os := set_script sc (set_inode i f o).

Lemma drop_touch o fd i off f sc :
  os_fds o !! fd = None -> drop_fd fd (touch_gen app o fd i off f sc) = settle o i f sc.
Proof.
  intros Hn. unfold drop_fd, touch_gen, settle, set_script, set_fd, set_inode; cbn.
  by rewrite delete_insert_id.
Qed.

Lemma wp_close o fd i off f sc (Q : result rc -> os -> Prop) :
  os_fds o !! fd = None ->
  (sc = [] -> Q Halt (touch_gen app o fd i off f [])) ->
  (forall r sc', used sc sc' 1 -> ((exists e, r = Fail e) -> ~ Forall (eq Done) sc) ->
    Q (Ret r) (settle o i f sc')) ->
  wp (sys_close fd) (touch_gen app o fd i off f sc) Q.
Proof.
  intros Hn HH HS. unfold sys_close. apply wp_bind. unfold wp at 1. rewrite next_touch.
  destruct sc as [|x sc]; [by apply HH|]. cbn [fst snd]. apply wp_bind, wp_modify. rewrite drop_touch by done.
  assert (used (x :: sc) sc 1) by apply used_cons, used_refl.
  destruct x; apply wp_ret, HS; try done; try (by intros [e [=]]).
  all: intros _ [Hd _]%Forall_cons; done.
Qed.
End rules.

(** ** Appending in pieces *)

(** [grows f d f']: [d] was appended to [f], by one or more writes. *)
Inductive grows : file -> bytes -> file -> Prop :=
  | grows_nil f : grows f [] f
  | grows_write f d d' f' :
      grows (f_update (FWrite (length (f_data f)) d) f) d' f' -> grows f (d ++ d') f'.

Lemma f_data_update op f : f_data (f_update op f) = apply_fop (f_data f) op.
Proof. unfold f_data, f_update; cbn. by rewrite fold_left_app. Qed.

Lemma f_data_sync f : f_data (f_sync f) = f_data f.
Proof. done. Qed.

Lemma resize_length (c : bytes) : resize_bytes (length c) c = c.
Proof. unfold resize_bytes. rewrite Nat.sub_diag, take_ge by done. cbn. apply app_nil_r. Qed.

Lemma apply_append (c d : bytes) : apply_fop c (FWrite (length c) d) = c ++ d.
Proof. cbn. rewrite resize_length, drop_ge, app_nil_r by lia. done. Qed.

Lemma apply_trunc (n : nat) (c : bytes) : (n <= length c)%nat -> apply_fop c (FTrunc n) = take n c.
Proof.
  intros Hn. cbn. unfold resize_bytes. replace (n - length c)%nat with O by lia. apply app_nil_r.
Qed.

Lemma grows_data f d f' : grows f d f' -> f_data f' = f_data f ++ d.
Proof.
  induction 1 as [|f d d' f' _ IH]; [by rewrite app_nil_r|].
  by rewrite IH, f_data_update, apply_append, app_assoc.
Qed.

Lemma grows_durable f d f' : grows f d f' -> f_durable f' = f_durable f.
Proof. induction 1; done. Qed.

Lemma grows_one f d : grows f d (f_update (FWrite (length (f_data f)) d) f).
Proof. rewrite <- (app_nil_r d) at 1. apply grows_write, grows_nil. Qed.

Lemma grows_trans f d f1 d' f2 : grows f d f1 -> grows f1 d' f2 -> grows f (d ++ d') f2.
Proof.
  induction 1 as [|f d0 d1 f1 _ IH]; intros H2; [done|].
  rewrite <- app_assoc. apply grows_write. by apply IH.
Qed.

(** ** What a power cut leaves of appended data *)

Lemma crash_from_app c ops1 ops2 c' :
  crash_from c (ops1 ++ ops2) c' ->
  crash_from c ops1 c' \/ crash_from (fold_left apply_fop ops1 c) ops2 c'.
Proof.
  revert c. induction ops1 as [|op ops1 IH]; intros c H; [by right|].
  inversion H as [|? ? ? ? H1|? off data k]; subst.
  - left. constructor.
  - destruct (IH _ H1) as [|]; [left; by constructor|by right].
  - left. apply crash_torn.
Qed.

Lemma crash_content_update f op c :
  crash_content (f_update op f) c ->
  crash_content f c \/ crash_from (f_data f) [op] c.
Proof. apply crash_from_app. Qed.

Lemma crash_content_refl f : crash_content f (f_data f).
Proof.
  unfold crash_content, f_data. generalize (f_durable f). induction (f_pending f) as [|op l IH]; intros c.
  - constructor.
  - cbn. apply crash_next. apply IH.
Qed.

Lemma crash_content_sync f c : crash_content (f_sync f) c -> c = f_data f.
Proof. unfold crash_content; cbn. by inversion 1. Qed.

(** Appended data survives up to some point. *)
Lemma grows_crash f d f' c :
  grows f d f' -> crash_content f' c ->
  crash_content f c \/ exists d1, d1 `prefix_of` d /\ c = f_data f ++ d1.
Proof.
  induction 1 as [|f d d' f' _ IH]; intros Hc; [by left|].
  destruct (IH Hc) as [H|(d1 & [k ->] & ->)].
  - apply crash_content_update in H as [H|H]; [by left|right].
    inversion H as [|? ? ? ? H'|? ? ? k]; subst.
    + exists []. split; [apply prefix_nil|by rewrite app_nil_r].
    + inversion H'; subst. rewrite apply_append. exists d. split; [by exists d'|done].
    + rewrite apply_append. exists (take k d). split; [|done].
      exists (drop k d ++ d'). by rewrite app_assoc, take_drop.
  - right. rewrite f_data_update, apply_append. exists (d ++ d1).
    split; [exists k|]; by rewrite <- app_assoc.
Qed.

(** ** Opening a file to write it anew *)

Section open_trunc.
Context (path : string) (o : os).

(** The number of the file, and the directory that has it. *)
Definition trunc_inode : nat := default (fresh_inode o) (os_names o !! path).
Definition trunc_names : gmap string nat :=
  match os_names o !! path with Some _ => os_names o | None => <[path := trunc_inode]> (os_names o) end.
Definition trunc_log : list (gmap string nat) :=
  match os_names o !! path with Some _ => os_names_log o | None => os_names_log o ++ [os_names o] end.
Definition trunc_system : os := Os (os_inodes o) trunc_names trunc_log (os_fds o) [].

Lemma trunc_names_lookup : trunc_names !! path = Some trunc_inode.
Proof.
  unfold trunc_names, trunc_inode. destruct (os_names o !! path) eqn:E; [by rewrite E|apply lookup_insert_eq].
Qed.

Lemma wp_open_trunc (Q : result rc -> os -> Prop) :
  (forall i, os_names o !! path = Some i -> is_Some (os_inodes o !! i)) ->
  (os_script o = [] -> Q Halt o) ->
  (forall e sc, used (os_script o) sc 1 -> ~ Forall (eq Done) (os_script o) -> Q (Ret (Fail e)) (set_script sc o)) ->
  (forall f sc, f_data f = [] -> used (os_script o) sc 1 ->
    Q (Ret (Rc (Z.of_nat (fresh_fd o)))) (touch_gen false trunc_system (fresh_fd o) trunc_inode 0 f sc)) ->
  wp (sys_open path (OFlags true true false)) o Q.
Proof.
  intros Hi HH HF HS. unfold sys_open, syscall. apply wp_bind. unfold wp at 1, next.
  destruct (os_script o) as [|x sc] eqn:Es; cbn [fst snd]; [by apply HH|].
  assert (Hu : used (x :: sc) sc 1) by apply used_cons, used_refl.
  assert (Hfail : x <> Done -> forall e, Q (Ret (Fail e)) (set_script sc o)).
  { intros Hx e. apply HF; [done|]. by intros [H _]%Forall_cons. }
  assert (Hgo : wp (o <- get ;;
    let fd := fresh_fd o in
    match os_names o !! path with
    | Some i =>
        match os_inodes o !! i with
        | Some f =>
            modify (fun o => set_fd fd (FdFile i 0 false) (set_inode i (f_update (FTrunc 0) f) o)) ;;;
            ret (Rc (Z.of_nat fd))
        | None => ret (Fail ENOENT)
        end
    | None =>
        let i := fresh_inode o in
        modify (fun o => set_fd fd (FdFile i 0 false)
          (set_names (<[path := i]> (os_names o)) (set_inode i empty_file o))) ;;;
        ret (Rc (Z.of_nat fd))
    end) (set_script sc o) Q).
  { apply wp_bind, wp_get. cbn [os_names os_inodes set_script].
    pose proof HS as HS'. unfold trunc_system, trunc_names, trunc_log, trunc_inode in HS'.
    destruct (os_names o !! path) as [i|] eqn:En; cbn [default from_option id] in HS'.
    - destruct (Hi i eq_refl) as [f Hf]. rewrite Hf. apply wp_bind, wp_modify, wp_ret.
      apply (HS' (f_update (FTrunc 0) f) sc); [|done].
      rewrite f_data_update, apply_trunc by lia. apply take_0.
    - apply wp_bind, wp_modify, wp_ret. by apply (HS' empty_file sc). }
  destruct x; [exact Hgo|exact Hgo|by apply wp_ret, Hfail..].
Qed.
End open_trunc.
