(* ===== verification/LogFormat.v ===== *)
(** * LogFormat: what a write-ahead log is, as a list of entries

    The abstract specification of the log: a log is a list of entries, its file
    image is [encode_log], and [walk] reads an image back.  The format is
    parametric in the hash that chains the entries and in the checksum, through
    the interfaces [LogHash] and [LogChecksum]; src/src/WAL.cpp uses SHA-256 and
    CRC-32, whose files discharge the two interfaces at the end of this one. *)

From S2P Require Import Prelude Endian CRC32 SHA256.

(** ** Interfaces *)

(** A hash with 32-byte digests. *)
Class LogHash := {
  log_hash : bytes -> bytes;
  length_log_hash m : length (log_hash m) = 32%nat
}.

(** A 32-bit checksum that no change of a single byte preserves. *)
Class LogChecksum := {
  log_sum : bytes -> Z;
  log_sum_range m : is_u32 (log_sum m);
  log_sum_one_byte p b1 b2 s : b1 <> b2 -> log_sum (p ++ b1 :: s) <> log_sum (p ++ b2 :: s)
}.

(** ** Entries and their image *)

(** [WAL::kMaxFieldSize], one mebibyte. *)
Definition max_field : Z := 1048576.

(** Sizes of the fixed part and of the whole entry around key and value. *)
Definition fixed_size : nat := 33.
Definition entry_overhead : nat := 69.

(** What a caller of [append] records; the sequence number is the position. *)
Record entry := Entry {
  e_timestamp : Z;
  e_epoch : Z;
  e_type : byte;
  e_key : bytes;
  e_value : bytes
}.

#[export] Instance entry_eq_dec : EqDecision entry.
Proof. solve_decision. Defined.

(** The fields fit their types and respect the size cap. *)
Record entry_ok (e : entry) : Prop := {
  ok_timestamp : is_i64 (e_timestamp e);
  ok_epoch : is_u64 (e_epoch e);
  ok_key : zlen (e_key e) <= max_field;
  ok_value : zlen (e_value e) <= max_field
}.

(** [RecoveryStatus]: the outcome of walking a log. *)
Inductive RecoveryStatus := Ok | TruncatedTail | Malformed | Tampered.

#[export] Instance RecoveryStatus_eq_dec : EqDecision RecoveryStatus.
Proof. solve_decision. Defined.

Section format.
Context `{HH : LogHash, HC : LogChecksum}.

Implicit Types (prev : bytes) (seq : Z) (e : entry) (es : list entry) (buf : bytes).

Definition fixed_image seq e : bytes :=
  le_bytes 8 seq ++ le_bytes 8 (e_timestamp e) ++ le_bytes 8 (e_epoch e) ++
  le_bytes 4 (zlen (e_key e)) ++ le_bytes 4 (zlen (e_value e)) ++ [e_type e].

(** What the chain hash of an entry covers: the previous hash and the entry. *)
Definition chain_input prev seq e : bytes :=
  prev ++ fixed_image seq e ++ e_key e ++ e_value e.

Definition chain prev seq e : bytes := log_hash (chain_input prev seq e).

Definition body_image prev seq e : bytes :=
  fixed_image seq e ++ e_key e ++ e_value e ++ chain prev seq e.

Definition encode_entry prev seq e : bytes :=
  le_bytes 4 (log_sum (body_image prev seq e)) ++ body_image prev seq e.

Fixpoint encode_from prev seq es : bytes :=
  match es with
  | [] => []
  | e :: es => encode_entry prev seq e ++ encode_from (chain prev seq e) (seq + 1) es
  end.

(** The chain hash after a list of entries: the checkpoint. *)
Fixpoint head_from prev seq es : bytes :=
  match es with
  | [] => prev
  | e :: es => head_from (chain prev seq e) (seq + 1) es
  end.

(** A log starts with sequence number zero and an all-zero hash. *)
Definition encode_log es : bytes := encode_from zero_digest 0 es.
Definition log_head es : bytes := head_from zero_digest 0 es.

(** ** Reading an image back *)

Inductive verdict :=
  | VEntry (e : entry) (digest : bytes) (rest : bytes)
  | VTorn
  | VMalformed
  | VTampered.

Definition read_fixed (fixed : bytes) (key value : bytes) : entry :=
  Entry (i64 (getLE64 (drop 8 fixed))) (getLE64 (drop 16 fixed)) (nth 32 fixed x00) key value.

(** One entry at the front of [buf], the contents from here to the end of the
    file. *)
Definition parse_entry prev seq buf : verdict :=
  if (length buf <? 37)%nat then VTorn else
  let crc := getLE32 buf in
  let fixed := take 33 (drop 4 buf) in
  let klen := getLE32 (drop 24 fixed) in
  let vlen := getLE32 (drop 28 fixed) in
  if (max_field <? klen) || (max_field <? vlen) then VMalformed else
  if zlen buf <? Z.of_nat entry_overhead + klen + vlen then VTorn else
  let rest := drop 37 buf in
  let key := take (Z.to_nat klen) rest in
  let value := take (Z.to_nat vlen) (drop (Z.to_nat klen) rest) in
  let tail := drop (Z.to_nat vlen) (drop (Z.to_nat klen) rest) in
  let digest := take 32 tail in
  if negb (log_sum (fixed ++ key ++ value ++ digest) =? crc) then VTampered else
  if negb (bool_decide (log_hash (prev ++ fixed ++ key ++ value) = digest)) then VTampered else
  if negb (getLE64 fixed =? seq) then VTampered else
  VEntry (read_fixed fixed key value) digest (drop 32 tail).

(** The entries read, where and why reading stopped, and the chain there. *)
Record walked := Walked {
  w_status : RecoveryStatus;
  w_entries : list entry;
  w_head : bytes;
  w_offset : nat
}.

(** Every entry is longer than [entry_overhead], so the length of [buf] is
    enough fuel. *)
Fixpoint walk_from (fuel : nat) prev seq buf (acc : list entry) (off : nat) : walked :=
  match buf, fuel with
  | [], _ => Walked Ok acc prev off
  | _, O => Walked TruncatedTail acc prev off
  | _, S fuel =>
      match parse_entry prev seq buf with
      | VTorn => Walked TruncatedTail acc prev off
      | VMalformed => Walked Malformed acc prev off
      | VTampered => Walked Tampered acc prev off
      | VEntry e digest rest =>
          walk_from fuel digest (seq + 1) rest (acc ++ [e]) (off + (length buf - length rest))
      end
  end.

Definition walk buf : walked := walk_from (length buf) zero_digest 0 buf [] 0.

(** ** Layout *)

Lemma length_fixed_image seq e : length (fixed_image seq e) = 33%nat.
Proof. unfold fixed_image. rewrite !length_app, !length_le_bytes. done. Qed.

Lemma length_chain prev seq e : length (chain prev seq e) = 32%nat.
Proof. apply length_log_hash. Qed.

Lemma length_body_image prev seq e :
  length (body_image prev seq e) = (65 + length (e_key e) + length (e_value e))%nat.
Proof.
  unfold body_image. rewrite !length_app, length_fixed_image, length_chain. lia.
Qed.

Lemma length_encode_entry prev seq e :
  length (encode_entry prev seq e) =
  (entry_overhead + length (e_key e) + length (e_value e))%nat.
Proof.
  unfold encode_entry, entry_overhead.
  rewrite length_app, length_le_bytes, length_body_image. lia.
Qed.

(** Reading the fields of the fixed part, whatever follows it. *)
Lemma fixed_seq seq e rest : getLE64 (fixed_image seq e ++ rest) = u64 seq.
Proof. unfold fixed_image. rewrite <- app_assoc. apply getLE64_le_bytes_u64. Qed.

Lemma drop_le_bytes n k z rest : drop (n + k) (le_bytes n z ++ rest) = drop k rest.
Proof.
  rewrite <- drop_drop, drop_app_length' by (by rewrite length_le_bytes). done.
Qed.

Lemma fixed_timestamp seq e :
  i64 (getLE64 (drop 8 (fixed_image seq e))) = i64 (u64 (e_timestamp e)).
Proof.
  unfold fixed_image. rewrite (drop_le_bytes 8 0), drop_0. by rewrite getLE64_le_bytes_u64.
Qed.

Lemma fixed_epoch seq e : getLE64 (drop 16 (fixed_image seq e)) = u64 (e_epoch e).
Proof.
  unfold fixed_image. rewrite (drop_le_bytes 8 8), (drop_le_bytes 8 0), drop_0.
  by rewrite getLE64_le_bytes_u64.
Qed.

Lemma fixed_klen seq e : getLE32 (drop 24 (fixed_image seq e)) = u32 (zlen (e_key e)).
Proof.
  unfold fixed_image. rewrite (drop_le_bytes 8 16), (drop_le_bytes 8 8), (drop_le_bytes 8 0).
  rewrite drop_0. by rewrite getLE32_le_bytes_u32.
Qed.

Lemma fixed_vlen seq e : getLE32 (drop 28 (fixed_image seq e)) = u32 (zlen (e_value e)).
Proof.
  unfold fixed_image. rewrite (drop_le_bytes 8 20), (drop_le_bytes 8 12), (drop_le_bytes 8 4).
  rewrite (drop_le_bytes 4 0), drop_0. by rewrite getLE32_le_bytes_u32.
Qed.

Lemma fixed_type seq e : nth 32 (fixed_image seq e) x00 = e_type e.
Proof. reflexivity. Qed.

(** ** Reading back what was written *)

Lemma u32_len (l : bytes) : zlen l <= max_field -> u32 (zlen l) = zlen l.
Proof. intros Hl. apply u32_id. unfold is_u32, max_field in *. lia. Qed.

Lemma read_fixed_image seq e :
  entry_ok e -> read_fixed (fixed_image seq e) (e_key e) (e_value e) = e.
Proof.
  intros [Ht He _ _]. unfold read_fixed.
  rewrite fixed_timestamp, fixed_epoch, fixed_type, i64_u64, u64_id by done. by destruct e.
Qed.

Lemma parse_encode prev seq e rest :
  entry_ok e -> is_u64 seq ->
  parse_entry prev seq (encode_entry prev seq e ++ rest) = VEntry e (chain prev seq e) rest.
Proof.
  intros Hok Hseq. pose proof Hok as [_ _ Hk Hv]. unfold parse_entry.
  pose proof (length_encode_entry prev seq e) as Hlen. unfold entry_overhead in Hlen.
  destruct (Nat.ltb_spec (length (encode_entry prev seq e ++ rest)) 37) as [Hlt|_];
    [rewrite length_app in Hlt; lia|].
  assert (Hb : encode_entry prev seq e ++ rest =
    le_bytes 4 (log_sum (body_image prev seq e)) ++ fixed_image seq e ++ e_key e ++ e_value e ++
    chain prev seq e ++ rest).
  { unfold encode_entry, body_image. by rewrite <- !app_assoc. }
  assert (Hcrc : getLE32 (encode_entry prev seq e ++ rest) = log_sum (body_image prev seq e)).
  { rewrite Hb. apply getLE32_le_bytes, log_sum_range. }
  assert (H4 : drop 4 (encode_entry prev seq e ++ rest) =
    fixed_image seq e ++ e_key e ++ e_value e ++ chain prev seq e ++ rest).
  { rewrite Hb. by rewrite (drop_le_bytes 4 0), drop_0. }
  assert (H37 : drop 37 (encode_entry prev seq e ++ rest) =
    e_key e ++ e_value e ++ chain prev seq e ++ rest).
  { change 37%nat with (4 + 33)%nat. rewrite <- drop_drop, H4.
    by rewrite drop_app_length' by (by rewrite length_fixed_image). }
  rewrite H4, H37, take_app_length' by (by rewrite length_fixed_image).
  rewrite Hcrc.
  rewrite fixed_klen, fixed_vlen, !u32_len, !Nat2Z.id by done. cbv zeta.
  rewrite !take_app_length, !drop_app_length, take_app_length.
  rewrite take_app_length', drop_app_length' by (by rewrite length_chain).
  destruct (Z.ltb_spec max_field (zlen (e_key e))); [lia|].
  destruct (Z.ltb_spec max_field (zlen (e_value e))); [lia|].
  destruct (Z.ltb_spec (zlen (encode_entry prev seq e ++ rest))
    (Z.of_nat entry_overhead + zlen (e_key e) + zlen (e_value e))) as [Hlt|_].
  { rewrite length_app in Hlt. unfold entry_overhead in *. lia. }
  change (fixed_image seq e ++ e_key e ++ e_value e ++ chain prev seq e)
    with (body_image prev seq e).
  rewrite Z.eqb_refl. rewrite bool_decide_true by done.
  rewrite <- (app_nil_r (fixed_image seq e)) at 1. rewrite fixed_seq, u64_id, Z.eqb_refl by done.
  by rewrite read_fixed_image.
Qed.

(** ** Whatever is read back was written *)

(** Thirty-three bytes are the image of the fields they hold. *)
Lemma fixed_fields (fixed : bytes) :
  length fixed = 33%nat ->
  fixed = le_bytes 8 (getLE64 fixed) ++ le_bytes 8 (getLE64 (drop 8 fixed)) ++
    le_bytes 8 (getLE64 (drop 16 fixed)) ++ le_bytes 4 (getLE32 (drop 24 fixed)) ++
    le_bytes 4 (getLE32 (drop 28 fixed)) ++ [nth 32 fixed x00].
Proof.
  intros Hl. rewrite !le_bytes_getLE64, !le_bytes_getLE32 by (rewrite ?length_drop; lia).
  do 33 (destruct fixed as [|? fixed]; [done|]). by destruct fixed.
Qed.

Lemma parse_sound prev seq buf e d rest :
  parse_entry prev seq buf = VEntry e d rest ->
  buf = encode_entry prev seq e ++ rest /\ d = chain prev seq e /\ entry_ok e.
Proof.
  unfold parse_entry. destruct (Nat.ltb_spec (length buf) 37); [done|].
  set (fixed := take 33 (drop 4 buf)). set (r := drop 37 buf).
  assert (Hf : length fixed = 33%nat) by (unfold fixed; rewrite length_take, length_drop; lia).
  pose proof (fixed_fields fixed Hf) as Hff.
  pose proof (getLE32_range (drop 24 fixed)) as Hk0.
  pose proof (getLE32_range (drop 28 fixed)) as Hv0. unfold is_u32 in *.
  set (klen := getLE32 (drop 24 fixed)) in *. set (vlen := getLE32 (drop 28 fixed)) in *.
  destruct (Z.ltb_spec max_field klen); [done|].
  destruct (Z.ltb_spec max_field vlen); [done|]. cbn [orb].
  destruct (Z.ltb_spec (zlen buf) (Z.of_nat entry_overhead + klen + vlen)); [done|].
  unfold entry_overhead in *.
  set (key := take (Z.to_nat klen) r). set (r1 := drop (Z.to_nat klen) r).
  set (value := take (Z.to_nat vlen) r1). set (r2 := drop (Z.to_nat vlen) r1).
  assert (Hr : length r = (length buf - 37)%nat) by (unfold r; by rewrite length_drop).
  assert (Hkey : zlen key = klen) by (unfold key; rewrite length_take; lia).
  assert (Hval : zlen value = vlen) by (unfold value, r1; rewrite length_take, length_drop; lia).
  destruct (Z.eqb_spec (log_sum (fixed ++ key ++ value ++ take 32 r2)) (getLE32 buf)) as [Hcrc|];
    [cbn [negb]|done].
  case_bool_decide as Hd; [cbn [negb]|done].
  destruct (Z.eqb_spec (getLE64 fixed) seq) as [Hs|]; [cbn [negb]|done].
  intros [= <- <- <-].
  assert (Hok : entry_ok (read_fixed fixed key value)).
  { split; cbn; [apply i64_range|apply getLE64_range|lia|lia]. }
  assert (Hfix : fixed_image seq (read_fixed fixed key value) = fixed).
  { unfold fixed_image. cbn [read_fixed e_timestamp e_epoch e_key e_value e_type].
    rewrite <- (le_bytes_u64 (i64 _)), u64_i64, le_bytes_u64, Hkey, Hval, <- Hs. by symmetry. }
  assert (Hch : chain prev seq (read_fixed fixed key value) = take 32 r2).
  { unfold chain, chain_input. by rewrite Hfix. }
  split_and!; [|by symmetry|done].
  unfold encode_entry, body_image. rewrite Hch, Hfix. cbn [read_fixed e_key e_value].
  rewrite Hcrc, le_bytes_getLE32, <- !app_assoc, (take_drop 32 r2) by lia.
  unfold r2, value. rewrite (take_drop (Z.to_nat vlen)). unfold r1, key. rewrite take_drop.
  unfold r, fixed. change 37%nat with (4 + 33)%nat. rewrite <- drop_drop.
  by rewrite !take_drop.
Qed.

(** A strict prefix of the image of an entry is a torn write. *)
Lemma parse_prefix prev seq e p q :
  entry_ok e -> is_u64 seq -> p ++ q = encode_entry prev seq e -> q <> [] ->
  parse_entry prev seq p = VTorn.
Proof.
  intros Hok Hseq Hpq Hq.
  pose proof (f_equal length Hpq) as Hlen.
  rewrite length_app, length_encode_entry in Hlen. unfold entry_overhead in Hlen.
  assert (0 < length q)%nat by (destruct q; [done|cbn; lia]).
  unfold parse_entry. destruct (Nat.ltb_spec (length p) 37) as [|Hp]; [done|].
  assert (Hf : take 33 (drop 4 p) = fixed_image seq e).
  { transitivity (take 33 (drop 4 (p ++ q))).
    - rewrite drop_app_le, take_app_le by (rewrite ?length_drop; lia). done.
    - rewrite Hpq. unfold encode_entry, body_image. rewrite (drop_le_bytes 4 0), drop_0.
      by rewrite take_app_length' by (by rewrite length_fixed_image). }
  cbv zeta. rewrite Hf, fixed_klen, fixed_vlen. destruct Hok as [_ _ Hk Hv].
  rewrite !u32_len by done. destruct (Z.ltb_spec max_field (zlen (e_key e))); [lia|].
  destruct (Z.ltb_spec max_field (zlen (e_value e))); [lia|]. cbn [orb].
  destruct (Z.ltb_spec (zlen p) (Z.of_nat entry_overhead + zlen (e_key e) + zlen (e_value e)))
    as [|Hge]; [done|]. unfold entry_overhead in Hge. lia.
Qed.

(** ** Walking *)

Lemma parse_shorter prev seq buf e d rest :
  parse_entry prev seq buf = VEntry e d rest -> (length rest + 69 <= length buf)%nat.
Proof.
  intros [-> _]%parse_sound. rewrite length_app, length_encode_entry. unfold entry_overhead. lia.
Qed.

(** The result does not depend on spare fuel. *)
Lemma walk_fuel fuel prev seq buf acc off :
  (length buf <= fuel)%nat ->
  walk_from fuel prev seq buf acc off = walk_from (length buf) prev seq buf acc off.
Proof.
  enough (H : forall n fuel prev seq buf acc off, (length buf <= n)%nat -> (n <= fuel)%nat ->
    walk_from fuel prev seq buf acc off = walk_from n prev seq buf acc off) by (intros; by apply H).
  clear fuel prev seq buf acc off. induction n as [|n IH]; intros fuel prev seq buf acc off Hb Hf.
  - destruct buf; [by destruct fuel|cbn in Hb; lia].
  - destruct fuel as [|fuel]; [lia|]. destruct buf as [|b buf]; [done|].
    cbn [walk_from]. destruct (parse_entry prev seq (b :: buf)) as [e d rest| | |] eqn:E; try done.
    apply parse_shorter in E. apply IH; lia.
Qed.

Lemma walk_from_nonempty prev seq buf acc off :
  buf <> [] ->
  walk_from (length buf) prev seq buf acc off =
  match parse_entry prev seq buf with
  | VTorn => Walked TruncatedTail acc prev off
  | VMalformed => Walked Malformed acc prev off
  | VTampered => Walked Tampered acc prev off
  | VEntry e digest rest =>
      walk_from (length rest) digest (seq + 1) rest (acc ++ [e]) (off + (length buf - length rest))
  end.
Proof.
  destruct buf as [|b buf]; [done|]. intros _. cbn [length walk_from].
  destruct (parse_entry prev seq (b :: buf)) as [e d rest| | |] eqn:E; try done.
  apply parse_shorter in E. cbn [length] in E. apply walk_fuel. lia.
Qed.

(** Walking over the image of valid entries reads exactly those entries. *)
Lemma walk_app es prev seq tail acc off :
  Forall entry_ok es -> 0 <= seq -> seq + zlen es <= 2 ^ 64 ->
  walk_from (length (encode_from prev seq es ++ tail)) prev seq (encode_from prev seq es ++ tail) acc off =
  walk_from (length tail) (head_from prev seq es) (seq + zlen es) tail (acc ++ es)
    (off + length (encode_from prev seq es)).
Proof.
  revert prev seq acc off. induction es as [|e es IH]; intros prev seq acc off Hok Hs Hb.
  - cbn [encode_from head_from app length]. by rewrite app_nil_r, Nat.add_0_r, Z.add_0_r.
  - apply Forall_cons in Hok as [He Hok]. cbn [length] in Hb.
    cbn [encode_from head_from]. rewrite <- app_assoc.
    pose proof (length_encode_entry prev seq e) as Hle. unfold entry_overhead in Hle.
    rewrite walk_from_nonempty by (intros E%(f_equal length); rewrite length_app in E; cbn in E; lia).
    rewrite parse_encode by (done || (unfold is_u64; lia)).
    rewrite IH by (done || lia). rewrite <- app_assoc. cbn [length].
    f_equal; [|rewrite !length_app]; lia.
Qed.

(** How reading stops: [tail] is what follows the last entry read. *)
Definition stopped prev seq (tail : bytes) (st : RecoveryStatus) : Prop :=
  match st with
  | Ok => tail = []
  | TruncatedTail => tail <> [] /\ parse_entry prev seq tail = VTorn
  | Malformed => tail <> [] /\ parse_entry prev seq tail = VMalformed
  | Tampered => tail <> [] /\ parse_entry prev seq tail = VTampered
  end.

(** Whatever a walk reads is the image of the entries it returns. *)
Lemma walk_sound prev seq buf acc off :
  exists es tail,
    buf = encode_from prev seq es ++ tail /\ Forall entry_ok es /\
    walk_from (length buf) prev seq buf acc off =
      Walked (w_status (walk_from (length buf) prev seq buf acc off)) (acc ++ es)
        (head_from prev seq es) (off + length (encode_from prev seq es)) /\
    stopped (head_from prev seq es) (seq + zlen es) tail
      (w_status (walk_from (length buf) prev seq buf acc off)).
Proof.
  remember (length buf) as n eqn:Hn. revert prev seq buf acc off Hn.
  induction n as [n IH] using lt_wf_ind. intros prev seq buf acc off ->.
  destruct (decide (buf = [])) as [->|Hne].
  { exists [], []. cbn. by rewrite app_nil_r, Nat.add_0_r. }
  rewrite walk_from_nonempty by done.
  destruct (parse_entry prev seq buf) as [e d rest| | |] eqn:E.
  - pose proof (parse_shorter _ _ _ _ _ _ E) as Hlt.
    apply parse_sound in E as (-> & -> & Hok).
    destruct (IH (length rest) ltac:(lia) (chain prev seq e) (seq + 1) rest (acc ++ [e])
      (off + (length (encode_entry prev seq e ++ rest) - length rest))%nat eq_refl)
      as (es & tail & Hr & Hes & Hw & Hst).
    exists (e :: es), tail. cbn [encode_from head_from]. split_and!.
    + by rewrite <- app_assoc, <- Hr.
    + by constructor.
    + rewrite Hw at 1. rewrite <- app_assoc. f_equal. rewrite !length_app. lia.
    + cbn [length]. by replace (seq + Z.of_nat (S (length es))) with (seq + 1 + zlen es) by lia.
  - exists [], buf. cbn. by rewrite app_nil_r, Nat.add_0_r, Z.add_0_r.
  - exists [], buf. cbn. by rewrite app_nil_r, Nat.add_0_r, Z.add_0_r.
  - exists [], buf. cbn. by rewrite app_nil_r, Nat.add_0_r, Z.add_0_r.
Qed.

End format.

#[export] Instance sha256_log_hash : LogHash :=
  {| log_hash := FIPS.sha256; length_log_hash := length_sha256 |}.

#[export] Instance crc32_log_checksum : LogChecksum :=
  {| log_sum := CRC32.calculate;
     log_sum_range := CRC32.calculate_range;
     log_sum_one_byte := CRC32.calculate_one_byte |}.
