(* ===== verification/LogTheory.v ===== *)
(** * LogTheory: what reading a log back can and cannot detect

    Facts about the abstract log of LogFormat, for any hash and checksum that
    meet the interfaces: a written log reads back; a log cut anywhere is a torn
    tail; an accepted image is the image of the entries read; two logs with one
    checkpoint are equal or exhibit a hash collision; a changed byte outside the
    length fields is reported at its entry; a changed length field need not be. *)

From S2P Require Import Prelude Endian SHA256 LogFormat.

Section theory.
Context `{HH : LogHash, HC : LogChecksum}.

Implicit Types (prev : bytes) (seq : Z) (e : entry) (es : list entry) (buf : bytes).

(** A log small enough to be numbered with 64 bits, of valid entries. *)
Definition log_ok es : Prop := Forall entry_ok es /\ zlen es < 2 ^ 64.

Lemma log_ok_app es1 es2 : log_ok (es1 ++ es2) -> log_ok es1.
Proof. intros [[H1 _]%Forall_app H2]. rewrite length_app in H2. split; [done|lia]. Qed.

Lemma encode_from_app prev seq es1 es2 :
  encode_from prev seq (es1 ++ es2) =
  encode_from prev seq es1 ++ encode_from (head_from prev seq es1) (seq + zlen es1) es2.
Proof.
  revert prev seq. induction es1 as [|e es1 IH]; intros prev seq; cbn [app encode_from head_from length].
  - by rewrite Z.add_0_r.
  - rewrite IH, <- app_assoc. by replace (seq + 1 + zlen es1) with (seq + Z.of_nat (S (length es1))) by lia.
Qed.

Lemma head_from_app prev seq es1 es2 :
  head_from prev seq (es1 ++ es2) = head_from (head_from prev seq es1) (seq + zlen es1) es2.
Proof.
  revert prev seq. induction es1 as [|e es1 IH]; intros prev seq; cbn [app head_from length].
  - by rewrite Z.add_0_r.
  - rewrite IH. by replace (seq + 1 + zlen es1) with (seq + Z.of_nat (S (length es1))) by lia.
Qed.

Lemma length_head_from prev seq es : length prev = 32%nat -> length (head_from prev seq es) = 32%nat.
Proof.
  revert prev seq. induction es as [|e es IH]; intros prev seq Hp; cbn [head_from]; [done|].
  apply IH, length_chain.
Qed.

Lemma encode_log_snoc es e :
  encode_log (es ++ [e]) = encode_log es ++ encode_entry (log_head es) (zlen es) e.
Proof. unfold encode_log. rewrite encode_from_app. cbn [encode_from]. by rewrite app_nil_r, Z.add_0_l. Qed.

Lemma log_head_snoc es e : log_head (es ++ [e]) = chain (log_head es) (zlen es) e.
Proof. unfold log_head. rewrite head_from_app. cbn [head_from]. by rewrite Z.add_0_l. Qed.

Lemma length_log_head es : length (log_head es) = 32%nat.
Proof. by apply length_head_from. Qed.

(** An entry takes at least [entry_overhead] bytes. *)
Lemma encode_count prev seq es : 69 * zlen es <= zlen (encode_from prev seq es).
Proof.
  revert prev seq. induction es as [|e es IH]; intros prev seq; cbn [encode_from length]; [lia|].
  specialize (IH (chain prev seq e) (seq + 1)). rewrite length_app, length_encode_entry.
  unfold entry_overhead. lia.
Qed.

(** ** Reading a log *)

(** After the entries of a valid log, the walk is where the log ends. *)
Lemma walk_after es tail :
  log_ok es ->
  walk (encode_log es ++ tail) =
  walk_from (length tail) (log_head es) (zlen es) tail es (length (encode_log es)).
Proof.
  intros [Hok Hl]. unfold walk, encode_log. rewrite walk_app by (done || lia).
  by rewrite Z.add_0_l.
Qed.

Lemma walk_roundtrip es :
  log_ok es -> walk (encode_log es) = Walked Ok es (log_head es) (length (encode_log es)).
Proof. intros H. rewrite <- (app_nil_r (encode_log es)) at 1. by rewrite walk_after. Qed.

(** The verdict on the bytes after a valid log decides the walk. *)
Lemma walk_stops es tail st :
  log_ok es -> st <> Ok -> stopped (log_head es) (zlen es) tail st ->
  walk (encode_log es ++ tail) = Walked st es (log_head es) (length (encode_log es)).
Proof.
  intros Hok Hst H. rewrite walk_after by done.
  destruct st; [done| | |]; destruct H as [Hne H]; by rewrite walk_from_nonempty, H.
Qed.

(** A log cut inside its last entry. *)
Lemma walk_torn es e p q :
  log_ok (es ++ [e]) -> p ++ q = encode_entry (log_head es) (zlen es) e -> p <> [] -> q <> [] ->
  walk (encode_log es ++ p) = Walked TruncatedTail es (log_head es) (length (encode_log es)).
Proof.
  intros Hok Hpq Hp Hq. apply walk_stops; [by eapply log_ok_app|done|]. split; [done|].
  destruct Hok as [[_ He]%Forall_app Hl]. apply Forall_inv in He. rewrite length_app in Hl.
  apply (parse_prefix _ _ e p q); [done| |done|done]. unfold is_u64. cbn [length] in Hl. lia.
Qed.

(** An accepted image is the image of the entries read from it. *)
Lemma walk_image buf :
  exists es tail,
    buf = encode_log es ++ tail /\ Forall entry_ok es /\
    walk buf = Walked (w_status (walk buf)) es (log_head es) (length (encode_log es)) /\
    stopped (log_head es) (zlen es) tail (w_status (walk buf)).
Proof.
  destruct (walk_sound zero_digest 0 buf [] 0) as (es & tail & Hb & Hok & Hw & Hst).
  exists es, tail. rewrite Z.add_0_l in Hst. done.
Qed.

Lemma walk_ok_image buf :
  w_status (walk buf) = Ok ->
  buf = encode_log (w_entries (walk buf)) /\ w_head (walk buf) = log_head (w_entries (walk buf)).
Proof.
  intros Hst. destruct (walk_image buf) as (es & tail & Hb & _ & Hw & Ht).
  rewrite Hst in Ht. cbn in Ht. subst tail. rewrite app_nil_r in Hb.
  by rewrite Hw.
Qed.

(** ** Two logs with one checkpoint *)

(** Different inputs with one hash. *)
Definition collision (x y : bytes) : Prop := x <> y /\ log_hash x = log_hash y.

(** What the [i]-th chain hash of a log covers. *)
Definition nth_chain_input es (i : nat) : option bytes :=
  e ← es !! i; Some (chain_input (log_head (take i es)) (Z.of_nat i) e).

(** The two logs collide at the [i]-th chain hash. *)
Definition chain_collision es1 es2 : Prop :=
  exists i x y, nth_chain_input es1 i = Some x /\ nth_chain_input es2 i = Some y /\ collision x y.

Lemma fixed_image_inj seq e1 e2 :
  entry_ok e1 -> entry_ok e2 ->
  fixed_image seq e1 = fixed_image seq e2 ->
  e_key e1 ++ e_value e1 = e_key e2 ++ e_value e2 -> e1 = e2.
Proof.
  intros H1 H2 Hf Hkv.
  assert (Hk : zlen (e_key e1) = zlen (e_key e2)).
  { rewrite <- (u32_len (e_key e1)), <- (u32_len (e_key e2)) by (apply H1 || apply H2).
    by rewrite <- !(fixed_klen seq), Hf. }
  apply app_inj_1 in Hkv as [Hke Hve]; [|lia].
  rewrite <- (read_fixed_image seq e1), <- (read_fixed_image seq e2) by done.
  by rewrite Hf, Hke, Hve.
Qed.

Lemma chain_input_inj prev1 prev2 seq e1 e2 :
  length prev1 = length prev2 -> entry_ok e1 -> entry_ok e2 ->
  chain_input prev1 seq e1 = chain_input prev2 seq e2 -> prev1 = prev2 /\ e1 = e2.
Proof.
  intros Hl H1 H2. unfold chain_input. intros [Hp H]%app_inj_1; [|done].
  apply app_inj_1 in H as [Hf Hkv]; [|by rewrite !length_fixed_image].
  split; [done|]. by apply (fixed_image_inj seq).
Qed.

Lemma nth_chain_input_snoc es e i :
  (i < length es)%nat -> nth_chain_input (es ++ [e]) i = nth_chain_input es i.
Proof.
  intros Hi. unfold nth_chain_input. by rewrite lookup_app_l, take_app_le by lia.
Qed.

Lemma nth_chain_input_last es e :
  nth_chain_input (es ++ [e]) (length es) = Some (chain_input (log_head es) (zlen es) e).
Proof.
  unfold nth_chain_input. rewrite lookup_app_r, Nat.sub_diag by done.
  by rewrite take_app_length.
Qed.

Lemma chain_collision_snoc es1 es2 e1 e2 :
  chain_collision es1 es2 -> chain_collision (es1 ++ [e1]) (es2 ++ [e2]).
Proof.
  intros (i & x & y & H1 & H2 & Hc). exists i, x, y.
  split_and!; [| |done]; rewrite nth_chain_input_snoc; try done.
  - destruct (decide (i < length es1)%nat); [done|].
    unfold nth_chain_input in H1. by rewrite (lookup_ge_None_2 es1) in H1 by lia.
  - destruct (decide (i < length es2)%nat); [done|].
    unfold nth_chain_input in H2. by rewrite (lookup_ge_None_2 es2) in H2 by lia.
Qed.

Lemma head_binding es1 es2 :
  Forall entry_ok es1 -> Forall entry_ok es2 ->
  length es1 = length es2 -> log_head es1 = log_head es2 ->
  es1 = es2 \/ chain_collision es1 es2.
Proof.
  revert es2. induction es1 as [|e1 es1 IH] using rev_ind; intros es2 H1 H2 Hl Hh.
  { left. by destruct es2. }
  destruct es2 as [|e2 es2 _] using rev_ind; [rewrite length_app in Hl; cbn in Hl; lia|].
  rewrite !length_app in Hl. cbn in Hl. assert (Hl' : length es1 = length es2) by lia.
  apply Forall_app in H1 as [H1 He1%Forall_inv].
  apply Forall_app in H2 as [H2 He2%Forall_inv].
  rewrite !log_head_snoc in Hh.
  destruct (decide (chain_input (log_head es1) (zlen es1) e1 = chain_input (log_head es2) (zlen es2) e2))
    as [E|E].
  - rewrite <- Hl' in E. apply chain_input_inj in E as [Ep ->]; [|by rewrite !length_log_head|done|done].
    destruct (IH es2 H1 H2 Hl' Ep) as [->|Hc]; [by left|right].
    by apply chain_collision_snoc.
  - right. exists (length es1), (chain_input (log_head es1) (zlen es1) e1),
      (chain_input (log_head es2) (zlen es2) e2).
    split_and!; [apply nth_chain_input_last| |split; [done|exact Hh]].
    rewrite Hl'. apply nth_chain_input_last.
Qed.

(** ** Changed bytes *)

(** *** An entry after other bytes *)

Lemma encode_entry_digest prev seq e :
  exists p, encode_entry prev seq e = p ++ chain prev seq e /\
    length p = (4 + fixed_size + length (e_key e) + length (e_value e))%nat.
Proof.
  exists (le_bytes 4 (log_sum (body_image prev seq e)) ++ fixed_image seq e ++ e_key e ++ e_value e).
  unfold encode_entry, body_image. rewrite <- !app_assoc. split; [done|].
  rewrite !length_app, length_le_bytes, length_fixed_image. unfold fixed_size. lia.
Qed.

(** The input of a chain hash determines the position and the size. *)
Lemma chain_input_shape prev1 prev2 seq1 seq2 e1 e2 :
  length prev1 = length prev2 -> is_u64 seq1 -> is_u64 seq2 ->
  chain_input prev1 seq1 e1 = chain_input prev2 seq2 e2 ->
  seq1 = seq2 /\ (length (e_key e1) + length (e_value e1) = length (e_key e2) + length (e_value e2))%nat.
Proof.
  intros Hl H1 H2. unfold chain_input. intros [_ H]%app_inj_1; [|done].
  apply app_inj_1 in H as [Hf Hkv]; [|by rewrite !length_fixed_image].
  apply (f_equal length) in Hkv. rewrite !length_app in Hkv. split; [|done].
  unfold fixed_image in Hf. apply app_inj_1 in Hf as [Hs _]; [|by rewrite !length_le_bytes].
  by apply le_bytes_inj in Hs.
Qed.

(** If an entry follows a valid log after some other bytes, the walk does not get
    to the end of it, or two inputs of the chain collide. *)
Lemma walk_after_garbage es d e :
  log_ok es -> d <> [] ->
  let buf := encode_log es ++ d ++ encode_entry (log_head es) (zlen es) e in
  zlen buf < 2 ^ 64 ->
  es `prefix_of` w_entries (walk buf) /\
  (w_status (walk buf) = Ok -> exists i x, nth_chain_input (w_entries (walk buf)) i = Some x /\
    collision x (chain_input (log_head es) (zlen es) e)).
Proof.
  intros Hes Hd buf Hz. set (tail0 := d ++ encode_entry (log_head es) (zlen es) e) in *.
  destruct (walk_sound (log_head es) (zlen es) tail0 es (length (encode_log es))) as (es3 & tail & Ht & _ & Hw & Hst).
  unfold buf. rewrite walk_after by done. set (st := w_status _) in *. rewrite Hw. cbn [w_entries w_status].
  split; [by apply prefix_app_r|]. intros Est. rewrite Est in Hst. cbn in Hst. subst tail. symmetry in Ht.
  rewrite app_nil_r in Ht. destruct es3 as [|e3 es3 _] using rev_ind.
  { unfold tail0 in Ht. by destruct d. }
  rewrite encode_from_app in Ht. cbn [encode_from] in Ht. rewrite app_nil_r in Ht.
  set (h3 := head_from (log_head es) (zlen es) es3) in *.
  destruct (encode_entry_digest h3 (zlen es + zlen es3) e3) as (p3 & E3 & L3).
  destruct (encode_entry_digest (log_head es) (zlen es) e) as (p & E & L).
  unfold tail0 in Ht. rewrite E3, E, !app_assoc in Ht. apply app_inj_2 in Ht as [Hp Hc]; [|by rewrite !length_chain].
  assert (Hh3 : log_head (es ++ es3) = h3) by (unfold log_head; by rewrite head_from_app, Z.add_0_l).
  exists (length (es ++ es3)), (chain_input h3 (zlen es + zlen es3) e3). split.
  { rewrite app_assoc, nth_chain_input_last, Hh3, length_app. by rewrite Nat2Z.inj_add. }
  split; [|exact Hc]. intros Hin.
  pose proof (encode_count (log_head es) (zlen es) (es3 ++ [e3])) as Hn. rewrite length_app in Hn. cbn [length] in Hn.
  pose proof (encode_count zero_digest 0 es) as Hn0. fold (encode_log es) in Hn0.
  assert (Hlen : length (encode_from (log_head es) (zlen es) (es3 ++ [e3])) = length tail0).
  { unfold tail0. rewrite encode_from_app. cbn [encode_from]. fold h3.
    rewrite app_nil_r, E3, E, !length_app, !length_chain. apply (f_equal length) in Hp. rewrite !length_app in Hp. lia. }
  unfold buf in Hz. rewrite length_app in Hz.
  apply chain_input_shape in Hin as [Hseq Hkv]; [|by rewrite <- Hh3, !length_log_head|unfold is_u64; lia..].
  assert (es3 = []) as -> by (destruct es3; [done|cbn in Hseq; lia]).
  apply (f_equal length) in Hp. cbn [encode_from app] in Hp. rewrite length_app in Hp. destruct d; [done|]. cbn in Hp. lia.
Qed.

(** Key, value and digest cover the rest of an entry. *)
Lemma take_chunks k v (r rest : bytes) :
  length r = (32 + k + v)%nat ->
  take k (r ++ rest) ++ take v (drop k (r ++ rest)) ++ take 32 (drop v (drop k (r ++ rest))) = r.
Proof.
  intros Hr. rewrite (take_app_le r), (drop_app_le r) by lia.
  rewrite (take_app_le (drop k r)), (drop_app_le (drop k r)) by (rewrite length_drop; lia).
  rewrite take_app_le by (rewrite !length_drop; lia).
  rewrite (take_ge (drop v (drop k r))) by (rewrite !length_drop; lia).
  by rewrite !take_drop.
Qed.

(** A fully present entry whose checksum does not match is tampering. *)
Lemma parse_bad_sum prev seq (img rest : bytes) k v :
  getLE32 (drop 28 img) = Z.of_nat k -> getLE32 (drop 32 img) = Z.of_nat v ->
  Z.of_nat k <= max_field -> Z.of_nat v <= max_field ->
  length img = (entry_overhead + k + v)%nat ->
  log_sum (drop 4 img) <> getLE32 img ->
  parse_entry prev seq (img ++ rest) = VTampered.
Proof.
  intros Hk Hv Hkm Hvm Hl Hsum. unfold entry_overhead in Hl. unfold parse_entry.
  destruct (Nat.ltb_spec (length (img ++ rest)) 37) as [Hlt|_]; [rewrite length_app in Hlt; lia|].
  assert (Hget : forall n, (n + 4 <= length img)%nat ->
    getLE32 (drop n (img ++ rest)) = getLE32 (drop n img)).
  { intros n Hn. rewrite drop_app_le, !getLE32_le, take_app_le by (rewrite ?length_drop; lia). done. }
  assert (Hfix : forall n, (n + 4 <= 33)%nat ->
    getLE32 (drop n (take 33 (drop 4 (img ++ rest)))) = getLE32 (drop (4 + n) img)).
  { intros n Hn. rewrite skipn_firstn_comm, drop_drop, <- Hget by lia.
    rewrite !getLE32_le, take_take. do 2 f_equal. lia. }
  cbv zeta. rewrite (Hfix 24%nat), (Hfix 28%nat) by lia.
  change (4 + 24)%nat with 28%nat. change (4 + 28)%nat with 32%nat.
  rewrite Hk, Hv, !Nat2Z.id.
  destruct (Z.ltb_spec max_field (Z.of_nat k)); [lia|].
  destruct (Z.ltb_spec max_field (Z.of_nat v)); [lia|]. cbn [orb].
  destruct (Z.ltb_spec (zlen (img ++ rest)) (Z.of_nat entry_overhead + Z.of_nat k + Z.of_nat v))
    as [Hlt|_]; [rewrite length_app in Hlt; unfold entry_overhead in Hlt; lia|].
  replace (getLE32 (img ++ rest)) with (getLE32 img)
    by (symmetry; apply (Hget 0%nat); lia).
  match goal with |- (if negb (log_sum ?b =? _) then _ else _) = _ =>
    assert (Hb : b = drop 4 img) end.
  { rewrite <- (take_drop 33 (drop 4 img)). f_equal.
    { rewrite drop_app_le, take_app_le by (rewrite ?length_drop; lia). done. }
    set (r := drop 37 img). replace (drop 33 (drop 4 img)) with r by (unfold r; by rewrite drop_drop).
    rewrite (drop_app_le img rest 37) by lia. fold r.
    assert (Hr : length r = (32 + k + v)%nat) by (unfold r; rewrite length_drop; lia).
    by apply take_chunks. }
  rewrite Hb. by destruct (Z.eqb_spec (log_sum (drop 4 img)) (getLE32 img)).
Qed.

(** The image of an entry with the byte at [j] replaced. *)
Definition flip (img : bytes) (j : nat) (b : byte) : bytes := <[j := b]> img.

Lemma flip_split (img : bytes) j b b' :
  img !! j = Some b ->
  exists p s, img = p ++ b :: s /\ flip img j b' = p ++ b' :: s /\ length p = j.
Proof.
  intros Hj. exists (take j img), (drop (S j) img).
  pose proof (lookup_lt_Some _ _ _ Hj). split_and!.
  - symmetry. by apply take_drop_middle.
  - unfold flip. by apply insert_take_drop.
  - rewrite length_take. lia.
Qed.

(** The checksum of an entry and the stored one disagree after any change of
    one byte. *)
Lemma flip_sum (img : bytes) j b b' :
  img !! j = Some b -> b' <> b ->
  log_sum (drop 4 img) = getLE32 img -> (4 <= length img)%nat ->
  log_sum (drop 4 (flip img j b')) <> getLE32 (flip img j b').
Proof.
  intros Hj Hb Hsum Hl. destruct (decide (j < 4)%nat) as [Hlt|Hge].
  - unfold flip. rewrite drop_insert_lt by lia. rewrite Hsum. intros E.
    assert (Ht : take 4 img = take 4 (<[j:=b']> img)).
    { rewrite <- (le_bytes_getLE32 img), <- (le_bytes_getLE32 (<[j:=b']> img)), E
        by (rewrite ?length_insert; lia). done. }
    apply (f_equal (lookup j)) in Ht. rewrite !lookup_take_lt in Ht by lia.
    rewrite list_lookup_insert_eq in Ht by (by eapply lookup_lt_Some). congruence.
  - assert (Hg : getLE32 (flip img j b') = getLE32 img).
    { unfold flip. by rewrite !getLE32_le, take_insert_ge by lia. }
    rewrite Hg, <- Hsum. destruct (flip_split (drop 4 img) (j - 4) b b') as (p & s & E1 & E2 & _).
    { rewrite lookup_drop. by replace (4 + (j - 4))%nat with j by lia. }
    assert (Hd : drop 4 (flip img j b') = flip (drop 4 img) (j - 4) b')
      by (unfold flip; by rewrite drop_insert_ge by lia).
    rewrite Hd, E2, E1. by apply log_sum_one_byte.
Qed.

(** Any change of one byte of an entry outside its two length fields is
    reported as tampering at that entry. *)
Lemma parse_flip prev seq e rest j b b' :
  entry_ok e -> encode_entry prev seq e !! j = Some b -> b' <> b ->
  ~ (28 <= j < 36)%nat ->
  parse_entry prev seq (flip (encode_entry prev seq e) j b' ++ rest) = VTampered.
Proof.
  intros [_ _ Hk Hv] Hj Hb Hout.
  pose proof (length_encode_entry prev seq e) as Hl. unfold entry_overhead in Hl.
  assert (Hd : forall n, (28 <= n /\ n + 4 <= 36)%nat ->
    getLE32 (drop n (flip (encode_entry prev seq e) j b')) =
    getLE32 (drop n (encode_entry prev seq e))).
  { intros n Hn. unfold flip. destruct (decide (j < n)%nat).
    - by rewrite drop_insert_lt by lia.
    - rewrite drop_insert_ge by lia. rewrite !getLE32_le, take_insert_ge by lia. done. }
  assert (Hf : forall n, (n + 4 <= 33)%nat ->
    getLE32 (drop (4 + n) (encode_entry prev seq e)) = getLE32 (drop n (fixed_image seq e))).
  { intros n Hn. unfold encode_entry, body_image.
    rewrite <- drop_drop, drop_app_length' by (by rewrite length_le_bytes).
    rewrite drop_app_le, !getLE32_le, take_app_le by (rewrite ?length_drop, length_fixed_image; lia).
    done. }
  apply (parse_bad_sum _ _ _ _ (length (e_key e)) (length (e_value e))); try done.
  - rewrite Hd by lia. change 28%nat with (4 + 24)%nat. rewrite Hf, fixed_klen by lia. by apply u32_len.
  - rewrite Hd by lia. change 32%nat with (4 + 28)%nat. rewrite Hf, fixed_vlen by lia. by apply u32_len.
  - unfold flip. rewrite length_insert. apply length_encode_entry.
  - eapply flip_sum; [done|done| |lia]. unfold encode_entry.
    rewrite drop_app_length' by (by rewrite length_le_bytes).
    rewrite getLE32_le_bytes by apply log_sum_range. done.
Qed.

(** Where the length of the value is stored, and its replacement. *)
Definition set_vlen (img : bytes) (v : Z) : bytes := take 32 img ++ le_bytes 4 v ++ drop 36 img.

Lemma length_set_vlen (img : bytes) v : (36 <= length img)%nat -> length (set_vlen img v) = length img.
Proof.
  intros Hl. unfold set_vlen. rewrite !length_app, length_take, length_drop, length_le_bytes. lia.
Qed.

Lemma flip_not_nil (img rest : bytes) j b : (0 < length img)%nat -> flip img j b ++ rest <> [].
Proof. intros Hl E%(f_equal length). unfold flip in E. rewrite length_app, length_insert in E. cbn in E. lia. Qed.

(** A log with one byte of one entry changed, outside its length fields. *)
Lemma walk_flip es e rest j b b' :
  log_ok (es ++ [e]) -> encode_entry (log_head es) (zlen es) e !! j = Some b -> b' <> b ->
  ~ (28 <= j < 36)%nat ->
  walk (encode_log es ++ flip (encode_entry (log_head es) (zlen es) e) j b' ++ rest) =
  Walked Tampered es (log_head es) (length (encode_log es)).
Proof.
  intros Hok Hj Hb Hout. apply walk_stops; [by eapply log_ok_app|done|].
  destruct Hok as [[_ He]%Forall_app _]. apply Forall_inv in He. split.
  - apply flip_not_nil. rewrite length_encode_entry. unfold entry_overhead. lia.
  - by eapply parse_flip.
Qed.

(** What the reader makes of an entry whose value length was rewritten. *)
Lemma parse_set_vlen prev seq e rest v :
  entry_ok e -> is_u32 v ->
  parse_entry prev seq (set_vlen (encode_entry prev seq e) v ++ rest) =
  if max_field <? v then VMalformed
  else if zlen (encode_entry prev seq e ++ rest) <? Z.of_nat entry_overhead + zlen (e_key e) + v
  then VTorn
  else parse_entry prev seq (set_vlen (encode_entry prev seq e) v ++ rest).
Proof.
  intros [_ _ Hk _] Hv32.
  pose proof (length_encode_entry prev seq e) as Hl. unfold entry_overhead in Hl.
  set (img := encode_entry prev seq e) in *.
  assert (Hl' : length (set_vlen img v ++ rest) = length (img ++ rest)).
  { rewrite !length_app, length_set_vlen by lia. done. }
  unfold parse_entry. rewrite Hl'.
  destruct (Nat.ltb_spec (length (img ++ rest)) 37) as [Hlt|_]; [rewrite length_app in Hlt; lia|].
  cbv zeta. set (fixed := take 33 (drop 4 (set_vlen img v ++ rest))).
  assert (Hfix : fixed = take 28 (fixed_image seq e) ++ le_bytes 4 v ++ [e_type e]).
  { unfold fixed, set_vlen, img, encode_entry, body_image.
    set (B := fixed_image seq e ++ e_key e ++ e_value e ++ chain prev seq e).
    rewrite <- !app_assoc, (take_app_ge _ B), length_le_bytes by (rewrite length_le_bytes; lia).
    rewrite <- app_assoc, drop_app_length' by (by rewrite length_le_bytes).
    rewrite (drop_app_ge _ B), length_le_bytes by (rewrite length_le_bytes; lia).
    unfold B. rewrite (take_app_le (fixed_image seq e)) by (rewrite length_fixed_image; lia).
    rewrite (drop_app_le (fixed_image seq e)) by (rewrite length_fixed_image; lia).
    rewrite take_app_ge by (rewrite length_take, length_fixed_image; lia). by rewrite length_take, length_fixed_image. }
  assert (Ek : getLE32 (drop 24 fixed) = zlen (e_key e)).
  { rewrite Hfix, drop_app_le by (rewrite length_take, length_fixed_image; lia).
    rewrite <- (u32_len (e_key e)), <- (fixed_klen seq) by done.
    rewrite skipn_firstn_comm, !getLE32_le.
    rewrite take_app_le, take_take by (rewrite length_take, length_drop, length_fixed_image; lia).
    done. }
  assert (Ev : getLE32 (drop 28 fixed) = v).
  { rewrite Hfix, drop_app_length' by (rewrite length_take, length_fixed_image; lia).
    by apply getLE32_le_bytes. }
  rewrite Ek, Ev. destruct (Z.ltb_spec max_field (zlen (e_key e))); [lia|]. cbn [orb].
  destruct (max_field <? v); [done|].
  by destruct (zlen (img ++ rest) <? Z.of_nat entry_overhead + zlen (e_key e) + v).
Qed.

(** A rewritten value length over the cap is reported as malformed; one below
    the cap that runs past the end of the file makes the rest of the log look
    like a torn tail. *)
Lemma walk_set_vlen es e rest v :
  log_ok (es ++ [e]) -> is_u32 v ->
  max_field < v \/ zlen (encode_entry (log_head es) (zlen es) e ++ rest) < 69 + zlen (e_key e) + v ->
  walk (encode_log es ++ set_vlen (encode_entry (log_head es) (zlen es) e) v ++ rest) =
  Walked (if max_field <? v then Malformed else TruncatedTail) es (log_head es)
    (length (encode_log es)).
Proof.
  intros Hok Hv Hbig. pose proof Hok as [[_ He]%Forall_app _]. apply Forall_inv in He.
  apply walk_stops; [by eapply log_ok_app|by destruct (max_field <? v)|].
  assert (Hne : set_vlen (encode_entry (log_head es) (zlen es) e) v ++ rest <> []).
  { intros E%(f_equal length). rewrite length_app, length_set_vlen in E;
      rewrite length_encode_entry in *; unfold entry_overhead in *; cbn in *; lia. }
  pose proof (parse_set_vlen (log_head es) (zlen es) e rest v He Hv) as Hp.
  unfold entry_overhead in Hp. change (Z.of_nat 69) with 69 in Hp.
  destruct (Z.ltb_spec max_field v); [done|].
  destruct (Z.ltb_spec (zlen (encode_entry (log_head es) (zlen es) e ++ rest)) (69 + zlen (e_key e) + v));
    [done|lia].
Qed.
End theory.
