(* ===== verification/WAL.v ===== *)
(** * WAL: the write-ahead log of src/src/WAL.cpp

    Definitions only: [writeExact] and [readExact], the constructor, and one
    definition per method of the class, each with the system calls, the early
    returns and the updates of the members in the order of the source.  The lock
    every method takes makes it atomic; what [std::cerr] prints is left out. *)

From stdpp Require Import gmap.
From S2P Require Import Prelude Endian CRC32 SHA256 Exec Posix LogFormat.

(** ** Transfers of a whole buffer *)

(** A round of either loop makes one system call, so the length of the script
    bounds the rounds; the loop then meets the power cut, never its fuel. *)
Fixpoint write_loop (fuel : nat) (fd : nat) (data : bytes) (written : nat) : M os bool :=
  match fuel with
  | O => halt
  | S fuel =>
      if (written <? length data)%nat then
        r <- sys_write fd (drop written data) ;;
        match r with
        | Fail EINTR => write_loop fuel fd data written
        | Fail _ => ret false
        | Rc n => if n =? 0 then ret false else write_loop fuel fd data (written + Z.to_nat n)
        end
      else ret true
  end.

Definition writeExact (fd : nat) (data : bytes) : M os bool :=
  o <- get ;; write_loop (S (length (os_script o))) fd data 0.

(** [got] is the part of the buffer already filled; [None] is the result
    [false]. *)
Fixpoint read_loop (fuel : nat) (fd : nat) (size : nat) (got : bytes) : M os (option bytes) :=
  match fuel with
  | O => halt
  | S fuel =>
      if (length got <? size)%nat then
        let* (r, d) := sys_read fd (size - length got) in
        match r with
        | Fail EINTR => read_loop fuel fd size got
        | Fail _ => ret None
        | Rc n => if n =? 0 then ret None else read_loop fuel fd size (got ++ d)
        end
      else ret (Some got)
  end.

Definition readExact (fd : nat) (size : nat) : M os (option bytes) :=
  o <- get ;; read_loop (S (length (os_script o))) fd size [].

(** ** Data *)

(** [enum class RecordType : uint8_t]: any byte can be cast to it. *)
Definition RecordType : Type := byte.
Definition PUT : RecordType := x01.
Definition DELETE : RecordType := x02.

Record RecoveryResult := MkResult {
  r_status : RecoveryStatus;
  r_entriesVerified : Z;
  r_tamperOffset : Z;
  r_tamperSeq : Z;
  r_headHash : Sha256Digest
}.

Definition default_result : RecoveryResult := MkResult Ok 0 0 0 zero_digest.

Record Checkpoint := MkCheckpoint { cp_seq : Z; cp_head : Sha256Digest }.

(** What a visitor does to the state [V] it captures. *)
Definition visitor_of (V : Type) : Type := RecordType -> bytes -> bytes -> Z -> V -> V.

Module WAL.

Definition kHeaderSize : nat := 16.
Definition kMaxFieldSize : Z := Z.shiftl 1 20.
Definition WAL_MAGIC : Z := 0x314C5357.
Definition WAL_VERSION : Z := 2.

Definition HDR_OFF_MAGIC : nat := 0.
Definition HDR_OFF_VERSION : nat := HDR_OFF_MAGIC + 4.
Definition HDR_OFF_FLAGS : nat := HDR_OFF_VERSION + 4.

Definition OFF_SEQ : nat := 0.
Definition OFF_TS_LOW : nat := OFF_SEQ + 8.
Definition OFF_TS_HIGH : nat := OFF_TS_LOW + 4.
Definition OFF_EPOCH : nat := OFF_TS_HIGH + 4.
Definition OFF_KEY_LEN : nat := OFF_EPOCH + 8.
Definition OFF_VALUE_LEN : nat := OFF_KEY_LEN + 4.
Definition OFF_TYPE : nat := OFF_VALUE_LEN + 4.
Definition ENTRY_FIXED_SIZE : nat := OFF_TYPE + 1.
Definition HASH_SIZE : nat := 32.

(** The members; [m_fd] is [None] for -1. *)
Record wal := Wal {
  m_path : string;
  m_fd : option nat;
  m_epoch : Z;
  m_seq : Z;
  m_headHash : Sha256Digest;
  m_syncEveryN : Z;
  m_pendingWrites : Z
}.

(** A method runs on the object and the system. *)
Record st := St { s_wal : wal; s_os : os }.

Definition this : M st wal := s <- get ;; ret (s_wal s).
Definition sys {A} (m : M os A) : M st A := zoom s_os (fun o s => St (s_wal s) o) m.
Definition update (f : wal -> wal) : M st unit := modify (fun s => St (f (s_wal s)) (s_os s)).

Definition set_fd (fd : option nat) (w : wal) : wal :=
  Wal (m_path w) fd (m_epoch w) (m_seq w) (m_headHash w) (m_syncEveryN w) (m_pendingWrites w).
Definition set_epoch (e : Z) (w : wal) : wal :=
  Wal (m_path w) (m_fd w) e (m_seq w) (m_headHash w) (m_syncEveryN w) (m_pendingWrites w).
Definition set_chain (seq : Z) (head : Sha256Digest) (w : wal) : wal :=
  Wal (m_path w) (m_fd w) (m_epoch w) seq head (m_syncEveryN w) (m_pendingWrites w).
Definition set_pending (n : Z) (w : wal) : wal :=
  Wal (m_path w) (m_fd w) (m_epoch w) (m_seq w) (m_headHash w) (m_syncEveryN w) n.

Definition failed (r : rc) : bool := match r with Fail _ => true | Rc _ => false end.

(** ** Opening and closing *)

Definition header_bytes : bytes := putLE64 (putLE32 (putLE32 [] WAL_MAGIC) WAL_VERSION) 0.

Definition writeHeader (fd : nat) : M os bool :=
  ok <- writeExact fd header_bytes ;;
  if negb ok then ret false else
  r <- sys_fsync fd ;;
  ret (negb (failed r)).

Definition validateHeader (fd : nat) : M os bool :=
  r <- sys_lseek fd 0 SEEK_SET ;;
  if failed r then ret false else
  h <- readExact fd kHeaderSize ;;
  match h with
  | None => ret false
  | Some header =>
      if negb (getLE32 (drop HDR_OFF_MAGIC header) =? WAL_MAGIC) then ret false else
      if negb (getLE32 (drop HDR_OFF_VERSION header) =? WAL_VERSION) then ret false else
      ret true
  end.

(** The constructor.  On failure the descriptor is closed before the throw. *)
Definition open (path : string) (syncEveryN : Z) : M os wal :=
  r <- sys_open path (OFlags true false true) ;;
  match r with
  | Fail _ => throw (runtime_error ("Failed to open WAL file: " +:+ path))
  | Rc n =>
      let fd := Z.to_nat n in
      st <- sys_fstat fd ;;
      match st with
      | Fail _ => sys_close fd ;;; throw (runtime_error ("Failed to stat WAL file: " +:+ path))
      | Rc st_size =>
          let w := Wal path (Some fd) 0 0 zero_digest (if syncEveryN <? 1 then 1 else syncEveryN) 0 in
          if st_size =? 0 then
            ok <- writeHeader fd ;;
            if negb ok then sys_close fd ;;; throw (runtime_error ("Failed to write WAL header: " +:+ path))
            else ret w
          else
            ok <- validateHeader fd ;;
            if negb ok then sys_close fd ;;; throw (runtime_error ("Invalid or corrupt WAL header: " +:+ path))
            else ret w
      end
  end.

Definition close : M st unit :=
  w <- this ;;
  match m_fd w with
  | None => ret tt
  | Some fd =>
      (if 0 <? m_pendingWrites w
       then sys (sys_fsync fd) ;;; update (set_pending 0)
       else ret tt) ;;;
      sys (sys_close fd) ;;;
      update (set_fd None)
  end.

Definition epoch : M st Z := w <- this ;; ret (m_epoch w).
Definition setEpoch (e : Z) : M st unit := update (set_epoch e).
Definition head : M st Checkpoint := w <- this ;; ret (MkCheckpoint (m_seq w) (m_headHash w)).

Definition reset : M st bool :=
  w <- this ;;
  match m_fd w with
  | None => ret false
  | Some fd =>
      sys (sys_fsync fd) ;;;
      r <- sys (sys_ftruncate fd 0) ;;
      if failed r then ret false else
      r <- sys (sys_lseek fd 0 SEEK_SET) ;;
      if failed r then ret false else
      ok <- sys (writeHeader fd) ;;
      if negb ok then ret false else
      update (set_chain 0 zero_digest) ;;;
      update (set_pending 0) ;;;
      ret true
  end.

(** ** Appending *)

(** The fixed part of an entry. *)
Definition entry_fixed (w : wal) (type : RecordType) (key value : bytes) (timestamp : Z) : bytes :=
  let ts := u64 timestamp in
  let timestamp_low := u32 (Z.land ts 0xFFFFFFFF) in
  let timestamp_high := u32 (Z.land (Z.shiftr ts 32) 0xFFFFFFFF) in
  let key_len := u32 (zlen key) in
  let value_len := u32 (zlen value) in
  let fixed := putLE64 [] (m_seq w) in
  let fixed := putLE32 fixed timestamp_low in
  let fixed := putLE32 fixed timestamp_high in
  let fixed := putLE64 fixed (m_epoch w) in
  let fixed := putLE32 fixed key_len in
  let fixed := putLE32 fixed value_len in
  fixed ++ [type].

(** SHA256(previous hash | fixed | key | value), fed in four pieces. *)
Definition chain_digest (prevHash : Sha256Digest) (fixed key value : bytes) : Sha256Digest :=
  let ctx := SHA256.init in
  let ctx := SHA256.update ctx prevHash in
  let ctx := SHA256.update ctx fixed in
  let ctx := SHA256.update ctx key in
  let ctx := SHA256.update ctx value in
  SHA256.digest ctx.

(** The bytes one [append] writes, and the chain hash they end in. *)
Definition entry_bytes (w : wal) (type : RecordType) (key value : bytes) (timestamp : Z)
  : bytes * Sha256Digest :=
  let fixed := entry_fixed w type key value timestamp in
  let chainHash := chain_digest (m_headHash w) fixed key value in
  let entry := fixed ++ key ++ value ++ chainHash in
  let computed_crc := CRC32.calculate entry in
  let out := putLE32 [] computed_crc in
  (out ++ entry, chainHash).

Definition append (type : RecordType) (key value : bytes) (timestamp : Z) : M st unit :=
  if (kMaxFieldSize <? zlen key) || (kMaxFieldSize <? zlen value)
  then throw (length_error "WAL field exceeds 1048576 bytes") else
  w <- this ;;
  match m_fd w with
  | None => ret tt
  | Some fd =>
      let '(out, chainHash) := entry_bytes w type key value timestamp in
      ok <- sys (writeExact fd out) ;;
      if negb ok then throw (runtime_error "Failed to write entry to WAL") else
      update (fun w => set_chain (u64 (m_seq w + 1)) chainHash w) ;;;
      update (fun w => set_pending (u64 (m_pendingWrites w + 1)) w) ;;;
      w <- this ;;
      if m_syncEveryN w <=? m_pendingWrites w then
        r <- sys (sys_fsync fd) ;;
        if failed r then throw (runtime_error "fsync failed")
        else update (set_pending 0)
      else ret tt
  end.

(** ** Walking the chain *)

Section walk.
Context {V : Type}.
Variables (visitor : option (visitor_of V)) (minEpochExclusive : option Z).

(** How the loop of [walkChain] is left: by [return fail(...)], or at its end
    or by [break], with the local variables. *)
Inductive loop_exit :=
  | LReturn (r : RecoveryResult) (v : V)
  | LExit (current_pos : Z) (prevHash : Sha256Digest) (expectedSeq : Z) (torn : bool) (v : V).

(** The visit of a verified entry. *)
Definition visit (fixed key value : bytes) (v : V) : V :=
  let epoch := getLE64 (drop OFF_EPOCH fixed) in
  match visitor with
  | Some f =>
      if match minEpochExclusive with None => true | Some m => m <? epoch end then
        let timestamp_low := getLE32 (drop OFF_TS_LOW fixed) in
        let timestamp_high := getLE32 (drop OFF_TS_HIGH fixed) in
        let entryTs := i64 (Z.lor (Z.shiftl timestamp_high 32) timestamp_low) in
        f (nth OFF_TYPE fixed x00) key value entryTs v
      else v
  | None => v
  end.

Fixpoint walk_loop (fuel : nat) (fd : nat) (st_size : Z)
  (current_pos : Z) (prevHash : Sha256Digest) (expectedSeq : Z) (v : V) : M os loop_exit :=
  match fuel with
  | O => halt
  | S fuel =>
      if negb (current_pos <? st_size) then ret (LExit current_pos prevHash expectedSeq false v) else
      let torn := ret (LExit current_pos prevHash expectedSeq true v) in
      let fail status :=
        ret (LReturn (MkResult status expectedSeq (u64 current_pos) expectedSeq prevHash) v) in
      c <- readExact fd 4 ;;
      match c with None => torn | Some crc_bytes =>
      let stored_crc := getLE32 crc_bytes in
      f <- readExact fd ENTRY_FIXED_SIZE ;;
      match f with None => torn | Some fixed =>
      let seq := getLE64 (drop OFF_SEQ fixed) in
      let key_len := getLE32 (drop OFF_KEY_LEN fixed) in
      let value_len := getLE32 (drop OFF_VALUE_LEN fixed) in
      if (kMaxFieldSize <? key_len) || (kMaxFieldSize <? value_len) then fail Malformed else
      let remaining := u64 (st_size - current_pos) in
      let needed := 4 + Z.of_nat ENTRY_FIXED_SIZE + Z.of_nat HASH_SIZE + key_len + value_len in
      if remaining <? needed then torn else
      k <- (if 0 <? key_len then readExact fd (Z.to_nat key_len) else ret (Some [])) ;;
      match k with None => torn | Some key =>
      x <- (if 0 <? value_len then readExact fd (Z.to_nat value_len) else ret (Some [])) ;;
      match x with None => torn | Some value =>
      h <- readExact fd HASH_SIZE ;;
      match h with None => torn | Some hash_bytes =>
      let entry := fixed ++ key ++ value ++ hash_bytes in
      if negb (CRC32.calculate entry =? stored_crc) then fail Tampered else
      let computed := chain_digest prevHash fixed key value in
      if negb (bool_decide (computed = hash_bytes)) then fail Tampered else
      if negb (seq =? expectedSeq) then fail Tampered else
      let v := visit fixed key value v in
      let prevHash := computed in
      let expectedSeq := u64 (seq + 1) in
      p <- sys_lseek fd 0 SEEK_CUR ;;
      match p with
      | Fail _ => ret (LExit (-1) prevHash expectedSeq true v)
      | Rc current_pos => walk_loop fuel fd st_size current_pos prevHash expectedSeq v
      end
      end end end end end
  end.

Definition walkChain (allowTruncate : bool) (v : V) : M st (RecoveryResult * V) :=
  w <- this ;;
  match m_fd w with
  | None => ret (default_result, v)
  | Some fd => sys (
      r <- sys_fstat fd ;;
      match r with Fail _ => ret (default_result, v) | Rc st_size =>
      r <- sys_lseek fd (Z.of_nat kHeaderSize) SEEK_SET ;;
      if failed r then ret (default_result, v) else
      o <- get ;;
      x <- walk_loop (S (length (os_script o))) fd st_size (Z.of_nat kHeaderSize) zero_digest 0 v ;;
      match x with
      | LReturn r v => ret (r, v)
      | LExit current_pos prevHash expectedSeq torn v =>
          let result := MkResult (if torn : bool then TruncatedTail else Ok) expectedSeq 0 0 prevHash in
          (if torn && allowTruncate
           then sys_ftruncate fd current_pos ;;; sys_lseek fd 0 SEEK_END ;;; ret tt
           else ret tt) ;;;
          ret (result, v)
      end
      end)
  end.
End walk.

Arguments LReturn {V} r v.
Arguments LExit {V} current_pos prevHash expectedSeq torn v.

Definition recover {V} (visitor : visitor_of V) (minEpochExclusive : option Z) (v : V)
  : M st (RecoveryResult * V) :=
  let* (result, v) := walkChain (Some visitor) minEpochExclusive true v in
  (if bool_decide (r_status result = Ok) || bool_decide (r_status result = TruncatedTail)
   then update (set_chain (r_entriesVerified result) (r_headHash result))
   else ret tt) ;;;
  ret (result, v).

Definition verify : M st RecoveryResult :=
  let* (result, _) := walkChain (V := unit) None None false tt in
  ret result.

End WAL.
