(* ===== verification/WALFacts.v ===== *)
(** * WALFacts: the system calls of the WAL against the abstract log

    Transfers of whole buffers, the header, the bytes of an entry, and the loop
    of [walkChain], for every script of system call outcomes.  The entry code is
    shown to produce [encode_entry], and the loop to follow [walk]. *)

From stdpp Require Import gmap.
From S2P Require Import Prelude Endian CRC32 SHA256 Exec Posix PosixFacts LogFormat LogTheory WAL.

(** ** [writeExact] *)

Section transfers.
Implicit Types (o : os) (fd i off : nat) (f : file) (sc : list outcome).

(** After writing: a prefix [d] of the data is appended, all of it on [true].
    Without [O_APPEND] the offset stays at the end of the file. *)
Definition write_post_gen app o fd i f sc (data : bytes) (r : result bool) (o' : os) : Prop :=
  exists off f' sc' d,
    o' = touch_gen app o fd i off f' sc' /\ (app = true \/ off = length (f_data f')) /\ grows f d f' /\ d `prefix_of` data /\ used sc sc' (1 `min` length data) /\
    match r with
    | Ret true => d = data
    | Ret false => ~ Forall benign sc
    | Throw _ => False
    | Halt => sc' = []
    end.

Lemma write_post_cons app o fd i f x sc data r o' :
  x <> Done ->
  write_post_gen app o fd i f sc data r o' -> write_post_gen app o fd i f (x :: sc) data r o'.
Proof.
  intros Hx (off & f' & sc' & d & -> & Happ & Hg & Hd & Hsc & Hr). exists off, f', sc', d.
  split_and!; [done|done|done|done|by apply used_retry|].
  destruct r as [[]| |]; try done. by intros [_ H]%Forall_cons.
Qed.

(** One partial write, then the rest of the buffer. *)
Lemma write_post_step app o fd i f x sc k data r o' :
  data <> [] -> (x = Done -> k = length data) ->
  write_post_gen app o fd i (f_update (FWrite (length (f_data f)) (take k data)) f) sc (drop k data) r o' ->
  write_post_gen app o fd i f (x :: sc) data r o'.
Proof.
  intros Hne Hx (off & f' & sc' & d & -> & Happ & Hg & [e He] & Hsc & Hr).
  exists off, f', sc', (take k data ++ d).
  assert (Hlen : (0 < length data)%nat) by (destruct data; [done|cbn; lia]).
  split_and!; [done|done|by apply grows_write| | |].
  - exists e. by rewrite <- app_assoc, <- He, take_drop.
  - rewrite length_drop in Hsc. destruct (decide (x = Done)) as [->|Hd].
    + eapply used_le, used_cons, Hsc. rewrite (Hx eq_refl). lia.
    + apply used_retry; [done|]. eapply used_le, Hsc. lia.
  - destruct r as [[]| |]; try done; [by rewrite Hr, take_drop|].
    by intros [_ H]%Forall_cons.
Qed.

Lemma write_loop_post app fuel o fd i off f sc data written :
  (app = true \/ off = length (f_data f)) -> (length sc < fuel)%nat -> (written <= length data)%nat ->
  wp (write_loop fuel fd data written) (touch_gen app o fd i off f sc)
     (write_post_gen app o fd i f sc (drop written data)).
Proof.
  revert o off f sc written.
  induction fuel as [|fuel IH]; intros o off f sc written Happ Hf Hw; [lia|].
  cbn [write_loop]. destruct (Nat.ltb_spec written (length data)) as [Hlt|Hge]; last first.
  { apply wp_ret. exists off, f, sc, []. rewrite drop_ge by lia.
    split_and!; [done|done|constructor|apply prefix_nil|apply used_refl|done]. }
  assert (Hne : drop written data <> []).
  { intros E%(f_equal length). rewrite length_drop in E. cbn in E. lia. }
  apply wp_bind. unfold wp at 1. destruct sc as [|x sc].
  { unfold sys_write. rewrite next_halt. exists off, f, [], [].
    split_and!; [done|done|constructor|apply prefix_nil| |done]. by eapply used_le, used_refl; lia. }
  rewrite sys_write_touch by done. cbn [length] in Hf.
  assert (Hk : forall y k, k = transfer y (length (drop written data)) -> (benign y -> k <> O) ->
    (y = Done -> k = length (drop written data)) ->
    wp (if Z.of_nat k =? 0 then ret false else write_loop fuel fd data (written + Z.to_nat (Z.of_nat k)))
      (touch_gen app o fd i (length (f_data f) + k) (f_update (FWrite (length (f_data f)) (take k (drop written data))) f) sc)
      (write_post_gen app o fd i f (y :: sc) (drop written data))).
  { intros y k Hk Hb Hy. assert (k <= length (drop written data))%nat by (subst k; destruct y; cbn; lia).
    rewrite length_drop in *. destruct (Z.eqb_spec (Z.of_nat k) 0) as [E|E].
    - apply wp_ret. replace k with O in * by lia. rewrite take_0.
      eexists _, _, sc, []. split_and!; [done|right; rewrite f_data_update, apply_append, length_app; done|apply grows_one|apply prefix_nil| |].
      + split; [by apply suffix_cons_r|]. intros [<- _]%Forall_cons. specialize (Hb I). lia.
      + by intros [H1 _]%Forall_cons; apply Hb.
    - eapply wp_mono; [apply IH; [right; rewrite f_data_update, apply_append, length_app, length_take, length_drop; lia|lia..]|].
      intros r o' H1. rewrite Nat2Z.id in H1.
      rewrite <- drop_drop in H1. apply (write_post_step _ _ _ _ _ _ _ k); [done| |done].
      by rewrite length_drop. }
  destruct x as [|k| |]; cbn [fst snd].
  - apply (Hk Done); [done| |done]. rewrite length_drop. cbn. lia.
  - apply (Hk (Short k)); [done| |done]. rewrite length_drop. cbn. lia.
  - eapply wp_mono; [apply IH; [done|lia..]|]. intros r o'. by apply write_post_cons.
  - apply wp_ret. exists off, f, sc, [].
    split_and!; [done|done|constructor|apply prefix_nil|by apply used_retry; [|eapply used_le, used_refl; lia]|].
    by intros [H1 _]%Forall_cons.
Qed.

Lemma writeExact_post_gen app o fd i off f sc data :
  app = true \/ off = length (f_data f) ->
  wp (writeExact fd data) (touch_gen app o fd i off f sc) (write_post_gen app o fd i f sc data).
Proof.
  intros Happ. apply wp_bind, wp_get. rewrite script_touch. rewrite <- (drop_0 data) at 2.
  apply write_loop_post; [done|lia..].
Qed.

Definition write_post o fd i f sc (data : bytes) (r : result bool) (o' : os) : Prop :=
  exists off f' sc' d,
    o' = touch o fd i off f' sc' /\ grows f d f' /\ d `prefix_of` data /\ used sc sc' (1 `min` length data) /\
    match r with
    | Ret true => d = data
    | Ret false => ~ Forall benign sc
    | Throw _ => False
    | Halt => sc' = []
    end.

Lemma writeExact_post o fd i off f sc data :
  wp (writeExact fd data) (touch o fd i off f sc) (write_post o fd i f sc data).
Proof.
  eapply wp_mono; [by apply writeExact_post_gen; left|].
  intros r o' (off' & f' & sc' & d & H1 & _ & H2). by exists off', f', sc', d.
Qed.

(** ** [readExact] *)

(** How many system calls a read needs when each is served in full: one, or
    one more to find the end of the file. *)
Definition read_rounds off f (n : nat) : nat :=
  if (n =? 0)%nat then 0
  else if (off <? length (f_data f))%nat && (length (f_data f) <? off + n)%nat then 2
  else 1.

(** After reading: on success the next bytes of the file; on failure, if no
    call failed, the file ends too early. [got] is the part already read. *)
Definition read_post o fd i off f sc (size : nat) (got : bytes)
  (r : result (option bytes)) (o' : os) : Prop :=
  exists off' sc', o' = touch o fd i off' f sc' /\ sc' `suffix_of` sc /\
    match r with
    | Ret (Some d) =>
        d = got ++ take (size - length got) (drop off (f_data f)) /\ length d = size /\
        off' = (off + (size - length got))%nat
    | Ret None => Forall benign sc -> (length (f_data f) < off + (size - length got))%nat
    | Throw _ => False
    | Halt => sc' = []
    end /\
    (Forall (eq Done) sc ->
      match r with
      | Halt => (length sc < read_rounds off f (size - length got))%nat
      | _ => (length sc <= length sc' + read_rounds off f (size - length got))%nat
      end).

Lemma read_post_cons o fd i off f x sc size got r o' :
  x <> Done ->
  read_post o fd i off f sc size got r o' -> read_post o fd i off f (x :: sc) size got r o'.
Proof.
  intros Hx (off' & sc' & -> & Hsc & Hr & Hl). exists off', sc'.
  split_and!; [done|by apply suffix_cons_r| |by intros [Hd _]%Forall_cons; destruct Hx].
  destruct r as [[d|]| |]; try done. intros [_ H]%Forall_cons. by apply Hr.
Qed.

(** One partial read, then the rest of the buffer. *)
Lemma read_post_step o fd i off f x sc size got n r o' :
  let d := take n (drop off (f_data f)) in
  (length got < size)%nat -> (n <= size - length got)%nat -> d <> [] ->
  (x = Done -> n = (size - length got)%nat) ->
  read_post o fd i (off + length d) f sc size (got ++ d) r o' ->
  read_post o fd i off f (x :: sc) size got r o'.
Proof.
  intros d Hlt Hn Hd Hx (off' & sc' & -> & Hsc & Hr & Hl).
  assert (Hpos : (0 < length d)%nat) by (destruct d; [done|cbn; lia]).
  assert (Hld : length d = (n `min` (length (f_data f) - off))%nat)
    by (unfold d; by rewrite length_take, length_drop).
  exists off', sc'. split_and!; [done|by apply suffix_cons_r| |].
  - destruct r as [[e|]| |]; try done.
    + destruct Hr as (-> & He & ->).
      split_and!; [|exact He|rewrite length_app; lia].
      rewrite length_app, <- app_assoc. f_equal.
      rewrite <- drop_drop. fold d.
      transitivity (take (length d) (drop off (f_data f)) ++
        take (size - (length got + length d)) (drop (length d) (drop off (f_data f)))).
      { f_equal. unfold d. rewrite length_take. symmetry.
        destruct (decide (n <= length (drop off (f_data f)))%nat).
        - by rewrite Nat.min_l by lia.
        - rewrite Nat.min_r by lia. rewrite !take_ge by lia. done. }
      rewrite take_take_drop. f_equal. lia.
    + intros [_ H]%Forall_cons. specialize (Hr H). rewrite length_app in Hr. lia.
  - intros [<- Hall]%Forall_cons. specialize (Hl Hall). specialize (Hx eq_refl).
    unfold read_rounds in *. cbn [length].
    rewrite length_app in Hl.
    destruct (Nat.eqb_spec (size - length got) 0), (Nat.eqb_spec (size - (length got + length d)) 0),
      (Nat.ltb_spec off (length (f_data f))), (Nat.ltb_spec (length (f_data f)) (off + (size - length got))),
      (Nat.ltb_spec (off + length d) (length (f_data f))),
      (Nat.ltb_spec (length (f_data f)) (off + length d + (size - (length got + length d)))); cbn [andb] in *;
      destruct r; lia.
Qed.

Lemma read_loop_post fuel o fd i off f sc size got :
  (length sc < fuel)%nat -> (length got <= size)%nat ->
  wp (read_loop fuel fd size got) (touch o fd i off f sc) (read_post o fd i off f sc size got).
Proof.
  revert off sc got. induction fuel as [|fuel IH]; intros off sc got Hf Hg; [lia|].
  cbn [read_loop]. destruct (Nat.ltb_spec (length got) size) as [Hlt|Hge]; last first.
  { apply wp_ret. exists off, sc. replace (size - length got)%nat with O by lia.
    rewrite take_0, app_nil_r, Nat.add_0_r. split_and!; done || lia. }
  apply wp_bind. unfold wp at 1. destruct sc as [|x sc].
  { unfold sys_read. rewrite next_halt. exists off, []. split_and!; [done|done|done|].
    intros _. cbn [fst]. unfold read_rounds. destruct (Nat.eqb_spec (size - length got) 0); [lia|].
    cbn [length]. case_match; lia. }
  rewrite sys_read_touch. cbn [length] in Hf.
  assert (Hk : forall y n, (n <= size - length got)%nat -> (benign y -> (0 < n)%nat) ->
    (y = Done -> n = (size - length got)%nat) ->
    wp (if zlen (take n (drop off (f_data f))) =? 0 then ret None
        else read_loop fuel fd size (got ++ take n (drop off (f_data f))))
      (touch o fd i (off + length (take n (drop off (f_data f)))) f sc)
      (read_post o fd i off f (y :: sc) size got)).
  { intros y n Hn Hb Hy. destruct (Z.eqb_spec (zlen (take n (drop off (f_data f)))) 0) as [E|E].
    - apply wp_ret. eexists _, sc. rewrite length_take, length_drop in E.
      split_and!; [done|by apply suffix_cons_r| |].
      + intros [H1 _]%Forall_cons. specialize (Hb H1). lia.
      + intros _. cbn [length]. unfold read_rounds. destruct (Nat.eqb_spec (size - length got) 0); [lia|].
        case_match; lia.
    - eapply wp_mono; [apply IH; [lia|]|].
      { rewrite length_app, length_take. lia. }
      intros r o' H1. eapply read_post_step; [exact Hlt|exact Hn| |exact Hy|exact H1].
      intros E'. by rewrite E' in E. }
  destruct x as [|k| |]; cbn [fst snd].
  - apply Hk; cbn [transfer]; [lia|lia|done].
  - apply Hk; cbn [transfer]; [lia| |done]. cbn. lia.
  - eapply wp_mono; [apply IH; lia|]. intros r o'. by apply read_post_cons.
  - apply wp_ret. exists off, sc. split_and!; [done|by apply suffix_cons_r| |].
    + by intros [H1 _]%Forall_cons.
    + by intros [H1 _]%Forall_cons.
Qed.

Lemma readExact_post o fd i off f sc size :
  wp (readExact fd size) (touch o fd i off f sc) (read_post o fd i off f sc size []).
Proof. apply wp_bind, wp_get. rewrite script_touch. apply read_loop_post; cbn; lia. Qed.

(** The rule the loop of [walkChain] uses for each of its reads. *)
Lemma wp_readExact o fd i off f sc size (Q : result (option bytes) -> os -> Prop) :
  (0 < size)%nat ->
  (forall sc', sc' `suffix_of` sc -> (off + size <= length (f_data f))%nat ->
    (Forall (eq Done) sc -> (length sc <= length sc' + 1)%nat) ->
    Q (Ret (Some (take size (drop off (f_data f))))) (touch o fd i (off + size) f sc')) ->
  (forall off' sc', sc' `suffix_of` sc ->
    (Forall benign sc -> (length (f_data f) < off + size)%nat) ->
    (Forall (eq Done) sc -> (length sc <= length sc' + 2)%nat) ->
    Q (Ret None) (touch o fd i off' f sc')) ->
  (forall off', (Forall (eq Done) sc -> (length sc < 2)%nat) -> Q Halt (touch o fd i off' f [])) ->
  wp (readExact fd size) (touch o fd i off f sc) Q.
Proof.
  intros Hz Hs Hn Hh. eapply wp_mono; [apply readExact_post|].
  intros r o' (off' & sc' & -> & Hsc & Hr & Hl). cbn [length] in *. rewrite Nat.sub_0_r in *.
  unfold read_rounds in Hl. destruct (Nat.eqb_spec size 0); [lia|].
  destruct r as [[d|]| |]; [| |done|].
  - cbn [app] in Hr. destruct Hr as (-> & Hd & ->). rewrite length_take, length_drop in Hd.
    apply Hs; [done|lia|]. intros Hall. specialize (Hl Hall).
    destruct (Nat.ltb_spec (length (f_data f)) (off + size)); [lia|].
    rewrite andb_false_r in Hl. lia.
  - apply Hn; [done|done|]. intros Hall. specialize (Hl Hall). case_match; lia.
  - subst sc'. apply Hh. intros Hall. specialize (Hl Hall). case_match; lia.
Qed.
End transfers.

(** ** The bytes of an entry *)

Lemma chain_digest_spec prev fixed key value :
  WAL.chain_digest prev fixed key value = FIPS.sha256 (prev ++ fixed ++ key ++ value).
Proof.
  pose proof (digest_updates [prev; fixed; key; value]) as H.
  cbn [fold_left concat] in H. rewrite app_nil_r in H. exact H.
Qed.

(** The two halves of a timestamp are the eight bytes of the whole. *)
Lemma le_bytes_halves z :
  le_bytes 4 (u32 (Z.land z 0xFFFFFFFF)) ++ le_bytes 4 (u32 (Z.land (Z.shiftr z 32) 0xFFFFFFFF)) =
  le_bytes 8 z.
Proof.
  change (Z.land z 0xFFFFFFFF) with (u32 z).
  change (Z.land (Z.shiftr z 32) 0xFFFFFFFF) with (u32 (Z.shiftr z 32)).
  rewrite !(u32_id (u32 _)) by apply u32_range.
  assert (H4 : forall x, le_bytes 4 (u32 x) = le_bytes 4 x).
  { intros x. rewrite <- (le_bytes_le_value (le_bytes 4 x)), le_value_le_bytes, length_le_bytes.
    by rewrite u32_mod. }
  rewrite !H4. cbn [le_bytes app]. rewrite Z.shiftr_div_pow2, !Z.div_div by lia. done.
Qed.

(** What [append] is asked to record in state [w]. *)
Definition entry_of (w : WAL.wal) (type : RecordType) (key value : bytes) (timestamp : Z) : entry :=
  Entry timestamp (WAL.m_epoch w) type key value.

Lemma entry_fixed_image w type key value ts :
  zlen key <= max_field -> zlen value <= max_field ->
  WAL.entry_fixed w type key value ts = fixed_image (WAL.m_seq w) (entry_of w type key value ts).
Proof.
  intros Hk Hv. unfold WAL.entry_fixed. rewrite !putLE64_le, !putLE32_le, !u32_len by done.
  rewrite app_nil_l, <- !app_assoc. unfold fixed_image, entry_of; cbn [e_timestamp e_epoch e_type e_key e_value].
  rewrite (app_assoc (le_bytes 4 (u32 _)) (le_bytes 4 (u32 _))), le_bytes_halves, le_bytes_u64.
  done.
Qed.

Lemma entry_bytes_spec w type key value ts :
  zlen key <= max_field -> zlen value <= max_field ->
  WAL.entry_bytes w type key value ts =
  (encode_entry (WAL.m_headHash w) (WAL.m_seq w) (entry_of w type key value ts),
   chain (WAL.m_headHash w) (WAL.m_seq w) (entry_of w type key value ts)).
Proof.
  intros Hk Hv. unfold WAL.entry_bytes. rewrite entry_fixed_image, chain_digest_spec by done.
  cbv zeta. by rewrite putLE32_le, app_nil_l.
Qed.

Lemma header_bytes_length : length WAL.header_bytes = WAL.kHeaderSize.
Proof. done. Qed.
