(* ===== verification/WalkFacts.v ===== *)
(** * WalkFacts: the loop of [walkChain] follows the abstract walk

    For every script of outcomes, the loop reads a prefix of the entries that
    [walk] reads, passes them to the visitor in order and never writes.  If no
    call fails, it stops exactly where and why [walk] stops, and a script of
    successful calls as long as the file lets it finish. *)

From stdpp Require Import gmap.
From S2P Require Import Prelude Endian CRC32 SHA256 Exec Posix PosixFacts LogFormat LogTheory WAL WALFacts.

(** ** The visitor on entries *)

Section visit.
Context {V : Type}.
Variables (visitor : option (visitor_of V)) (minEpoch : option Z).

(** Whether an entry is visited: entries at or below the minimum are not. *)
Definition is_visited (e : entry) : bool :=
  match minEpoch with None => true | Some m => m <? e_epoch e end.

Definition visit_entry (v : V) (e : entry) : V :=
  match visitor with
  | Some f => if is_visited e then f (e_type e) (e_key e) (e_value e) (e_timestamp e) v else v
  | None => v
  end.

Definition visit_all (es : list entry) (v : V) : V := fold_left visit_entry es v.

Lemma getLE64_halves p : getLE64 p = Z.lor (Z.shiftl (getLE32 (drop 4 p)) 32) (getLE32 p).
Proof.
  rewrite Z.lor_comm, lor_shiftl_add by (try lia; apply getLE32_range).
  rewrite getLE64_le, !getLE32_le. change 8%nat with (4 + 4)%nat.
  rewrite <- (take_take_drop p 4 4), le_value_app.
  rewrite length_take. destruct (decide (4 <= length p)%nat).
  - rewrite Nat.min_l by done. done.
  - rewrite (drop_ge p) by lia. cbn [take le_value]. lia.
Qed.

Lemma visit_read_fixed fixed key value v :
  WAL.visit visitor minEpoch fixed key value v = visit_entry v (read_fixed fixed key value).
Proof.
  unfold WAL.visit, visit_entry, is_visited, read_fixed; cbn [e_type e_key e_value e_timestamp e_epoch].
  change WAL.OFF_TS_LOW with 8%nat. change WAL.OFF_TS_HIGH with (8 + 4)%nat.
  change WAL.OFF_EPOCH with 16%nat. change WAL.OFF_TYPE with 32%nat.
  by rewrite <- drop_drop, <- getLE64_halves.
Qed.
End visit.

(** ** Scripts and reads *)

(** [m] reads the [n] bytes at [off], like [readExact]. *)
Definition reads (m : M os (option bytes)) (o : os) (fd i : nat) (f : file) (off n : nat) : Prop :=
  forall sc (Q : result (option bytes) -> os -> Prop),
  (forall sc', used sc sc' 1 -> (off + n <= length (f_data f))%nat ->
    Q (Ret (Some (take n (drop off (f_data f))))) (touch o fd i (off + n) f sc')) ->
  (forall off' sc', used sc sc' 2 -> (Forall benign sc -> (length (f_data f) < off + n)%nat) ->
    Q (Ret None) (touch o fd i off' f sc')) ->
  (forall off', (Forall (eq Done) sc -> (length sc < 2)%nat) -> Q Halt (touch o fd i off' f [])) ->
  wp m (touch o fd i off f sc) Q.

Lemma readExact_reads o fd i f off n : (0 < n)%nat -> reads (readExact fd n) o fd i f off n.
Proof.
  intros Hn sc Q Hs Hf Hh. apply wp_readExact; [done| | |done].
  - intros sc' H1 H2 H3. by apply Hs.
  - intros off' sc' H1 H2 H3. by apply Hf.
Qed.

(** The code skips the read of an empty field. *)
Lemma field_reads o fd i f off (n : Z) :
  0 <= n -> (off <= length (f_data f))%nat ->
  reads (if 0 <? n then readExact fd (Z.to_nat n) else ret (Some [])) o fd i f off (Z.to_nat n).
Proof.
  intros Hn Hoff. destruct (Z.ltb_spec 0 n); [apply readExact_reads; lia|].
  intros sc Q Hs _ _. apply wp_ret. replace n with 0 in * by lia. cbn in Hs.
  specialize (Hs sc). rewrite take_0, Nat.add_0_r in Hs. apply Hs; [split; [done|lia]|lia].
Qed.

(** ** The loop *)

Section loop.
Context {V : Type}.
Variables (visitor : option (visitor_of V)) (minEpoch : option Z).
Variables (o : os) (fd i : nat) (f : file).
Hypothesis size_ok : zlen (f_data f) < 2 ^ 63.

Implicit Types (p off : nat) (sc : list outcome) (prev : bytes) (seq : Z) (v : V).

(** How the loop, started at offset [p] with chain [prev] and [seq], is left
    after reading the entries [es]; [tail] is the rest of the file. *)
Definition exit_post p prev seq v sc (es : list entry) (tail : bytes)
  (r : result (WAL.loop_exit)) (sc' : list outcome) : Prop :=
  let h := head_from prev seq es in
  let n := seq + zlen es in
  let pos := Z.of_nat (p + length (encode_from prev seq es)) in
  let v' := visit_all visitor minEpoch es v in
  match r with
  | Ret (WAL.LReturn res w) =>
      stopped h n tail (r_status res) /\ (r_status res = Malformed \/ r_status res = Tampered) /\
      res = MkResult (r_status res) n pos n h /\ w = v'
  | Ret (WAL.LExit pos' h' n' torn w) =>
      h' = h /\ n' = n /\ w = v' /\
      (torn = false -> pos' = pos /\ tail = []) /\
      (torn = true -> (pos' = pos \/ pos' = -1) /\
        (Forall benign sc -> pos' = pos /\ stopped h n tail TruncatedTail))
  | Throw _ => False
  | Halt => sc' = []
  end.

Definition loop_post p prev seq v sc (r : result (WAL.loop_exit)) (o' : os) : Prop :=
  exists off' sc' es tail,
    o' = touch o fd i off' f sc' /\ used sc sc' (6 * length es + 6) /\
    drop p (f_data f) = encode_from prev seq es ++ tail /\ Forall entry_ok es /\
    exit_post p prev seq v sc es tail r sc'.

(** Leaving at once with [torn]. *)
Lemma loop_post_torn p prev seq v sc off' sc' :
  used sc sc' 6 -> drop p (f_data f) <> [] ->
  (Forall benign sc -> parse_entry prev seq (drop p (f_data f)) = VTorn) ->
  loop_post p prev seq v sc (Ret (WAL.LExit (Z.of_nat p) prev seq true v)) (touch o fd i off' f sc').
Proof.
  intros Hsc Hne Ht. exists off', sc', [], (drop p (f_data f)).
  split_and!; [done|done|done|constructor|]. cbn. rewrite Z.add_0_r, Nat.add_0_r.
  split_and!; try done. auto.
Qed.

Lemma loop_post_fail p prev seq v sc off' sc' st :
  used sc sc' 6 -> drop p (f_data f) <> [] -> (p <= length (f_data f))%nat ->
  match st with
  | Malformed => parse_entry prev seq (drop p (f_data f)) = VMalformed
  | Tampered => parse_entry prev seq (drop p (f_data f)) = VTampered
  | _ => False
  end ->
  loop_post p prev seq v sc
    (Ret (WAL.LReturn (MkResult st seq (u64 (Z.of_nat p)) seq prev) v)) (touch o fd i off' f sc').
Proof.
  intros Hsc Hne Hp Hst. exists off', sc', [], (drop p (f_data f)).
  split_and!; [done|done|done|constructor|]. cbn [exit_post r_status encode_from head_from length visit_all fold_left].
  rewrite Z.add_0_r, Nat.add_0_r, u64_id by (unfold is_u64; lia).
  destruct st; try done; cbn; auto.
Qed.

Lemma loop_post_halt p prev seq v sc off' :
  (Forall (eq Done) sc -> (length sc <= 6)%nat) ->
  loop_post p prev seq v sc Halt (touch o fd i off' f []).
Proof.
  intros Hl. exists off', [], [], (drop p (f_data f)).
  split_and!; [done| |done|constructor|done]. split; [apply suffix_nil|cbn; lia].
Qed.

(** An entry was read; the loop goes on after it. *)
Lemma loop_post_entry p prev seq v sc sc1 e d rest r o' :
  parse_entry prev seq (drop p (f_data f)) = VEntry e d rest ->
  sc1 `suffix_of` sc -> (Forall (eq Done) sc -> (length sc <= length sc1 + 6)%nat) ->
  loop_post (p + (length (drop p (f_data f)) - length rest)) d (seq + 1)
    (visit_entry visitor minEpoch v e) sc1 r o' ->
  loop_post p prev seq v sc r o'.
Proof.
  intros Hpe Hsc1 Hlen. apply parse_sound in Hpe as (Hb & -> & Hok).
  rewrite Hb, length_app, Nat.add_sub.
  intros (off' & sc' & es & tail & -> & Hsc & Hd & Hes & Hx).
  exists off', sc', (e :: es), tail. split_and!; [done| | |by constructor|].
  - destruct Hsc as [Hsuf Hsc]. split; [by etrans|]. intros Hall. specialize (Hlen Hall).
    specialize (Hsc (suffix_Forall _ _ _ Hsc1 Hall)). cbn [length]. lia.
  - rewrite Hb. cbn [encode_from]. rewrite <- app_assoc, <- Hd. f_equal.
    rewrite <- drop_drop, Hb. by rewrite drop_app_length.
  - assert (Hall : forall P, Forall P sc -> Forall P sc1).
    { intros P H. destruct Hsc1 as [l ->]. by apply Forall_app in H as [_ H]. }
    assert (En : seq + zlen (e :: es) = seq + 1 + zlen es) by (cbn [length]; lia).
    assert (Ep : (p + length (encode_from prev seq (e :: es)))%nat =
      (p + length (encode_entry prev seq e) + length (encode_from (chain prev seq e) (seq + 1) es))%nat).
    { cbn [encode_from]. rewrite length_app. lia. }
    unfold exit_post in *. rewrite En, Ep. cbn [head_from visit_all fold_left].
    destruct r as [[res w|pos' h' n' torn w]| |]; [exact Hx| |done|exact Hx].
    + destruct Hx as (-> & -> & -> & H1 & H2).
      split_and!; [done|done|done|done|]. intros Ht. destruct (H2 Ht) as [Hp H3]. auto.
Qed.

(** The verdict on a buffer that holds at least a fixed part, in terms of what
    the loop has read. *)
Definition verdict_of prev seq (p : nat) : verdict :=
  let data := f_data f in
  let fixed := take 33 (drop (p + 4) data) in
  let klen := getLE32 (drop 24 fixed) in
  let vlen := getLE32 (drop 28 fixed) in
  if (max_field <? klen) || (max_field <? vlen) then VMalformed else
  if zlen data - Z.of_nat p <? 69 + klen + vlen then VTorn else
  let key := take (Z.to_nat klen) (drop (p + 37) data) in
  let value := take (Z.to_nat vlen) (drop (p + 37 + Z.to_nat klen) data) in
  let digest := take 32 (drop (p + 37 + Z.to_nat klen + Z.to_nat vlen) data) in
  if negb (log_sum (fixed ++ key ++ value ++ digest) =? getLE32 (take 4 (drop p data))) then VTampered else
  if negb (bool_decide (log_hash (prev ++ fixed ++ key ++ value) = digest)) then VTampered else
  if negb (getLE64 fixed =? seq) then VTampered else
  VEntry (read_fixed fixed key value) digest
    (drop (p + 37 + Z.to_nat klen + Z.to_nat vlen + 32) data).

Lemma parse_verdict prev seq p :
  (p + 37 <= length (f_data f))%nat ->
  parse_entry prev seq (drop p (f_data f)) = verdict_of prev seq p.
Proof.
  intros Hp. unfold parse_entry, verdict_of.
  destruct (Nat.ltb_spec (length (drop p (f_data f))) 37) as [Hlt|_];
    [rewrite length_drop in Hlt; lia|].
  cbv zeta. rewrite (getLE32_take (drop p (f_data f)) 4), !drop_drop by lia.
  replace (zlen (drop p (f_data f))) with (zlen (f_data f) - Z.of_nat p)
    by (rewrite length_drop; lia).
  by rewrite <- !Nat.add_assoc.
Qed.

Lemma parse_short prev seq p :
  (length (f_data f) < p + 37)%nat -> parse_entry prev seq (drop p (f_data f)) = VTorn.
Proof.
  intros Hp. unfold parse_entry.
  destruct (Nat.ltb_spec (length (drop p (f_data f))) 37) as [_|Hge]; [done|].
  rewrite length_drop in Hge. lia.
Qed.

(** A read of the loop: it goes on with the bytes, or leaves with [torn]. *)
Lemma wp_loop_read p prev seq v sc sc0 m off n c (k : option bytes -> M os WAL.loop_exit) :
  reads m o fd i f off n -> used sc sc0 c -> (c <= 4)%nat -> drop p (f_data f) <> [] ->
  ((length (f_data f) < off + n)%nat -> parse_entry prev seq (drop p (f_data f)) = VTorn) ->
  k None = ret (WAL.LExit (Z.of_nat p) prev seq true v) ->
  (forall sc', used sc sc' (c + 1) -> (off + n <= length (f_data f))%nat ->
    wp (k (Some (take n (drop off (f_data f))))) (touch o fd i (off + n) f sc')
       (loop_post p prev seq v sc)) ->
  wp (bind m k) (touch o fd i off f sc0) (loop_post p prev seq v sc).
Proof.
  intros Hm Hu Hc Hne Ht Hk Hs. apply wp_bind, Hm.
  - intros sc' Hu' Hoff. apply Hs; [by eapply used_trans|done].
  - intros off' sc' Hu' Hb. rewrite Hk. apply wp_ret.
    apply loop_post_torn; [by eapply used_le, used_trans; [|exact Hu|exact Hu']; lia|done|].
    intros H. apply Ht, Hb. by eapply suffix_Forall; [apply Hu|].
  - intros off' Hd. apply loop_post_halt. intros Hall. destruct Hu as [Hsuf Hu].
    specialize (Hu Hall). specialize (Hd (suffix_Forall _ _ _ Hsuf Hall)). lia.
Qed.

Lemma walk_loop_post fuel p prev seq v sc :
  (length sc < fuel)%nat -> (p <= length (f_data f))%nat ->
  0 <= seq -> 69 * seq <= Z.of_nat p ->
  wp (WAL.walk_loop visitor minEpoch fuel fd (zlen (f_data f)) (Z.of_nat p) prev seq v)
     (touch o fd i p f sc) (loop_post p prev seq v sc).
Proof.
  revert p prev seq v sc. induction fuel as [|fuel IH]; intros p prev seq v sc Hfuel Hp Hs0 Hs; [lia|].
  cbn [WAL.walk_loop]. destruct (Z.ltb_spec (Z.of_nat p) (zlen (f_data f))) as [Hlt|Hge]; cbn [negb]; last first.
  { apply wp_ret. exists p, sc, [], []. rewrite drop_ge by lia.
    split_and!; [done|split; [done|lia]|done|constructor|]. cbn. rewrite Z.add_0_r, Nat.add_0_r. by split_and!. }
  assert (Hne : drop p (f_data f) <> []).
  { intros E%(f_equal length). rewrite length_drop in E. cbn in E. lia. }
  eapply wp_loop_read; [apply readExact_reads; lia|apply used_refl|lia|done| |done|].
  { intros. apply parse_short. lia. }
  intros sc1 Hu1 Hl1. cbv beta iota.
  eapply wp_loop_read; [apply readExact_reads, Nat.lt_0_succ|exact Hu1|lia|done| |done|].
  { change WAL.ENTRY_FIXED_SIZE with 33%nat. intros. apply parse_short. lia. }
  change WAL.ENTRY_FIXED_SIZE with 33%nat. intros sc2 Hu2 Hl2. cbv beta iota.
  pose proof (parse_verdict prev seq p ltac:(lia)) as Hpe. unfold verdict_of in Hpe.
  change WAL.OFF_KEY_LEN with 24%nat. change WAL.OFF_VALUE_LEN with 28%nat.
  change WAL.OFF_SEQ with 0%nat. change WAL.kMaxFieldSize with max_field. rewrite drop_0.
  set (fixed := take 33 (drop (p + 4) (f_data f))) in *. cbv zeta in Hpe |- *.
  pose proof (getLE32_range (drop 24 fixed)) as Hk0. pose proof (getLE32_range (drop 28 fixed)) as Hv0.
  unfold is_u32 in Hk0, Hv0.
  set (klen := getLE32 (drop 24 fixed)) in *. set (vlen := getLE32 (drop 28 fixed)) in *.
  destruct ((max_field <? klen) || (max_field <? vlen)).
  { apply wp_ret, loop_post_fail; [by eapply used_le, Hu2; lia|done|done|done]. }
  rewrite u64_id by (unfold is_u64; lia).
  change (Z.of_nat 33) with 33. change (Z.of_nat WAL.HASH_SIZE) with 32. change (4 + 33 + 32) with 69.
  destruct (Z.ltb_spec (zlen (f_data f) - Z.of_nat p) (69 + klen + vlen)) as [Hn|Hn].
  { apply wp_ret, loop_post_torn; [by eapply used_le, Hu2; lia|done|done]. }
  eapply wp_loop_read; [apply field_reads; lia|exact Hu2|lia|done|intros; exfalso; lia|done|].
  intros sc3 Hu3 Hl3. cbv beta iota.
  eapply wp_loop_read; [apply field_reads; lia|exact Hu3|lia|done|intros; exfalso; lia|done|].
  intros sc4 Hu4 Hl4. cbv beta iota.
  eapply wp_loop_read; [apply readExact_reads, Nat.lt_0_succ|exact Hu4|lia|done| |done|].
  { change WAL.HASH_SIZE with 32%nat. intros; exfalso; lia. }
  change WAL.HASH_SIZE with 32%nat. intros sc5 Hu5 Hl5. cbv beta iota.
  replace (p + 4 + 33)%nat with (p + 37)%nat in * by lia. rewrite chain_digest_spec.
  set (key := take (Z.to_nat klen) _) in *. set (value := take (Z.to_nat vlen) _) in *.
  set (digest := take 32 _) in *. cbn [log_sum crc32_log_checksum log_hash sha256_log_hash] in Hpe.
  destruct (CRC32.calculate (fixed ++ key ++ value ++ digest) =? getLE32 (take 4 (drop p (f_data f)))); cbn [negb] in *; last first.
  { apply wp_ret, loop_post_fail; [by eapply used_le, Hu5; lia|done|done|done]. }
  set (d := FIPS.sha256 (prev ++ fixed ++ key ++ value)) in *.
  destruct (decide (d = digest)) as [Hd|Hd];
    [rewrite !(bool_decide_eq_true_2 _ Hd) in *|rewrite !(bool_decide_eq_false_2 _ Hd) in *];
    cbn [negb] in *; last first.
  { apply wp_ret, loop_post_fail; [by eapply used_le, Hu5; lia|done|done|done]. }
  destruct (Z.eqb_spec (getLE64 fixed) seq) as [Hq|]; cbn [negb] in *; last first.
  { apply wp_ret, loop_post_fail; [by eapply used_le, Hu5; lia|done|done|done]. }
  rewrite visit_read_fixed, Hq, Hd, u64_id by (unfold is_u64; lia).
  set (p' := (p + 37 + Z.to_nat klen + Z.to_nat vlen + 32)%nat) in *.
  set (v' := visit_entry visitor minEpoch v (read_fixed fixed key value)).
  assert (Hent : forall r o' sc1, sc1 `suffix_of` sc ->
    (Forall (eq Done) sc -> (length sc <= length sc1 + 6)%nat) ->
    loop_post p' digest (seq + 1) v' sc1 r o' -> loop_post p prev seq v sc r o').
  { intros r o' sc' Hsc' Hlen H. eapply (loop_post_entry _ _ _ _ _ _ _ _ _ _ _ Hpe Hsc' Hlen).
    rewrite !length_drop. replace (_ + _)%nat with p' by lia. exact H. }
  destruct Hu5 as [Hs5 Hu5]. apply wp_bind. unfold wp at 1. destruct sc5 as [|x sc5].
  { apply loop_post_halt. intros Hall. specialize (Hu5 Hall). cbn in Hu5. lia. }
  rewrite sys_lseek_touch by lia.
  assert (Hs6 : sc5 `suffix_of` sc) by (etrans; [|exact Hs5]; by apply suffix_cons_r).
  assert (Hl6 : Forall (eq Done) sc -> (length sc <= length sc5 + 6)%nat)
    by (intros Hall; specialize (Hu5 Hall); cbn in Hu5; lia).
  assert (Hlen5 : (length sc5 < length sc)%nat)
    by (destruct Hs5 as [l ->]; rewrite length_app; cbn; lia).
  assert (Hrec : wp (WAL.walk_loop visitor minEpoch fuel fd (zlen (f_data f)) (Z.of_nat p') digest (seq + 1) v')
    (touch o fd i p' f sc5) (loop_post p prev seq v sc)).
  { eapply wp_mono; [apply IH; lia|]. intros r o'. by apply Hent. }
  assert (Ht : seek_target p' f 0 SEEK_CUR = Z.of_nat p') by done.
  rewrite Ht, Nat2Z.id.
  destruct x; cbn [fst snd]; [exact Hrec|exact Hrec|exact Hrec|].
  apply wp_ret, (Hent _ _ (Err :: sc5)); [done|by intros Hall; specialize (Hl6 Hall); cbn; lia|].
  exists p', sc5, [], (drop p' (f_data f)).
  split_and!; [done|split; [by apply suffix_cons_r|cbn; lia]|done|constructor|].
  cbn. rewrite Z.add_0_r, Nat.add_0_r. split_and!; try done.
  intros _. split; [by right|]. by intros [H _]%Forall_cons.
Qed.
End loop.

(** ** The whole of [walkChain] *)

(** The contents after the header. *)
Definition log_part (f : file) : bytes := drop WAL.kHeaderSize (f_data f).

(** The result for a walk that stopped with [st] after the entries [es]. *)
Definition result_of (st : RecoveryStatus) (es : list entry) : RecoveryResult :=
  match st with
  | Ok | TruncatedTail => MkResult st (zlen es) 0 0 (log_head es)
  | Malformed | Tampered =>
      MkResult st (zlen es) (Z.of_nat (WAL.kHeaderSize + length (encode_log es))) (zlen es) (log_head es)
  end.

(** The file cut after the entries [es]. *)
Definition cut_at (es : list entry) (f : file) : file :=
  f_update (FTrunc (WAL.kHeaderSize + length (encode_log es))) f.

Section chain.
Context {V : Type}.
Variables (visitor : option (visitor_of V)) (minEpoch : option Z) (allow : bool).

(** [es] are entries at the front of the log, [tail] is what follows them. *)
Definition reads_log (f : file) (es : list entry) (tail : bytes) : Prop :=
  log_part f = encode_log es ++ tail /\ Forall entry_ok es.

(** What justifies a cut after [es]: unless a call failed, the rest is torn. *)
Definition torn_at (f : file) (sc : list outcome) (es : list entry) (tail : bytes) : Prop :=
  Forall benign sc -> stopped (log_head es) (zlen es) tail TruncatedTail.

Definition chain_post (o : os) (fd i : nat) (f : file) (sc : list outcome) (v : V)
  (r : result (RecoveryResult * V)) (o' : os) : Prop :=
  exists off' sc' f' es tail,
    o' = touch o fd i off' f' sc' /\ used sc sc' (6 * length es + 10) /\ reads_log f es tail /\
    (f' = f \/ allow = true /\ f' = cut_at es f /\ torn_at f sc es tail) /\
    match r with
    | Ret (res, v') =>
        (res = default_result /\ v' = v /\ f' = f /\ ~ Forall benign sc) \/
        exists st, res = result_of st es /\ v' = visit_all visitor minEpoch es v /\
          (st <> TruncatedTail -> f' = f) /\
          (st <> TruncatedTail \/ Forall benign sc -> stopped (log_head es) (zlen es) tail st) /\
          (Forall (eq Done) sc -> allow = true -> st = TruncatedTail -> f' = cut_at es f)
    | Throw _ => False
    | Halt => Forall (eq Done) sc -> (length sc <= 6 * length es + 10)%nat
    end.

(** What follows the loop: the result, and the cut of a torn tail. *)
Definition chain_end (fd : nat) (x : @WAL.loop_exit V) : M os (RecoveryResult * V) :=
  match x with
  | WAL.LReturn r v => ret (r, v)
  | WAL.LExit current_pos prevHash expectedSeq torn v =>
      let result := MkResult (if torn : bool then TruncatedTail else Ok) expectedSeq 0 0 prevHash in
      (if torn && allow
       then sys_ftruncate fd current_pos ;;; sys_lseek fd 0 SEEK_END ;;; ret tt
       else ret tt) ;;;
      ret (result, v)
  end.

Lemma chain_end_post o fd i off f sc0 sc v es tail x :
  reads_log f es tail -> used sc0 sc (6 * length es + 8) -> zlen (f_data f) < 2 ^ 63 ->
  exit_post visitor minEpoch WAL.kHeaderSize zero_digest 0 v sc0 es tail (Ret x) sc ->
  wp (chain_end fd x) (touch o fd i off f sc) (chain_post o fd i f sc0 v).
Proof.
  intros Hr Hsc Hz Hx.
  assert (Hmore : forall n sc', (n <= 2)%nat -> used sc sc' n -> used sc0 sc' (6 * length es + 10)).
  { intros n sc' Hn Hu. eapply used_le, used_trans; [|exact Hsc|exact Hu]. lia. }
  destruct x as [res w|pos h n torn w]; cbn [chain_end].
  - apply wp_ret. exists off, sc, f, es, tail.
    split_and!; [done|by apply (Hmore 0%nat); [lia|apply used_refl]|done|by left|].
    right. destruct Hx as (Hst & Hf & Hres & ->). exists (r_status res).
    rewrite Z.add_0_l in *. split_and!; [|done|done|done|].
    + rewrite Hres. by destruct Hf as [-> | ->].
    + intros _ _ E. rewrite E in Hf. by destruct Hf.
  - destruct Hx as (-> & -> & -> & Hok & Htorn). rewrite Z.add_0_l in *.
    fold (log_head es) in *.
    assert (Hend : forall sc' off' f',
      used sc0 sc' (6 * length es + 10) -> f' = f \/ (torn && allow = true /\ f' = cut_at es f /\ torn_at f sc0 es tail) ->
      (Forall (eq Done) sc0 -> allow = true -> torn = true -> f' = cut_at es f) ->
      wp (ret (MkResult (if torn then TruncatedTail else Ok) (zlen es) 0 0 (log_head es), visit_all visitor minEpoch es v))
        (touch o fd i off' f' sc') (chain_post o fd i f sc0 v)).
    { intros sc' off' f' Hs Hf Hd. apply wp_ret. exists off', sc', f', es, tail.
      split_and!; [done|done|done|destruct Hf as [|[[_ H]%andb_true_iff H']]; auto|].
      right. exists (if torn then TruncatedTail else Ok). split_and!; [by destruct torn|done| | |].
      - intros Ht. destruct torn; [done|]. by destruct Hf as [|[? _]].
      - intros Ht. destruct torn; [destruct Ht as [|Ht]; [done|by apply Htorn]|by apply Hok].
      - intros Hall Ha Ht. apply Hd; [done..|]. by destruct torn. }
    destruct (torn && allow) eqn:Eta; last first.
    { apply wp_bind, wp_ret, Hend; [by apply (Hmore 0%nat); [lia|apply used_refl]|by left|]. intros _ -> ->. done. }
    apply andb_true_iff in Eta as [Et Ea]. destruct (Htorn Et) as [Hpos Hben].
    assert (Hta : torn_at f sc0 es tail) by (intros Hb; apply (Hben Hb)).
    apply wp_bind, wp_bind. unfold wp at 1. destruct sc as [|y sc].
    { exists off, [], f, es, tail.
      split_and!; [done|by apply (Hmore 0%nat); [lia|apply used_refl]|done|by left|].
      intros Hd. destruct Hsc as [_ Hlen]. specialize (Hlen Hd). cbn in Hlen. lia. }
    assert (Hs1 : used (y :: sc) sc 1) by apply used_cons, used_refl.
    rewrite sys_ftruncate_touch.
    assert (Hseek : forall f', f' = f \/ f' = cut_at es f ->
      (Forall (eq Done) sc0 -> f' = cut_at es f) ->
      wp (sys_lseek fd 0 SEEK_END ;;; ret tt) (touch o fd i off f' sc) (fun r s' =>
        match r with
        | Ret _ => wp (ret (MkResult (if torn then TruncatedTail else Ok) (zlen es) 0 0 (log_head es),
             visit_all visitor minEpoch es v)) s' (chain_post o fd i f sc0 v)
        | Throw e => chain_post o fd i f sc0 v (Throw e) s'
        | Halt => chain_post o fd i f sc0 v Halt s'
        end)).
    { intros f' Hf' Hd. apply wp_bind. unfold wp at 1. destruct sc as [|z sc'].
      { exists off, [], f', es, tail.
        split_and!; [done|by eapply Hmore, Hs1; lia|done|destruct Hf'; auto|].
        intros Hall. destruct Hsc as [_ Hlen]. specialize (Hlen Hall). cbn in Hlen. lia. }
      rewrite sys_lseek_touch by lia.
      assert (Hs2 : used sc0 sc' (6 * length es + 10))
        by (apply (Hmore 2%nat); [done|]; do 2 apply used_cons; apply used_refl).
      destruct z; apply wp_ret, Hend; try done; rewrite ?Et, ?Ea; try (destruct Hf'; by auto);
        intros; by apply Hd. }
    assert (Hdone : y <> Done -> forall f', Forall (eq Done) sc0 -> f' = cut_at es f).
    { intros Hy f' Hall. destruct Hsc as [[l ->] _]. apply Forall_app in Hall as [_ [H _]%Forall_cons].
      by destruct Hy. }
    assert (Hcut : wp (sys_lseek fd 0 SEEK_END ;;; ret tt)
      (if pos <? 0 then touch o fd i off f sc
       else touch o fd i off (f_update (FTrunc (Z.to_nat pos)) f) sc)
      (fun r s' =>
        match r with
        | Ret _ => wp (ret (MkResult (if torn then TruncatedTail else Ok) (zlen es) 0 0 (log_head es),
             visit_all visitor minEpoch es v)) s' (chain_post o fd i f sc0 v)
        | Throw e => chain_post o fd i f sc0 v (Throw e) s'
        | Halt => chain_post o fd i f sc0 v Halt s'
        end)).
    { destruct (Z.ltb_spec pos 0).
      - apply Hseek; [by left|]. intros Hall. destruct (Hben (benign_done _ Hall)) as [-> _]. lia.
      - destruct Hpos as [-> | ->]; [|lia]. rewrite Nat2Z.id. apply Hseek; [by right|done]. }
    destruct y; cbn [fst snd].
    + destruct (pos <? 0); exact Hcut.
    + destruct (pos <? 0); exact Hcut.
    + apply Hseek; [by left|]. by apply Hdone.
    + apply Hseek; [by left|]. by apply Hdone.
Qed.
Lemma chain_after_loop o fd i off f sc0 sc v es tail r :
  reads_log f es tail -> zlen (f_data f) < 2 ^ 63 -> used sc0 sc (6 * length es + 8) ->
  exit_post visitor minEpoch WAL.kHeaderSize zero_digest 0 v sc0 es tail r sc ->
  match r with
  | Ret x => wp (chain_end fd x) (touch o fd i off f sc) (chain_post o fd i f sc0 v)
  | Throw e => chain_post o fd i f sc0 v (Throw e) (touch o fd i off f sc)
  | Halt => chain_post o fd i f sc0 v Halt (touch o fd i off f sc)
  end.
Proof.
  intros Hr Hz Hu Hx. destruct r as [x| |]; [|done|].
  - by apply (chain_end_post o fd i off f sc0 sc v es tail x).
  - exists off, sc, f, es, tail. split_and!; [done|by eapply used_le, Hu; lia|done|by left|].
    intros H. destruct Hu as [_ Hl]. specialize (Hl H). rewrite Hx in Hl. cbn in Hl. lia.
Qed.

Lemma walkChain_post w o fd i off f sc v :
  WAL.m_fd w = Some fd -> zlen (f_data f) < 2 ^ 63 -> (WAL.kHeaderSize <= length (f_data f))%nat ->
  wp (WAL.walkChain visitor minEpoch allow v) (WAL.St w (touch o fd i off f sc))
     (fun r s => WAL.s_wal s = w /\ chain_post o fd i f sc v r (WAL.s_os s)).
Proof.
  intros Hfd Hz Hh. apply wp_bind, wp_bind, wp_get, wp_ret. cbn [WAL.s_wal]. rewrite Hfd.
  apply wp_zoom. cbn [WAL.s_os]. eapply wp_mono with (P := chain_post o fd i f sc v); [|done].
  assert (H0 : reads_log f [] (log_part f)) by (split; [done|constructor]).
  assert (Hhalt : forall off', (length sc <= 10)%nat ->
    chain_post o fd i f sc v Halt (touch o fd i off' f [])).
  { intros off' Hl. exists off', [], f, [], (log_part f).
    split_and!; [done|split; [apply suffix_nil|cbn; lia]|done|by left|]. intros _. cbn. lia. }
  assert (Hdef : forall off' sc', used sc sc' 10 -> ~ Forall benign sc ->
    chain_post o fd i f sc v (Ret (default_result, v)) (touch o fd i off' f sc')).
  { intros off' sc' Hs Hb. exists off', sc', f, [], (log_part f).
    split_and!; [done|done|done|by left|]. by left. }
  assert (Herr : forall x sc', Err :: sc' `suffix_of` x -> ~ Forall benign x).
  { intros x sc' [l ->] [_ [H _]%Forall_cons]%Forall_app. done. }
  apply wp_bind. unfold wp at 1. destruct sc as [|x sc]; [by apply Hhalt; cbn; lia|].
  rewrite sys_fstat_touch.
  assert (Hstat : forall y, y = x -> wp (
      r <- sys_lseek fd (Z.of_nat WAL.kHeaderSize) SEEK_SET ;;
      if WAL.failed r then ret (default_result, v) else
      o <- get ;;
      x <- WAL.walk_loop visitor minEpoch (S (length (os_script o))) fd (zlen (f_data f))
             (Z.of_nat WAL.kHeaderSize) zero_digest 0 v ;;
      chain_end fd x) (touch o fd i off f sc) (chain_post o fd i f (x :: sc) v)).
  { intros _ _. apply wp_bind. unfold wp at 1. destruct sc as [|z sc]; [by apply Hhalt; cbn; lia|].
    rewrite sys_lseek_touch by lia.
    assert (Hs2 : used (x :: z :: sc) sc 10) by (eapply used_le; [|do 2 apply used_cons; apply used_refl]; lia).
    destruct (decide (z = Err)) as [->|Hz'].
    { cbn [fst snd WAL.failed]. apply wp_ret, Hdef; [done|]. eapply Herr. by apply suffix_cons_r. }
    assert (Hgo : wp (o <- get ;;
      x <- WAL.walk_loop visitor minEpoch (S (length (os_script o))) fd (zlen (f_data f))
             (Z.of_nat WAL.kHeaderSize) zero_digest 0 v ;;
      chain_end fd x) (touch o fd i WAL.kHeaderSize f sc) (chain_post o fd i f (x :: z :: sc) v)).
    { apply wp_bind, wp_get. rewrite script_touch. apply wp_bind.
      eapply wp_mono; [apply walk_loop_post; lia|].
      intros r o' (off' & sc' & es & tail & -> & Hsc & Hd & Hes & Hx).
      apply chain_after_loop with (es := es) (tail := tail); try done.
      - destruct Hsc as [Hsc Hl]. split; [by do 2 apply suffix_cons_r|]. intros [_ [_ Hall]%Forall_cons]%Forall_cons.
        specialize (Hl Hall). cbn [length]. lia.
      - destruct r as [[]| |]; try done. destruct Hx as (-> & -> & -> & H1 & H2).
        split_and!; [done|done|done|done|]. intros Ht. destruct (H2 Ht) as [H3 H4].
        split; [done|]. intros [_ [_ Hb]%Forall_cons]%Forall_cons. by apply H4. }
    destruct z; cbn [fst snd WAL.failed]; [exact Hgo|exact Hgo|exact Hgo|done]. }
  destruct x; cbn [fst snd]; [by apply (Hstat Done)|by apply (Hstat (Short k))|by apply (Hstat Intr)|].
  apply wp_ret, Hdef; [eapply used_le, used_cons, used_refl; lia|]. by apply (Herr _ sc).
Qed.
End chain.

(** ** What a visitor preserves *)

(** A property of the visitor's state survives any walk, for any file and any
    outcomes. *)
Section invariant.
Context {V : Type} (P : V -> Prop).
Variables (visitor : visitor_of V) (minEpoch : option Z).
Hypothesis HP : forall type key value ts v, P v -> P (visitor type key value ts v).

Definition exit_state (x : @WAL.loop_exit V) : V :=
  match x with WAL.LReturn _ v => v | WAL.LExit _ _ _ _ v => v end.

Lemma wp_any {S A B} (m : M S A) (k : A -> M S B) s (Q : result B -> S -> Prop) :
  (forall a s', wp (k a) s' Q) -> (forall e s', Q (Throw e) s') -> (forall s', Q Halt s') -> wp (bind m k) s Q.
Proof. intros H1 H2 H3. apply wp_bind. unfold wp at 1. destruct (m s) as [[a|e|] s']; cbn; auto. Qed.

Lemma visit_inv fixed key value v : P v -> P (WAL.visit (Some visitor) minEpoch fixed key value v).
Proof. intros Hv. unfold WAL.visit. destruct (match minEpoch with None => true | Some m => _ end); auto. Qed.

Definition keeps (r : result (@WAL.loop_exit V)) (_ : os) : Prop :=
  match r with Ret x => P (exit_state x) | _ => True end.

Lemma walk_loop_inv fuel fd size pos prev seq v o :
  P v -> wp (WAL.walk_loop (Some visitor) minEpoch fuel fd size pos prev seq v) o keeps.
Proof.
  revert pos prev seq v o. induction fuel as [|fuel IH]; intros pos prev seq v o Hv; [done|]. cbn [WAL.walk_loop].
  repeat first
    [ match goal with |- wp (if ?b then _ else _) _ _ => destruct b end
    | match goal with |- wp (match ?x with Some _ => _ | None => _ end) _ _ => destruct x end
    | match goal with |- wp (match ?x with Rc _ => _ | Fail _ => _ end) _ _ => destruct x end
    | apply wp_ret
    | (apply wp_any; [intros|done|done]) ].
  all: try exact Hv; try (by apply visit_inv); apply IH, visit_inv, Hv.
Qed.

Lemma recover_inv v s :
  P v -> wp (WAL.recover visitor minEpoch v) s (fun r _ => match r with Ret (_, v') => P v' | _ => True end).
Proof.
  intros Hv. unfold WAL.recover. apply wp_bind.
  eapply wp_mono with (P := fun r _ => match r with Ret (_, v') => P v' | _ => True end).
  - unfold WAL.walkChain. apply wp_any; [intros w s1|done|done]. destruct (WAL.m_fd w) as [fd|]; [|by apply wp_ret].
    apply wp_zoom. apply wp_any; [intros [n|e] o1|done|done]; [|by apply wp_ret].
    apply wp_any; [intros r o2|done|done]. destruct (WAL.failed r); [by apply wp_ret|]. apply wp_bind, wp_get, wp_bind.
    eapply wp_mono; [by apply walk_loop_inv|]. intros [x| |] o3 Hx; [|done|done]. cbn in Hx.
    destruct x as [res w'|pos h n' torn w']; [by apply wp_ret|]. by apply wp_any; [intros; apply wp_ret|..].
  - intros [[res v']|x|] s1 Hx; [|done|done]. by apply wp_any; [intros; apply wp_ret|..].
Qed.
End invariant.
