(* ===== verification/WALTheory.v ===== *)
(** * WALTheory: what the write-ahead log promises

    [rep] relates a state of the C++ object and its file to a list of entries.
    The theorems give the effect of every method on every outcome of the system
    calls it makes, what a power cut at any moment leaves, and what [verify] and
    [recover] then report. *)

From stdpp Require Import gmap.
From S2P Require Import Prelude Endian CRC32 SHA256 Exec Posix PosixFacts LogFormat LogTheory WAL WALFacts WalkFacts.

(** ** The representation *)

(** The descriptor [fd] of the object is open on the file [f], number [i]. *)
Definition opened (s : WAL.st) (fd i : nat) (f : file) : Prop :=
  WAL.m_fd (WAL.s_wal s) = Some fd /\ exists off, file_of fd (WAL.s_os s) = Some (i, off, true, f).

(** The members agree with the log [es]. *)
Record members (w : WAL.wal) (es : list entry) : Prop := {
  mem_seq : WAL.m_seq w = zlen es;
  mem_head : WAL.m_headHash w = log_head es;
  mem_epoch : is_u64 (WAL.m_epoch w);
  mem_every : 1 <= WAL.m_syncEveryN w;
  mem_pending : 0 <= WAL.m_pendingWrites w <= zlen es
}.

(** The file holds exactly the log [es]. *)
Record holds (f : file) (es : list entry) : Prop := {
  holds_data : f_data f = WAL.header_bytes ++ encode_log es;
  holds_ok : Forall entry_ok es;
  holds_size : zlen (f_data f) < 2 ^ 63
}.

Record rep (s : WAL.st) (fd i : nat) (f : file) (es : list entry) : Prop := {
  rep_opened : opened s fd i f;
  rep_holds : holds f es;
  rep_members : members (WAL.s_wal s) es
}.

Lemma opened_touch s fd i f :
  opened s fd i f -> exists off, s = WAL.St (WAL.s_wal s) (touch (WAL.s_os s) fd i off f (os_script (WAL.s_os s))).
Proof.
  intros [_ [off Hf]]. exists off. rewrite touch_intro by done. by destruct s.
Qed.

Lemma opened_intro w o fd i off f sc :
  WAL.m_fd w = Some fd -> opened (WAL.St w (touch o fd i off f sc)) fd i f.
Proof. intros H. split; [done|]. exists off. apply file_of_touch. Qed.

Lemma opened_inj s fd i f fd' i' f' : opened s fd i f -> opened s fd' i' f' -> fd = fd' /\ i = i' /\ f = f'.
Proof. intros [H1 [o1 H2]] [H3 [o2 H4]]. by simplify_eq. Qed.

Lemma holds_count f es : holds f es -> 16 + 69 * zlen es <= zlen (f_data f).
Proof.
  intros [H _ _]. rewrite H, length_app, header_bytes_length.
  pose proof (encode_count zero_digest 0 es) as Hc. fold (encode_log es) in Hc.
  change (length WAL.header_bytes) with 16%nat. unfold WAL.kHeaderSize. lia.
Qed.

Lemma holds_log_ok f es : holds f es -> log_ok es.
Proof.
  intros H. pose proof (holds_count f es H). destruct H as [_ Hok Hs].
  split; [done|]. lia.
Qed.

Lemma log_part_holds f es : holds f es -> log_part f = encode_log es.
Proof. intros [H _ _]. unfold log_part. by rewrite H. Qed.

(** ** What survives a power cut *)

(** Recovery of the contents [c] keeps exactly the entries [es]. *)
Definition recoverable (c : bytes) (es : list entry) : Prop :=
  take WAL.kHeaderSize c = WAL.header_bytes /\
  w_entries (walk (drop WAL.kHeaderSize c)) = es /\
  (w_status (walk (drop WAL.kHeaderSize c)) = Ok \/
   w_status (walk (drop WAL.kHeaderSize c)) = TruncatedTail) /\
  zlen c < 2 ^ 63.

(** Whatever a power cut leaves of [f], recovery keeps a prefix of [es] that
    lacks at most [n] entries. *)
Definition window (f : file) (es : list entry) (n : Z) : Prop :=
  forall c, crash_content f c ->
  exists es1, es1 `prefix_of` es /\ recoverable c es1 /\ zlen es - n <= zlen es1.

Lemma recoverable_log es :
  log_ok es -> zlen (WAL.header_bytes ++ encode_log es) < 2 ^ 63 ->
  recoverable (WAL.header_bytes ++ encode_log es) es.
Proof.
  intros H Hz. unfold recoverable.
  rewrite drop_app_length', take_app_length' by apply header_bytes_length.
  rewrite walk_roundtrip by done. auto.
Qed.

Lemma window_synced f es : f_pending f = [] -> holds f es -> window f es 0.
Proof.
  intros Hp Hh c Hc. exists es. split; [done|]. split; [|lia].
  unfold crash_content in Hc. rewrite Hp in Hc. inversion Hc; subst.
  pose proof (holds_log_ok _ _ Hh) as Hl. destruct Hh as [Hd _ Hz]. unfold f_data in Hd, Hz. rewrite Hp in Hd, Hz.
  cbn [fold_left] in Hd, Hz. rewrite Hd in Hz |- *. by apply recoverable_log.
Qed.

(** While an entry is written in pieces. *)
Lemma window_grows f f' es e d n :
  window f es n -> holds f es -> 0 <= n -> log_ok (es ++ [e]) ->
  zlen (f_data f) + zlen (encode_entry (log_head es) (zlen es) e) < 2 ^ 63 ->
  grows f d f' -> d `prefix_of` encode_entry (log_head es) (zlen es) e ->
  window f' (es ++ [e]) (n + 1).
Proof.
  intros Hw Hh Hn Hl Hz Hg Hd c Hc. pose proof (log_ok_app _ _ Hl) as Hl1.
  assert (Hsnoc : zlen (es ++ [e]) = zlen es + 1) by (rewrite length_app; cbn [length]; lia).
  rewrite Hsnoc. destruct (grows_crash _ _ _ _ Hg Hc) as [Hc'|(d1 & Hd1 & ->)].
  - destruct (Hw c Hc') as (es1 & Hp & Hr & Hlen). exists es1.
    split_and!; [by apply prefix_app_r|done|lia].
  - assert (Hd2 : d1 `prefix_of` encode_entry (log_head es) (zlen es) e) by by etrans.
    destruct Hd2 as [q Hq]. destruct Hh as [Hdat _ Hz1]. rewrite Hdat in Hz, Hz1 |- *.
    rewrite Hq in Hz. rewrite !length_app in Hz. rewrite length_app in Hz1.
    destruct (decide (d1 = [])) as [->|Hne].
    { rewrite app_nil_r. exists es.
      split_and!; [by apply prefix_app_r|apply recoverable_log; [done|rewrite length_app; lia]|lia]. }
    destruct (decide (q = [])) as [->|Hq0].
    + rewrite app_nil_r in Hq. subst d1. exists (es ++ [e]).
      rewrite <- app_assoc, <- encode_log_snoc. split_and!; [done| |lia].
      apply recoverable_log; [done|rewrite encode_log_snoc, !length_app; cbn [length] in Hz; lia].
    + exists es. split_and!; [by apply prefix_app_r| |lia]. unfold recoverable.
      rewrite <- app_assoc, drop_app_length', take_app_length' by apply header_bytes_length.
      rewrite (walk_torn es e d1 q) by done. rewrite !length_app. split_and!; auto. lia.
Qed.

(** ** [append] *)

Section append.
Variables (s : WAL.st) (fd i : nat) (f : file) (es : list entry).
Variables (type : RecordType) (key value : bytes) (timestamp : Z).
Hypothesis Hrep : rep s fd i f es.
Hypothesis Hts : is_i64 timestamp.
Hypothesis Hkey : zlen key <= WAL.kMaxFieldSize.
Hypothesis Hvalue : zlen value <= WAL.kMaxFieldSize.
Hypothesis Hroom : zlen (f_data f) + 69 + zlen key + zlen value < 2 ^ 63.

Let w := WAL.s_wal s.
Let e := entry_of w type key value timestamp.
Let image := encode_entry (log_head es) (zlen es) e.

(** The members after an entry was written, before any [fsync]. *)
Definition counted : WAL.wal :=
  WAL.set_pending (WAL.m_pendingWrites w + 1) (WAL.set_chain (zlen es + 1) (log_head (es ++ [e])) w).

Lemma append_entry_ok : entry_ok e.
Proof. destruct Hrep as [_ _ [_ _ He _ _]]. by split. Qed.

Lemma append_bytes : WAL.entry_bytes w type key value timestamp = (image, log_head (es ++ [e])).
Proof.
  destruct Hrep as [_ _ [Hs Hh _ _ _]]. fold w in Hs, Hh.
  rewrite entry_bytes_spec by done. by rewrite Hs, Hh, log_head_snoc.
Qed.

Lemma append_holds f' : grows f image f' -> holds f' (es ++ [e]).
Proof.
  intros Hg. destruct Hrep as [_ [Hd Ho Hz] _]. pose proof append_entry_ok. split.
  - rewrite (grows_data _ _ _ Hg), Hd, <- app_assoc. by rewrite encode_log_snoc.
  - apply Forall_app; split; [done|by constructor].
  - rewrite (grows_data _ _ _ Hg), length_app. unfold image. rewrite length_encode_entry.
    unfold entry_overhead, e, entry_of; cbn [e_key e_value]. lia.
Qed.

Lemma append_log_ok : log_ok (es ++ [e]).
Proof. eapply holds_log_ok, append_holds, grows_one. Qed.

Lemma append_members p :
  0 <= p <= zlen es + 1 -> members (WAL.set_pending p counted) (es ++ [e]).
Proof.
  intros Hp. destruct Hrep as [_ _ [_ _ He Hn _]].
  split; cbn; rewrite ?length_app; cbn [length]; try done; lia.
Qed.

Definition append_post (r : result unit) (s' : WAL.st) : Prop :=
  exists off f' sc',
    WAL.s_os s' = touch (WAL.s_os s) fd i off f' sc' /\
    used (os_script (WAL.s_os s)) sc' 2 /\
    match r with
    | Ret _ =>
        holds f' (es ++ [e]) /\
        (WAL.s_wal s' = counted /\ grows f image f' /\
           WAL.m_pendingWrites w + 1 < WAL.m_syncEveryN w \/
         WAL.s_wal s' = WAL.set_pending 0 counted /\ f_pending f' = [] /\
           WAL.m_syncEveryN w <= WAL.m_pendingWrites w + 1)
    | Throw x =>
        x = runtime_error "Failed to write entry to WAL" /\ WAL.s_wal s' = w /\
          (exists d, d `prefix_of` image /\ grows f d f') /\
          ~ Forall benign (os_script (WAL.s_os s)) \/
        x = runtime_error "fsync failed" /\ WAL.s_wal s' = counted /\ grows f image f' /\
          WAL.m_syncEveryN w <= WAL.m_pendingWrites w + 1 /\
          ~ Forall (eq Done) (os_script (WAL.s_os s))
    | Halt => sc' = [] /\ (WAL.s_wal s' = w \/ WAL.s_wal s' = counted) /\
        exists d, d `prefix_of` image /\ grows f d f'
    end.

Lemma append_spec : wp (WAL.append type key value timestamp) s append_post.
Proof.
  destruct (opened_touch _ _ _ _ (rep_opened _ _ _ _ _ Hrep)) as [off Hs].
  pose proof (proj1 (rep_opened _ _ _ _ _ Hrep)) as Hfd.
  destruct Hrep as [_ Hh [Hseq Hhead He Hn Hp]]. fold w in Hs, Hfd, Hseq, Hhead, Hn, Hp.
  pose proof (holds_count _ _ Hh) as Hcount. pose proof (holds_size _ _ Hh) as Hsize.
  unfold WAL.append. destruct (Z.ltb_spec WAL.kMaxFieldSize (zlen key)); [lia|].
  destruct (Z.ltb_spec WAL.kMaxFieldSize (zlen value)); [lia|]. cbn [orb].
  apply wp_bind, wp_bind, wp_get, wp_ret. fold w. rewrite Hfd, append_bytes.
  apply wp_bind, wp_zoom. rewrite Hs. cbn [WAL.s_os WAL.s_wal].
  eapply wp_mono; [apply writeExact_post|].
  intros r o' (off' & f' & sc' & d & -> & Hg & Hd & Hsc & Hr).
  assert (Hu : forall n sc1, used sc' sc1 n -> (n <= 1)%nat -> used (os_script (WAL.s_os s)) sc1 2).
  { intros n sc1 H1 Hle. eapply used_le, used_trans; [|exact Hsc|exact H1]. lia. }
  assert (Hu0 : used (os_script (WAL.s_os s)) sc' 2) by (eapply Hu; [apply used_refl|lia]).
  destruct r as [[]|x|]; [| |done|]; cbn [negb]; last first.
  { eexists _, f', sc'. split_and!; [done|done|done|by left|by exists d]. }
  { apply wp_throw. eexists _, f', sc'. split_and!; [done|done|]. left.
    split_and!; [done|done|by exists d|done]. }
  subst d. apply wp_bind, wp_modify, wp_bind, wp_modify, wp_bind, wp_bind, wp_get, wp_ret.
  cbn [WAL.s_wal WAL.s_os WAL.m_pendingWrites WAL.set_pending WAL.set_chain WAL.m_syncEveryN].
  rewrite Hseq, !u64_id by (unfold is_u64; lia). fold counted.
  pose proof (append_holds _ Hg) as Hh'.
  destruct (Z.leb_spec (WAL.m_syncEveryN w) (WAL.m_pendingWrites w + 1)) as [Hle|Hlt]; last first.
  { apply wp_ret. eexists _, f', sc'. split_and!; [done|done|done|by left]. }
  apply wp_bind, wp_zoom. unfold wp at 1. cbn [WAL.s_os WAL.s_wal]. destruct sc' as [|y sc'].
  { cbn [fst snd]. eexists _, f', []. split_and!; [done|done|done|by right|by exists image]. }
  assert (Hu1 : used (y :: sc') sc' 1) by apply used_cons, used_refl.
  rewrite sys_fsync_touch.
  assert (Hfail : y <> Done -> append_post (Throw (runtime_error "fsync failed"))
    (WAL.St counted (touch (WAL.s_os s) fd i off' f' sc'))).
  { intros Hy. eexists _, f', sc'. split_and!; [done|by eapply Hu|]. right. split_and!; try done.
    intros Hall. apply (suffix_Forall _ _ _ (proj1 Hsc)) in Hall.
    by apply Forall_cons in Hall as [<- _]. }
  assert (Hsync : append_post (Ret tt)
    (WAL.St (WAL.set_pending 0 counted) (touch (WAL.s_os s) fd i off' (f_sync f') sc'))).
  { eexists _, (f_sync f'), sc'. split_and!; [done|by eapply Hu| |by right].
    by destruct Hh' as [? ? ?]. }
  destruct y; cbn [fst snd WAL.failed]; [by apply wp_modify|by apply wp_modify|apply wp_throw, Hfail..]; done.
Qed.

(** Two successful calls are enough. *)
Lemma append_done r s' :
  Forall (eq Done) (os_script (WAL.s_os s)) -> (2 < length (os_script (WAL.s_os s)))%nat ->
  append_post r s' -> r = Ret tt.
Proof.
  intros Hd Hl (off & f' & sc' & _ & [_ Hu] & Hr). specialize (Hu Hd).
  destruct r as [[]|x|]; [done| |].
  - destruct Hr as [(_ & _ & _ & H)|(_ & _ & _ & _ & H)]; [by apply benign_done in Hd|done].
  - destruct Hr as [-> _]. cbn in Hu. lia.
Qed.
End append.

(** The representation and the window go from one append to the next. *)
Lemma append_rep s fd i f es type key value ts s' :
  rep s fd i f es -> is_i64 ts -> zlen key <= WAL.kMaxFieldSize -> zlen value <= WAL.kMaxFieldSize ->
  append_post s fd i f es type key value ts (Ret tt) s' ->
  exists f', rep s' fd i f' (es ++ [entry_of (WAL.s_wal s) type key value ts]).
Proof.
  intros Hr Ht Hk Hv (off & f' & sc' & Ho & _ & Hh & Hw). exists f'.
  pose proof (rep_members _ _ _ _ _ Hr) as [_ _ _ _ Hp].
  assert (Hm : exists p, 0 <= p <= zlen es + 1 /\
    WAL.s_wal s' = WAL.set_pending p (counted s es type key value ts)).
  { destruct Hw as [(-> & _ & _)|(-> & _ & _)]; [exists (WAL.m_pendingWrites (WAL.s_wal s) + 1)|exists 0];
      (split; [lia|done]). }
  destruct Hm as (p & Hp' & Hw'). split; [|done|].
  - destruct s' as [w' o']. cbn in *. subst. apply opened_intro. by destruct Hr as [[H _] _ _].
  - rewrite Hw'. by eapply append_members.
Qed.

Lemma append_window s fd i f es type key value ts r s' :
  rep s fd i f es -> is_i64 ts -> zlen key <= WAL.kMaxFieldSize -> zlen value <= WAL.kMaxFieldSize ->
  zlen (f_data f) + 69 + zlen key + zlen value < 2 ^ 63 ->
  window f es (WAL.m_pendingWrites (WAL.s_wal s)) ->
  append_post s fd i f es type key value ts r s' ->
  exists f', opened s' fd i f' /\
    window f' (es ++ [entry_of (WAL.s_wal s) type key value ts])
      (match r with
       | Ret _ => WAL.m_pendingWrites (WAL.s_wal s')
       | _ => WAL.m_pendingWrites (WAL.s_wal s) + 1
       end).
Proof.
  intros Hr Ht Hk Hv Hroom Hwin (off & f' & sc' & Ho & _ & Hpost). exists f'.
  pose proof (rep_opened _ _ _ _ _ Hr) as [Hfd _]. pose proof (rep_holds _ _ _ _ _ Hr) as Hh.
  pose proof (rep_members _ _ _ _ _ Hr) as [_ _ _ _ Hp].
  assert (Hfd' : WAL.m_fd (WAL.s_wal s') = Some fd).
  { destruct r as [[]|x|]; [destruct Hpost as [_ [(-> & _)|(-> & _)]]
      |destruct Hpost as [(_ & -> & _)|(_ & -> & _)]|destruct Hpost as (_ & [-> | ->] & _)]; done. }
  split; [destruct s' as [w' o']; cbn in *; subst; by apply opened_intro|].
  set (e := entry_of (WAL.s_wal s) type key value ts) in *.
  assert (Hlok : log_ok (es ++ [e])) by (by eapply append_log_ok).
  assert (Hgrow : forall d, d `prefix_of` encode_entry (log_head es) (zlen es) e -> grows f d f' ->
    window f' (es ++ [e]) (WAL.m_pendingWrites (WAL.s_wal s) + 1)).
  { intros d Hd Hg. apply (window_grows f f' es e d); try done; [lia|].
    rewrite length_encode_entry. unfold entry_overhead, e; cbn [entry_of e_key e_value]. lia. }
  destruct r as [[]|x|].
  - destruct Hpost as [Hh' [(-> & Hg & _)|(-> & Hsync & _)]].
    + by eapply Hgrow.
    + by apply window_synced.
  - destruct Hpost as [(_ & _ & (d & Hd & Hg) & _)|(_ & _ & Hg & _)]; by eapply Hgrow.
  - destruct Hpost as (_ & _ & d & Hd & Hg). by eapply Hgrow.
Qed.

(** ** Single calls of a method *)

Lemma wp_calls {A} m w o fd i off f off' f' sc (k : rc -> M WAL.st A) Q :
  calls true m o fd i off f off' f' ->
  (sc = [] -> Q Halt (WAL.St w (touch o fd i off f []))) ->
  (forall e sc', used sc sc' 1 -> ~ Forall (eq Done) sc ->
    wp (k (Fail e)) (WAL.St w (touch o fd i off f sc')) Q) ->
  (forall n sc', used sc sc' 1 -> wp (k (Rc n)) (WAL.St w (touch o fd i off' f' sc')) Q) ->
  wp (bind (WAL.sys m) k) (WAL.St w (touch o fd i off f sc)) Q.
Proof. intros Hc HH HF HS. apply wp_bind, wp_zoom, Hc; auto. Qed.

(** ** A client that appends until the first failure *)

Definition request : Type := RecordType * bytes * bytes * Z.

Definition request_ok (q : request) : Prop :=
  let '(_, key, value, ts) := q in
  is_i64 ts /\ zlen key <= WAL.kMaxFieldSize /\ zlen value <= WAL.kMaxFieldSize.

Definition request_size (q : request) : Z := let '(_, key, value, _) := q in 69 + zlen key + zlen value.

Definition total_size (l : list request) : Z := foldr (fun q n => request_size q + n) 0 l.

Definition entry_for (epoch : Z) (q : request) : entry :=
  let '(type, key, value, ts) := q in Entry ts epoch type key value.

(** How many appends returned, and the state after the last one. *)
Fixpoint append_seq (l : list request) (s : WAL.st) : nat * WAL.st :=
  match l with
  | [] => (O, s)
  | (type, key, value, ts) :: l =>
      match WAL.append type key value ts s with
      | (Ret _, s') => let '(n, s'') := append_seq l s' in (S n, s'')
      | (_, s') => (O, s')
      end
  end.

Lemma total_size_nonneg l : 0 <= total_size l.
Proof.
  unfold total_size. induction l as [|[[[t k] v] ts] l IH]; cbn [foldr request_size]; lia.
Qed.

Lemma append_seq_inv l s fd i f es :
  rep s fd i f es -> window f es (WAL.m_pendingWrites (WAL.s_wal s)) ->
  WAL.m_pendingWrites (WAL.s_wal s) < WAL.m_syncEveryN (WAL.s_wal s) ->
  Forall request_ok l -> zlen (f_data f) + total_size l < 2 ^ 63 ->
  let '(n, s') := append_seq l s in
  let news := entry_for (WAL.m_epoch (WAL.s_wal s)) <$> take (S n) l in
  (n <= length l)%nat /\ used (os_script (WAL.s_os s)) (os_script (WAL.s_os s')) (2 * length l) /\
  exists f' m, opened s' fd i f' /\ window f' (es ++ news) m /\
    zlen (es ++ news) - m >= zlen es + Z.of_nat n - (WAL.m_syncEveryN (WAL.s_wal s) - 1) /\
    (n = length l -> rep s' fd i f' (es ++ news)) /\
    (Forall (eq Done) (os_script (WAL.s_os s)) -> (3 * length l <= length (os_script (WAL.s_os s)))%nat ->
     n = length l).
Proof.
  revert s f es. induction l as [|[[[type key] value] ts] l IH]; intros s f es Hr Hw Hp Hq Hsz.
  { cbn. split; [done|]. split; [apply used_refl|]. exists f, (WAL.m_pendingWrites (WAL.s_wal s)). rewrite app_nil_r.
    split_and!; [by apply Hr|done|lia|done|done]. }
  cbn [append_seq]. apply Forall_cons in Hq as [(Ht & Hk & Hv) Hq].
  cbn [total_size foldr request_size] in Hsz. fold (total_size l) in Hsz.
  pose proof (total_size_nonneg l) as Hnn.
  pose proof (append_spec s fd i f es type key value ts Hr Ht Hk Hv ltac:(lia)) as Hpost.
  unfold wp in Hpost. destruct (WAL.append type key value ts s) as [r s1]. cbn [fst snd] in Hpost.
  destruct (append_window _ _ _ _ _ _ _ _ _ _ _ Hr Ht Hk Hv ltac:(lia) Hw Hpost) as (f1 & Ho1 & Hw1).
  set (e := entry_of (WAL.s_wal s) type key value ts) in *.
  assert (Hfail : (forall x, r <> Ret x) -> (O <= length ((type, key, value, ts) :: l))%nat /\
    used (os_script (WAL.s_os s)) (os_script (WAL.s_os s1)) (2 * length ((type, key, value, ts) :: l)) /\
    exists f' m, opened s1 fd i f' /\
      window f' (es ++ [e]) m /\
      zlen (es ++ [e]) - m >= zlen es + Z.of_nat 0 - (WAL.m_syncEveryN (WAL.s_wal s) - 1) /\
      (O = length ((type, key, value, ts) :: l) -> rep s1 fd i f' (es ++ [e])) /\
      (Forall (eq Done) (os_script (WAL.s_os s)) ->
       (3 * length ((type, key, value, ts) :: l) <= length (os_script (WAL.s_os s)))%nat ->
       O = length ((type, key, value, ts) :: l))).
  { intros Hne. split; [cbn; lia|]. split.
    { destruct Hpost as (off & f2 & sc2 & -> & Hu & _). rewrite script_touch. eapply used_le, Hu. cbn [length]. lia. }
    exists f1, (WAL.m_pendingWrites (WAL.s_wal s) + 1).
    split_and!; [done|by destruct r as [x| |]; [destruct (Hne x)|..]|rewrite length_app; cbn [length]; lia|done|].
    intros Hd Hl. cbn [length] in Hl. destruct (Hne tt). eapply append_done; [exact Hd|lia|exact Hpost]. }
  destruct r as [[]|x|]; [|by apply Hfail..]. clear Hfail.
  destruct (append_rep _ _ _ _ _ _ _ _ _ _ Hr Ht Hk Hv Hpost) as (f1' & Hr1). fold e in Hr1.
  destruct (opened_inj _ _ _ _ _ _ _ Ho1 (rep_opened _ _ _ _ _ Hr1)) as (_ & _ & <-).
  assert (Hs1 : WAL.m_epoch (WAL.s_wal s1) = WAL.m_epoch (WAL.s_wal s) /\
    WAL.m_syncEveryN (WAL.s_wal s1) = WAL.m_syncEveryN (WAL.s_wal s) /\
    WAL.m_pendingWrites (WAL.s_wal s1) < WAL.m_syncEveryN (WAL.s_wal s)).
  { pose proof (mem_every _ _ (rep_members _ _ _ _ _ Hr)).
    destruct Hpost as (off & f2 & sc2 & _ & _ & _ & [(-> & _ & H')|(-> & _ & H')]); cbn; lia. }
  destruct Hs1 as (Ee & En & Hp1).
  assert (Hlen : zlen (f_data f1) = zlen (f_data f) + (69 + zlen key + zlen value)).
  { rewrite (holds_data _ _ (rep_holds _ _ _ _ _ Hr1)), (holds_data _ _ (rep_holds _ _ _ _ _ Hr)).
    rewrite encode_log_snoc, !length_app, length_encode_entry. unfold entry_overhead, e; cbn [entry_of e_key e_value].
    lia. }
  specialize (IH s1 f1 (es ++ [e]) Hr1 Hw1 ltac:(by rewrite En) Hq ltac:(lia)).
  destruct (append_seq l s1) as [n s'] eqn:Eseq. rewrite Ee, En in IH.
  destruct IH as (Hn & Hus & f' & m & Ho & Hwin & Hm & Hall & Hd). cbv beta iota zeta. split; [cbn; lia|].
  pose proof Hpost as (off & f2 & sc2 & Ho2 & Hu2 & _). split.
  { eapply used_le, used_trans, Hus; [|rewrite Ho2, script_touch; exact Hu2]. cbn [length]. lia. }
  match goal with |- context [es ++ ?news] =>
    assert (E : es ++ news = (es ++ [e]) ++ (entry_for (WAL.m_epoch (WAL.s_wal s)) <$> take (S n) l))
      by (by rewrite <- app_assoc)
  end.
  rewrite E. exists f', m. split_and!; [done|done| | |].
  - rewrite (length_app es) in Hm. cbn [length] in Hm. lia.
  - intros [= ->]. by apply Hall.
  - intros Hdone Hl. cbn [length] in *. f_equal.
    destruct Hu2 as [Hsuf Hu]. specialize (Hu Hdone).
    apply Hd; rewrite Ho2; cbn [touch os_script set_script];
      [by eapply suffix_Forall|lia].
Qed.

(** Whatever happens, appends only touch the file and the descriptor. *)
Lemma append_touch type key value ts s fd i f :
  opened s fd i f ->
  wp (WAL.append type key value ts) s (fun _ s' =>
    exists off f' sc', WAL.s_os s' = touch (WAL.s_os s) fd i off f' sc' /\ WAL.m_fd (WAL.s_wal s') = Some fd).
Proof.
  intros Ho. destruct (opened_touch _ _ _ _ Ho) as [off Hs]. pose proof (proj1 Ho) as Hfd.
  assert (Hself : forall w, WAL.m_fd w = Some fd -> exists off f' sc',
    WAL.s_os s = touch (WAL.s_os s) fd i off f' sc' /\ WAL.m_fd w = Some fd).
  { intros w Hw. eexists _, _, _. split; [|done]. exact (f_equal WAL.s_os Hs). }
  unfold WAL.append. destruct (_ || _); [by apply wp_throw, Hself|].
  apply wp_bind, wp_bind, wp_get, wp_ret. rewrite Hfd. destruct (WAL.entry_bytes _ _ _ _ _) as [out h].
  apply wp_bind, wp_zoom. rewrite Hs. cbn [WAL.s_os WAL.s_wal]. eapply wp_mono; [apply writeExact_post|].
  intros r o' (off1 & f1 & sc1 & d & -> & _).
  assert (Hpack : forall w off1 f1 sc1, WAL.m_fd w = Some fd -> exists off2 f' sc',
    WAL.s_os (WAL.St w (touch (WAL.s_os s) fd i off1 f1 sc1)) =
      touch (touch (WAL.s_os s) fd i off f (os_script (WAL.s_os s))) fd i off2 f' sc' /\
    WAL.m_fd (WAL.s_wal (WAL.St w (touch (WAL.s_os s) fd i off1 f1 sc1))) = Some fd).
  { intros w off2 f2 sc2 Hw. exists off2, f2, sc2. by rewrite touch_touch. }
  destruct r as [[]|x|]; cbn [negb]; [|apply wp_throw|..]; try (by apply Hpack).
  apply wp_bind, wp_modify, wp_bind, wp_modify, wp_bind, wp_bind, wp_get, wp_ret. cbn [WAL.s_wal WAL.s_os].
  destruct (_ <=? _); [|by apply wp_ret, Hpack].
  apply (wp_calls _ _ _ _ _ _ _ _ _ _ _ _ (fsync_calls _ _ _ _ _ _)).
  - intros _. by apply Hpack.
  - intros e sc2 _ _. by apply wp_throw, Hpack.
  - intros n sc2 _. by apply wp_modify, Hpack.
Qed.

(** An append that returns has added its entry to the file, whatever the file
    held. *)
Lemma append_writes type key value ts s fd i f :
  opened s fd i f ->
  wp (WAL.append type key value ts) s (fun r s' => r = Ret tt ->
    zlen key <= WAL.kMaxFieldSize /\ zlen value <= WAL.kMaxFieldSize /\
    exists f', opened s' fd i f' /\
      f_data f' = f_data f ++ fst (WAL.entry_bytes (WAL.s_wal s) type key value ts)).
Proof.
  intros Ho. destruct (opened_touch _ _ _ _ Ho) as [off Hs]. pose proof (proj1 Ho) as Hfd.
  unfold WAL.append. destruct (Z.ltb_spec WAL.kMaxFieldSize (zlen key)); [by apply wp_throw|].
  destruct (Z.ltb_spec WAL.kMaxFieldSize (zlen value)); [by apply wp_throw|]. cbn [orb].
  apply wp_bind, wp_bind, wp_get, wp_ret. rewrite Hfd. destruct (WAL.entry_bytes _ _ _ _ _) as [out h] eqn:Ee.
  apply wp_bind, wp_zoom. rewrite Hs. cbn [WAL.s_os WAL.s_wal]. eapply wp_mono; [apply writeExact_post|].
  intros r o' (off1 & f1 & sc1 & d & -> & Hg & _ & _ & Hr).
  destruct r as [[]|x|]; cbn [negb]; [|by apply wp_throw|done..]. subst d.
  apply wp_bind, wp_modify, wp_bind, wp_modify, wp_bind, wp_bind, wp_get, wp_ret. cbn [WAL.s_wal WAL.s_os].
  destruct (_ <=? _); [|apply wp_ret; intros _; split_and!; [done|done|]].
  - apply (wp_calls _ _ _ _ _ _ _ _ _ _ _ _ (fsync_calls _ _ _ _ _ _)); [done|intros; by apply wp_throw|].
    intros n sc2 _. apply wp_modify. intros _. split_and!; [done|done|]. exists (f_sync f1).
    split; [by apply opened_intro|]. by rewrite f_data_sync, (grows_data _ _ _ Hg).
  - exists f1. split; [by apply opened_intro|]. by rewrite (grows_data _ _ _ Hg).
Qed.

Lemma append_seq_touch l s fd i f :
  opened s fd i f ->
  exists off f' sc', WAL.s_os (snd (append_seq l s)) = touch (WAL.s_os s) fd i off f' sc'.
Proof.
  revert s f. induction l as [|[[[type key] value] ts] l IH]; intros s f Ho.
  { destruct (opened_touch _ _ _ _ Ho) as [off Hs]. eexists _, _, _. exact (f_equal WAL.s_os Hs). }
  pose proof (append_touch type key value ts s fd i f Ho) as Hp. unfold wp in Hp. cbn [append_seq].
  destruct (WAL.append type key value ts s) as [r [w1 o1]]. cbn [fst snd WAL.s_os WAL.s_wal] in Hp.
  destruct Hp as (off1 & f1 & sc1 & -> & Hfd). destruct r as [[]|x|]; [|by exists off1, f1, sc1..].
  destruct (IH (WAL.St w1 (touch (WAL.s_os s) fd i off1 f1 sc1)) f1) as (off2 & f2 & sc2 & E); [by apply opened_intro|].
  destruct (append_seq l _) as [n s']. cbn [snd WAL.s_os] in *. exists off2, f2, sc2. by rewrite E, touch_touch.
Qed.

(** The size of the file with the requests added. *)
Lemma size_grows f f' es epoch l :
  holds f es -> holds f' (es ++ (entry_for epoch <$> l)) -> zlen (f_data f') = zlen (f_data f) + total_size l.
Proof.
  intros H1 H2. rewrite (holds_data _ _ H1), (holds_data _ _ H2), !length_app.
  unfold encode_log. rewrite encode_from_app, length_app. clear H1 H2.
  generalize (head_from zero_digest 0 es), (0 + zlen es). unfold total_size.
  induction l as [|[[[type key] value] ts] l IH]; intros h q; [cbn; lia|].
  cbn [fmap list_fmap entry_for encode_from foldr request_size]. rewrite length_app, length_encode_entry.
  specialize (IH (chain h q (Entry ts epoch type key value)) (q + 1)).
  unfold entry_overhead; cbn [e_key e_value]. lia.
Qed.

(** ** [verify] and [recover] *)

Lemma reads_count f es tail : zlen (f_data f) < 2 ^ 63 -> reads_log f es tail -> log_ok es.
Proof.
  intros Hz [Hl Ho]. split; [done|]. pose proof (encode_count zero_digest 0 es).
  apply (f_equal length) in Hl. unfold log_part in Hl. rewrite length_drop, length_app in Hl.
  unfold encode_log in Hl. lia.
Qed.

(** Where the walk stops is what [stopped] says. *)
Lemma reads_walk f es tail st :
  zlen (f_data f) < 2 ^ 63 -> reads_log f es tail -> stopped (log_head es) (zlen es) tail st ->
  walk (log_part f) = Walked st es (log_head es) (length (encode_log es)).
Proof.
  intros Hz Hr Hst. pose proof (reads_count _ _ _ Hz Hr) as Hl. destruct Hr as [-> _].
  destruct (decide (st = Ok)) as [->|Hne]; [|by apply walk_stops].
  cbn in Hst. rewrite Hst, app_nil_r. by apply walk_roundtrip.
Qed.

(** The result the walk of a file calls for. *)
Definition result_for (f : file) : RecoveryResult :=
  result_of (w_status (walk (log_part f))) (w_entries (walk (log_part f))).

Definition adopt (r : RecoveryResult) (w : WAL.wal) : WAL.wal :=
  if bool_decide (r_status r = Ok) || bool_decide (r_status r = TruncatedTail)
  then WAL.set_chain (r_entriesVerified r) (r_headHash r) w else w.

Section recover.
Context {V : Type}.
Variables (visitor : option (visitor_of V)) (minEpoch : option Z) (allow : bool).
Variables (o : os) (fd i : nat) (f : file) (sc : list outcome) (v : V).
Hypothesis Hsize : zlen (f_data f) < 2 ^ 63.

(** With calls that only transfer partially or are interrupted, the result is
    the one the walk calls for. *)
Lemma chain_post_benign r o' :
  chain_post visitor minEpoch allow o fd i f sc v r o' -> Forall benign sc ->
  match r with
  | Ret (res, v') =>
      res = result_for f /\ v' = visit_all visitor minEpoch (w_entries (walk (log_part f))) v
  | Throw _ => False
  | Halt => Forall (eq Done) sc -> (length sc <= length (f_data f) + 10)%nat
  end.
Proof.
  intros (off' & sc' & f' & es & tail & -> & Hsc & Hr & Hf & Hx) Hb.
  destruct r as [[res v']|x|]; [|done|].
  - destruct Hx as [(_ & _ & _ & H)|(st & -> & -> & _ & Hst & _)]; [done|].
    unfold result_for. rewrite (reads_walk f es tail st); auto.
  - intros Hd. specialize (Hx Hd). pose proof (encode_count zero_digest 0 es) as Hc.
    destruct Hr as [Hl _]. apply (f_equal length) in Hl. unfold log_part in Hl.
    rewrite length_drop, length_app in Hl. unfold encode_log in Hl. lia.
Qed.

(** A verdict against the log is the one the walk calls for, for all outcomes. *)
Lemma chain_post_alarm res v' o' :
  chain_post visitor minEpoch allow o fd i f sc v (Ret (res, v')) o' ->
  r_status res = Tampered \/ r_status res = Malformed -> res = result_for f.
Proof.
  intros (off' & sc' & f' & es & tail & _ & _ & Hr & _ & Hx) Ha.
  destruct Hx as [(-> & _)|(st & -> & _ & _ & Hst & _)]; [by destruct Ha|].
  unfold result_for. rewrite (reads_walk f es tail st Hsize Hr); [done|].
  apply Hst. left. intros ->. by destruct Ha.
Qed.

(** The file is only ever cut, after verified entries, and not unless the answer
    is a torn tail; if no call failed, the tail is torn. *)
Lemma chain_post_file r o' :
  chain_post visitor minEpoch allow o fd i f sc v r o' ->
  exists off' sc' f', o' = touch o fd i off' f' sc' /\
    (f' = f \/ allow = true /\ exists es tail, reads_log f es tail /\ f' = cut_at es f /\
      (Forall benign sc -> w_status (walk (log_part f)) = TruncatedTail /\ es = w_entries (walk (log_part f)))) /\
    match r with
    | Ret (res, _) => r_status res <> TruncatedTail -> f' = f
    | _ => True
    end.
Proof.
  intros (off' & sc' & f' & es & tail & -> & Hsc & Hr & Hf & Hx). exists off', sc', f'.
  split; [done|]. split.
  - destruct Hf as [|(Ha & -> & Ht)]; [by left|right]. split; [done|]. exists es, tail. split_and!; [done..|].
    intros Hb. by rewrite (reads_walk f es tail TruncatedTail Hsize Hr (Ht Hb)).
  - destruct r as [[res v']|x|]; [|done|done].
    destruct Hx as [(_ & _ & -> & _)|(st & -> & _ & H & _)]; [done|].
    intros Hst. apply H. by destruct st.
Qed.
End recover.

Lemma opened_run {A} (m : M WAL.st A) s fd i f Q :
  opened s fd i f ->
  (forall off, wp m (WAL.St (WAL.s_wal s) (touch (WAL.s_os s) fd i off f (os_script (WAL.s_os s)))) Q) ->
  wp m s Q.
Proof. intros [off E]%opened_touch H. rewrite E. apply H. Qed.

Lemma verify_post s fd i f (Q : result RecoveryResult -> WAL.st -> Prop) :
  opened s fd i f -> zlen (f_data f) < 2 ^ 63 -> (WAL.kHeaderSize <= length (f_data f))%nat ->
  (forall r o', chain_post (V := unit) None None false (WAL.s_os s) fd i f (os_script (WAL.s_os s)) tt r o' ->
    Q (match r with Ret (res, _) => Ret res | Throw x => Throw x | Halt => Halt end) (WAL.St (WAL.s_wal s) o')) ->
  wp WAL.verify s Q.
Proof.
  intros Ho Hz Hh HQ. eapply opened_run; [done|]. intros off. apply wp_bind.
  eapply wp_mono; [apply walkChain_post; [apply Ho|done|done]|].
  intros r [w' o'] [Hw Hc]. cbn in Hw, Hc. subst w'. specialize (HQ _ _ Hc).
  destruct r as [[res []]|x|]; [by apply wp_ret|done|done].
Qed.

Lemma recover_post {V} (visitor : visitor_of V) minEpoch v s fd i f
    (Q : result (RecoveryResult * V) -> WAL.st -> Prop) :
  opened s fd i f -> zlen (f_data f) < 2 ^ 63 -> (WAL.kHeaderSize <= length (f_data f))%nat ->
  (forall r o', chain_post (Some visitor) minEpoch true (WAL.s_os s) fd i f (os_script (WAL.s_os s)) v r o' ->
    Q r (WAL.St (match r with Ret (res, _) => adopt res (WAL.s_wal s) | _ => WAL.s_wal s end) o')) ->
  wp (WAL.recover visitor minEpoch v) s Q.
Proof.
  intros Ho Hz Hh HQ. eapply opened_run; [done|]. intros off. apply wp_bind.
  eapply wp_mono; [apply walkChain_post; [apply Ho|done|done]|].
  intros r [w' o'] [Hw Hc]. cbn in Hw, Hc. subst w'. specialize (HQ _ _ Hc).
  destruct r as [[res v']|x|]; [|done|done]. apply wp_bind. unfold adopt in HQ.
  destruct (_ || _); [by apply wp_modify, wp_ret|by apply wp_ret, wp_ret].
Qed.

Lemma cut_data f es tail :
  (WAL.kHeaderSize <= length (f_data f))%nat -> reads_log f es tail ->
  f_data (cut_at es f) = take WAL.kHeaderSize (f_data f) ++ encode_log es.
Proof.
  intros Hh [Hl _]. unfold cut_at. rewrite f_data_update.
  assert (Hd : f_data f = take WAL.kHeaderSize (f_data f) ++ encode_log es ++ tail)
    by (rewrite <- Hl; unfold log_part; by rewrite take_drop).
  assert (Hlen : length (take WAL.kHeaderSize (f_data f)) = WAL.kHeaderSize) by (rewrite length_take; lia).
  rewrite apply_trunc by (rewrite Hd, !length_app; lia).
  rewrite Hd at 1. rewrite app_assoc, take_app_le by (rewrite length_app; lia).
  apply take_ge. rewrite length_app. lia.
Qed.

(** ** The header *)

Lemma writeHeader_post o fd i off f sc :
  wp (WAL.writeHeader fd) (touch o fd i off f sc) (fun r o' =>
    exists off' f' sc', o' = touch o fd i off' f' sc' /\ used sc sc' 2 /\
      match r with
      | Ret true => f_data f' = f_data f ++ WAL.header_bytes /\ f_pending f' = []
      | Ret false => ~ Forall (eq Done) sc /\ exists d, d `prefix_of` WAL.header_bytes /\ grows f d f'
      | Throw _ => False
      | Halt => sc' = [] /\ exists d, d `prefix_of` WAL.header_bytes /\ grows f d f'
      end).
Proof.
  apply wp_bind. eapply wp_mono; [apply writeExact_post|].
  intros r o' (off' & f' & sc' & d & -> & Hg & Hd & Hu & Hr).
  assert (Hu2 : used sc sc' 2) by (eapply used_le, Hu; cbn; lia).
  destruct r as [[]|x|]; [|apply wp_ret|done|]; cbn [negb]; last first.
  { exists off', f', sc'. split_and!; eauto. }
  { exists off', f', sc'. split_and!; eauto. intros H. by apply Hr, benign_done. }
  subst d. apply wp_bind. unfold wp at 1. destruct sc' as [|y sc'].
  { exists off', f', []. split_and!; eauto. }
  rewrite sys_fsync_touch.
  assert (Hu3 : used sc sc' 2).
  { eapply (used_trans _ _ _ 1 1); [eapply used_le, Hu; cbn; lia|apply used_cons, used_refl]. }
  assert (Hfail : y <> Done -> ~ Forall (eq Done) sc).
  { intros Hy Hall. apply (suffix_Forall _ _ _ (proj1 Hu)) in Hall. by apply Forall_cons in Hall as [<- _]. }
  destruct y; cbn [fst snd WAL.failed negb]; apply wp_ret.
  3,4: exists off', f', sc'; split_and!; eauto.
  all: exists off', (f_sync f'), sc'; (split_and!; [done|done|by rewrite f_data_sync, (grows_data _ _ _ Hg)|done]).
Qed.

(** ** [reset] *)

(** What a power cut leaves of a file that is being reset: what it could leave of
    the file [f] before, or the beginning of a header. *)
Definition resets (f f' : file) : Prop :=
  forall c, crash_content f' c -> crash_content f c \/ c `prefix_of` WAL.header_bytes.

Lemma resets_refl f : resets f f.
Proof. by left. Qed.

Lemma resets_sync f : resets f (f_sync f).
Proof. intros c ->%crash_content_sync. left. apply crash_content_refl. Qed.

Lemma resets_trunc f f1 : resets f f1 -> resets f (f_update (FTrunc 0) f1).
Proof.
  intros H c [Hc|Hc]%crash_content_update; [by apply H|].
  inversion Hc as [|? ? ? ? Hc'|]; subst; [apply H, crash_content_refl|].
  inversion Hc'; subst. right. rewrite apply_trunc, take_0 by lia. apply prefix_nil.
Qed.

Lemma resets_grows f f1 d f' :
  resets f f1 -> f_data f1 = [] -> d `prefix_of` WAL.header_bytes -> grows f1 d f' -> resets f f'.
Proof.
  intros H E Hd Hg c Hc. destruct (grows_crash _ _ _ _ Hg Hc) as [?|(d1 & Hd1 & ->)]; [by apply H|].
  right. rewrite E. by etrans.
Qed.

Lemma resets_header f f' : f_data f' = WAL.header_bytes -> f_pending f' = [] -> resets f f'.
Proof.
  intros Hd Hp c Hc. unfold crash_content in Hc. unfold f_data in Hd. rewrite Hp in Hc, Hd.
  inversion Hc; subst. right. by rewrite <- Hd.
Qed.

#[export] Hint Resolve resets_refl resets_sync resets_trunc resets_header : exec.

Definition reset_post (s : WAL.st) (fd i : nat) (f : file) (r : result bool) (s' : WAL.st) : Prop :=
  exists off f' sc', WAL.s_os s' = touch (WAL.s_os s) fd i off f' sc' /\
    used (os_script (WAL.s_os s)) sc' 5 /\ resets f f' /\
    match r with
    | Ret true =>
        WAL.s_wal s' = WAL.set_pending 0 (WAL.set_chain 0 zero_digest (WAL.s_wal s)) /\
        f_data f' = WAL.header_bytes /\ f_pending f' = []
    | Ret false =>
        WAL.s_wal s' = WAL.s_wal s /\ ~ Forall (eq Done) (os_script (WAL.s_os s)) /\
        (f_data f' = f_data f \/ f_data f' `prefix_of` WAL.header_bytes)
    | Throw _ => False
    | Halt => sc' = []
    end.

Lemma reset_spec s fd i f : opened s fd i f -> wp WAL.reset s (reset_post s fd i f).
Proof.
  intros Ho. eapply opened_run; [done|]. intros off. pose proof (proj1 Ho) as Hfd.
  apply wp_bind, wp_bind, wp_get, wp_ret. cbn [WAL.s_wal]. rewrite Hfd.
  set (sc := os_script (WAL.s_os s)).
  (* the steps after the first, which goes on whatever [fsync] says *)
  assert (Hrest : forall off1 f1 sc1, f_data f1 = f_data f -> resets f f1 -> used sc sc1 1 ->
    wp (r <- WAL.sys (sys_ftruncate fd 0) ;;
      if WAL.failed r then ret false else
      r <- WAL.sys (sys_lseek fd 0 SEEK_SET) ;;
      if WAL.failed r then ret false else
      ok <- WAL.sys (WAL.writeHeader fd) ;;
      if negb ok then ret false else
      WAL.update (WAL.set_chain 0 zero_digest) ;;;
      WAL.update (WAL.set_pending 0) ;;;
      ret true) (WAL.St (WAL.s_wal s) (touch (WAL.s_os s) fd i off1 f1 sc1)) (reset_post s fd i f)).
  { intros off1 f1 sc1 E1 R1 U1.
    assert (Hnd : forall sc', used sc sc' 5 -> ~ Forall (eq Done) sc' -> ~ Forall (eq Done) sc).
    { intros sc' [Hs _] H Hall. by eapply H, suffix_Forall. }
    assert (Hle : forall sc' n m, used sc sc' n -> (n + m <= 5)%nat -> used sc sc' 5).
    { intros sc' n m H Hnm. eapply used_le, H. lia. }
    apply (wp_calls _ _ _ _ _ _ _ _ _ _ _ _ (ftruncate_calls _ _ _ _ _ _ 0)).
    { intros ->. exists off1, f1, []. split_and!; [done|by eapply used_le, U1; lia|done|done]. }
    { intros e sc2 U2 H2. apply wp_ret. exists off1, f1, sc2.
      split_and!; [done|eapply used_le, used_trans; [|exact U1|exact U2]; lia|done|done| |by left].
      eapply Hnd, H2. eapply used_le, U1; lia. }
    intros n sc2 U2. pose proof (used_trans _ _ _ _ _ U1 U2) as U12. cbn [WAL.failed].
    set (f2 := f_update (FTrunc 0) f1).
    assert (R2 : resets f f2) by by apply resets_trunc.
    assert (E2 : f_data f2 = []) by (unfold f2; rewrite f_data_update, apply_trunc by lia; apply take_0).
    apply (wp_calls _ _ _ _ _ _ _ _ _ _ _ _ (lseek_calls _ _ _ _ _ _ 0 SEEK_SET (Z.le_refl 0))).
    { intros ->. exists off1, f2, []. split_and!; [done|by eapply used_le, U12; lia|done|done]. }
    { intros e sc3 U3 H3. apply wp_ret. exists off1, f2, sc3.
      split_and!; [done|eapply used_le, used_trans; [|exact U12|exact U3]; lia|done|done| |].
      - eapply Hnd, H3. eapply used_le, U12; lia.
      - right. rewrite E2. apply prefix_nil. }
    intros n' sc3 U3. pose proof (used_trans _ _ _ _ _ U12 U3) as U13. cbn [WAL.failed].
    apply wp_bind, wp_zoom. cbn [WAL.s_os WAL.s_wal]. eapply wp_mono; [apply writeHeader_post|].
    intros r o' (off' & f' & sc4 & -> & U4 & Hr).
    assert (U14 : used sc sc4 5) by (eapply used_le, used_trans; [|exact U13|exact U4]; lia).
    destruct r as [[]|x|]; cbn [negb]; [| |done|].
    - apply wp_bind, wp_modify, wp_bind, wp_modify, wp_ret. rewrite E2 in Hr.
      destruct Hr as [Hr1 Hr2]. exists off', f', sc4. split_and!; try done. by apply resets_header.
    - destruct Hr as (Hd & d & Hp & Hg). apply wp_ret. exists off', f', sc4. split_and!; [done|done|by eapply resets_grows|done| |].
      + eapply Hnd, Hd. eapply used_le, U13; lia.
      + right. by rewrite (grows_data _ _ _ Hg), E2.
    - destruct Hr as (-> & d & Hp & Hg). exists off', f', []. split_and!; [done|done|by eapply resets_grows|done]. }
  apply (wp_calls _ _ _ _ _ _ _ _ _ _ _ _ (fsync_calls _ _ _ _ _ _)).
  - fold sc. intros E. exists off, f, []. split_and!; [done| |apply resets_refl|done]. change (used sc [] 5). rewrite E. by eapply used_le, used_refl; lia.
  - intros e sc1 U1 _. apply Hrest; [done|apply resets_refl|done].
  - intros n sc1 U1. apply Hrest; [done|apply resets_sync|done].
Qed.

(** ** Opening *)

(** The sixteen bytes [validateHeader] accepts. *)
Definition valid_header (c : bytes) : bool :=
  (16 <=? length c)%nat && (getLE32 c =? WAL.WAL_MAGIC) && (getLE32 (drop 4 c) =? WAL.WAL_VERSION).

(** The object the constructor builds. *)
Definition fresh_wal (path : string) (fd : nat) (syncEveryN : Z) : WAL.wal :=
  WAL.Wal path (Some fd) 0 0 zero_digest (if syncEveryN <? 1 then 1 else syncEveryN) 0.

Section opening.
Context (path : string) (syncEveryN : Z) (o : os) (i : nat) (f : file).
Let fd := fresh_fd o.

Lemma close_touch off sc :
  os_inodes o !! i = Some f -> drop_fd fd (touch o fd i off f sc) = set_script sc o.
Proof.
  intros Hi. unfold drop_fd, touch, set_script, set_fd, set_inode; cbn.
  rewrite insert_id by done. by rewrite delete_insert_id by apply fresh_fd_none.
Qed.

(** [close] then throw: the descriptor is gone and the file is as it was. *)
Lemma wp_close_throw {A} off f' sc x (Q : result A -> os -> Prop) :
  (forall sc', used sc sc' 1 -> Q (Throw x) (drop_fd fd (touch o fd i off f' sc'))) ->
  (sc = [] -> Q Halt (touch o fd i off f' [])) ->
  wp (sys_close fd ;;; throw x) (touch o fd i off f' sc) Q.
Proof.
  intros HQ Hh. apply wp_bind. unfold sys_close. apply wp_bind. unfold wp at 1. rewrite next_touch.
  destruct sc as [|y sc]; [by apply Hh|]. cbn [fst snd]. apply wp_bind, wp_modify.
  change (modify (drop_fd fd) (touch o fd i off f' sc)) with (@Ret unit tt, drop_fd fd (touch o fd i off f' sc)).
  destruct y; apply wp_ret, wp_throw, HQ, used_cons, used_refl.
Qed.

Lemma validateHeader_post off sc :
  wp (WAL.validateHeader fd) (touch o fd i off f sc) (fun r o' =>
    exists off' sc', o' = touch o fd i off' f sc' /\ used sc sc' 3 /\
      match r with
      | Ret b => (b = true -> valid_header (f_data f) = true) /\
                 (Forall benign sc -> b = valid_header (f_data f))
      | Throw _ => False
      | Halt => sc' = []
      end).
Proof.
  apply wp_bind. unfold wp at 1. destruct sc as [|x sc].
  { exists off, []. split_and!; [done|by eapply used_le, used_refl; lia|done]. }
  rewrite sys_lseek_touch by lia.
  assert (Hgo : wp (
    h <- readExact fd WAL.kHeaderSize ;;
    match h with
    | None => ret false
    | Some header =>
        if negb (getLE32 (drop WAL.HDR_OFF_MAGIC header) =? WAL.WAL_MAGIC) then ret false else
        if negb (getLE32 (drop WAL.HDR_OFF_VERSION header) =? WAL.WAL_VERSION) then ret false else
        ret true
    end) (touch o fd i 0 f sc) (fun r o' =>
    exists off' sc', o' = touch o fd i off' f sc' /\ used (x :: sc) sc' 3 /\
      match r with
      | Ret b => (b = true -> valid_header (f_data f) = true) /\
                 (Forall benign (x :: sc) -> b = valid_header (f_data f))
      | Throw _ => False
      | Halt => sc' = []
      end)).
  { apply wp_bind, (readExact_reads _ _ _ _ 0 16); [lia| | |].
    - intros sc' Hu Hlen. change WAL.HDR_OFF_MAGIC with 0%nat. change WAL.HDR_OFF_VERSION with 4%nat.
      rewrite !drop_0. assert (Hv : valid_header (f_data f) =
        (getLE32 (take 16 (f_data f)) =? WAL.WAL_MAGIC) &&
        (getLE32 (drop 4 (take 16 (f_data f))) =? WAL.WAL_VERSION)).
      { unfold valid_header. destruct (Nat.leb_spec 16 (length (f_data f))); [|lia].
        rewrite getLE32_take by lia.
        rewrite skipn_firstn_comm. rewrite (getLE32_take _ (16 - 4)) by lia. done. }
      destruct (getLE32 (take 16 _) =? _), (getLE32 (drop 4 _) =? _); cbn [negb andb] in *; apply wp_ret;
        exists (0 + 16)%nat, sc'; (split_and!; [done|by eapply used_le, used_cons, Hu; lia| |]; by rewrite Hv).
    - intros off' sc' Hu Hs. apply wp_ret. exists off', sc'.
      split_and!; [done|by eapply used_cons|done|]. intros [_ Hb]%Forall_cons. specialize (Hs Hb).
      unfold valid_header. destruct (Nat.leb_spec 16 (length (f_data f))); [lia|done].
    - intros off' Hd. exists off', []. split_and!; [done| |done]. split; [apply suffix_nil|].
      intros [_ Hd']%Forall_cons. specialize (Hd Hd'). cbn [length]. lia. }
  destruct x; cbn [fst snd WAL.failed]; [exact Hgo..|]. apply wp_ret. exists off, sc.
  split_and!; [done|by apply used_retry; [|eapply used_le, used_refl; lia]|done|].
  by intros [H _]%Forall_cons.
Qed.

(** The constructor after [open(2)]. *)
Definition open_rest (fd : nat) : M os WAL.wal :=
  st <- sys_fstat fd ;;
  match st with
  | Fail _ => sys_close fd ;;; throw (runtime_error ("Failed to stat WAL file: " +:+ path))
  | Rc st_size =>
      let w := fresh_wal path fd syncEveryN in
      if st_size =? 0 then
        ok <- WAL.writeHeader fd ;;
        if negb ok then sys_close fd ;;; throw (runtime_error ("Failed to write WAL header: " +:+ path))
        else ret w
      else
        ok <- WAL.validateHeader fd ;;
        if negb ok then sys_close fd ;;; throw (runtime_error ("Invalid or corrupt WAL header: " +:+ path))
        else ret w
  end.

(** What the constructor does to a file: nothing, unless it is empty. *)
Definition header_only (f f' : file) : Prop :=
  f' = f \/
  f_data f = [] /\ ((exists d, d `prefix_of` WAL.header_bytes /\ grows f d f') \/
                    f_data f' = WAL.header_bytes /\ f_pending f' = []).

Definition open_post sc0 (r : result WAL.wal) (o' : os) : Prop :=
  exists off f' sc', used sc0 sc' 6 /\ header_only f f' /\
    match r with
    | Ret w => o' = touch o fd i off f' sc' /\ w = fresh_wal path fd syncEveryN /\
        if decide (f_data f = []) then f_data f' = WAL.header_bytes /\ f_pending f' = []
        else f' = f /\ valid_header (f_data f) = true
    | Throw _ => o' = drop_fd fd (touch o fd i off f' sc') /\
        (Forall (eq Done) sc0 -> f_data f <> [] /\ valid_header (f_data f) = false)
    | Halt => o' = touch o fd i off f' [] /\ sc' = []
    end.

Lemma open_rest_post sc :
  wp (open_rest fd) (touch o fd i 0 f sc) (open_post sc).
Proof.
  unfold open_rest. apply wp_bind. unfold wp at 1. destruct sc as [|x sc].
  { exists O, f, []. split_and!; [by eapply used_le, used_refl; lia|by left|done|done]. }
  rewrite sys_fstat_touch.
  assert (Hgo : wp (if zlen (f_data f) =? 0 then
        ok <- WAL.writeHeader fd ;;
        if negb ok then sys_close fd ;;; throw (runtime_error ("Failed to write WAL header: " +:+ path))
        else ret (fresh_wal path fd syncEveryN)
      else
        ok <- WAL.validateHeader fd ;;
        if negb ok then sys_close fd ;;; throw (runtime_error ("Invalid or corrupt WAL header: " +:+ path))
        else ret (fresh_wal path fd syncEveryN)) (touch o fd i 0 f sc) (open_post (x :: sc))).
  { destruct (Z.eqb_spec (zlen (f_data f)) 0) as [Hz|Hz].
    - assert (Hnil : f_data f = []) by (destruct (f_data f); [done|cbn in Hz; lia]).
      apply wp_bind. eapply wp_mono; [apply writeHeader_post|].
      intros r o' (off' & f' & sc' & -> & Hu & Hr).
      assert (Hho : (exists d, d `prefix_of` WAL.header_bytes /\ grows f d f') -> header_only f f')
        by (intros Hd; right; by auto).
      destruct r as [[]|e|]; cbn [negb]; [| |done|].
      + rewrite Hnil in Hr. apply wp_ret. exists off', f', sc'.
        split_and!; [by eapply used_le, used_cons, Hu; lia| |done|done|by rewrite decide_True].
        right. split; [done|]. by right.
      + destruct Hr as [Hnd Hr]. apply wp_close_throw.
        * intros sc1 H1. exists off', f', sc1.
          split_and!; [eapply used_le, used_cons, used_trans; [|exact Hu|exact H1]; lia|by apply Hho|done|].
          by intros [_ H]%Forall_cons.
        * intros ->. exists off', f', []. split_and!; [by eapply used_le, used_cons, Hu; lia|by apply Hho|done|done].
      + destruct Hr as [-> Hr]. exists off', f', [].
        split_and!; [by eapply used_le, used_cons, Hu; lia|by apply Hho|done|done].
    - assert (Hne : f_data f <> []) by (intros E; rewrite E in Hz; done).
      apply wp_bind. eapply wp_mono; [apply validateHeader_post|].
      intros r o' (off' & sc' & -> & Hu & Hr).
      destruct r as [[]|e|]; cbn [negb]; [| |done|].
      + apply wp_ret. exists off', f, sc'.
        split_and!; [by eapply used_le, used_cons, Hu; lia|by left|done|done|].
        rewrite decide_False by done. split; [done|by apply Hr].
      + apply wp_close_throw.
        * intros sc1 H1. exists off', f, sc1.
          split_and!; [eapply used_le, used_cons, used_trans; [|exact Hu|exact H1]; lia|by left|done|].
          intros [_ H]%Forall_cons. split; [done|]. destruct Hr as [_ Hr]. by rewrite Hr by by apply benign_done.
        * intros ->. exists off', f, []. split_and!; [by eapply used_le, used_cons, Hu; lia|by left|done|done].
      + subst sc'. exists off', f, [].
        split_and!; [by eapply used_le, used_cons, Hu; lia|by left|done|done]. }
  destruct x; cbn [fst snd]; [exact Hgo..|].
  apply wp_close_throw.
  - intros sc1 H1. exists O, f, sc1.
    split_and!; [by apply used_retry; [|eapply used_le, H1; lia]|by left|done|by intros [H _]%Forall_cons].
  - intros ->. exists O, f, []. split_and!; [by apply used_retry; [|eapply used_le, used_refl; lia]|by left|done|done].
Qed.
End opening.

Section constructor.
Context (path : string) (syncEveryN : Z) (o : os).
Let fd := fresh_fd o.

(** The system in which the constructor works on the file: the directory may
    have a new entry for it. *)
Definition open_system (i : nat) : os :=
  match os_names o !! path with
  | Some _ => o
  | None => set_names (<[path := i]> (os_names o)) o
  end.

Definition open_file : nat * file :=
  match os_names o !! path with
  | Some i => (i, default empty_file (os_inodes o !! i))
  | None => (fresh_inode o, empty_file)
  end.

Lemma open_spec (Q : result WAL.wal -> os -> Prop) :
  (forall i, os_names o !! path = Some i -> is_Some (os_inodes o !! i)) ->
  let '(i, f) := open_file in
  (forall x sc, ~ Forall (eq Done) (os_script o) -> sc `suffix_of` os_script o ->
    Q (Throw x) (set_script sc o)) ->
  (os_script o = [] -> Q Halt o) ->
  (forall r o' sc, used (os_script o) sc 1 -> os_script o <> [] ->
    open_post path syncEveryN (open_system i) i f sc r o' -> Q r o') ->
  wp (WAL.open path syncEveryN) o Q.
Proof.
  intros Hsome. unfold open_file, open_system. destruct (os_names o !! path) as [i|] eqn:En.
  - destruct (Hsome i eq_refl) as [f Hf]. rewrite Hf; cbn [default from_option id].
    intros HT HH HQ. apply wp_bind. unfold sys_open, syscall. apply wp_bind. unfold wp at 1, next.
    destruct (os_script o) as [|x sc] eqn:Es; cbn [fst snd]; [by apply HH|].
    assert (Hgo : wp (open_rest path syncEveryN fd) (touch o fd i 0 f sc) Q).
    { eapply wp_mono; [apply open_rest_post|]. intros r o' H. eapply HQ; [|done|exact H].
      apply used_cons, used_refl. }
    assert (Hset : set_fd (fresh_fd (set_script sc o)) (FdFile i 0 true) (set_script sc o) = touch o fd i 0 f sc).
    { unfold touch, set_inode. by rewrite insert_id. }
    assert (Hfail : x <> Done -> forall e, Q (Throw e) (set_script sc o)).
    { intros Hx e. apply HT; [by intros [H _]%Forall_cons|by apply suffix_cons_r]. }
    destruct x; [| |apply wp_ret, wp_throw, Hfail; done..].
    all: apply wp_bind, wp_get; cbn [set_script os_names os_inodes]; rewrite En, Hf;
      apply wp_bind, wp_modify, wp_ret; cbn [o_trunc o_append]; rewrite Hset, Nat2Z.id; exact Hgo.
  - intros HT HH HQ. apply wp_bind. unfold sys_open, syscall. apply wp_bind. unfold wp at 1, next.
    destruct (os_script o) as [|x sc] eqn:Es; cbn [fst snd]; [by apply HH|].
    set (i := fresh_inode o) in *.
    assert (Hgo : wp (open_rest path syncEveryN fd)
      (touch (set_names (<[path := i]> (os_names o)) o) fd i 0 empty_file sc) Q).
    { eapply wp_mono; [apply (open_rest_post path syncEveryN (set_names (<[path := i]> (os_names o)) o))|]. intros r o' H. eapply HQ; [|done|exact H].
      apply used_cons, used_refl. }
    assert (Hfail : x <> Done -> forall e, Q (Throw e) (set_script sc o)).
    { intros Hx e. apply HT; [by intros [H _]%Forall_cons|by apply suffix_cons_r]. }
    destruct x; [| |apply wp_ret, wp_throw, Hfail; done..].
    all: apply wp_bind, wp_get; cbn [set_script os_names os_inodes]; rewrite En; cbn [o_creat];
      apply wp_bind, wp_modify, wp_ret; cbn [o_trunc o_append]; rewrite Nat2Z.id; exact Hgo.
Qed.
End constructor.

(** ** Verdicts *)

Section verdicts.
Context (s : WAL.st) (fd i : nat) (f : file).
Hypothesis Ho : opened s fd i f.
Hypothesis Hh : (WAL.kHeaderSize <= length (f_data f))%nat.
Hypothesis Hz : zlen (f_data f) < 2 ^ 63.

Lemma verify_benign :
  Forall benign (os_script (WAL.s_os s)) ->
  fst (WAL.verify s) = Ret (result_for f) \/ fst (WAL.verify s) = Halt.
Proof.
  intros Hb. enough (wp WAL.verify s (fun r _ => r = Ret (result_for f) \/ r = Halt)) by done.
  apply (verify_post s fd i f); [done..|]. intros r o' Hc.
  pose proof (chain_post_benign _ _ _ _ _ _ _ _ _ Hz _ _ Hc Hb) as Hx.
  destruct r as [[res []]|x|]; [|done|by right]. left. by destruct Hx as [-> _].
Qed.

Lemma verify_alarm res :
  fst (WAL.verify s) = Ret res -> r_status res = Tampered \/ r_status res = Malformed -> res = result_for f.
Proof.
  enough (Hwp : wp WAL.verify s (fun r _ => r = Ret res ->
    r_status res = Tampered \/ r_status res = Malformed -> res = result_for f)) by exact Hwp.
  apply (verify_post s fd i f); [done..|]. intros r o' Hc.
  destruct r as [[res' []]|x|]; [|done..]. intros [= ->]. exact (chain_post_alarm _ _ _ _ _ _ _ _ _ Hz _ _ _ Hc).
Qed.

Lemma verify_done :
  Forall (eq Done) (os_script (WAL.s_os s)) ->
  (length (f_data f) + 10 < length (os_script (WAL.s_os s)))%nat ->
  fst (WAL.verify s) = Ret (result_for f).
Proof.
  intros Hd Hl. enough (wp WAL.verify s (fun r _ => r = Ret (result_for f))) by done.
  apply (verify_post s fd i f); [done..|]. intros r o' Hc.
  pose proof (chain_post_benign _ _ _ _ _ _ _ _ _ Hz _ _ Hc (benign_done _ Hd)) as Hb.
  destruct r as [[res []]|x|]; [by destruct Hb as [-> _]|done|specialize (Hb Hd); lia].
Qed.
End verdicts.

(** A log that is read to its end calls for [Ok]. *)
Lemma result_for_holds f es : holds f es -> result_for f = result_of Ok es.
Proof.
  intros H. unfold result_for. rewrite (log_part_holds _ _ H), walk_roundtrip; [done|].
  by eapply holds_log_ok.
Qed.

Lemma holds_header f es : holds f es -> (WAL.kHeaderSize <= length (f_data f))%nat.
Proof. intros H. pose proof (holds_count _ _ H). unfold WAL.kHeaderSize. lia. Qed.

(** The file [recover] leaves when its calls succeed: a torn tail is cut. *)
Definition recovered_file (f : file) : file :=
  let w := walk (log_part f) in
  if bool_decide (w_status w = TruncatedTail) then cut_at (w_entries w) f else f.

Lemma recover_done {V} (visitor : visitor_of V) minEpoch v s fd i f :
  opened s fd i f -> (WAL.kHeaderSize <= length (f_data f))%nat -> zlen (f_data f) < 2 ^ 63 ->
  Forall (eq Done) (os_script (WAL.s_os s)) ->
  (length (f_data f) + 10 < length (os_script (WAL.s_os s)))%nat ->
  exists off sc, used (os_script (WAL.s_os s)) sc (length (f_data f) + 10) /\ WAL.recover visitor minEpoch v s =
    (Ret (result_for f, visit_all (Some visitor) minEpoch (w_entries (walk (log_part f))) v),
     WAL.St (adopt (result_for f) (WAL.s_wal s)) (touch (WAL.s_os s) fd i off (recovered_file f) sc)).
Proof.
  intros Ho Hh Hz Hd Hl.
  enough (Hwp : wp (WAL.recover visitor minEpoch v) s (fun r s' => exists off sc,
    used (os_script (WAL.s_os s)) sc (length (f_data f) + 10) /\ r = Ret (result_for f, visit_all (Some visitor) minEpoch (w_entries (walk (log_part f))) v) /\
    s' = WAL.St (adopt (result_for f) (WAL.s_wal s)) (touch (WAL.s_os s) fd i off (recovered_file f) sc))).
  { unfold wp in Hwp. destruct (WAL.recover visitor minEpoch v s) as [r s'].
    destruct Hwp as (off & sc & Hu & H1 & H2). cbn [fst snd] in *. subst. by exists off, sc. }
  pose proof (benign_done _ Hd) as Hben.
  apply (recover_post visitor minEpoch v s fd i f); [done..|]. intros r o' Hc.
  pose proof (chain_post_benign _ _ _ _ _ _ _ _ _ Hz _ _ Hc Hben) as Hb.
  destruct Hc as (off & sc & f' & es & tail & -> & Hu & Hreads & _ & Hx).
  assert (Hu' : used (os_script (WAL.s_os s)) sc (length (f_data f) + 10)).
  { eapply used_le, Hu. pose proof (encode_count zero_digest 0 es) as Hcount. destruct Hreads as [Hlog _].
    apply (f_equal length) in Hlog. unfold log_part in Hlog. rewrite length_drop, length_app in Hlog.
    unfold encode_log in Hlog. lia. }
  destruct r as [[res v']|x|]; [|done|specialize (Hb Hd); lia]. destruct Hb as [-> ->].
  destruct Hx as [(_ & _ & _ & H)|(st & _ & _ & Hf & Hst & Hcut)]; [done|].
  pose proof (reads_walk f es tail st Hz Hreads (Hst (or_intror Hben))) as Hw.
  exists off, sc. split_and!; [done|done|]. do 2 f_equal. unfold recovered_file. rewrite Hw; cbn [w_status w_entries].
  case_bool_decide as Hs; [by apply Hcut|by apply Hf].
Qed.

(** On an intact log [recover] changes nothing but the members, which it sets to
    what they are. *)
Lemma recover_holds {V} (visitor : visitor_of V) minEpoch v s fd i f es :
  opened s fd i f -> holds f es ->
  Forall (eq Done) (os_script (WAL.s_os s)) ->
  (length (f_data f) + 10 < length (os_script (WAL.s_os s)))%nat ->
  exists s' off sc, WAL.recover visitor minEpoch v s =
    (Ret (result_of Ok es, visit_all (Some visitor) minEpoch es v), s') /\
    s' = WAL.St (WAL.set_chain (zlen es) (log_head es) (WAL.s_wal s)) (touch (WAL.s_os s) fd i off f sc).
Proof.
  intros Ho Hf Hd Hl.
  destruct (recover_done visitor minEpoch v s fd i f Ho (holds_header _ _ Hf) (holds_size _ _ Hf) Hd Hl) as (off & sc & _ & E).
  assert (Hw : walk (log_part f) = Walked Ok es (log_head es) (length (encode_log es)))
    by (rewrite (log_part_holds _ _ Hf); by eapply walk_roundtrip, holds_log_ok).
  rewrite (result_for_holds f es Hf) in E. unfold recovered_file in E. rewrite Hw in E.
  eexists _, off, sc. split; [exact E|done].
Qed.

(** ** The constructor on a file that exists, and on one that does not *)

(** What a file can be after the constructor: itself, or the start of a header. *)
Definition headed (f f' : file) : Prop :=
  f' = f \/ f_data f = [] /\ f_data f' `prefix_of` WAL.header_bytes.

Lemma header_only_headed f f' : header_only f f' -> headed f f'.
Proof.
  intros [->|[Hn [(d & Hd & Hg)|[E _]]]]; [by left|right; split; [done|]..].
  - by rewrite (grows_data _ _ _ Hg), Hn.
  - by rewrite E.
Qed.

Lemma open_any path N o i f :
  os_names o !! path = Some i -> os_inodes o !! i = Some f ->
  wp (WAL.open path N) o (fun r o' => exists f', headed f f' /\
    os_inodes o' = <[i := f']> (os_inodes o) /\ os_names o' = os_names o /\ os_names_log o' = os_names_log o /\
    used (os_script o) (os_script o') 7 /\
    match r with
    | Ret w => w = fresh_wal path (fresh_fd o) N /\ valid_header (f_data f') = true /\
        (f_data f = [] -> f_data f' = WAL.header_bytes) /\
        exists off sc, o' = touch o (fresh_fd o) i off f' sc
    | Throw _ => os_fds o' = os_fds o /\
        (Forall (eq Done) (os_script o) -> f_data f <> [] /\ valid_header (f_data f) = false)
    | Halt => Forall (eq Done) (os_script o) -> (length (os_script o) <= 7)%nat
    end).
Proof.
  intros Hn Hi. set (Q := fun (r : result WAL.wal) o' => _).
  pose proof (open_spec path N o Q) as Ho. unfold open_file, open_system in Ho. rewrite Hn in Ho. cbn in Ho.
  apply Ho; clear Ho; rewrite ?Hi; cbn [default from_option id].
  - intros ? [= <-]. eauto.
  - intros x sc Hnd Hs. exists f. split_and!; [by left|symmetry; by apply insert_id|done..].
  - intros E. exists f. split_and!; [by left|symmetry; by apply insert_id|done|done|by eapply used_le, used_refl; lia|].
    rewrite E. cbn. lia.
  - intros r o' sc Hu _ (off & f' & sc' & Hu' & Hf%header_only_headed & Hr).
    assert (Hu2 : used (os_script o) sc' 7) by exact (used_trans _ _ _ 1 6 Hu Hu').
    exists f'. destruct r as [w|x|].
    + destruct Hr as (-> & -> & Hr). split_and!; [done|done|done|done|exact Hu2|done| | |by eauto].
      * case_decide; [|destruct Hr as [-> Hr]; exact Hr]. by rewrite (proj1 Hr).
      * intros E. rewrite decide_True in Hr by done. apply Hr.
    + destruct Hr as [-> Hr]. rewrite drop_touch by apply fresh_fd_none.
      split_and!; [done|done|done|done|exact Hu2|done|].
      intros Hd. by apply Hr, (suffix_Forall _ _ _ (proj1 Hu)).
    + destruct Hr as [-> ->]. split_and!; [done|done|done|done|exact Hu2|].
      intros Hd. destruct Hu2 as [_ Hu2]. specialize (Hu2 Hd). cbn in Hu2. lia.
Qed.

Lemma open_existing path N o i f :
  os_names o !! path = Some i -> os_inodes o !! i = Some f -> f_data f <> [] ->
  wp (WAL.open path N) o (fun r o' =>
    os_inodes o' = os_inodes o /\ os_names o' = os_names o /\ os_names_log o' = os_names_log o /\
    used (os_script o) (os_script o') 7 /\
    match r with
    | Ret w => valid_header (f_data f) = true /\ w = fresh_wal path (fresh_fd o) N /\
        opened (WAL.St w o') (fresh_fd o) i f /\ exists off sc, o' = touch o (fresh_fd o) i off f sc
    | Throw _ => os_fds o' = os_fds o /\
        (Forall (eq Done) (os_script o) -> valid_header (f_data f) = false)
    | Halt => Forall (eq Done) (os_script o) -> (length (os_script o) <= 7)%nat
    end).
Proof.
  intros Hn Hi Hne. eapply wp_mono; [by apply open_any|].
  intros r o' (f' & [-> |[? _]] & Hino & Hnm & Hlog & Hu & Hr); [|done]. rewrite insert_id in Hino by done.
  split_and!; [done..|]. destruct r as [w|x|]; [|destruct Hr as [H1 H2]; split; [done|]; intros Hd; by apply H2|done].
  destruct Hr as (-> & Hv & _ & off & sc & ->). split_and!; [done|done|by apply opened_intro|by eauto].
Qed.

Lemma open_new path N o :
  os_names o !! path = None -> Forall (eq Done) (os_script o) -> (8 <= length (os_script o))%nat ->
  exists w o' f, WAL.open path N o = (Ret w, o') /\ w = fresh_wal path (fresh_fd o) N /\
    opened (WAL.St w o') (fresh_fd o) (fresh_inode o) f /\
    f_data f = WAL.header_bytes /\ f_pending f = [] /\
    used (os_script o) (os_script o') 7 /\
    os_names o' = <[path := fresh_inode o]> (os_names o) /\
    os_names_log o' = os_names_log o ++ [os_names o].
Proof.
  intros Hn Hd Hl. set (Q := fun (r : result WAL.wal) o' => exists w f, r = Ret w /\
    w = fresh_wal path (fresh_fd o) N /\
    opened (WAL.St w o') (fresh_fd o) (fresh_inode o) f /\
    f_data f = WAL.header_bytes /\ f_pending f = [] /\
    used (os_script o) (os_script o') 7 /\
    os_names o' = <[path := fresh_inode o]> (os_names o) /\
    os_names_log o' = os_names_log o ++ [os_names o]).
  assert (Hwp : wp (WAL.open path N) o Q).
  { pose proof (open_spec path N o Q) as Ho. unfold open_file, open_system in Ho. rewrite Hn in Ho.
    apply Ho; clear Ho.
    - by intros ?.
    - intros x sc Hnd _. done.
    - intros E. rewrite E in Hl. cbn in Hl. lia.
    - intros r o' sc Hu _ (off & f' & sc' & Hu' & _ & Hr).
      assert (Hu2 : used (os_script o) sc' 7) by exact (used_trans _ _ _ 1 6 Hu Hu').
      destruct r as [w|x|].
      + destruct Hr as (-> & -> & Hr). rewrite decide_True in Hr by done. destruct Hr as [Hr1 Hr2].
        eexists _, f'. split_and!; try done. by apply opened_intro.
      + destruct Hr as [_ Hr]. by destruct (Hr (suffix_Forall _ _ _ (proj1 Hu) Hd)).
      + destruct Hr as [_ ->]. destruct Hu2 as [_ Hu2]. specialize (Hu2 Hd). cbn in Hu2. lia. }
  unfold wp in Hwp. destruct (WAL.open path N o) as [r o']. cbn [fst snd] in Hwp.
  destruct Hwp as (w & f & -> & H). by exists w, o', f.
Qed.

(** On a file that is empty or has a valid header, as an equation. *)
Lemma open_ready path N o i f :
  os_names o !! path = Some i -> os_inodes o !! i = Some f ->
  f_data f = [] \/ valid_header (f_data f) = true ->
  Forall (eq Done) (os_script o) -> (8 <= length (os_script o))%nat ->
  exists off f' sc, used (os_script o) sc 7 /\
    WAL.open path N o = (Ret (fresh_wal path (fresh_fd o) N), touch o (fresh_fd o) i off f' sc) /\
    (f_data f = [] -> f_data f' = WAL.header_bytes /\ f_pending f' = []) /\ (f_data f <> [] -> f' = f).
Proof.
  intros Hn Hi Hv Hd Hl. set (Q := fun (r : result WAL.wal) o' => exists off f' sc, used (os_script o) sc 7 /\
    r = Ret (fresh_wal path (fresh_fd o) N) /\ o' = touch o (fresh_fd o) i off f' sc /\
    (f_data f = [] -> f_data f' = WAL.header_bytes /\ f_pending f' = []) /\ (f_data f <> [] -> f' = f)).
  enough (Hwp : wp (WAL.open path N) o Q).
  { unfold wp in Hwp. destruct (WAL.open path N o) as [r o']. destruct Hwp as (off & f' & sc & Hu & H1 & H2 & H).
    cbn [fst snd] in H1, H2. subst. by exists off, f', sc. }
  pose proof (open_spec path N o Q) as Ho. unfold open_file, open_system in Ho. rewrite Hn, Hi in Ho. cbn in Ho.
  apply Ho; clear Ho.
  - intros ? [= <-]. eauto.
  - intros x sc Hnd _. done.
  - intros E. rewrite E in Hl. cbn in Hl. lia.
  - intros r o' sc Hu _ (off & f' & sc' & Hu' & Hf & Hr).
    assert (Hu2 : used (os_script o) sc' 7) by exact (used_trans _ _ _ 1 6 Hu Hu').
    destruct r as [w|x|].
    + destruct Hr as (-> & -> & Hr). exists off, f', sc'. split_and!; [done|done|done|..].
      * intros E. by rewrite decide_True in Hr by done.
      * intros E. rewrite decide_False in Hr by done. by destruct Hr.
    + destruct Hr as [_ Hr]. destruct (Hr (suffix_Forall _ _ _ (proj1 Hu) Hd)) as [Hne Hf'].
      destruct Hv as [|Hv]; [done|congruence].
    + destruct Hr as [_ ->]. destruct Hu2 as [_ Hu2]. specialize (Hu2 Hd). cbn in Hu2. lia.
Qed.

(** ** Power comes back *)

(** The system after a boot from the disk [d]: nothing is open or pending. *)
Definition booted (d : disk) (o : os) : Prop :=
  os_names_log o = [] /\ os_fds o = ∅ /\
  forall path,
    match os_names o !! path with
    | Some i => exists c, os_inodes o !! i = Some (File c []) /\ d !! path = Some c
    | None => d !! path = None
    end.

Lemma header_valid c : take WAL.kHeaderSize c = WAL.header_bytes -> valid_header c = true /\ c <> [].
Proof.
  intros Hc. assert (Hl : (16 <= length c)%nat).
  { apply (f_equal length) in Hc. rewrite length_take, header_bytes_length in Hc. unfold WAL.kHeaderSize in *. lia. }
  split; [|by intros ->]. unfold valid_header. destruct (Nat.leb_spec 16 (length c)); [|lia].
  rewrite <- (take_drop WAL.kHeaderSize c), Hc. reflexivity.
Qed.

Lemma recoverable_walk c es :
  recoverable c es ->
  walk (drop WAL.kHeaderSize c) =
    Walked (w_status (walk (drop WAL.kHeaderSize c))) es (log_head es) (length (encode_log es)) /\
  exists tail, drop WAL.kHeaderSize c = encode_log es ++ tail /\ Forall entry_ok es.
Proof.
  intros (_ & He & _). destruct (walk_image (drop WAL.kHeaderSize c)) as (es' & tail & Hd & Hok & Hw & _).
  assert (es' = es) as -> by (rewrite Hw in He; exact He). eauto.
Qed.

(** A torn tail cut or not, a power cut leaves the same entries. *)
Lemma recovered_window c es :
  recoverable c es -> window (recovered_file (File c [])) es 0 /\ holds (recovered_file (File c [])) es.
Proof.
  intros Hrec. pose proof (proj2 (proj2 (proj2 Hrec))) as Hz.
  destruct (walk_image (drop WAL.kHeaderSize c)) as (es' & tail & Hd & Hok & Hw & Hst).
  assert (es' = es) as -> by (destruct Hrec as (_ & He & _); rewrite Hw in He; exact He).
  assert (Hr : reads_log (File c []) es tail) by done.
  pose proof (reads_count (File c []) es tail Hz Hr) as Hlog.
  assert (Hh : (WAL.kHeaderSize <= length c)%nat).
  { destruct Hrec as [H _]. apply (f_equal length) in H. rewrite length_take, header_bytes_length in H. lia. }
  assert (Hc0 : exists es1, es1 `prefix_of` es /\ recoverable c es1 /\ zlen es - 0 <= zlen es1).
  { exists es. split_and!; [done|done|lia]. }
  assert (Hle : zlen (WAL.header_bytes ++ encode_log es) < 2 ^ 63).
  { apply (f_equal length) in Hd. rewrite length_drop, length_app in Hd.
    rewrite length_app, header_bytes_length. lia. }
  unfold recovered_file. change (log_part (File c [])) with (drop WAL.kHeaderSize c).
  rewrite (proj1 (proj2 Hrec)). case_bool_decide as Hs.
  - pose proof (cut_data (File c []) es tail Hh Hr) as Hcut. change (f_data (File c [])) with c in Hcut.
    rewrite (proj1 Hrec) in Hcut. split; [|split; [done|done|by rewrite Hcut]].
    intros c' Hc. inversion Hc as [|? ? ? ? H|]; subst; [done|].
    inversion H; subst. exists es. split_and!; [done| |lia].
    unfold cut_at in Hcut. rewrite f_data_update in Hcut. change (f_data (File c [])) with c in Hcut.
    match goal with |- recoverable ?x _ => replace x with (WAL.header_bytes ++ encode_log es) by (symmetry; exact Hcut) end.
    by apply recoverable_log.
  - assert (Hs' : w_status (walk (drop WAL.kHeaderSize c)) = Ok) by (by destruct Hrec as (_ & _ & [|] & _)).
    rewrite Hs' in Hst. cbn in Hst. subst tail. rewrite app_nil_r in Hd. split.
    + intros c' Hc. by inversion Hc; subst.
    + split; [|done|done]. change (f_data (File c [])) with c. by rewrite <- (proj1 Hrec), <- Hd, take_drop.
Qed.

(** The constructor and [recover] on contents that a power cut left. *)
Lemma reboot_recovers {V} (visitor : visitor_of V) (v : V) path N o i c es :
  os_names o !! path = Some i -> os_inodes o !! i = Some (File c []) ->
  recoverable c es ->
  Forall (eq Done) (os_script o) -> (length c + 20 <= length (os_script o))%nat ->
  exists w o1 res s2 fd f,
    WAL.open path N o = (Ret w, o1) /\
    WAL.recover visitor None v (WAL.St w o1) = (Ret (res, visit_all (Some visitor) None es v), s2) /\
    (r_status res = Ok \/ r_status res = TruncatedTail) /\ r_entriesVerified res = zlen es /\
    rep s2 fd i f es /\ window f es 0.
Proof.
  intros Hn Hi Hrec Hd Hl. destruct (header_valid c (proj1 Hrec)) as [Hv Hne].
  pose proof (open_existing path N o i (File c []) Hn Hi Hne) as Hopen. unfold wp in Hopen.
  destruct (WAL.open path N o) as [r o1]. cbn [fst snd] in Hopen.
  destruct Hopen as (_ & _ & _ & Hu & Hx). change (f_data (File c [])) with c in Hx.
  destruct r as [w|x|]; [|destruct Hx as [_ Hx]; by rewrite Hx in Hv|specialize (Hx Hd); lia].
  destruct Hx as (_ & -> & Ho & _). destruct Hu as [Hsuf Hu]. specialize (Hu Hd).
  set (w := fresh_wal path (fresh_fd o) N) in *. set (f := File c []) in *.
  assert (Hh : (WAL.kHeaderSize <= length (f_data f))%nat).
  { destruct Hrec as [H _]. apply (f_equal length) in H. rewrite length_take, header_bytes_length in H.
    change (f_data f) with c. lia. }
  destruct (recover_done visitor None v (WAL.St w o1) _ i f Ho Hh (proj2 (proj2 (proj2 Hrec)))
    (suffix_Forall _ _ _ Hsuf Hd)) as (off & sc & _ & E); [change (f_data f) with c; cbn [WAL.s_os]; lia|].
  change (log_part f) with (drop WAL.kHeaderSize c) in E. rewrite (proj1 (proj2 Hrec)) in E.
  destruct (recovered_window c es Hrec) as [Hwin Hholds].
  pose proof (proj1 (proj2 (proj2 Hrec))) as Hst.
  assert (Hres : exists st, result_for f = result_of st es /\ (st = Ok \/ st = TruncatedTail)).
  { eexists. split; [|exact Hst]. unfold result_for. change (log_part f) with (drop WAL.kHeaderSize c).
    by rewrite (proj1 (proj2 Hrec)). }
  destruct Hres as (st & Hres & Hst'). rewrite Hres in E.
  assert (Ew : adopt (result_of st es) w = WAL.set_chain (zlen es) (log_head es) w) by by destruct Hst' as [-> | ->].
  eexists _, o1, _, _, _, _. split_and!; [done|exact E|by destruct Hst' as [-> | ->]; auto|by destruct Hst' as [-> | ->]| |done].
  cbn [WAL.s_wal WAL.s_os]. rewrite Ew. split; [by apply opened_intro|done|].
  split; cbn; [done|done|unfold is_u64; lia|destruct (Z.ltb_spec N 1); lia|lia].
Qed.
