(* ===== verification/WALSpec.v ===== *)
(** * WALSpec: the properties of the write-ahead log

    The contract of each method of [WAL], of the log across power cuts, and what
    the hash chain detects, with concrete runs. *)

From stdpp Require Import gmap.
From S2P Require Import Prelude Endian CRC32 SHA256 Exec Posix PosixFacts LogFormat LogTheory WAL WALFacts WalkFacts WALTheory.

(** ** A concrete log to run *)

Module Demo.
Definition path : string := "wal.log".

(** The system with one file, the log [c], open as descriptor 0. *)
Definition system (c : bytes) (pending : list fop) (sc : list outcome) : os :=
  Os {[ 0%nat := File c pending ]} {[ path := 0%nat ]} [] {[ 0%nat := FdFile 0 16 true ]} sc.

Definition object : WAL.wal := WAL.Wal path (Some 0%nat) 7 0 zero_digest 2 0.

(** An empty log, synchronised every two writes. *)
Definition start (sc : list outcome) : WAL.st := WAL.St object (system WAL.header_bytes [] sc).

Definition q1 : request := (PUT, [x61], [x31; x32], 1000).
Definition q2 : request := (DELETE, [x61], [], -5).

Lemma start_opened c p sc : opened (WAL.St object (system c p sc)) 0 0 (File c p).
Proof. split; [done|]. exists 16%nat. reflexivity. Qed.

Lemma start_holds : holds (File WAL.header_bytes []) [].
Proof. split; [reflexivity|constructor|done]. Qed.

Lemma start_rep sc : rep (start sc) 0 0 (File WAL.header_bytes []) [].
Proof.
  split; [apply start_opened|apply start_holds|].
  split; cbn; [done|done|unfold is_u64; lia|lia|lia].
Qed.

Lemma requests_ok : Forall request_ok [q1; q2].
Proof.
  repeat constructor; cbn; unfold is_i64, WAL.kMaxFieldSize; vm_compute; done.
Qed.

(** The disk and the system after a reboot. *)
Definition rebooted (c : bytes) (sc : list outcome) : os :=
  Os {[ 3%nat := File c [] ]} {[ path := 3%nat ]} [] ∅ sc.

Lemma rebooted_booted c sc : booted {[ path := c ]} (rebooted c sc).
Proof.
  split_and!; [done|done|]. intros p. unfold rebooted; cbn [os_names os_inodes]. destruct (decide (p = path)) as [->|Hne].
  - rewrite lookup_singleton_eq. exists c. by rewrite !lookup_singleton_eq.
  - assert (Hne' : path <> p) by congruence. rewrite lookup_singleton_ne by done. by apply lookup_singleton_ne.
Qed.

(** The file of a state of the object. *)
Definition file (s : WAL.st) : Posix.file :=
  match file_of 0 (WAL.s_os s) with Some (_, _, _, f) => f | None => empty_file end.

(** A power cut in which everything written reached the disk. *)
Lemma crash_all o :
  os_names o = {[ path := 0%nat ]} -> is_Some (os_inodes o !! 0%nat) ->
  crash_disk o {[ path := f_data (default empty_file (os_inodes o !! 0%nat)) ]}.
Proof.
  intros Hn [f Hi]. exists (os_names o). split; [apply elem_of_app; right; by left|].
  rewrite Hn, Hi. intros p. destruct (decide (p = path)) as [->|Hne].
  - rewrite lookup_singleton_eq. exists f, (f_data f).
    split_and!; [done|apply crash_content_refl|apply lookup_singleton_eq].
  - assert (Hne' : path <> p) by congruence. rewrite lookup_singleton_ne by done.
    by apply lookup_singleton_ne.
Qed.

(** A visitor that lists what it is given. *)
Definition lister : visitor_of (list (RecordType * bytes * bytes * Z)) :=
  fun type key value ts l => l ++ [(type, key, value, ts)].
End Demo.

(** ** Appends and power cuts *)

(** C4: An acknowledged append survives a power cut, up to the configured batch.
    Start from a log [es] whose file a power cut would leave recoverable but for
    the pending writes, and let a client append until the first failure, for any
    outcomes of the system calls.  If power is cut there and the machine boots
    from any disk the cut can leave, the constructor succeeds and [recover]
    replays, in order, exactly a prefix of the entries appended, which lacks at
    most [syncEveryN - 1] of the acknowledged ones; the object is ready for more. *)
Theorem acknowledged_appends_survive {V} (visitor : visitor_of V) (v : V) s fd i f es l path N d o2 :
  rep s fd i f es ->
  window f es (WAL.m_pendingWrites (WAL.s_wal s)) ->
  WAL.m_pendingWrites (WAL.s_wal s) < WAL.m_syncEveryN (WAL.s_wal s) ->
  Forall request_ok l -> zlen (f_data f) + total_size l < 2 ^ 63 ->
  let '(n, s') := append_seq l s in
  (forall ns, ns ∈ os_names_log (WAL.s_os s') ++ [os_names (WAL.s_os s')] -> ns !! path = Some i) ->
  crash_disk (WAL.s_os s') d -> booted d o2 ->
  Forall (eq Done) (os_script o2) ->
  (forall c, d !! path = Some c -> (length c + 20 <= length (os_script o2))%nat) ->
  exists survivors w o3 res s3 fd3 i3 f3,
    survivors `prefix_of` es ++ (entry_for (WAL.m_epoch (WAL.s_wal s)) <$> take (S n) l) /\
    zlen es + Z.of_nat n - (WAL.m_syncEveryN (WAL.s_wal s) - 1) <= zlen survivors /\
    WAL.open path N o2 = (Ret w, o3) /\
    WAL.recover visitor None v (WAL.St w o3) = (Ret (res, visit_all (Some visitor) None survivors v), s3) /\
    (r_status res = Ok \/ r_status res = TruncatedTail) /\ r_entriesVerified res = zlen survivors /\
    rep s3 fd3 i3 f3 survivors /\ window f3 survivors 0.
Proof.
  intros Hr Hw Hp Hq Hz. pose proof (append_seq_inv l s fd i f es Hr Hw Hp Hq Hz) as Hinv.
  destruct (append_seq l s) as [n s']. destruct Hinv as (_ & _ & f' & m & Ho & Hwin & Hm & _ & _).
  intros Hns (ns & Hin & Hdisk) (_ & _ & Hboot) Hd Hl. specialize (Hdisk path).
  rewrite (Hns ns Hin) in Hdisk. destruct Hdisk as (f1 & c & Hi & Hc & Hdc).
  assert (f1 = f') as ->.
  { destruct Ho as [_ [off Hf]]. unfold file_of in Hf.
    destruct (os_fds (WAL.s_os s') !! fd) as [[i' off' app|]|]; [|done..].
    destruct (os_inodes (WAL.s_os s') !! i') eqn:E; [|done]. cbn in Hf. by simplify_eq. }
  destruct (Hwin c Hc) as (survivors & Hpre & Hrec & Hlen).
  specialize (Hboot path). destruct (os_names o2 !! path) as [i3|] eqn:En; [|congruence].
  destruct Hboot as (c' & Hi3 & Hdc'). assert (c' = c) as -> by congruence.
  destruct (reboot_recovers visitor v path N o2 i3 c survivors En Hi3 Hrec Hd (Hl c Hdc))
    as (w & o3 & res & s3 & fd3 & f3 & H1 & H2 & H3 & H4 & H5 & H6).
  exists survivors, w, o3, res, s3, fd3, i3, f3. split_and!; try done. lia.
Qed.

(** Three appends are asked for, power fails during the third. *)
Lemma acknowledged_appends_survive_witness :
  let '(n, s') := append_seq [Demo.q1; Demo.q2; Demo.q1] (Demo.start [Done; Done; Done]) in
  let c := f_data (default empty_file (os_inodes (WAL.s_os s') !! 0%nat)) in
  n = 2%nat /\
  exists survivors w o3 res s3,
    survivors `prefix_of` (entry_for 7 <$> [Demo.q1; Demo.q2; Demo.q1]) /\ 1 <= zlen survivors /\
    WAL.open Demo.path 1 (Demo.rebooted c (replicate 400 Done)) = (Ret w, o3) /\
    WAL.recover Demo.lister None [] (WAL.St w o3) =
      (Ret (res, visit_all (Some Demo.lister) None survivors []), s3).
Proof.
  pose proof (acknowledged_appends_survive Demo.lister [] (Demo.start [Done; Done; Done]) 0 0
    (File WAL.header_bytes []) [] [Demo.q1; Demo.q2; Demo.q1] Demo.path 1) as H.
  assert (En : fst (append_seq [Demo.q1; Demo.q2; Demo.q1] (Demo.start [Done; Done; Done])) = 2%nat)
    by (vm_compute; reflexivity).
  assert (Eo : os_names (WAL.s_os (snd (append_seq [Demo.q1; Demo.q2; Demo.q1] (Demo.start [Done; Done; Done]))))
    = {[ Demo.path := 0%nat ]}) by (vm_compute; reflexivity).
  assert (El : os_names_log (WAL.s_os (snd (append_seq [Demo.q1; Demo.q2; Demo.q1] (Demo.start [Done; Done; Done]))))
    = []) by (vm_compute; reflexivity).
  assert (Ei : bool_decide (is_Some (os_inodes (WAL.s_os (snd (append_seq [Demo.q1; Demo.q2; Demo.q1] (Demo.start [Done; Done; Done]))))
     !! 0%nat)) = true) by (vm_compute; reflexivity).
  assert (Ec : (length (f_data (default empty_file (os_inodes (WAL.s_os (snd (append_seq [Demo.q1; Demo.q2; Demo.q1]
     (Demo.start [Done; Done; Done])))) !! 0%nat))) =? 158)%nat = true) by (vm_compute; reflexivity).
  destruct (append_seq [Demo.q1; Demo.q2; Demo.q1] (Demo.start [Done; Done; Done])) as [n s'].
  cbn [fst snd] in *. subst n. apply bool_decide_eq_true in Ei. apply Nat.eqb_eq in Ec.
  set (c := f_data (default empty_file (os_inodes (WAL.s_os s') !! 0%nat))) in *.
  cbv zeta. split; [done|].
  destruct (H {[ Demo.path := c ]} (Demo.rebooted c (replicate 400 Done))) as
    (survivors & w & o3 & res & s3 & fd3 & i3 & f3 & H1 & H2 & H3 & H4 & _).
  - apply Demo.start_rep.
  - apply window_synced; [done|apply Demo.start_holds].
  - done.
  - repeat apply Forall_cons_2; [apply (Forall_inv Demo.requests_ok)| |apply (Forall_inv Demo.requests_ok)|constructor].
    apply (Forall_inv (Forall_inv_tail Demo.requests_ok)).
  - done.
  - intros ns. rewrite El, Eo. intros ->%list_elem_of_singleton. apply lookup_singleton_eq.
  - by apply Demo.crash_all.
  - apply Demo.rebooted_booted.
  - by apply Forall_replicate.
  - intros c' E. assert (Some c' = Some c) as [= ->] by (rewrite <- E; apply lookup_singleton_eq). rewrite Ec. unfold Demo.rebooted; cbn [os_script]. rewrite length_replicate. lia.
  - exists survivors, w, o3, res, s3. by split_and!.
Defined.

(** C11: The effect of [append] on every outcome of its system calls.  A field
    over one mebibyte is refused and a closed log ignores the call, both without
    any effect.  Otherwise the entry is added to the file and to the chain; the
    batch is synchronised when it is full.  A failed write leaves the object as
    it was and part of the entry in the file; a failed [fsync] leaves the entry
    in the log.  Three calls that succeed are enough for it to return. *)
Theorem append_effect s fd i f es type key value ts :
  rep s fd i f es -> is_i64 ts -> zlen (f_data f) + 69 + zlen key + zlen value < 2 ^ 63 ->
  let too_long := (WAL.kMaxFieldSize <? zlen key) || (WAL.kMaxFieldSize <? zlen value) in
  let e := entry_of (WAL.s_wal s) type key value ts in
  let image := encode_entry (log_head es) (zlen es) e in
  let w' := counted s es type key value ts in
  let full := WAL.m_syncEveryN (WAL.s_wal s) <=? WAL.m_pendingWrites (WAL.s_wal s) + 1 in
  let '(r, s') := WAL.append type key value ts s in
  if too_long then r = Throw (length_error "WAL field exceeds 1048576 bytes") /\ s' = s
  else exists f' d, opened s' fd i f' /\ f_data f' = f_data f ++ d /\ d `prefix_of` image /\
    match r with
    | Ret _ => d = image /\
        if full then WAL.s_wal s' = WAL.set_pending 0 w' /\ f_pending f' = [] else WAL.s_wal s' = w'
    | Throw x =>
        x = runtime_error "Failed to write entry to WAL" /\ WAL.s_wal s' = WAL.s_wal s \/
        x = runtime_error "fsync failed" /\ WAL.s_wal s' = w' /\ d = image /\ full = true
    | Halt => WAL.s_wal s' = WAL.s_wal s \/ WAL.s_wal s' = w'
    end /\
    (Forall (eq Done) (os_script (WAL.s_os s)) -> (2 < length (os_script (WAL.s_os s)))%nat -> r = Ret tt).
Proof.
  intros Hr Ht Hroom. cbv zeta. destruct (_ || _) eqn:El.
  { unfold WAL.append. by rewrite El. }
  apply orb_false_iff in El as [Hk%Z.ltb_ge Hv%Z.ltb_ge].
  pose proof (append_spec s fd i f es type key value ts Hr Ht Hk Hv Hroom) as Hpost.
  unfold wp in Hpost. destruct (WAL.append type key value ts s) as [r s']; cbn [fst snd] in Hpost.
  pose proof (append_done s fd i f es type key value ts r s') as Hdone.
  pose proof (proj1 (rep_opened _ _ _ _ _ Hr)) as Hfd.
  assert (Ho : forall off f' sc', WAL.s_os s' = touch (WAL.s_os s) fd i off f' sc' ->
    WAL.m_fd (WAL.s_wal s') = Some fd -> opened s' fd i f').
  { intros off f' sc' E Hw. destruct s' as [w' o']. cbn in *. subst. by apply opened_intro. }
  pose proof Hpost as (off & f' & sc' & Ho' & _ & Hx). exists f'.
  destruct r as [[]|x|].
  - destruct Hx as [Hh Hx]. exists (encode_entry (log_head es) (zlen es) (entry_of (WAL.s_wal s) type key value ts)).
    split_and!; [|by rewrite (holds_data _ _ Hh), encode_log_snoc, app_assoc, <- (holds_data _ _ (rep_holds _ _ _ _ _ Hr))
      |done|done| |done].
    + eapply Ho; [done|]. by destruct Hx as [(-> & _)|(-> & _)].
    + destruct Hx as [(-> & _ & Hlt)|(-> & Hp & Hle)].
      * by destruct (Z.leb_spec (WAL.m_syncEveryN (WAL.s_wal s)) (WAL.m_pendingWrites (WAL.s_wal s) + 1)); [lia|].
      * by destruct (Z.leb_spec (WAL.m_syncEveryN (WAL.s_wal s)) (WAL.m_pendingWrites (WAL.s_wal s) + 1)); [|lia].
  - destruct Hx as [(-> & Hw & (d & Hd & Hg) & _)|(-> & Hw & Hg & Hle & _)].
    + exists d. split_and!; [eapply Ho; [done|by rewrite Hw]|by apply grows_data|done|by left|].
      intros H1 H2. by apply Hdone.
    + eexists. split_and!; [eapply Ho; [done|by rewrite Hw]|by apply grows_data|done| |].
      * right. split_and!; [done|done|done|by apply Z.leb_le].
      * intros H1 H2. by apply Hdone.
  - destruct Hx as (_ & Hw & d & Hd & Hg). exists d.
    split_and!; [eapply Ho; [done|by destruct Hw as [-> | ->]]|by apply grows_data|done|done|].
    intros H1 H2. by apply Hdone.
Qed.

(** A write that moves ten bytes and then fails. *)
Lemma append_effect_witness :
  let s := Demo.start [Short 10; Err] in
  let '(r, s') := WAL.append PUT [x61] [x31; x32] 1000 s in
  r = Throw (runtime_error "Failed to write entry to WAL") /\
  exists f' d, opened s' 0 0 f' /\ f_data f' = WAL.header_bytes ++ d /\
    d `prefix_of` encode_entry zero_digest 0 (Entry 1000 7 PUT [x61] [x31; x32]).
Proof.
  pose proof (append_effect (Demo.start [Short 10; Err]) 0 0 (File WAL.header_bytes []) [] PUT [x61] [x31; x32] 1000
    (Demo.start_rep _) ltac:(unfold is_i64; lia) eq_refl) as H.
  assert (E : fst (WAL.append PUT [x61] [x31; x32] 1000 (Demo.start [Short 10; Err])) =
    Throw (runtime_error "Failed to write entry to WAL")) by (vm_compute; reflexivity).
  cbv zeta in H |- *. destruct (WAL.append PUT [x61] [x31; x32] 1000 (Demo.start [Short 10; Err])) as [r s'].
  cbn [fst] in E. split; [done|].
  change ((WAL.kMaxFieldSize <? zlen [x61]) || (WAL.kMaxFieldSize <? zlen [x31; x32])) with false in H.
  cbv beta iota in H. destruct H as (f' & d & H1 & H2 & H3 & _). by exists f', d.
Defined.

(** ** Reading the log *)

(** C12: [verify] never changes the file or the object, for any outcomes of its
    system calls; when the calls only transfer partially or are interrupted it
    returns the verdict of the abstract walk of the file, and it returns when
    enough calls succeed.  There are no false alarms: whatever the outcomes, an
    answer [Tampered] or [Malformed] is the verdict of the walk. *)
Theorem verify_judges_file s fd i f :
  opened s fd i f -> (WAL.kHeaderSize <= length (f_data f))%nat -> zlen (f_data f) < 2 ^ 63 ->
  let '(r, s') := WAL.verify s in
  WAL.s_wal s' = WAL.s_wal s /\
  (exists off sc, WAL.s_os s' = touch (WAL.s_os s) fd i off f sc) /\
  (Forall benign (os_script (WAL.s_os s)) -> r = Ret (result_for f) \/ r = Halt) /\
  (forall res, r = Ret res -> r_status res = Tampered \/ r_status res = Malformed -> res = result_for f) /\
  (Forall (eq Done) (os_script (WAL.s_os s)) ->
   (length (f_data f) + 10 < length (os_script (WAL.s_os s)))%nat -> r = Ret (result_for f)).
Proof.
  intros Ho Hh Hz.
  assert (Hwp : wp WAL.verify s (fun _ s' => WAL.s_wal s' = WAL.s_wal s /\
    exists off sc, WAL.s_os s' = touch (WAL.s_os s) fd i off f sc)).
  { apply (verify_post s fd i f); [done..|]. intros r o' Hc. split; [done|].
    destruct (chain_post_file _ _ _ _ _ _ _ _ _ Hz _ _ Hc) as (off' & sc' & f' & -> & [-> |[? _]] & _); [|done].
    by exists off', sc'. }
  pose proof (verify_benign s fd i f Ho Hh Hz) as Hb. pose proof (verify_alarm s fd i f Ho Hh Hz) as Ha. pose proof (verify_done s fd i f Ho Hh Hz) as Hd.
  unfold wp in Hwp. destruct (WAL.verify s) as [r s']. by destruct Hwp.
Qed.

Definition demo_log : bytes :=
  WAL.header_bytes ++ encode_log [entry_for 7 Demo.q1; entry_for 7 Demo.q2].

Lemma verify_judges_file_witness :
  fst (WAL.verify (WAL.St Demo.object (Demo.system demo_log [] (replicate 200 Done)))) =
  Ret (result_for (File demo_log [])).
Proof.
  pose proof (verify_judges_file (WAL.St Demo.object (Demo.system demo_log [] (replicate 200 Done))) 0 0
    (File demo_log []) (Demo.start_opened _ _ _)) as H.
  assert (El : length (f_data (File demo_log [])) = 158%nat) by (vm_compute; reflexivity).
  rewrite El in H. specialize (H (proj1 (Nat.leb_le 16 158) eq_refl) eq_refl).
  destruct (WAL.verify _) as [r s']. cbn [fst]. apply H; [by apply Forall_replicate|].
  change (length _) with (length (replicate 200 Done)). rewrite length_replicate. lia.
Defined.

(** C20: [verify] answers [Ok] exactly on the image of a log: the header, then
    the entries of a list with their sequence numbers, chain hashes and
    checksums, and nothing else.  It reports how many they are and the chain
    hash they end in. *)
Theorem verify_ok_iff s fd i f n h :
  opened s fd i f -> (WAL.kHeaderSize <= length (f_data f))%nat -> zlen (f_data f) < 2 ^ 63 ->
  Forall (eq Done) (os_script (WAL.s_os s)) ->
  (length (f_data f) + 10 < length (os_script (WAL.s_os s)))%nat ->
  fst (WAL.verify s) = Ret (MkResult Ok n 0 0 h) <->
  exists es, Forall entry_ok es /\ drop WAL.kHeaderSize (f_data f) = encode_log es /\
    n = zlen es /\ h = log_head es.
Proof.
  intros Ho Hh Hz Hd Hl.
  rewrite (verify_done s fd i f) by done.
  unfold result_for, log_part. split.
  - intros [= Hres]. destruct (walk_image (drop WAL.kHeaderSize (f_data f))) as (es & tail & Hb & Hok & Hw & Hst).
    destruct (w_status (walk (drop WAL.kHeaderSize (f_data f)))); try done. cbn in Hst. subst tail.
    rewrite app_nil_r in Hb. rewrite Hw in Hres. cbn in Hres. exists es.
    injection Hres as <- <-. done.
  - intros (es & Hok & Hb & -> & ->). rewrite Hb, walk_roundtrip; [done|].
    apply (reads_count f es []); [done|]. split; [|done]. by rewrite app_nil_r.
Qed.

Lemma verify_ok_iff_witness :
  exists es, Forall entry_ok es /\ drop WAL.kHeaderSize demo_log = encode_log es /\ 2 = zlen es.
Proof.
  assert (El : length (f_data (File demo_log [])) = 158%nat) by (vm_compute; reflexivity).
  assert (Ev : fst (WAL.verify (WAL.St Demo.object (Demo.system demo_log [] (replicate 200 Done)))) =
    Ret (MkResult Ok 2 0 0 (log_head [entry_for 7 Demo.q1; entry_for 7 Demo.q2]))) by (vm_compute; reflexivity).
  eapply verify_ok_iff in Ev; [|apply Demo.start_opened|rewrite El; apply (proj1 (Nat.leb_le 16 158) eq_refl)|rewrite El; reflexivity
    |by apply Forall_replicate|
     rewrite El; change (length _) with (length (replicate 200 Done)); rewrite length_replicate; lia].
  destruct Ev as (es & H1 & H2 & H3 & _). exists es. split_and!; assumption.
Defined.

(** What [recover] does to the object. *)
Lemma visit_all_filter {V} (f : visitor_of V) minEpoch es v :
  visit_all (Some f) minEpoch es v =
  fold_left (fun v e => f (e_type e) (e_key e) (e_value e) (e_timestamp e) v)
    (filter (is_visited minEpoch) es) v.
Proof.
  unfold visit_all. revert v. induction es as [|e es IH]; intros v; [done|].
  cbn [fold_left]. rewrite filter_cons. unfold visit_entry at 2.
  destruct (is_visited minEpoch e) eqn:E.
  - rewrite decide_True by done. apply IH.
  - rewrite decide_False by (intros []). apply IH.
Qed.

(** C5: [recover] replays the log.  When its system calls only transfer
    partially or are interrupted it gives the visitor, in the order of the log,
    each verified entry whose epoch is above the given minimum, and reports the
    verdict of the walk; the object adopts the chain of a log that is intact or
    torn, and keeps its own for one that is malformed or tampered with. *)
Theorem recover_replays {V} (visitor : visitor_of V) minEpoch v s fd i f :
  opened s fd i f -> (WAL.kHeaderSize <= length (f_data f))%nat -> zlen (f_data f) < 2 ^ 63 ->
  Forall benign (os_script (WAL.s_os s)) ->
  let '(r, s') := WAL.recover visitor minEpoch v s in
  match r with
  | Ret (res, v') =>
      res = result_for f /\
      v' = fold_left (fun v e => visitor (e_type e) (e_key e) (e_value e) (e_timestamp e) v)
             (filter (is_visited minEpoch) (w_entries (walk (log_part f)))) v /\
      WAL.s_wal s' = adopt res (WAL.s_wal s)
  | Throw _ => False
  | Halt => WAL.s_wal s' = WAL.s_wal s /\
      ~ (Forall (eq Done) (os_script (WAL.s_os s)) /\
         (length (f_data f) + 10 < length (os_script (WAL.s_os s)))%nat)
  end.
Proof.
  intros Ho Hh Hz Hb.
  enough (Hwp : wp (WAL.recover visitor minEpoch v) s (fun r s' => 
    match r with
    | Ret (res, v') =>
        res = result_for f /\
        v' = fold_left (fun v e => visitor (e_type e) (e_key e) (e_value e) (e_timestamp e) v)
               (filter (is_visited minEpoch) (w_entries (walk (log_part f)))) v /\
        WAL.s_wal s' = adopt res (WAL.s_wal s)
    | Throw _ => False
    | Halt => WAL.s_wal s' = WAL.s_wal s /\
        ~ (Forall (eq Done) (os_script (WAL.s_os s)) /\
           (length (f_data f) + 10 < length (os_script (WAL.s_os s)))%nat)
    end)).
  { unfold wp in Hwp. by destruct (WAL.recover visitor minEpoch v s). }
  apply (recover_post visitor minEpoch v s fd i f); [done..|]. intros r o' Hc.
  pose proof (chain_post_benign _ _ _ _ _ _ _ _ _ Hz _ _ Hc Hb) as Hx.
  destruct r as [[res v']|x|]; [|done|].
  - destruct Hx as [-> ->]. by rewrite visit_all_filter.
  - split; [done|]. intros [Hd Hl]. specialize (Hx Hd). lia.
Qed.

Lemma recover_replays_witness :
  exists s', WAL.recover Demo.lister None [] (WAL.St Demo.object (Demo.system demo_log [] (replicate 200 Done))) =
    (Ret (result_for (File demo_log []), [Demo.q1; Demo.q2]), s').
Proof.
  assert (El : length (f_data (File demo_log [])) = 158%nat) by (vm_compute; reflexivity).
  assert (Ew : filter (is_visited None) (w_entries (walk (log_part (File demo_log [])))) =
    [entry_for 7 Demo.q1; entry_for 7 Demo.q2]) by (vm_compute; reflexivity).
  pose proof (recover_replays Demo.lister None [] (WAL.St Demo.object (Demo.system demo_log [] (replicate 200 Done))) 0 0
    (File demo_log []) (Demo.start_opened _ _ _)) as H.
  rewrite Ew, El in H.
  change (os_script _) with (replicate 200 Done) in H. rewrite length_replicate in H.
  specialize (H (proj1 (Nat.leb_le 16 158) eq_refl) eq_refl (Forall_replicate _ 200 Done I)).
  destruct (WAL.recover _ _ _ _) as [r s']. exists s'. destruct r as [[res v']|x|]; [|destruct H|].
  - destruct H as (-> & -> & _). reflexivity.
  - destruct H as [_ H]. destruct H. split; [by apply Forall_replicate|lia].
Defined.

(** C13: Recovery keeps the evidence.  For any outcomes of its system calls, a
    power cut among them, the file that [recover] leaves is either the file it
    found or that file cut right after verified entries at its front, and it is
    the file it found whenever [recover] answers anything but a torn tail.  If
    no call fails, the file is cut only when its walk ends in a torn tail, after
    all the entries the walk verifies: a tampered or malformed log, or one whose
    last entry is whole, is then left as it is, even by a power cut.  (A call
    that fails can make a tampered log look torn: [read_error_truncates_log].) *)
Theorem recover_keeps_evidence {V} (visitor : visitor_of V) minEpoch v s fd i f :
  opened s fd i f -> (WAL.kHeaderSize <= length (f_data f))%nat -> zlen (f_data f) < 2 ^ 63 ->
  let '(r, s') := WAL.recover visitor minEpoch v s in
  exists off sc f', WAL.s_os s' = touch (WAL.s_os s) fd i off f' sc /\
    (f' = f \/
     exists es tail, f_data f = f_data f' ++ tail /\ Forall entry_ok es /\
       f_data f' = take WAL.kHeaderSize (f_data f) ++ encode_log es) /\
    (forall res v', r = Ret (res, v') -> r_status res <> TruncatedTail -> f' = f) /\
    (Forall benign (os_script (WAL.s_os s)) ->
     f' = f \/ w_status (walk (log_part f)) = TruncatedTail /\
       f_data f' = take WAL.kHeaderSize (f_data f) ++ encode_log (w_entries (walk (log_part f)))).
Proof.
  intros Ho Hh Hz.
  enough (Hwp : wp (WAL.recover visitor minEpoch v) s (fun r s' =>
    exists off sc f', WAL.s_os s' = touch (WAL.s_os s) fd i off f' sc /\
    (f' = f \/
     exists es tail, f_data f = f_data f' ++ tail /\ Forall entry_ok es /\
       f_data f' = take WAL.kHeaderSize (f_data f) ++ encode_log es) /\
    (forall res v', r = Ret (res, v') -> r_status res <> TruncatedTail -> f' = f) /\
    (Forall benign (os_script (WAL.s_os s)) ->
     f' = f \/ w_status (walk (log_part f)) = TruncatedTail /\
       f_data f' = take WAL.kHeaderSize (f_data f) ++ encode_log (w_entries (walk (log_part f)))))).
  { unfold wp in Hwp. by destruct (WAL.recover visitor minEpoch v s). }
  apply (recover_post visitor minEpoch v s fd i f); [done..|]. intros r o' Hc.
  destruct (chain_post_file _ _ _ _ _ _ _ _ _ Hz _ _ Hc) as (off' & sc' & f' & -> & Hf & Hr).
  exists off', sc', f'.
  destruct Hf as [-> |(_ & es & tail & Hreads & -> & Ht)]; [split_and!; [done|by left|done|by left]|].
  pose proof (cut_data f es tail Hh Hreads) as Hcut. split_and!; [done| |by intros res v' ->|].
  - right. exists es, tail. split_and!; [|by destruct Hreads|done]. rewrite Hcut, <- app_assoc, <- (proj1 Hreads).
    unfold log_part. by rewrite take_drop.
  - intros Hb. destruct (Ht Hb) as [Hst Hes]. right. split; [exact Hst|]. by rewrite Hcut, <- Hes.
Qed.

(** An altered checksum: nothing is cut. *)
Lemma recover_keeps_evidence_witness :
  let c := flip demo_log 16 xff in
  let '(r, s') := WAL.recover Demo.lister None [] (WAL.St Demo.object (Demo.system c [] (replicate 200 Done))) in
  exists off sc f', WAL.s_os s' = touch (Demo.system c [] (replicate 200 Done)) 0 0 off f' sc /\
    f' = File c [].
Proof.
  cbv zeta. set (c := flip demo_log 16 xff).
  assert (El : length (f_data (File c [])) = 158%nat) by (vm_compute; reflexivity).
  assert (Es : bool_decide (r_status (match fst (WAL.recover Demo.lister None []
    (WAL.St Demo.object (Demo.system c [] (replicate 200 Done)))) with Ret (res, _) => res | _ => default_result end)
    = Tampered) = true) by (vm_compute; reflexivity).
  pose proof (recover_keeps_evidence Demo.lister None [] (WAL.St Demo.object (Demo.system c [] (replicate 200 Done))) 0 0
    (File c []) (Demo.start_opened _ _ _)) as H.
  rewrite El in H. specialize (H (proj1 (Nat.leb_le 16 158) eq_refl) eq_refl).
  destruct (WAL.recover _ _ _ _) as [r s'] eqn:E. destruct H as (off & sc & f' & H1 & _ & H3 & _).
  exists off, sc, f'. split; [exact H1|].
  destruct r as [[res v']|x|]; [|cbn in Es; discriminate Es..].
  apply (H3 res v'); [reflexivity|]. apply bool_decide_eq_true in Es. cbn [fst] in Es. congruence.
Defined.

(** C18: What is appended is what is replayed.  If the system calls succeed, a
    client's appends all return, and [recover] then reports an intact log and
    gives the visitor the earlier entries and the new ones, in order, each with
    its type, key, value, timestamp and the epoch it was appended under. *)
Theorem appended_entries_replay {V} (visitor : visitor_of V) (v : V) s fd i f es l :
  rep s fd i f es ->
  window f es (WAL.m_pendingWrites (WAL.s_wal s)) ->
  WAL.m_pendingWrites (WAL.s_wal s) < WAL.m_syncEveryN (WAL.s_wal s) ->
  Forall request_ok l -> zlen (f_data f) + total_size l < 2 ^ 63 ->
  Forall (eq Done) (os_script (WAL.s_os s)) ->
  zlen (f_data f) + total_size l + 10 < Z.of_nat (length (os_script (WAL.s_os s))) - 3 * zlen l ->
  let '(n, s') := append_seq l s in
  let all := es ++ (entry_for (WAL.m_epoch (WAL.s_wal s)) <$> l) in
  n = length l /\
  exists s'', WAL.recover visitor None v s' =
    (Ret (MkResult Ok (zlen all) 0 0 (log_head all), visit_all (Some visitor) None all v), s'').
Proof.
  intros Hr Hw Hp Hq Hz Hd Hl. pose proof (append_seq_inv l s fd i f es Hr Hw Hp Hq Hz) as Hinv.
  pose proof (total_size_nonneg l) as Hnn.
  destruct (append_seq l s) as [n s']. destruct Hinv as (_ & [Hsuf Hu] & f' & m & _ & _ & _ & Hrep & Hall).
  specialize (Hu Hd). specialize (Hall Hd ltac:(lia)). subst n. rewrite take_ge in Hrep by lia.
  specialize (Hrep eq_refl). split; [done|].
  assert (Hlen : zlen (f_data f') = zlen (f_data f) + total_size l) 
    by (eapply size_grows; [apply Hr|apply Hrep]).
  destruct (recover_holds visitor None v s' fd i f' _ (rep_opened _ _ _ _ _ Hrep) (rep_holds _ _ _ _ _ Hrep)
    (suffix_Forall _ _ _ Hsuf Hd)) as (s'' & off & sc & E & _); [lia|].
  exists s''. exact E.
Qed.

Lemma appended_entries_replay_witness :
  exists s' s'' h, append_seq [Demo.q1; Demo.q2] (Demo.start (replicate 300 Done)) = (2%nat, s') /\
    WAL.recover Demo.lister None [] s' = (Ret (MkResult Ok 2 0 0 h, [Demo.q1; Demo.q2]), s'').
Proof.
  pose proof (appended_entries_replay Demo.lister [] (Demo.start (replicate 300 Done)) 0 0 (File WAL.header_bytes []) []
    [Demo.q1; Demo.q2] (Demo.start_rep _) (window_synced (File WAL.header_bytes []) [] eq_refl Demo.start_holds) eq_refl Demo.requests_ok eq_refl) as H.
  change (os_script _) with (replicate 300 Done) in H. rewrite length_replicate in H.
  specialize (H (Forall_replicate _ 300 Done eq_refl) eq_refl).
  destruct (append_seq _ _) as [n s']. destruct H as (-> & s'' & H).
  exists s', s''. eexists. split; [reflexivity|]. exact H.
Defined.

(** ** Opening, resetting and closing *)

(** C26: Opening a log never changes a file that holds anything, whatever the
    outcomes of the system calls, nor any other file.  The constructor returns only if the file
    starts with the magic number and version 2, the object then has an empty
    chain and the given batch size (at least one); if it throws, no descriptor
    is left open.  When its calls succeed it returns exactly on a valid header. *)
Theorem open_keeps_contents path N o i f :
  os_names o !! path = Some i -> os_inodes o !! i = Some f -> f_data f <> [] ->
  let '(r, o') := WAL.open path N o in
  os_inodes o' = os_inodes o /\ os_names o' = os_names o /\
  match r with
  | Ret w => valid_header (f_data f) = true /\
      w = WAL.Wal path (Some (fresh_fd o)) 0 0 zero_digest (Z.max 1 N) 0 /\
      opened (WAL.St w o') (fresh_fd o) i f
  | Throw _ => os_fds o' = os_fds o
  | Halt => True
  end /\
  (Forall (eq Done) (os_script o) -> (7 < length (os_script o))%nat ->
   (exists w, r = Ret w) <-> valid_header (f_data f) = true).
Proof.
  intros Hn Hi Hne. pose proof (open_existing path N o i f Hn Hi Hne) as Hwp. unfold wp in Hwp.
  destruct (WAL.open path N o) as [r o']. cbn [fst snd] in Hwp. destruct Hwp as (H1 & H2 & _ & _ & H3).
  assert (Hmax : (if N <? 1 then 1 else N) = Z.max 1 N) by (destruct (Z.ltb_spec N 1); lia).
  split_and!; [done|done| |].
  - destruct r as [w|x|]; [|by destruct H3|done]. destruct H3 as (Hv & -> & Ho & _).
    unfold fresh_wal in *. by rewrite Hmax in *.
  - intros Hd Hl. destruct r as [w|x|].
    + split; [by intros _; destruct H3|]. by exists w.
    + destruct H3 as [_ H3]. rewrite (H3 Hd). split; [by intros [w [=]]|done].
    + specialize (H3 Hd). lia.
Qed.

Lemma open_keeps_contents_witness :
  let o := Demo.rebooted demo_log (replicate 9 Done) in
  exists w o', WAL.open Demo.path 0 o = (Ret w, o') /\ WAL.m_syncEveryN w = 1 /\
    os_inodes o' !! 3%nat = Some (File demo_log []).
Proof.
  cbv zeta. pose proof (open_keeps_contents Demo.path 0 (Demo.rebooted demo_log (replicate 9 Done)) 3 (File demo_log [])
    (lookup_singleton_eq _ _) (lookup_singleton_eq _ _) ltac:(discriminate)) as H.
  destruct (WAL.open _ _ _) as [r o']. destruct H as (H1 & _ & H2 & H3).
  destruct H3 as [_ H3]; [by apply Forall_replicate|change (length _) with 9%nat; lia|].
  destruct H3 as [w ->]; [reflexivity|]. exists w, o'. destruct H2 as (_ & -> & _). rewrite H1. by split_and!.
Defined.

(** C29: A log that does not exist is created empty: the constructor writes and
    synchronises the header, and the object represents the empty log, which a
    power cut keeps, as far as the file goes.  The directory entry is new and
    not synchronised. *)
Theorem open_creates_log path N o :
  os_names o !! path = None -> Forall (eq Done) (os_script o) -> (8 <= length (os_script o))%nat ->
  exists w o' f, WAL.open path N o = (Ret w, o') /\
    rep (WAL.St w o') (fresh_fd o) (fresh_inode o) f [] /\ window f [] 0 /\
    os_names o' = <[path := fresh_inode o]> (os_names o) /\
    os_names_log o' = os_names_log o ++ [os_names o].
Proof.
  intros Hn Hd Hl. destruct (open_new path N o Hn Hd Hl) as (w & o' & f & E & -> & Ho & Hf & Hp & _ & H1 & H2).
  assert (Hh : holds f []) by (split; [by rewrite Hf, app_nil_r|constructor|by rewrite Hf]).
  exists (fresh_wal path (fresh_fd o) N), o', f. split_and!; [done| |by apply window_synced|done|done].
  split; [done|done|]. split; cbn; [done|done|unfold is_u64; lia|destruct (Z.ltb_spec N 1); lia|lia].
Qed.

Lemma open_creates_log_witness :
  exists w o', WAL.open Demo.path 3 (Os ∅ ∅ [] ∅ (replicate 8 Done)) = (Ret w, o') /\
    os_names_log o' = [∅].
Proof.
  destruct (open_creates_log Demo.path 3 (Os ∅ ∅ [] ∅ (replicate 8 Done))) as (w & o' & f & H1 & _ & _ & _ & H2);
    [reflexivity|by apply Forall_replicate|cbn; lia|]. by exists w, o'.
Defined.

(** C27: [reset] empties the log.  On success the object and its file represent
    the empty log and the file is synchronised; on failure the members are
    unchanged and the file either holds what it did or is cut to a part of a
    header.  It never throws, and six calls that succeed are enough. *)
Theorem reset_empties s fd i f es :
  rep s fd i f es ->
  let '(r, s') := WAL.reset s in
  exists f', match r with
  | Ret true => rep s' fd i f' [] /\ window f' [] 0 /\ WAL.m_pendingWrites (WAL.s_wal s') = 0
  | Ret false => opened s' fd i f' /\ WAL.s_wal s' = WAL.s_wal s /\
      (f_data f' = f_data f \/ f_data f' `prefix_of` WAL.header_bytes)
  | Throw _ => False
  | Halt => True
  end /\
  (Forall (eq Done) (os_script (WAL.s_os s)) -> (5 < length (os_script (WAL.s_os s)))%nat -> r = Ret true).
Proof.
  intros Hr. pose proof (reset_spec s fd i f (rep_opened _ _ _ _ _ Hr)) as Hwp. unfold wp in Hwp.
  destruct (WAL.reset s) as [r [w' o']]. cbn [fst snd] in Hwp. destruct Hwp as (off & f' & sc' & Eo & [_ Hu] & _ & Hx).
  cbn [WAL.s_wal WAL.s_os] in *. subst o'. pose proof (proj1 (rep_opened _ _ _ _ _ Hr)) as Hfd.
  exists f'. destruct r as [[]|x|]; [| |done|].
  - destruct Hx as (-> & Hf & Hp). split; [|done].
    assert (Hh : holds f' []) by (split; [by rewrite Hf, app_nil_r|constructor|by rewrite Hf]).
    split_and!; [|by apply window_synced|done]. destruct (rep_members _ _ _ _ _ Hr) as [_ _ He Hn _].
    split; [by apply opened_intro|done|by split].
  - destruct Hx as (-> & Hnd & Hf). split; [|done]. split_and!; [by apply opened_intro|done|done].
  - split; [done|]. intros Hd Hl. specialize (Hu Hd). subst sc'. cbn in Hu. lia.
Qed.

Lemma reset_empties_witness :
  let s := Demo.start (replicate 6 Done) in
  exists s' f', WAL.reset s = (Ret true, s') /\ rep s' 0 0 f' [].
Proof.
  cbv zeta. pose proof (reset_empties (Demo.start (replicate 6 Done)) 0 0 _ [] (Demo.start_rep _)) as H.
  destruct (WAL.reset _) as [r s']. destruct H as (f' & H & Hd).
  assert (r = Ret true) as -> by (apply Hd; [by apply Forall_replicate|by apply Nat.ltb_lt]).
  exists s', f'. split; [reflexivity|apply H].
Defined.

(** C28: [close] synchronises what is pending and releases the descriptor.  It
    never throws and never changes what the file holds; when its calls succeed
    and writes were pending they are durable.  On the closed object [append]
    and [close] do nothing and [reset] answers [false]. *)
Theorem close_effect s fd i f :
  opened s fd i f ->
  let '(r, s') := WAL.close s in
  match r with
  | Ret _ => WAL.m_fd (WAL.s_wal s') = None /\ os_fds (WAL.s_os s') !! fd = None /\
      (exists f', os_inodes (WAL.s_os s') !! i = Some f' /\ f_data f' = f_data f /\
        (Forall (eq Done) (os_script (WAL.s_os s)) -> 0 < WAL.m_pendingWrites (WAL.s_wal s) -> f_pending f' = [])) /\
      WAL.close s' = (Ret tt, s') /\ WAL.reset s' = (Ret false, s') /\
      forall type key value ts, request_ok (type, key, value, ts) -> WAL.append type key value ts s' = (Ret tt, s')
  | Throw _ => False
  | Halt => True
  end.
Proof.
  intros Ho. set (Q := fun (r : result unit) s' => match r with
    | Ret _ => WAL.m_fd (WAL.s_wal s') = None /\ os_fds (WAL.s_os s') !! fd = None /\
        (exists f', os_inodes (WAL.s_os s') !! i = Some f' /\ f_data f' = f_data f /\
          (Forall (eq Done) (os_script (WAL.s_os s)) -> 0 < WAL.m_pendingWrites (WAL.s_wal s) -> f_pending f' = []))
    | Throw _ => False
    | Halt => True
    end).
  assert (Hclosed : forall s', WAL.m_fd (WAL.s_wal s') = None ->
    WAL.close s' = (Ret tt, s') /\ WAL.reset s' = (Ret false, s') /\
    forall type key value ts, request_ok (type, key, value, ts) -> WAL.append type key value ts s' = (Ret tt, s')).
  { intros [w o'] Hfd. cbn in Hfd.
    split_and!; [unfold WAL.close|unfold WAL.reset|intros type key value ts (_ & Hk & Hv); unfold WAL.append].
    3: destruct (Z.ltb_spec WAL.kMaxFieldSize (zlen key)); [lia|];
       destruct (Z.ltb_spec WAL.kMaxFieldSize (zlen value)); [lia|]; cbn [orb].
    all: unfold bind, WAL.this, bind, get, ret; cbn; by rewrite Hfd. }
  enough (Hwp : wp WAL.close s Q).
  { unfold wp in Hwp. destruct (WAL.close s) as [[[]|x|] s']; cbn [fst snd] in Hwp; [|done|done].
    destruct Hwp as (H1 & H2 & H3). pose proof (Hclosed s' H1) as (H4 & H5 & H6). by split_and!. }
  eapply opened_run; [done|]. intros off. pose proof (proj1 Ho) as Hfd.
  apply wp_bind, wp_bind, wp_get, wp_ret. cbn [WAL.s_wal]. rewrite Hfd.
  set (sc := os_script (WAL.s_os s)).
  assert (Hclose : forall w f' sc', f_data f' = f_data f ->
    (Forall (eq Done) sc -> 0 < WAL.m_pendingWrites (WAL.s_wal s) -> f_pending f' = []) ->
    wp (WAL.sys (sys_close fd) ;;; WAL.update (WAL.set_fd None))
      (WAL.St w (touch (WAL.s_os s) fd i off f' sc')) Q).
  { intros w f' sc' Hd Hp. apply wp_bind, wp_zoom. unfold sys_close. apply wp_bind. unfold wp at 1. cbn [WAL.s_os].
    rewrite next_touch. destruct sc' as [|x sc']; [done|]. cbn [fst snd]. apply wp_bind, wp_modify.
    assert (Hfin : forall o', o' = drop_fd fd (touch (WAL.s_os s) fd i off f' sc') ->
      wp (WAL.update (WAL.set_fd None)) (WAL.St w o') Q).
    { intros o' ->. apply wp_modify. split; [done|]. split; [apply lookup_delete_eq|].
      exists f'. split; [apply lookup_insert_eq|done]. }
    destruct x; apply wp_ret, Hfin; reflexivity. }
  destruct (Z.ltb_spec 0 (WAL.m_pendingWrites (WAL.s_wal s))) as [Hp|Hp]; apply wp_bind.
  - apply (wp_calls _ _ _ _ _ _ _ _ _ _ _ _ (fsync_calls _ _ _ _ _ _)).
    + done.
    + intros e sc' _ Hnd. apply wp_modify, Hclose; [done|]. by intros Hd.
    + intros n sc' _. by apply wp_modify, Hclose.
  - apply wp_ret, Hclose; [done|]. intros _ ?. lia.
Qed.

Lemma close_effect_witness :
  exists s', WAL.close (Demo.start [Done; Done]) = (Ret tt, s') /\ WAL.close s' = (Ret tt, s').
Proof.
  pose proof (close_effect (Demo.start [Done; Done]) 0 0 _ (Demo.start_opened _ _ _)) as H.
  assert (E : fst (WAL.close (Demo.start [Done; Done])) = Ret tt) by reflexivity.
  destruct (WAL.close (Demo.start [Done; Done])) as [r s']. cbn [fst] in E. subst r. exists s'. split; [reflexivity|apply H].
Defined.
