(* ===== verification/WALTamper.v ===== *)
(** * WALTamper: what the log detects, and where it does not

    Changes of the file and what [verify] says of them; then what the code does
    not keep of its documents' promises: theorems on rewritten lengths, read
    errors and failed appends, and runs. *)

From stdpp Require Import gmap.
From S2P Require Import Prelude Endian CRC32 SHA256 Exec Posix PosixFacts LogFormat LogTheory WAL WALFacts WalkFacts WALTheory WALSpec.

(** ** Detection *)

(** C7: One changed byte is found where it is.  If a single byte of an entry is
    changed, outside its two length fields, then [verify] reports [Tampered] at
    the byte offset and the sequence number of that entry, whatever follows it,
    unless a system call fails or power is lost. *)
Theorem changed_byte_is_located s fd i f es e rest j b b' :
  opened s fd i f -> log_ok (es ++ [e]) ->
  f_data f = WAL.header_bytes ++ encode_log es ++
    flip (encode_entry (log_head es) (zlen es) e) j b' ++ rest ->
  encode_entry (log_head es) (zlen es) e !! j = Some b -> b' <> b -> ~ (28 <= j < 36)%nat ->
  zlen (f_data f) < 2 ^ 63 -> Forall benign (os_script (WAL.s_os s)) ->
  fst (WAL.verify s) = Halt \/
  fst (WAL.verify s) = Ret (MkResult Tampered (zlen es)
    (Z.of_nat (WAL.kHeaderSize + length (encode_log es))) (zlen es) (log_head es)).
Proof.
  intros Ho Hl Hf Hj Hb Hout Hz Hben.
  assert (Hh : (WAL.kHeaderSize <= length (f_data f))%nat).
  { rewrite Hf, length_app, header_bytes_length. lia. }
  destruct (verify_benign s fd i f Ho Hh Hz Hben) as [-> | ->]; [right|by left].
  unfold result_for, log_part. rewrite Hf, drop_app_length' by apply header_bytes_length.
  by rewrite (walk_flip es e rest j b b').
Qed.

Definition demo_e1 : entry := entry_for 7 Demo.q1.
Definition demo_e2 : entry := entry_for 7 Demo.q2.

(** The type byte of the second entry becomes [PUT]. *)
Lemma changed_byte_is_located_witness :
  let c := WAL.header_bytes ++ encode_log [demo_e1] ++
    flip (encode_entry (log_head [demo_e1]) 1 demo_e2) 36 x01 ++ [] in
  let s := WAL.St Demo.object (Demo.system c [] (replicate 200 Done)) in
  fst (WAL.verify s) = Halt \/
  fst (WAL.verify s) = Ret (MkResult Tampered 1 88 1 (log_head [demo_e1])).
Proof.
  cbv zeta. assert (E : Z.of_nat (WAL.kHeaderSize + length (encode_log [demo_e1])) = 88) by (vm_compute; reflexivity).
  rewrite <- E.
  apply (changed_byte_is_located _ 0 0 (File (WAL.header_bytes ++ encode_log [demo_e1] ++
    flip (encode_entry (log_head [demo_e1]) 1 demo_e2) 36 x01 ++ []) []) [demo_e1] demo_e2 [] 36 x02 x01).
  - apply Demo.start_opened.
  - split; [|done]. repeat constructor; cbn; unfold is_i64, is_u64, max_field; cbn; lia.
  - reflexivity.
  - vm_compute; reflexivity.
  - discriminate.
  - lia.
  - vm_compute; reflexivity.
  - by apply Forall_replicate.
Defined.

(** C8: A checkpoint pins the log.  If [verify] accepts two files and reports the
    same number of entries and the same head hash, the contents are the same, or
    the two logs show two different byte strings with one SHA-256 hash, at one
    position of the chain.  A rewrite or a truncation of a log whose head was
    published is therefore found, without any other assumption on the attacker. *)
Theorem checkpoint_pins_contents s1 fd1 i1 f1 s2 fd2 i2 f2 n h :
  opened s1 fd1 i1 f1 -> (WAL.kHeaderSize <= length (f_data f1))%nat -> zlen (f_data f1) < 2 ^ 63 ->
  opened s2 fd2 i2 f2 -> (WAL.kHeaderSize <= length (f_data f2))%nat -> zlen (f_data f2) < 2 ^ 63 ->
  Forall benign (os_script (WAL.s_os s1)) -> Forall benign (os_script (WAL.s_os s2)) ->
  fst (WAL.verify s1) = Ret (MkResult Ok n 0 0 h) -> fst (WAL.verify s2) = Ret (MkResult Ok n 0 0 h) ->
  drop WAL.kHeaderSize (f_data f1) = drop WAL.kHeaderSize (f_data f2) \/
  exists es1 es2, drop WAL.kHeaderSize (f_data f1) = encode_log es1 /\
    drop WAL.kHeaderSize (f_data f2) = encode_log es2 /\ chain_collision es1 es2.
Proof.
  assert (Hok : forall s fd i f, opened s fd i f -> (WAL.kHeaderSize <= length (f_data f))%nat ->
    zlen (f_data f) < 2 ^ 63 -> Forall benign (os_script (WAL.s_os s)) ->
    fst (WAL.verify s) = Ret (MkResult Ok n 0 0 h) ->
    exists es, drop WAL.kHeaderSize (f_data f) = encode_log es /\ Forall entry_ok es /\
      zlen es = n /\ log_head es = h).
  { intros s fd i f Ho Hh Hz Hb E.
    destruct (verify_benign s fd i f Ho Hh Hz Hb) as [E' | E']; [|congruence].
    assert (Hr : result_for f = MkResult Ok n 0 0 h) by congruence. unfold result_for, log_part in Hr.
    destruct (walk_image (drop WAL.kHeaderSize (f_data f))) as (es & tail & Hd & Hes & Hw & Hst).
    destruct (w_status (walk (drop WAL.kHeaderSize (f_data f)))); try done. cbn in Hst. subst tail.
    rewrite app_nil_r in Hd. rewrite Hw in Hr. cbn in Hr. exists es. by injection Hr. }
  intros Ho1 Hh1 Hz1 Ho2 Hh2 Hz2 Hb1 Hb2 E1 E2.
  destruct (Hok s1 fd1 i1 f1) as (es1 & D1 & K1 & N1 & H1); [done..|].
  destruct (Hok s2 fd2 i2 f2) as (es2 & D2 & K2 & N2 & H2); [done..|].
  destruct (head_binding es1 es2 K1 K2) as [-> |Hc]; [lia|congruence|left; congruence|right].
  by exists es1, es2.
Qed.

(** A log read through a full and through an interrupted sequence of calls. *)
Lemma checkpoint_pins_contents_witness :
  drop WAL.kHeaderSize demo_log = drop WAL.kHeaderSize demo_log \/
  exists es1 es2, drop WAL.kHeaderSize demo_log = encode_log es1 /\
    drop WAL.kHeaderSize demo_log = encode_log es2 /\ chain_collision es1 es2.
Proof.
  set (sc1 := replicate 200 Done). set (sc2 := concat (replicate 200 [Intr; Short 7])).
  set (st sc := WAL.St Demo.object (Demo.system demo_log [] sc)).
  assert (Ev1 : fst (WAL.verify (st sc1)) = Ret (MkResult Ok 2 0 0 (log_head [demo_e1; demo_e2])))
    by (vm_compute; reflexivity).
  assert (Ev2 : fst (WAL.verify (st sc2)) = Ret (MkResult Ok 2 0 0 (log_head [demo_e1; demo_e2])))
    by (vm_compute; reflexivity).
  assert (El : length (f_data (File demo_log [])) = 158%nat) by (vm_compute; reflexivity).
  assert (Hb1 : Forall benign sc1) by by apply Forall_replicate.
  assert (Hb2 : Forall benign sc2).
  { apply Forall_concat, Forall_replicate. by repeat constructor. }
  assert (Hh : (WAL.kHeaderSize <= length (f_data (File demo_log [])))%nat)
    by (rewrite El; exact (proj1 (Nat.leb_le 16 158) eq_refl)).
  assert (Hz : zlen (f_data (File demo_log [])) < 2 ^ 63) by (rewrite El; reflexivity).
  exact (checkpoint_pins_contents (st sc1) 0 0 _ (st sc2) 0 0 _ 2 _ (Demo.start_opened _ _ _) Hh Hz
    (Demo.start_opened _ _ _) Hh Hz Hb1 Hb2 Ev1 Ev2).
Defined.

(** C37: A rewritten length is taken for a torn write.  If the value length of
    one entry is set to an admissible length that reaches beyond the end of the
    file, [recover] reports a torn tail and cuts the file before that entry, so
    it destroys the entry and every entry after it ([rest], which may hold any
    number of intact ones), and the object goes on from there. *)
Theorem length_edit_truncates {V} (visitor : visitor_of V) minEpoch v s fd i f es e rest n :
  opened s fd i f -> log_ok (es ++ [e]) -> is_u32 n -> n <= max_field ->
  f_data f = WAL.header_bytes ++ encode_log es ++
    set_vlen (encode_entry (log_head es) (zlen es) e) n ++ rest ->
  zlen (encode_entry (log_head es) (zlen es) e ++ rest) < 69 + zlen (e_key e) + n ->
  zlen (f_data f) < 2 ^ 63 -> Forall (eq Done) (os_script (WAL.s_os s)) ->
  (length (f_data f) + 10 < length (os_script (WAL.s_os s)))%nat ->
  exists s' f', WAL.recover visitor minEpoch v s =
      (Ret (MkResult TruncatedTail (zlen es) 0 0 (log_head es), visit_all (Some visitor) minEpoch es v), s') /\
    opened s' fd i f' /\ f_data f' = WAL.header_bytes ++ encode_log es.
Proof.
  intros Ho Hl Hn Hmax Hf Hlong Hz Hd Hlen.
  assert (Hh : (WAL.kHeaderSize <= length (f_data f))%nat).
  { rewrite Hf, length_app, header_bytes_length. lia. }
  assert (Hlog : log_part f = encode_log es ++ set_vlen (encode_entry (log_head es) (zlen es) e) n ++ rest).
  { unfold log_part. rewrite Hf. by rewrite drop_app_length' by apply header_bytes_length. }
  pose proof (walk_set_vlen es e rest n Hl Hn (or_intror Hlong)) as Hw. rewrite <- Hlog in Hw.
  destruct (Z.ltb_spec max_field n); [lia|].
  destruct (recover_done visitor minEpoch v s fd i f Ho Hh Hz Hd Hlen) as (off & sc & _ & E).
  unfold result_for, recovered_file in E. rewrite Hw in E. cbn [w_status w_entries] in E.
  rewrite bool_decide_eq_true_2 in E by done.
  eexists _, (cut_at es f). split; [exact E|]. split.
  - apply opened_intro. exact (proj1 Ho).
  - rewrite (cut_data f es (set_vlen (encode_entry (log_head es) (zlen es) e) n ++ rest) Hh).
    + by rewrite Hf, take_app_length' by apply header_bytes_length.
    + split; [exact Hlog|]. by destruct (log_ok_app _ _ Hl).
Qed.

(** The value length of the first of two entries becomes 100. *)
Lemma length_edit_truncates_witness :
  let rest := encode_from (log_head [demo_e1]) 1 [demo_e2] in
  let c := WAL.header_bytes ++ encode_log [] ++ set_vlen (encode_entry zero_digest 0 demo_e1) 100 ++ rest in
  let s := WAL.St Demo.object (Demo.system c [] (replicate 200 Done)) in
  exists s' f', WAL.recover Demo.lister None [] s =
      (Ret (MkResult TruncatedTail 0 0 0 zero_digest, []), s') /\
    opened s' 0 0 f' /\ f_data f' = WAL.header_bytes ++ [].
Proof.
  cbv zeta. set (rest := encode_from (log_head [demo_e1]) 1 [demo_e2]).
  set (c := WAL.header_bytes ++ encode_log [] ++ set_vlen (encode_entry zero_digest 0 demo_e1) 100 ++ rest).
  assert (El : length c = 158%nat) by (vm_compute; reflexivity).
  apply (length_edit_truncates Demo.lister None [] (WAL.St Demo.object (Demo.system c [] (replicate 200 Done)))
    0 0 (File c []) [] demo_e1 rest 100).
  - apply Demo.start_opened.
  - split; [|done]. repeat constructor; cbn; unfold is_i64, is_u64, max_field; cbn; lia.
  - split; [discriminate|reflexivity].
  - discriminate.
  - reflexivity.
  - vm_compute; reflexivity.
  - change (f_data (File c [])) with c. rewrite El. reflexivity.
  - by apply Forall_replicate.
  - change (f_data (File c [])) with c. rewrite El. exact (proj1 (Nat.ltb_lt 168 200) eq_refl).
Defined.

(** ** Runs that break what the documents promise *)

(** C38: A read error destroys the log.  If the first [read] of [recover] fails
    with an I/O error, the code takes it for a torn tail and cuts the file right
    after the header: every entry is lost, and the answer is [TruncatedTail]
    with no entries. *)
Theorem read_error_truncates_log {V} (visitor : visitor_of V) minEpoch v w o fd i off f sc :
  WAL.m_fd w = Some fd -> (WAL.kHeaderSize < length (f_data f))%nat ->
  exists off', WAL.recover visitor minEpoch v
      (WAL.St w (touch o fd i off f (Done :: Done :: Err :: Done :: Done :: sc))) =
    (Ret (MkResult TruncatedTail 0 0 0 zero_digest, v),
     WAL.St (WAL.set_chain 0 zero_digest w)
       (touch o fd i off' (f_update (FTrunc WAL.kHeaderSize) f) sc)).
Proof.
  intros Hfd Hl.
  enough (Hwp : wp (WAL.recover visitor minEpoch v)
    (WAL.St w (touch o fd i off f (Done :: Done :: Err :: Done :: Done :: sc)))
    (fun r s' => exists off', r = Ret (MkResult TruncatedTail 0 0 0 zero_digest, v) /\
      s' = WAL.St (WAL.set_chain 0 zero_digest w) (touch o fd i off' (f_update (FTrunc WAL.kHeaderSize) f) sc))).
  { unfold wp in Hwp. destruct (WAL.recover _ _ _ _) as [r s']. destruct Hwp as (off' & H1 & H2).
    cbn [fst snd] in *. subst. by exists off'. }
  apply wp_bind, wp_bind, wp_bind, wp_get, wp_ret. cbn [WAL.s_wal]. rewrite Hfd. apply wp_zoom. cbn [WAL.s_os].
  apply wp_bind. unfold wp at 1. rewrite sys_fstat_touch. cbn [fst snd].
  apply wp_bind. unfold wp at 1. rewrite sys_lseek_touch by lia. cbn [fst snd WAL.failed].
  apply wp_bind, wp_get. rewrite script_touch. apply wp_bind. cbn [length WAL.walk_loop].
  destruct (Z.ltb_spec (Z.of_nat WAL.kHeaderSize) (zlen (f_data f))) as [_|H]; [|lia]. cbn [negb].
  apply wp_bind, wp_bind, wp_get. rewrite script_touch. cbn [length read_loop Nat.ltb Nat.leb Nat.sub].
  apply wp_bind. unfold wp at 1. rewrite sys_read_touch. cbn [fst snd]. apply wp_ret, wp_ret.
  cbn [andb]. apply wp_bind, wp_bind. unfold wp at 1. rewrite sys_ftruncate_touch.
  change (Z.of_nat WAL.kHeaderSize <? 0) with false. cbn [fst snd]. rewrite Nat2Z.id.
  apply wp_bind. unfold wp at 1. rewrite sys_lseek_touch by lia. cbn [fst snd].
  apply wp_ret, wp_ret. apply wp_bind. cbn [r_status]. rewrite bool_decide_eq_false_2, bool_decide_eq_true_2 by done.
  cbn [orb]. apply wp_modify, wp_ret. eexists. split; reflexivity.
Qed.

Lemma read_error_truncates_log_witness :
  exists off', WAL.recover Demo.lister None []
    (WAL.St Demo.object (touch (Demo.system demo_log [] []) 0 0 16 (File demo_log []) [Done; Done; Err; Done; Done])) =
  (Ret (MkResult TruncatedTail 0 0 0 zero_digest, []),
   WAL.St (WAL.set_chain 0 zero_digest Demo.object)
     (touch (Demo.system demo_log [] []) 0 0 off' (f_update (FTrunc WAL.kHeaderSize) (File demo_log [])) [])).
Proof.
  apply (read_error_truncates_log Demo.lister None [] Demo.object (Demo.system demo_log [] []) 0 0 16 (File demo_log []) []).
  - reflexivity.
  - assert (El : length (f_data (File demo_log [])) = 158%nat) by (vm_compute; reflexivity).
    rewrite El. exact (proj1 (Nat.ltb_lt 16 158) eq_refl).
Defined.

(** The system with other outcomes to come. *)
Definition resume (sc : list outcome) (s : WAL.st) : WAL.st := WAL.St (WAL.s_wal s) (set_script sc (WAL.s_os s)).

(** What recovery makes of a file that is not intact: it is left as it is and
    called tampered or malformed, or it is cut. *)
Lemma recover_not_ok {V} (visitor : visitor_of V) minEpoch v s fd i f :
  opened s fd i f -> (WAL.kHeaderSize <= length (f_data f))%nat -> zlen (f_data f) < 2 ^ 63 ->
  Forall (eq Done) (os_script (WAL.s_os s)) ->
  (length (f_data f) + 10 < length (os_script (WAL.s_os s)))%nat ->
  w_status (walk (log_part f)) <> Ok ->
  exists res v' s' f', WAL.recover visitor minEpoch v s = (Ret (res, v'), s') /\ opened s' fd i f' /\
    ((r_status res = Tampered \/ r_status res = Malformed) /\ f' = f \/
     r_status res = TruncatedTail /\ (length (f_data f') < length (f_data f))%nat).
Proof.
  intros Ho Hh Hz Hd Hl Hst.
  destruct (recover_done visitor minEpoch v s fd i f Ho Hh Hz Hd Hl) as (off & sc & _ & E).
  eexists (result_for f), _, _, (recovered_file f). split; [exact E|]. split.
  { apply opened_intro. unfold adopt. by destruct (_ || _); destruct Ho. }
  unfold result_for, recovered_file. destruct (walk_image (log_part f)) as (es & tail & Ht & Hes & Hw & Hstop).
  destruct (w_status (walk (log_part f))) eqn:Es; [done| |by left; auto..]. right. split; [done|].
  rewrite bool_decide_eq_true_2 by done. rewrite Hw. cbn [w_entries].
  rewrite (cut_data f es tail Hh) by done. destruct Hstop as [Hne _]. apply (f_equal length) in Ht.
  unfold log_part in Ht. rewrite length_drop, length_app in Ht. rewrite length_app, length_take.
  destruct tail; [done|]. cbn in Ht. lia.
Qed.

(** What two appends leave, the first of which has failed. *)
Lemma failed_then_appended s fd i f es type key value ts s1 f1 type' key' value' ts' s2 :
  rep s fd i f es -> is_i64 ts -> zlen key <= WAL.kMaxFieldSize -> zlen value <= WAL.kMaxFieldSize ->
  zlen (f_data f) + 138 + zlen key + zlen value + zlen key' + zlen value' < 2 ^ 63 ->
  WAL.append type key value ts s = (Throw (runtime_error "Failed to write entry to WAL"), s1) ->
  opened s1 fd i f1 -> WAL.append type' key' value' ts' s1 = (Ret tt, s2) ->
  exists d f2, f_data f1 = f_data f ++ d /\ opened s2 fd i f2 /\ zlen (f_data f2) < 2 ^ 63 /\
    f_data f2 = WAL.header_bytes ++ encode_log es ++
      d ++ encode_entry (log_head es) (zlen es) (entry_of (WAL.s_wal s) type' key' value' ts').
Proof.
  intros Hr Hts Hk Hv Hz E1 Ho1 E2.
  pose proof (append_spec s fd i f es type key value ts Hr Hts Hk Hv ltac:(lia)) as Hp. unfold wp in Hp.
  rewrite E1 in Hp. cbn [fst snd] in Hp.
  destruct Hp as (off & f' & sc' & Eos & _ & [(_ & Ew & (d & Hd & Hg) & _)|[[=] _]]).
  assert (f' = f1) as ->.
  { assert (Ho' : opened s1 fd i f').
    { destruct s1 as [w1 o1]. cbn in Eos, Ew. subst. apply opened_intro. by destruct (rep_opened _ _ _ _ _ Hr). }
    by destruct (opened_inj _ _ _ _ _ _ _ Ho' Ho1) as (_ & _ & ->). }
  pose proof (append_writes type' key' value' ts' s1 fd i f1 Ho1) as Hp. unfold wp in Hp.
  rewrite E2 in Hp. cbn [fst snd] in Hp.
  destruct (Hp eq_refl) as (Hk' & Hv' & f2 & Ho2 & Hf2). clear Hp. rewrite Ew, entry_bytes_spec in Hf2 by done.
  destruct Hr as [_ Hh [Hseq Hhead _ _ _]]. rewrite Hseq, Hhead in Hf2. cbn [fst] in Hf2.
  rewrite (grows_data _ _ _ Hg), (holds_data _ _ Hh), <- !app_assoc in Hf2.
  exists d, f2. split_and!; [by apply grows_data|done| |done].
  apply prefix_length in Hd. rewrite length_encode_entry in Hd. unfold entry_overhead in Hd. cbn [entry_of e_key e_value] in Hd.
  rewrite (holds_data _ _ Hh) in Hz. rewrite Hf2, !length_app in *. rewrite length_encode_entry.
  unfold entry_overhead. cbn [entry_of e_key e_value]. lia.
Qed.

(** C39: A failed append poisons the log.  Suppose the write of an append fails
    after a part of the entry has got into the file, and a later append returns.
    Then the entries of the log before are still verified, but the file is not
    intact any more: recovery calls it tampered or malformed, so the engine
    refuses to start, or it takes the end for a torn write and cuts it off, with
    the end of the entry that was acknowledged; unless two inputs of the hash
    chain collide.  (If nothing has got into the file, no harm is done.) *)
Theorem failed_append_poisons_log s fd i f es type key value ts s1 f1 type' key' value' ts' s2 :
  rep s fd i f es -> is_i64 ts -> zlen key <= WAL.kMaxFieldSize -> zlen value <= WAL.kMaxFieldSize ->
  zlen (f_data f) + 138 + zlen key + zlen value + zlen key' + zlen value' < 2 ^ 63 ->
  WAL.append type key value ts s = (Throw (runtime_error "Failed to write entry to WAL"), s1) ->
  opened s1 fd i f1 -> f_data f1 <> f_data f ->
  WAL.append type' key' value' ts' s1 = (Ret tt, s2) ->
  exists f2, opened s2 fd i f2 /\ f_data f1 `prefix_of` f_data f2 /\
    es `prefix_of` w_entries (walk (log_part f2)) /\
    ((exists j x, nth_chain_input (w_entries (walk (log_part f2))) j = Some x /\
        collision x (chain_input (log_head es) (zlen es) (entry_of (WAL.s_wal s) type' key' value' ts'))) \/
     forall V (visitor : visitor_of V) minEpoch v sc, Forall (eq Done) sc -> (length (f_data f2) + 10 < length sc)%nat ->
       exists res v' s3 f3, WAL.recover visitor minEpoch v (resume sc s2) = (Ret (res, v'), s3) /\ opened s3 fd i f3 /\
         ((r_status res = Tampered \/ r_status res = Malformed) /\ f3 = f2 \/
          r_status res = TruncatedTail /\ (length (f_data f3) < length (f_data f2))%nat)).
Proof.
  intros Hr Hts Hk Hv Hz E1 Ho1 Hne E2. pose proof (rep_holds _ _ _ _ _ Hr) as Hh.
  destruct (failed_then_appended _ _ _ _ _ _ _ _ _ _ _ _ _ _ _ _ Hr Hts Hk Hv Hz E1 Ho1 E2) as (d & f2 & Hf1 & Ho2 & Hsize & Hf2).
  set (e := entry_of (WAL.s_wal s) type' key' value' ts') in *.
  assert (Hlog : log_part f2 = encode_log es ++ d ++ encode_entry (log_head es) (zlen es) e)
    by (unfold log_part; rewrite Hf2; by apply drop_app_length').
  destruct (walk_after_garbage es d e (holds_log_ok _ _ Hh)) as [Hpre Hok].
  { intros ->. by rewrite Hf1, app_nil_r in Hne. }
  { rewrite <- Hlog. unfold log_part. rewrite length_drop. lia. }
  rewrite <- Hlog in Hpre, Hok. exists f2. split_and!; [done| |done|].
  - exists (encode_entry (log_head es) (zlen es) e). by rewrite Hf1, (holds_data _ _ Hh), Hf2, <- !app_assoc.
  - destruct (decide (w_status (walk (log_part f2)) = Ok)) as [Est|Est]; [left; by apply Hok|right].
    intros V visitor minEpoch v sc Hsc Hl. apply (recover_not_ok visitor minEpoch v (resume sc s2) fd i f2); try done.
    rewrite Hf2, length_app, header_bytes_length. lia.
Qed.

(** A first append fails after [k] bytes were written, a second one succeeds. *)
Definition append_twice (k : nat) : result unit * WAL.st * result unit * WAL.st :=
  let '(r1, s1) := WAL.append PUT [x61] [x31; x32] 1000 (Demo.start ([Short k; Err] ++ replicate 100 Done)) in
  let '(r2, s2) := WAL.append DELETE [x61] [] 1001 s1 in
  (r1, s1, r2, s2).

(** Both happen: after sixty bytes the log is called tampered, which is what an
    attack looks like; after ten the acknowledged entry is cut off. *)
Example failed_append_runs :
  let status k := match fst (WAL.recover Demo.lister None [] (append_twice k).2) with
                  | Ret (res, v) => Some (r_status res, v) | _ => None end in
  (append_twice 60).1.2 = Ret tt /\ status 60%nat = Some (Tampered, []) /\
  (append_twice 10).1.2 = Ret tt /\ status 10%nat = Some (TruncatedTail, []).
Proof. vm_compute. repeat split. Qed.

Lemma failed_append_poisons_log_witness :
  let '(r1, s1, r2, s2) := append_twice 10 in
  (r1, r2) = (Throw (runtime_error "Failed to write entry to WAL"), Ret tt) /\
  exists f2, opened s2 0 0 f2 /\ f_data (Demo.file s1) `prefix_of` f_data f2.
Proof.
  unfold append_twice. set (s := Demo.start _).
  destruct (WAL.append PUT [x61] [x31; x32] 1000 s) as [r1 s1] eqn:E1. pose proof E1 as F1. vm_compute in F1. injection F1 as <- F1.
  destruct (WAL.append DELETE [x61] [] 1001 s1) as [r2 s2] eqn:E2. pose proof E2 as F2.
  assert (Ho : opened s1 0 0 (Demo.file s1)) by (rewrite <- F1; split; [reflexivity|by eexists]).
  assert (Hne : f_data (Demo.file s1) <> f_data (File WAL.header_bytes [])) by (rewrite <- F1; discriminate).
  rewrite <- F1 in F2. vm_compute in F2. injection F2 as <- _. split; [reflexivity|].
  destruct (failed_append_poisons_log s 0 0 (File WAL.header_bytes []) [] PUT [x61] [x31; x32] 1000 s1 (Demo.file s1)
    DELETE [x61] [] 1001 s2 (Demo.start_rep _)) as (f2 & H1 & H2 & _); try done.
  by exists f2.
Defined.

(** A reset that fails loses the log's header.  If the write of the new
    header fails, [reset] answers [false] with the file already cut; a later
    append then succeeds, and the file it is written to cannot be opened any
    more. *)
Theorem failed_reset_loses_header :
  let s0 := WAL.St (WAL.Wal Demo.path (Some 0%nat) 7 0 zero_digest 1 0)
              (Demo.system WAL.header_bytes [] ([Done; Done; Done; Err] ++ replicate 100 Done)) in
  let '(r1, s1) := WAL.reset s0 in
  let '(r2, s2) := WAL.append PUT [x61] [x31; x32] 1000 s1 in
  let c := f_data (Demo.file s2) in
  r1 = Ret false /\ r2 = Ret tt /\ crash_content (Demo.file s2) c /\
  fst (WAL.open Demo.path 1 (Demo.rebooted c (replicate 20 Done))) =
    Throw (runtime_error "Invalid or corrupt WAL header: wal.log").
Proof.
  cbv zeta. destruct (WAL.reset _) as [r1 s1] eqn:E1. vm_compute in E1. injection E1 as <- <-.
  destruct (WAL.append PUT _ _ _ _) as [r2 s2] eqn:E2. vm_compute in E2. injection E2 as <- <-.
  split_and!; [reflexivity|reflexivity|apply crash_content_refl|vm_compute; reflexivity].
Qed.

(** A power cut while a log is created makes it unusable.  If power fails
    after five bytes of the header were written, the file that is left is
    neither empty nor valid, and the constructor refuses it at every later
    start. *)
Theorem torn_header_is_refused :
  let '(r, o) := WAL.open Demo.path 1 (Os ∅ ∅ [] ∅ [Done; Done; Short 5]) in
  exists i f, r = Halt /\ os_names o !! Demo.path = Some i /\ os_inodes o !! i = Some f /\
    crash_content f (take 5 WAL.header_bytes) /\
    fst (WAL.open Demo.path 1 (Demo.rebooted (take 5 WAL.header_bytes) (replicate 20 Done))) =
      Throw (runtime_error "Invalid or corrupt WAL header: wal.log").
Proof.
  destruct (WAL.open _ _ _) as [r o] eqn:E. vm_compute in E. injection E as <- <-.
  exists 0%nat, (File [] [FWrite 0 (take 5 WAL.header_bytes)]).
  split_and!; [reflexivity..| |vm_compute; reflexivity].
  unfold crash_content; cbn. apply crash_next, crash_stop.
Qed.

(** A new log may vanish with everything acknowledged.  The constructor does
    not synchronise the directory, so after the creation of a log that is
    synchronised on every write and an append that returned, a power cut can
    leave a disk without the file. *)
Theorem created_log_may_vanish :
  let '(r, o) := WAL.open Demo.path 1 (Os ∅ ∅ [] ∅ (replicate 20 Done)) in
  exists w, r = Ret w /\
  let '(r1, s1) := WAL.append PUT [x61] [x31; x32] 1000 (WAL.St w o) in
  r1 = Ret tt /\ WAL.m_pendingWrites (WAL.s_wal s1) = 0 /\ f_pending (Demo.file s1) = [] /\
  crash_disk (WAL.s_os s1) ∅.
Proof.
  destruct (WAL.open _ _ _) as [r o] eqn:E. vm_compute in E. injection E as <- <-.
  eexists. split; [reflexivity|].
  destruct (WAL.append PUT _ _ _ _) as [r2 s2] eqn:E2. vm_compute in E2. injection E2 as <- <-.
  split_and!; [reflexivity..|]. exists ∅. split; [by left|]. intros p. by rewrite !lookup_empty.
Qed.

(** An I/O error makes [verify] vouch for the log.  If [fstat] fails, the
    answer is [Ok] with no entries, whatever the file holds; the answer for a
    closed log is the same. *)
Theorem verify_error_reports_ok w o fd i off f sc :
  WAL.m_fd w = Some fd ->
  fst (WAL.verify (WAL.St w (touch o fd i off f (Err :: sc)))) = Ret (MkResult Ok 0 0 0 zero_digest) /\
  forall o', fst (WAL.verify (WAL.St (WAL.set_fd None w) o')) = Ret (MkResult Ok 0 0 0 zero_digest).
Proof.
  intros Hfd. split; [|done].
  enough (wp WAL.verify (WAL.St w (touch o fd i off f (Err :: sc)))
    (fun r _ => r = Ret (MkResult Ok 0 0 0 zero_digest))) by done.
  apply wp_bind, wp_bind, wp_bind, wp_get, wp_ret. cbn [WAL.s_wal]. rewrite Hfd. apply wp_zoom. cbn [WAL.s_os].
  apply wp_bind. unfold wp at 1. rewrite sys_fstat_touch. cbn [fst snd]. by apply wp_ret, wp_ret.
Qed.

Lemma verify_error_reports_ok_witness :
  fst (WAL.verify (WAL.St Demo.object (touch (Demo.system demo_log [] []) 0 0 16 (File demo_log []) [Err]))) =
  Ret (MkResult Ok 0 0 0 zero_digest).
Proof.
  exact (proj1 (verify_error_reports_ok Demo.object (Demo.system demo_log [] []) 0 0 16 (File demo_log []) [] eq_refl)).
Defined.
