(* ===== verification/Snapshot.v ===== *)
(** * Snapshot: the snapshot files of src/src/Snapshot.cpp

    Definitions only: the image, the serialisation, [Snapshot::save] with its
    system calls, and [Snapshot::load], whose stream is opened and read twice,
    each with an outcome of its own, with its parser.  The state of a snapshot is
    an [std::unordered_map], whose iteration order is not specified: [save] takes
    the enumeration as a parameter. *)

From stdpp Require Import gmap.
From S2P Require Import Prelude Endian CRC32 Exec Posix WAL.

Record SnapshotRecord := MkSnapshotRecord {
  sr_value : bytes;
  sr_duration : double;
  sr_timestamp : Z
}.

#[export] Instance SnapshotRecord_eq_dec : EqDecision SnapshotRecord.
Proof. solve_decision. Defined.

(** [std::unordered_map<std::string, A>], with the instances spelled out. *)
Abbreviation bytes_map :=
  (@gmap bytes (@list_eq_dec byte byte_eq_dec) (@list_countable byte byte_eq_dec byte_countable)).

(** The [using SnapshotState = ...] of the header. *)
Abbreviation SnapshotState := (bytes_map (list SnapshotRecord)).

Record SnapshotImage := MkSnapshotImage { si_epoch : Z; si_state : SnapshotState }.

Module Snapshot.

Definition MAGIC : Z := 0x534E4150.
Definition VERSION : Z := 1.
Definition OFF_MAGIC : nat := 0.
Definition OFF_VERSION : nat := OFF_MAGIC + 4.
Definition OFF_CRC : nat := OFF_VERSION + 4.
Definition HEADER_SIZE : nat := OFF_CRC + 4.
Definition MIN_RECORD_BYTES : Z := 8 + 8 + 4.
Definition MIN_KEY_BYTES : Z := 4 + 4.

(** ** Writing *)

Section save.
Context (host : host_order).
Variable enumerate : SnapshotState -> list (bytes * list SnapshotRecord).

Definition put_record (payload : bytes) (rec : SnapshotRecord) : bytes :=
  let payload := putLE64 payload (u64 (sr_timestamp rec)) in
  let payload := putLE64 payload (doubleToBits host (sr_duration rec)) in
  let valueLen := u32 (zlen (sr_value rec)) in
  let payload := putLE32 payload valueLen in
  payload ++ sr_value rec.

Definition put_key (payload : bytes) (kr : bytes * list SnapshotRecord) : bytes :=
  let '(key, records) := kr in
  let keyLen := u32 (zlen key) in
  let payload := putLE32 payload keyLen in
  let payload := payload ++ key in
  let recordCount := u32 (zlen records) in
  let payload := putLE32 payload recordCount in
  fold_left put_record records payload.

Definition payload_of (image : SnapshotImage) : bytes :=
  let payload := putLE64 [] (si_epoch image) in
  let keyCount := u32 (Z.of_nat (size (si_state image))) in
  let payload := putLE32 payload keyCount in
  fold_left put_key (enumerate (si_state image)) payload.

(** The contents of the file. *)
Definition file_bytes (image : SnapshotImage) : bytes :=
  let payload := payload_of image in
  let crc := CRC32.calculate payload in
  let fileBuf := putLE32 [] MAGIC in
  let fileBuf := putLE32 fileBuf VERSION in
  let fileBuf := putLE32 fileBuf crc in
  fileBuf ++ payload.

(** Snapshot.cpp has its own copy of the [writeExact] of WAL.cpp. *)
Definition writeExact (fd : nat) (data : bytes) : M os bool := WAL.writeExact fd data.

(** [std::filesystem::path::parent_path]: what is before the last slash, without
    the slashes at its end, or the root. *)
Fixpoint before_slash (s : string) : option string :=
  match s with
  | EmptyString => None
  | String c s =>
      match before_slash s with
      | Some x => Some (String c x)
      | None => if is_slash c then Some EmptyString else None
      end
  end.

Fixpoint strip_slashes (s : string) : string :=
  match s with
  | EmptyString => EmptyString
  | String c s =>
      match strip_slashes s with
      | EmptyString => if is_slash c then EmptyString else String c EmptyString
      | x => String c x
      end
  end.

Definition parent_path (path : string) : string :=
  match before_slash path with
  | None => ""
  | Some x => match strip_slashes x with EmptyString => "/" | y => y end
  end.

Definition fsyncParentDir (path : string) : M os bool :=
  let dir := if String.eqb (parent_path path) "" then "."%string else parent_path path in
  r <- sys_open_dir dir ;;
  match r with
  | Fail _ => ret false
  | Rc dfd =>
      r <- sys_fsync (Z.to_nat dfd) ;;
      let ok := negb (WAL.failed r) in
      sys_close (Z.to_nat dfd) ;;;
      ret ok
  end.

Definition tmp_path (path : string) : string := path +:+ ".tmp".

Definition save (path : string) (image : SnapshotImage) : M os bool :=
  let fileBuf := file_bytes image in
  let tmpPath := tmp_path path in
  r <- sys_open tmpPath (OFlags true true false) ;;
  match r with
  | Fail _ => ret false
  | Rc n =>
      let fd := Z.to_nat n in
      ok <- writeExact fd fileBuf ;;
      if negb ok then sys_close fd ;;; ret false else
      r <- sys_fsync fd ;;
      if WAL.failed r then sys_close fd ;;; ret false else
      r <- sys_close fd ;;
      if WAL.failed r then ret false else
      ec <- sys_rename tmpPath path ;;
      if WAL.failed ec then ret false else
      fsyncParentDir path
  end.
End save.

(** ** Reading *)

(** The variables of [load]: the offset and the image it fills in. *)
Record pst := Pst { p_offset : nat; p_image : SnapshotImage }.

Definition advance (n : nat) (s : pst) : pst := Pst (p_offset s + n) (p_image s).
Definition set_image_epoch (e : Z) (s : pst) : pst :=
  Pst (p_offset s) (MkSnapshotImage e (si_state (p_image s))).
Definition map_state (f : SnapshotState -> SnapshotState) (s : pst) : pst :=
  Pst (p_offset s) (MkSnapshotImage (si_epoch (p_image s)) (f (si_state (p_image s)))).

Section load.
Context (host : host_order) (payload : bytes).

(** What is left after the offset. *)
Definition remaining (s : pst) : Z := zlen payload - Z.of_nat (p_offset s).

Definition readLE32 : M pst (option Z) :=
  s <- get ;;
  if zlen payload <? Z.of_nat (p_offset s) + 4 then ret None else
  modify (advance 4) ;;;
  ret (Some (getLE32 (drop (p_offset s) payload))).

Definition readLE64 : M pst (option Z) :=
  s <- get ;;
  if zlen payload <? Z.of_nat (p_offset s) + 8 then ret None else
  modify (advance 8) ;;;
  ret (Some (getLE64 (drop (p_offset s) payload))).

(** The [len] bytes at the offset. *)
Definition read_string (len : Z) : M pst bytes :=
  s <- get ;;
  modify (advance (Z.to_nat len)) ;;;
  ret (take (Z.to_nat len) (drop (p_offset s) payload)).

(** [image.state[key]], which creates the entry, and [push_back] to it. *)
Definition touch_key (key : bytes) (m : SnapshotState) : SnapshotState :=
  <[key := default [] (m !! key)]> m.
Definition push_record (key : bytes) (rec : SnapshotRecord) (m : SnapshotState) : SnapshotState :=
  <[key := default [] (m !! key) ++ [rec]]> m.

Fixpoint records_loop (n : nat) (key : bytes) : M pst bool :=
  match n with
  | O => ret true
  | S n =>
      t <- readLE64 ;;
      match t with None => ret false | Some rawTimestamp =>
      d <- readLE64 ;;
      match d with None => ret false | Some rawDuration =>
      l <- readLE32 ;;
      match l with None => ret false | Some valueLen =>
      s <- get ;;
      if remaining s <? valueLen then ret false else
      value <- read_string valueLen ;;
      let rec := MkSnapshotRecord value (bitsToDouble host rawDuration) (i64 rawTimestamp) in
      modify (map_state (push_record key rec)) ;;;
      records_loop n key
      end end end
  end.

Fixpoint keys_loop (n : nat) : M pst bool :=
  match n with
  | O => ret true
  | S n =>
      l <- readLE32 ;;
      match l with None => ret false | Some keyLen =>
      s <- get ;;
      if remaining s <? keyLen then ret false else
      key <- read_string keyLen ;;
      c <- readLE32 ;;
      match c with None => ret false | Some recordCount =>
      s <- get ;;
      if remaining s / MIN_RECORD_BYTES <? recordCount then ret false else
      modify (map_state (touch_key key)) ;;;
      ok <- records_loop (Z.to_nat recordCount) key ;;
      if negb ok then ret false else keys_loop n
      end end
  end.

Definition load_payload : M pst bool :=
  e <- readLE64 ;;
  match e with None => ret false | Some epoch =>
  modify (set_image_epoch epoch) ;;;
  c <- readLE32 ;;
  match c with None => ret false | Some keyCount =>
  s <- get ;;
  if remaining s / MIN_KEY_BYTES <? keyCount then ret false else
  modify (map_state (fun _ => ∅)) ;;;
  keys_loop (Z.to_nat keyCount)
  end end.
End load.

(** What [load] makes of the bytes it has read; the image is an output
    parameter. *)
Definition load_bytes (host : host_order) (c : bytes) (image : SnapshotImage) : bool * SnapshotImage :=
  if (length c <? HEADER_SIZE)%nat then (false, image) else
  let magic := getLE32 (drop OFF_MAGIC c) in
  let version := getLE32 (drop OFF_VERSION c) in
  let storedCRC := getLE32 (drop OFF_CRC c) in
  if negb (magic =? MAGIC) || negb (version =? VERSION) then (false, image) else
  let payload := drop HEADER_SIZE c in
  if negb (CRC32.calculate payload =? storedCRC) then (false, image) else
  match load_payload host payload (Pst 0 image) with
  | (Ret ok, s) => (ok, p_image s)
  | (_, s) => (false, p_image s)
  end.

(** Reading [data] through the buffer of an [ifstream], which goes on after a
    signal.  The standard leaves open what the buffer makes of a read error: it
    throws ([None]; libstdc++), or the stream ends early. *)
Definition stream_read (data : bytes) : M os (option bytes) :=
  x <- next ;;
  match x with
  | Err => ret None
  | Short k => ret (Some (take k data))
  | Done | Intr => ret (Some data)
  end.

Definition read_error : exn := runtime_error "basic_filebuf::underflow error reading the file".

(** [load] opens the file, reads the header and then the payload.  [in.read]
    catches what the buffer throws; the [istreambuf_iterator] of the payload
    does not.  Closing the stream changes nothing that is modelled. *)
Definition load (host : host_order) (path : string) (image : SnapshotImage) : M os (bool * SnapshotImage) :=
  x <- next ;;
  match x with
  | Intr | Err => ret (false, image)
  | Done | Short _ =>
      o <- get ;;
      match f ← (i ← os_names o !! path; os_inodes o !! i); Some (f_data f) with
      | None => ret (false, image)
      | Some c =>
          h <- stream_read (take HEADER_SIZE c) ;;
          match h with None => ret (false, image) | Some header =>
          if (length header <? HEADER_SIZE)%nat then ret (false, image) else
          let magic := getLE32 (drop OFF_MAGIC header) in
          let version := getLE32 (drop OFF_VERSION header) in
          if negb (magic =? MAGIC) || negb (version =? VERSION) then ret (false, image) else
          p <- stream_read (drop HEADER_SIZE c) ;;
          match p with
          | None => throw read_error
          | Some payload => ret (load_bytes host (header ++ payload) image)
          end end
      end
  end.

End Snapshot.
