(* ===== verification/SnapshotFacts.v ===== *)
(** * SnapshotFacts: the format of snapshots

    The bytes [save] writes as a concatenation of images, and the parser of
    [load] against them, in both directions: it reads back every image, and
    whatever it accepts is one. *)

From stdpp Require Import gmap fin_maps.
From S2P Require Import Prelude Endian CRC32 Exec Posix PosixFacts WAL Snapshot.

(** ** Images *)

Definition rec_image (r : SnapshotRecord) : bytes :=
  le_bytes 8 (sr_timestamp r) ++ le_bytes 8 (ieee_bits (sr_duration r)) ++
  le_bytes 4 (zlen (sr_value r)) ++ sr_value r.

Definition key_image (kr : bytes * list SnapshotRecord) : bytes :=
  le_bytes 4 (zlen kr.1) ++ kr.1 ++ le_bytes 4 (zlen kr.2) ++ concat (rec_image <$> kr.2).

Definition payload_image (epoch : Z) (l : list (bytes * list SnapshotRecord)) : bytes :=
  le_bytes 8 epoch ++ le_bytes 4 (zlen l) ++ concat (key_image <$> l).

(** The fields fit the widths of the format. *)
Record record_ok (r : SnapshotRecord) : Prop := {
  ok_sr_timestamp : is_i64 (sr_timestamp r);
  ok_sr_duration : double_ok (sr_duration r);
  ok_sr_value : is_u32 (zlen (sr_value r))
}.

Definition key_ok (kr : bytes * list SnapshotRecord) : Prop :=
  is_u32 (zlen kr.1) /\ is_u32 (zlen kr.2) /\ Forall record_ok kr.2.

Definition keys_ok (l : list (bytes * list SnapshotRecord)) : Prop :=
  is_u32 (zlen l) /\ Forall key_ok l.

Definition push_records (key : bytes) (rs : list SnapshotRecord) (m : SnapshotState) : SnapshotState :=
  fold_left (fun m r => Snapshot.push_record key r m) rs m.

(** The state after the entries of a file, in its order. *)
Definition add_key (m : SnapshotState) (kr : bytes * list SnapshotRecord) : SnapshotState :=
  push_records kr.1 kr.2 (Snapshot.touch_key kr.1 m).

Definition state_of (l : list (bytes * list SnapshotRecord)) : SnapshotState := fold_left add_key l ∅.

Lemma length_rec_image r : length (rec_image r) = (20 + length (sr_value r))%nat.
Proof. unfold rec_image. rewrite !length_app, !length_le_bytes. lia. Qed.

Lemma length_key_image kr :
  length (key_image kr) = (8 + length kr.1 + length (concat (rec_image <$> kr.2)))%nat.
Proof. unfold key_image. rewrite !length_app, !length_le_bytes. lia. Qed.

Lemma records_count rs : 20 * zlen rs <= zlen (concat (rec_image <$> rs)).
Proof.
  induction rs as [|r rs IH]; [done|]. cbn [fmap list_fmap concat length].
  rewrite length_app, length_rec_image. lia.
Qed.

Lemma keys_count l : 8 * zlen l <= zlen (concat (key_image <$> l)).
Proof.
  induction l as [|kr l IH]; [done|]. cbn [fmap list_fmap concat length].
  rewrite length_app, length_key_image. lia.
Qed.

(** ** What [save] writes *)

Lemma put_record_image h p r : record_ok r -> Snapshot.put_record h p r = p ++ rec_image r.
Proof.
  intros [Ht Hd Hv]. unfold Snapshot.put_record, rec_image.
  rewrite !putLE64_le, putLE32_le, le_bytes_u64, doubleToBits_bits, u32_id by done.
  by rewrite <- !app_assoc.
Qed.

Lemma put_records_image h p rs :
  Forall record_ok rs -> fold_left (Snapshot.put_record h) rs p = p ++ concat (rec_image <$> rs).
Proof.
  intros Hok. revert p. induction Hok as [|r rs Hr _ IH]; intros p; [by rewrite app_nil_r|].
  cbn [fold_left fmap list_fmap concat]. rewrite IH, put_record_image by done. by rewrite <- app_assoc.
Qed.

Lemma put_key_image h p kr : key_ok kr -> Snapshot.put_key h p kr = p ++ key_image kr.
Proof.
  destruct kr as [key rs]. intros (Hk & Hn & Hrs). cbn [fst snd] in *.
  unfold Snapshot.put_key, key_image; cbn [fst snd].
  rewrite put_records_image, !putLE32_le, !u32_id by done. by rewrite <- !app_assoc.
Qed.

Lemma payload_of_image (h : host_order) (enumerate : SnapshotState -> list (bytes * list SnapshotRecord)) image :
  keys_ok (enumerate (si_state image)) -> size (si_state image) = length (enumerate (si_state image)) ->
  Snapshot.payload_of h enumerate image = payload_image (si_epoch image) (enumerate (si_state image)).
Proof.
  intros [Hn Hok] Hsize. unfold Snapshot.payload_of, payload_image. rewrite Hsize, u32_id by done.
  rewrite putLE32_le, putLE64_le, app_nil_l. set (l := enumerate (si_state image)) in *.
  assert (H : forall p, fold_left (Snapshot.put_key h) l p = p ++ concat (key_image <$> l)).
  { clear Hn Hsize. induction Hok as [|kr l' Hkr _ IH]; intros q; [by rewrite app_nil_r|].
    cbn [fold_left fmap list_fmap concat]. rewrite IH, put_key_image by done. by rewrite <- app_assoc. }
  by rewrite H, <- app_assoc.
Qed.

(** ** What [load] reads back *)

Section parse.
Context (host : host_order) (payload : bytes).

Implicit Types (s : Snapshot.pst) (m : SnapshotState) (tail : bytes).

(** The parser stands before [tail], with [epoch] and [m] in the image. *)
Definition stands (s : Snapshot.pst) (epoch : Z) (m : SnapshotState) (tail : bytes) : Prop :=
  (Snapshot.p_offset s <= length payload)%nat /\
  drop (Snapshot.p_offset s) payload = tail /\ Snapshot.p_image s = MkSnapshotImage epoch m.

Lemma stands_remaining s epoch m tail : stands s epoch m tail -> Snapshot.remaining payload s = zlen tail.
Proof. intros (Ho & <- & _). unfold Snapshot.remaining. rewrite length_drop. lia. Qed.

Lemma stands_advance s epoch m a tail :
  stands s epoch m (a ++ tail) -> stands (Snapshot.advance (length a) s) epoch m tail.
Proof.
  intros (Ho & Hd & Hi). pose proof (f_equal length Hd) as Hl. rewrite length_drop, length_app in Hl.
  split_and!; cbn; [lia| |done]. rewrite <- drop_drop, Hd. apply drop_app_length.
Qed.

Lemma stands_map f s epoch m tail :
  stands s epoch m tail -> stands (Snapshot.map_state f s) epoch (f m) tail.
Proof. intros (Ho & Hd & Hi). split_and!; [done|done|]. cbn. by rewrite Hi. Qed.

(** Each read, in terms of the bytes that are left. *)
Lemma wp_readLE32 s epoch m tail (Q : result (option Z) -> Snapshot.pst -> Prop) :
  stands s epoch m tail ->
  ((length tail < 4)%nat -> Q (Ret None) s) ->
  (forall s' tail', tail = le_bytes 4 (getLE32 tail) ++ tail' -> stands s' epoch m tail' ->
    Q (Ret (Some (getLE32 tail))) s') ->
  wp (Snapshot.readLE32 payload) s Q.
Proof.
  intros Hs HN HS. pose proof Hs as (Ho & Hd & Hi). apply wp_bind, wp_get.
  pose proof (f_equal length Hd) as Hl. rewrite length_drop in Hl.
  destruct (Z.ltb_spec (zlen payload) (Z.of_nat (Snapshot.p_offset s) + 4)).
  - apply wp_ret, HN. lia.
  - apply wp_bind, wp_modify, wp_ret. rewrite Hd.
    assert (Ht : tail = le_bytes 4 (getLE32 tail) ++ drop 4 tail)
      by (rewrite le_bytes_getLE32, take_drop by lia; done).
    apply (HS _ (drop 4 tail)); [done|].
    pose proof (stands_advance s epoch m (le_bytes 4 (getLE32 tail)) (drop 4 tail)) as Ha.
    rewrite length_le_bytes in Ha. apply Ha. by rewrite <- Ht.
Qed.

Lemma wp_readLE64 s epoch m tail (Q : result (option Z) -> Snapshot.pst -> Prop) :
  stands s epoch m tail ->
  ((length tail < 8)%nat -> Q (Ret None) s) ->
  (forall s' tail', tail = le_bytes 8 (getLE64 tail) ++ tail' -> stands s' epoch m tail' ->
    Q (Ret (Some (getLE64 tail))) s') ->
  wp (Snapshot.readLE64 payload) s Q.
Proof.
  intros Hs HN HS. pose proof Hs as (Ho & Hd & Hi). apply wp_bind, wp_get.
  pose proof (f_equal length Hd) as Hl. rewrite length_drop in Hl.
  destruct (Z.ltb_spec (zlen payload) (Z.of_nat (Snapshot.p_offset s) + 8)).
  - apply wp_ret, HN. lia.
  - apply wp_bind, wp_modify, wp_ret. rewrite Hd.
    assert (Ht : tail = le_bytes 8 (getLE64 tail) ++ drop 8 tail)
      by (rewrite le_bytes_getLE64, take_drop by lia; done).
    apply (HS _ (drop 8 tail)); [done|].
    pose proof (stands_advance s epoch m (le_bytes 8 (getLE64 tail)) (drop 8 tail)) as Ha.
    rewrite length_le_bytes in Ha. apply Ha. by rewrite <- Ht.
Qed.

Lemma wp_read_string s epoch m tail len (Q : result bytes -> Snapshot.pst -> Prop) :
  stands s epoch m tail -> 0 <= len <= zlen tail ->
  (forall s' v tail', tail = v ++ tail' -> zlen v = len -> stands s' epoch m tail' -> Q (Ret v) s') ->
  wp (Snapshot.read_string payload len) s Q.
Proof.
  intros Hs Hl HS. pose proof Hs as (Ho & Hd & Hi). apply wp_bind, wp_get, wp_bind, wp_modify, wp_ret.
  rewrite Hd. set (v := take (Z.to_nat len) tail).
  assert (Hv : length v = Z.to_nat len) by (unfold v; rewrite length_take; lia).
  apply (HS _ v (drop (Z.to_nat len) tail)); [by unfold v; rewrite take_drop|lia|].
  rewrite <- Hv. apply stands_advance. unfold v at 1. rewrite Hv. by rewrite take_drop.
Qed.

(** The fields of a record that is read. *)
Lemma rec_image_inv a b c t r X :
  is_u64 b -> is_u32 c -> record_ok r ->
  le_bytes 8 a ++ le_bytes 8 b ++ le_bytes 4 c ++ t = rec_image r ++ X ->
  c = zlen (sr_value r) /\ t = sr_value r ++ X.
Proof.
  intros Hb Hc [Ht Hd Hv]. unfold rec_image. rewrite <- !app_assoc.
  intros [_ E]%app_inj_1; [|by rewrite !length_le_bytes].
  apply app_inj_1 in E as [_ E]; [|by rewrite !length_le_bytes].
  apply app_inj_1 in E as [Hl E]; [|by rewrite !length_le_bytes].
  split; [|done]. by eapply le_bytes_inj in Hl.
Qed.

Lemma rec_image_read a b v :
  is_u64 b ->
  rec_image (MkSnapshotRecord v (bitsToDouble host b) (i64 a)) =
  le_bytes 8 a ++ le_bytes 8 b ++ le_bytes 4 (zlen v) ++ v.
Proof.
  intros Hb. unfold rec_image; cbn [sr_timestamp sr_duration sr_value].
  by rewrite <- (le_bytes_u64 (i64 a)), u64_i64, le_bytes_u64, (proj2 (bitsToDouble_spec host b Hb)).
Qed.

(** The loops: on [true] they read images; on [false] the bytes that are left do
    not start with as many images. *)
Definition records_post n key epoch m tail (r : result bool) (s' : Snapshot.pst) : Prop :=
  match r with
  | Ret true => exists rs tail', length rs = n /\ Forall record_ok rs /\
      tail = concat (rec_image <$> rs) ++ tail' /\ stands s' epoch (push_records key rs m) tail'
  | Ret false => forall rs tail', length rs = n -> Forall record_ok rs ->
      tail <> concat (rec_image <$> rs) ++ tail'
  | _ => False
  end.

Lemma records_short n key epoch m tail s' :
  (forall r X, record_ok r -> tail <> rec_image r ++ X) -> records_post (S n) key epoch m tail (Ret false) s'.
Proof.
  intros Hno [|r rs] tail' Hl Hok; [done|]. apply Forall_cons in Hok as [Hr _].
  cbn [fmap list_fmap concat]. rewrite <- app_assoc. by apply Hno.
Qed.

Lemma records_loop_post n key s epoch m tail :
  stands s epoch m tail ->
  wp (Snapshot.records_loop host payload n key) s (records_post n key epoch m tail).
Proof.
  revert s m tail. induction n as [|n IH]; intros s m tail Hs.
  { apply wp_ret. by exists [], tail. }
  assert (Hlen : forall r X, tail = rec_image r ++ X -> (20 <= length tail)%nat)
    by (intros r X ->; rewrite length_app, length_rec_image; lia).
  apply wp_bind, (wp_readLE64 _ _ _ _ _ Hs).
  { intros Hl. apply wp_ret, records_short. intros r X _ E%Hlen. lia. }
  intros s1 t1 E1 Hs1. set (a := getLE64 tail) in *.
  apply wp_bind, (wp_readLE64 _ _ _ _ _ Hs1).
  { intros Hl. apply wp_ret, records_short. intros r X _ E%Hlen.
    rewrite E1, length_app, length_le_bytes in E. lia. }
  intros s2 t2 E2 Hs2. pose proof (getLE64_range t1) as Hb. set (b := getLE64 t1) in *.
  apply wp_bind, (wp_readLE32 _ _ _ _ _ Hs2).
  { intros Hl. apply wp_ret, records_short. intros r X _ E%Hlen.
    rewrite E1, E2, !length_app, !length_le_bytes in E. lia. }
  intros s3 t3 E3 Hs3. pose proof (getLE32_range t2) as Hc. set (c := getLE32 t2) in *.
  assert (Et : tail = le_bytes 8 a ++ le_bytes 8 b ++ le_bytes 4 c ++ t3) by congruence.
  apply wp_bind, wp_get. rewrite (stands_remaining _ _ _ _ Hs3).
  destruct (Z.ltb_spec (zlen t3) c).
  { apply wp_ret, records_short. intros r X Hr E. rewrite Et in E.
    apply rec_image_inv in E as [-> ->]; [|done..]. rewrite length_app in *. lia. }
  apply wp_bind, (wp_read_string _ _ _ _ _ _ Hs3); [unfold is_u32 in Hc; lia|].
  intros s4 v t4 E4 Hv Hs4. apply wp_bind, wp_modify.
  set (rec := MkSnapshotRecord v (bitsToDouble host b) (i64 a)).
  assert (Hrec : rec_image rec = le_bytes 8 a ++ le_bytes 8 b ++ le_bytes 4 c ++ v)
    by (unfold rec; by rewrite rec_image_read, Hv).
  eapply wp_mono; [apply IH, stands_map, Hs4|].
  intros [[]|x|] s' Hp; [| |done|done].
  - destruct Hp as (rs & tail' & Hn & Hok & -> & Hs'). exists (rec :: rs), tail'.
    split_and!; [cbn; lia| | |exact Hs'].
    + constructor; [|done]. split; cbn; [apply i64_range|by apply bitsToDouble_spec|by rewrite Hv].
    + cbn [fmap list_fmap concat]. rewrite Hrec, Et, E4. by rewrite <- !app_assoc.
  - intros [|r rs] tail' Hn Hok; [done|]. apply Forall_cons in Hok as [Hr Hok].
    cbn [fmap list_fmap concat]. rewrite <- app_assoc, Et, E4. intros E.
    apply rec_image_inv in E as [El E]; [|done..].
    apply app_inj_1 in E as [_ E]; [|lia]. injection Hn as Hn. by eapply Hp.
Qed.

Lemma key_image_inv k t kr X :
  is_u32 k -> key_ok kr -> le_bytes 4 k ++ t = key_image kr ++ X ->
  k = zlen kr.1 /\ t = kr.1 ++ le_bytes 4 (zlen kr.2) ++ concat (rec_image <$> kr.2) ++ X.
Proof.
  intros Hk (Hk' & _ & _). unfold key_image. rewrite <- !app_assoc.
  intros [Hl E]%app_inj_1; [|by rewrite !length_le_bytes]. split; [|done]. by eapply le_bytes_inj in Hl.
Qed.

(** As many records have one end. *)
Lemma records_prefix rs rs' t t' :
  Forall record_ok rs -> Forall record_ok rs' -> length rs = length rs' ->
  concat (rec_image <$> rs) ++ t = concat (rec_image <$> rs') ++ t' -> t = t'.
Proof.
  intros Hok. revert rs'. induction Hok as [|r rs Hr _ IH]; intros [|r' rs'] Hok' Hl; try done.
  apply Forall_cons in Hok' as [Hr' Hok']. cbn [fmap list_fmap concat]. rewrite <- !app_assoc.
  unfold rec_image at 1. rewrite <- !app_assoc. intros E.
  apply rec_image_inv in E as [El E]; [|apply ieee_bits_range, Hr|apply Hr|done]. apply app_inj_1 in E as [_ E]; [|lia].
  eapply IH; [done| |exact E]. by injection Hl.
Qed.

Definition keys_post n epoch m tail (r : result bool) (s' : Snapshot.pst) : Prop :=
  match r with
  | Ret true => exists l tail', length l = n /\ Forall key_ok l /\
      tail = concat (key_image <$> l) ++ tail' /\ stands s' epoch (fold_left add_key l m) tail'
  | Ret false => forall l tail', length l = n -> Forall key_ok l -> tail <> concat (key_image <$> l) ++ tail'
  | _ => False
  end.

Lemma keys_short n epoch m tail s' :
  (forall kr X, key_ok kr -> tail <> key_image kr ++ X) -> keys_post (S n) epoch m tail (Ret false) s'.
Proof.
  intros Hno [|kr l] tail' Hl Hok; [done|]. apply Forall_cons in Hok as [Hr _].
  cbn [fmap list_fmap concat]. rewrite <- app_assoc. by apply Hno.
Qed.

Lemma keys_loop_post n s epoch m tail :
  stands s epoch m tail ->
  wp (Snapshot.keys_loop host payload n) s (keys_post n epoch m tail).
Proof.
  revert s m tail. induction n as [|n IH]; intros s m tail Hs.
  { apply wp_ret. by exists [], tail. }
  apply wp_bind, (wp_readLE32 _ _ _ _ _ Hs).
  { intros Hl. apply wp_ret, keys_short. intros kr X _ E%(f_equal length).
    rewrite length_app, length_key_image in E. lia. }
  intros s1 t1 E1 Hs1. pose proof (getLE32_range tail) as Hk. set (k := getLE32 tail) in *.
  assert (Hinv : forall kr X, key_ok kr -> tail = key_image kr ++ X ->
    k = zlen kr.1 /\ t1 = kr.1 ++ le_bytes 4 (zlen kr.2) ++ concat (rec_image <$> kr.2) ++ X).
  { intros kr X Hkr E. rewrite E1 in E. by apply key_image_inv in E. }
  apply wp_bind, wp_get. rewrite (stands_remaining _ _ _ _ Hs1).
  destruct (Z.ltb_spec (zlen t1) k).
  { apply wp_ret, keys_short. intros kr X Hkr E. destruct (Hinv kr X Hkr E) as [Ek Et].
    rewrite Et, length_app in *. lia. }
  apply wp_bind, (wp_read_string _ _ _ _ _ _ Hs1); [unfold is_u32 in Hk; lia|].
  intros s2 key t2 E2 Hkey Hs2.
  assert (Hinv2 : forall kr X, key_ok kr -> tail = key_image kr ++ X ->
    key = kr.1 /\ t2 = le_bytes 4 (zlen kr.2) ++ concat (rec_image <$> kr.2) ++ X).
  { intros kr X Hkr E. destruct (Hinv kr X Hkr E) as [Ek Et]. rewrite E2 in Et.
    apply app_inj_1 in Et; [done|lia]. }
  apply wp_bind, (wp_readLE32 _ _ _ _ _ Hs2).
  { intros Hl. apply wp_ret, keys_short. intros kr X Hkr E. destruct (Hinv2 kr X Hkr E) as [_ Et].
    rewrite Et, length_app, length_le_bytes in Hl. lia. }
  intros s3 t3 E3 Hs3. pose proof (getLE32_range t2) as Hc. set (c := getLE32 t2) in *.
  assert (Hinv3 : forall kr X, key_ok kr -> tail = key_image kr ++ X ->
    key = kr.1 /\ c = zlen kr.2 /\ t3 = concat (rec_image <$> kr.2) ++ X).
  { intros kr X Hkr E. destruct (Hinv2 kr X Hkr E) as [Ek Et]. rewrite E3 in Et.
    apply app_inj_1 in Et as [El Et]; [|by rewrite !length_le_bytes].
    apply le_bytes_inj in El; [done|done|apply Hkr]. }
  apply wp_bind, wp_get. rewrite (stands_remaining _ _ _ _ Hs3).
  change Snapshot.MIN_RECORD_BYTES with 20.
  destruct (Z.ltb_spec (zlen t3 / 20) c) as [Hlt|Hge].
  { apply wp_ret, keys_short. intros kr X Hkr E. destruct (Hinv3 kr X Hkr E) as (_ & Ec & Et).
    pose proof (records_count kr.2) as Hcount. rewrite Et, length_app, Ec in Hlt.
    assert (zlen kr.2 <= (Z.of_nat (length (concat (rec_image <$> kr.2)) + length X)) / 20)
      by (apply Z.div_le_lower_bound; lia). lia. }
  apply wp_bind, wp_modify, wp_bind. unfold is_u32 in Hc.
  eapply wp_mono; [apply records_loop_post, stands_map, Hs3|].
  intros [[]|x|] s4 Hp; [| |done|done]; cbn [negb].
  - destruct Hp as (rs & t4 & Hn & Hok & E4 & Hs4).
    assert (Hkr : key_ok (key, rs)) by (split_and!; cbn [fst snd]; unfold is_u32 in *; [lia..|done]).
    assert (Et : tail = key_image (key, rs) ++ t4).
    { unfold key_image; cbn [fst snd]. rewrite E1, E2, E3, E4, <- !app_assoc, Hkey.
      by replace (zlen rs) with c by lia. }
    eapply wp_mono; [apply IH, Hs4|]. intros [[]|x|] s' Hp; [| |done|done].
    + destruct Hp as (l & tail' & Hl & Hlok & E5 & Hs'). exists ((key, rs) :: l), tail'.
      split_and!; [cbn; lia|by constructor| |exact Hs'].
      cbn [fmap list_fmap concat]. rewrite Et, E5. by rewrite <- app_assoc.
    + intros [|kr l] tail' Hl Hlok; [done|]. apply Forall_cons in Hlok as [Hkr' Hlok].
      cbn [fmap list_fmap concat]. rewrite <- app_assoc. intros E.
      destruct (Hinv3 kr _ Hkr' E) as (Ek & Ec & Et3). injection Hl as Hl.
      rewrite E4 in Et3. apply records_prefix in Et3; [by eapply Hp|done|apply Hkr'|lia].
  - apply keys_short. intros kr X Hkr E. destruct (Hinv3 kr X Hkr E) as (_ & Ec & Et).
    apply (Hp kr.2 X); [lia|apply Hkr|done].
Qed.

Definition payload_post (r : result bool) (s' : Snapshot.pst) : Prop :=
  match r with
  | Ret true => exists epoch l tail, is_u64 epoch /\ keys_ok l /\
      payload = payload_image epoch l ++ tail /\ Snapshot.p_image s' = MkSnapshotImage epoch (state_of l)
  | Ret false => forall epoch l tail, is_u64 epoch -> keys_ok l -> payload <> payload_image epoch l ++ tail
  | _ => False
  end.

Lemma payload_image_inv e c t epoch l tail :
  is_u64 e -> is_u32 c -> is_u64 epoch -> keys_ok l ->
  le_bytes 8 e ++ le_bytes 4 c ++ t = payload_image epoch l ++ tail ->
  e = epoch /\ c = zlen l /\ t = concat (key_image <$> l) ++ tail.
Proof.
  intros He Hc He' [Hl _]. unfold payload_image. rewrite <- !app_assoc.
  intros [E1 E]%app_inj_1; [|by rewrite !length_le_bytes].
  apply app_inj_1 in E as [E2 E]; [|by rewrite !length_le_bytes].
  apply le_bytes_inj in E1; [|done..]. by apply le_bytes_inj in E2.
Qed.

Lemma load_payload_post image :
  wp (Snapshot.load_payload host payload) (Snapshot.Pst 0 image) payload_post.
Proof.
  assert (Hs : stands (Snapshot.Pst 0 image) (si_epoch image) (si_state image) payload)
    by (split_and!; cbn; [lia|done|by destruct image]).
  assert (Hlen : forall epoch l tail, payload = payload_image epoch l ++ tail -> (12 <= length payload)%nat)
    by (intros epoch l tail ->; unfold payload_image; rewrite !length_app, !length_le_bytes; lia).
  apply wp_bind, (wp_readLE64 _ _ _ _ _ Hs).
  { intros Hl. apply wp_ret. intros epoch l tail _ _ E%Hlen. lia. }
  intros s1 t1 E1 Hs1. pose proof (getLE64_range payload) as He. set (e := getLE64 payload) in *.
  apply wp_bind, wp_modify.
  assert (Hs1' : stands (Snapshot.set_image_epoch e s1) e (si_state image) t1).
  { destruct Hs1 as (H1 & H2 & H3). split_and!; [done|done|]. cbn. by rewrite H3. }
  apply wp_bind, (wp_readLE32 _ _ _ _ _ Hs1').
  { intros Hl. apply wp_ret. intros epoch l tail _ _ E%Hlen. rewrite E1, length_app, length_le_bytes in E. lia. }
  intros s2 t2 E2 Hs2. pose proof (getLE32_range t1) as Hc. set (c := getLE32 t1) in *.
  assert (Hinv : forall epoch l tail, is_u64 epoch -> keys_ok l -> payload = payload_image epoch l ++ tail ->
    e = epoch /\ c = zlen l /\ t2 = concat (key_image <$> l) ++ tail).
  { intros epoch l tail Hep Hl E. rewrite E1, E2 in E. by apply payload_image_inv in E. }
  apply wp_bind, wp_get. rewrite (stands_remaining _ _ _ _ Hs2). change Snapshot.MIN_KEY_BYTES with 8.
  destruct (Z.ltb_spec (zlen t2 / 8) c) as [Hlt|Hge].
  { apply wp_ret. intros epoch l tail Hep Hl E. destruct (Hinv _ _ _ Hep Hl E) as (_ & -> & ->).
    pose proof (keys_count l). rewrite length_app in Hlt.
    assert (zlen l <= (Z.of_nat (length (concat (key_image <$> l)) + length tail)) / 8)
      by (apply Z.div_le_lower_bound; lia). lia. }
  apply wp_bind, wp_modify. unfold is_u32 in Hc.
  eapply wp_mono; [apply keys_loop_post, stands_map, Hs2|].
  intros [[]|x|] s' Hp; [| |done|done].
  - destruct Hp as (l & tail & Hl & Hok & E3 & Hs'). exists e, l, tail.
    split_and!; [done|split; [unfold is_u32; lia|done]| |apply Hs'].
    unfold payload_image. rewrite E1, E2, E3, <- !app_assoc. by replace (zlen l) with c by lia.
  - intros epoch l tail Hep Hl E. destruct (Hinv _ _ _ Hep Hl E) as (_ & Ec & Et).
    apply (Hp l tail); [lia|apply Hl|done].
Qed.
End parse.

(** A file around a payload. *)
Definition snap_file (p : bytes) : bytes :=
  le_bytes 4 Snapshot.MAGIC ++ le_bytes 4 Snapshot.VERSION ++ le_bytes 4 (CRC32.calculate p) ++ p.

Lemma file_bytes_image (h : host_order) (enumerate : SnapshotState -> list (bytes * list SnapshotRecord)) image :
  Snapshot.file_bytes h enumerate image = snap_file (Snapshot.payload_of h enumerate image).
Proof. unfold Snapshot.file_bytes, snap_file. rewrite !putLE32_le, app_nil_l. by rewrite <- !app_assoc. Qed.

(** What [load] makes of the bytes of a file. *)
Lemma load_bytes_spec h c image :
  let '(ok, image') := Snapshot.load_bytes h c image in
  if ok then exists epoch l tail, is_u64 epoch /\ keys_ok l /\
    c = snap_file (payload_image epoch l ++ tail) /\ image' = MkSnapshotImage epoch (state_of l)
  else forall epoch l tail, is_u64 epoch -> keys_ok l -> c <> snap_file (payload_image epoch l ++ tail).
Proof.
  assert (Hh : forall p, length (snap_file p) = (12 + length p)%nat).
  { intros p. unfold snap_file. rewrite !length_app, !length_le_bytes. lia. }
  unfold Snapshot.load_bytes. change Snapshot.HEADER_SIZE with 12%nat. change Snapshot.OFF_MAGIC with 0%nat.
  change Snapshot.OFF_VERSION with 4%nat. change Snapshot.OFF_CRC with 8%nat. rewrite drop_0.
  destruct (Nat.ltb_spec (length c) 12) as [Hl|Hl].
  { intros epoch l tail _ _ E. rewrite E, Hh in Hl. lia. }
  assert (Hc : c = le_bytes 4 (getLE32 c) ++ le_bytes 4 (getLE32 (drop 4 c)) ++
    le_bytes 4 (getLE32 (drop 8 c)) ++ drop 12 c).
  { rewrite !le_bytes_getLE32 by (rewrite ?length_drop; lia).
    rewrite <- (take_drop 4 c) at 1. f_equal. rewrite <- (take_drop 4 (drop 4 c)) at 1. f_equal.
    rewrite drop_drop. change (4 + 4)%nat with 8%nat. rewrite <- (take_drop 4 (drop 8 c)) at 1. f_equal.
    by rewrite drop_drop. }
  assert (Hf : forall p, c = snap_file p -> getLE32 c = Snapshot.MAGIC /\
    getLE32 (drop 4 c) = Snapshot.VERSION /\ getLE32 (drop 8 c) = CRC32.calculate p /\ drop 12 c = p).
  { intros p ->. unfold snap_file. split_and!.
    - by apply getLE32_le_bytes.
    - rewrite drop_app_length' by (by rewrite length_le_bytes). by apply getLE32_le_bytes.
    - change 8%nat with (4 + 4)%nat. rewrite <- drop_drop, !drop_app_length' by (by rewrite length_le_bytes).
      apply getLE32_le_bytes, CRC32.calculate_range.
    - change 12%nat with (4 + (4 + 4))%nat. by rewrite <- !drop_drop, !drop_app_length' by (by rewrite length_le_bytes). }
  destruct (Z.eqb_spec (getLE32 c) Snapshot.MAGIC) as [Em|Hne]; cbn [negb orb];
    [|intros epoch l tail _ _ E; by destruct (Hf _ E)].
  destruct (Z.eqb_spec (getLE32 (drop 4 c)) Snapshot.VERSION) as [Ev|Hne]; cbn [negb];
    [|intros epoch l tail _ _ E; by destruct (Hf _ E) as (_ & ? & _)].
  destruct (Z.eqb_spec (CRC32.calculate (drop 12 c)) (getLE32 (drop 8 c))) as [Ec|Hne]; cbn [negb];
    [|intros epoch l tail _ _ E; destruct (Hf _ E) as (_ & _ & H1 & H2); by rewrite H2 in Hne].
  pose proof (load_payload_post h (drop 12 c) image) as Hp. unfold wp in Hp.
  destruct (Snapshot.load_payload h (drop 12 c) (Snapshot.Pst 0 image)) as [[[]|x|] s']; cbn [fst snd] in Hp; try done.
  - destruct Hp as (epoch & l & tail & He & Hk & Ep & Ei). exists epoch, l, tail. split_and!; try done.
    unfold snap_file. by rewrite <- Ep, Ec, <- Em, <- Ev.
  - intros epoch l tail He Hk E. destruct (Hf _ E) as (_ & _ & _ & E'). by eapply Hp.
Qed.

(** ** [load] and its calls *)

Definition read_file (o : os) (path : string) : option bytes :=
  f ← (i ← os_names o !! path; os_inodes o !! i); Some (f_data f).

(** [load_bytes] refuses a file with the header that [load] refuses. *)
Lemma load_bytes_header h c image :
  (Snapshot.HEADER_SIZE <= length c)%nat ->
  negb (getLE32 (drop Snapshot.OFF_MAGIC (take Snapshot.HEADER_SIZE c)) =? Snapshot.MAGIC)
    || negb (getLE32 (drop Snapshot.OFF_VERSION (take Snapshot.HEADER_SIZE c)) =? Snapshot.VERSION) = true ->
  Snapshot.load_bytes h c image = (false, image).
Proof.
  intros Hc. unfold Snapshot.load_bytes. destruct (Nat.ltb_spec (length c) Snapshot.HEADER_SIZE); [lia|].
  unfold Snapshot.HEADER_SIZE, Snapshot.OFF_CRC, Snapshot.OFF_VERSION, Snapshot.OFF_MAGIC. cbn [Nat.add].
  rewrite !skipn_firstn_comm, !getLE32_take by (cbn; lia). by intros ->.
Qed.

(** When its calls succeed, [load] is [load_bytes] on the contents. *)
Lemma load_contents host path image o :
  Forall (eq Done) (os_script o) -> (3 <= length (os_script o))%nat ->
  exists sc, used (os_script o) sc 3 /\
    Snapshot.load host path image o =
    (Ret (match read_file o path with Some c => Snapshot.load_bytes host c image | None => (false, image) end),
     set_script sc o).
Proof.
  intros Hd Hl. unfold Snapshot.load, Snapshot.stream_read, bind, next, Exec.get, ret.
  destruct (os_script o) as [|x [|y [|z sc]]]; [cbn in Hl; lia..|].
  apply Forall_cons in Hd as [<- [<- [<- _]%Forall_cons]%Forall_cons].
  assert (Hu : used (Done :: Done :: Done :: sc) sc 3) by (do 3 apply used_cons; apply used_refl).
  cbn [os_names os_inodes set_script os_script]. fold (read_file o path).
  destruct (read_file o path) as [c|]; [|exists (Done :: Done :: sc); split; [|done]; by eapply used_le, used_cons, used_refl; lia].
  cbn [os_script set_script]. rewrite length_take. destruct (Nat.ltb_spec (Snapshot.HEADER_SIZE `min` length c) Snapshot.HEADER_SIZE) as [Hc|Hc].
  { exists (Done :: sc). split; [by eapply used_le, used_cons, used_cons, used_refl; lia|].
    unfold Snapshot.load_bytes. destruct (Nat.ltb_spec (length c) Snapshot.HEADER_SIZE); [done|lia]. }
  destruct (_ || _) eqn:E.
  - exists (Done :: sc). split; [by eapply used_le, used_cons, used_cons, used_refl; lia|].
    by rewrite load_bytes_header by (done || lia).
  - cbn [os_script set_script]. exists sc. split; [done|]. by rewrite take_drop.
Qed.

Lemma load_read host path image0 image o :
  (exists sc, os_script o = Done :: Done :: Done :: sc) ->
  (exists c, read_file o path = Some c /\ Snapshot.load_bytes host c image0 = (true, image)) ->
  fst (Snapshot.load host path image0 o) = Ret (true, image).
Proof.
  intros [sc Hs] (c & Hc & El). unfold Snapshot.load, Snapshot.stream_read, bind, next, Exec.get, ret. rewrite Hs.
  cbn [os_names os_inodes set_script os_script]. fold (read_file o path). rewrite Hc.
  cbn [os_script set_script].
  assert (Hl : (Snapshot.HEADER_SIZE <= length c)%nat).
  { unfold Snapshot.load_bytes in El. by destruct (Nat.ltb_spec (length c) Snapshot.HEADER_SIZE). }
  rewrite length_take. destruct (Nat.ltb_spec (Snapshot.HEADER_SIZE `min` length c) Snapshot.HEADER_SIZE); [lia|].
  destruct (_ || _) eqn:E; [by rewrite load_bytes_header in El by done|].
  cbn [os_script set_script fst]. by rewrite take_drop, El.
Qed.

(** A file that is not there. *)
Lemma load_missing host path image o x sc :
  os_script o = x :: sc -> os_names o !! path = None ->
  Snapshot.load host path image o = (Ret (false, image), set_script sc o).
Proof.
  intros Hs Hn. unfold Snapshot.load, bind, next, Exec.get, ret. rewrite Hs.
  destruct x; cbn [os_names set_script]; by rewrite ?Hn.
Qed.

(** Whatever the outcomes, [load] only uses up some of them. *)
Lemma wp_stream_read data o (Q : result (option bytes) -> os -> Prop) :
  (os_script o = [] -> Q Halt o) ->
  (forall r x sc, os_script o = x :: sc -> (r = None -> x = Err) -> Q (Ret r) (set_script sc o)) ->
  wp (Snapshot.stream_read data) o Q.
Proof.
  intros HH HQ. apply wp_bind. unfold wp at 1, next. destruct (os_script o) as [|x sc]; cbn [fst snd]; [by apply HH|].
  destruct x; apply wp_ret; eapply HQ; (done || by intros [=]).
Qed.

Lemma load_frame host path image o (Q : result (bool * SnapshotImage) -> os -> Prop) :
  (forall r sc, used (os_script o) sc 3 ->
    match r with
    | Ret _ => True
    | Throw x => x = Snapshot.read_error /\ ~ Forall (eq Done) (os_script o)
    | Halt => sc = []
    end -> Q r (set_script sc o)) ->
  wp (Snapshot.load host path image) o Q.
Proof.
  intros HQ. apply wp_bind. unfold wp at 1, next.
  assert (Hid : forall o1 : os, set_script (os_script o1) o1 = o1) by (by intros []).
  destruct (os_script o) as [|x sc] eqn:Es; cbn [fst snd].
  { rewrite <- (Hid o), Es. apply HQ; [by eapply used_le, used_refl; lia|done]. }
  assert (H1 : used (x :: sc) sc 3) by (eapply used_le, used_cons, used_refl; lia).
  assert (Hopen : wp (o0 <- get ;; match read_file o0 path with
      | None => ret (false, image)
      | Some c => h <- Snapshot.stream_read (take Snapshot.HEADER_SIZE c) ;;
          match h with None => ret (false, image) | Some header =>
          if (length header <? Snapshot.HEADER_SIZE)%nat then ret (false, image) else
          if negb (getLE32 (drop Snapshot.OFF_MAGIC header) =? Snapshot.MAGIC)
            || negb (getLE32 (drop Snapshot.OFF_VERSION header) =? Snapshot.VERSION) then ret (false, image) else
          p <- Snapshot.stream_read (drop Snapshot.HEADER_SIZE c) ;;
          match p with
          | None => throw Snapshot.read_error
          | Some payload => ret (Snapshot.load_bytes host (header ++ payload) image)
          end end
      end) (set_script sc o) Q).
  { apply wp_bind, wp_get. destruct (read_file _ path) as [c|]; [|by apply wp_ret, HQ].
    apply wp_bind, wp_stream_read; [cbn [os_script set_script]; intros ->; by apply HQ|]. intros h y sc1 E1 _. cbn [os_script set_script] in E1. subst sc.
    assert (H2 : used (x :: y :: sc1) sc1 3) by (eapply used_le, used_cons, used_cons, used_refl; lia).
    destruct h as [header|]; [|by apply wp_ret, HQ]. destruct (_ <? _)%nat; [by apply wp_ret, HQ|].
    destruct (_ || _); [by apply wp_ret, HQ|].
    apply wp_bind, wp_stream_read; [cbn [os_script set_script]; intros ->; by apply HQ|]. intros p z sc2 E2 Hz. cbn [os_script set_script] in E2. subst sc1.
    assert (H3 : used (x :: y :: z :: sc2) sc2 3) by (do 3 apply used_cons; apply used_refl).
    destruct p as [payload|]; [by apply wp_ret, HQ|apply wp_throw, HQ; [done|split; [done|]]].
    intros [_ [_ [Hd _]%Forall_cons]%Forall_cons]%Forall_cons. by rewrite (Hz eq_refl) in Hd. }
  destruct x; [exact Hopen..|by apply wp_ret, HQ|by apply wp_ret, HQ].
Qed.
