(* ===== verification/SaveFacts.v ===== *)
(** * SaveFacts: how far [Snapshot::save] gets

    For every script of outcomes, [save] leaves the system in one of four states:
    untouched, with the temporary file written in part, with the new file
    renamed, or with the directory synchronised as well. *)

From stdpp Require Import gmap.
From S2P Require Import Prelude Endian CRC32 Exec Posix PosixFacts WAL WALFacts Snapshot SnapshotFacts.

(** ** Directories *)

(** A directory after its [fsync]: old states have its names as they are now. *)
Lemma lookup_sync_dir d now old p : sync_dir d now old !! p = if decide (dir_of p = d) then now !! p else old !! p.
Proof.
  unfold sync_dir. rewrite lookup_union, !map_lookup_filter. case_decide as Hd.
  - destruct (now !! p), (old !! p); cbn; repeat case_guard; cbn in *; done.
  - destruct (now !! p), (old !! p); cbn; repeat case_guard; cbn in *; done.
Qed.

Lemma before_slash_None s : Snapshot.before_slash s = None -> components s = [s] /\ absolute s = false.
Proof.
  induction s as [|c s IH]; [done|]. cbn. destruct (Snapshot.before_slash s); [done|].
  destruct (is_slash c); [done|]. intros _. by destruct (IH eq_refl) as [-> _].
Qed.

Lemma components_ne s : components s <> [].
Proof. destruct s as [|c s]; [done|]. cbn. destruct (is_slash c); [done|]. by destruct (components s). Qed.

Lemma before_slash_Some s x : Snapshot.before_slash s = Some x -> removelast (components s) = components x.
Proof.
  revert x. induction s as [|c s IH]; intros x; [done|]. cbn. destruct (Snapshot.before_slash s) as [y|] eqn:E.
  - intros [= <-]. specialize (IH y eq_refl). pose proof (components_ne s). pose proof (components_ne y). cbn.
    destruct (is_slash c).
    + rewrite <- IH. by destruct (components s).
    + destruct (components s) as [|z [|z' l]]; [done|by destruct (components y)|].
      cbn [removelast] in *. by rewrite <- IH.
  - destruct (is_slash c); [|done]. intros [= <-]. by destruct (before_slash_None s E) as [-> _].
Qed.

Lemma strip_components s :
  exists k, components s = components (Snapshot.strip_slashes s) ++ replicate k ""%string.
Proof.
  induction s as [|c s [k IH]]; [by exists O|]. cbn. destruct (Snapshot.strip_slashes s) as [|c' y].
  - cbn in IH. rewrite IH. cbn. destruct (is_slash c) eqn:Ec; [by exists (S k)|exists k]. cbn. by rewrite Ec.
  - exists k. rewrite IH. change (components (String c (String c' y))) with
      (if is_slash c then ""%string :: components (String c' y) else
       match components (String c' y) with x :: l => String c x :: l | [] => [String c ""] end).
    pose proof (components_ne (String c' y)). destruct (is_slash c); [done|]. by destruct (components (String c' y)).
Qed.

Lemma steps_strip s : steps_of (components (Snapshot.strip_slashes s)) = steps_of (components s).
Proof.
  destruct (strip_components s) as [k ->]. unfold steps_of. rewrite List.filter_app.
  induction k as [|k IH]; [by rewrite app_nil_r|exact IH].
Qed.

Lemma absolute_strip c s : Snapshot.strip_slashes (String c s) = ""%string -> is_slash c = true.
Proof. cbn. destruct (Snapshot.strip_slashes s); [|done]. by destruct (is_slash c). Qed.

(** The directory that [fsyncParentDir] opens is the one with the name. *)
Lemma parent_path_dir path :
  dir_named (if String.eqb (Snapshot.parent_path path) "" then "."%string else Snapshot.parent_path path) = dir_of path.
Proof.
  unfold Snapshot.parent_path. destruct (Snapshot.before_slash path) as [x|] eqn:E; cbn [String.eqb].
  2: { destruct (before_slash_None path E) as [Hc Ha]. unfold dir_of. by rewrite Hc, Ha. }
  unfold dir_of. rewrite (before_slash_Some path x E), <- steps_strip.
  assert (Ha : absolute path = match x with String c _ => is_slash c | EmptyString => true end).
  { destruct path as [|c s]; [done|]. cbn in *. destruct (Snapshot.before_slash s); [by injection E as <-|].
    destruct (is_slash c); [by injection E as <-|done]. }
  destruct (Snapshot.strip_slashes x) as [|c y] eqn:Es; rewrite Ha.
  - destruct x as [|c x]; [done|]. by rewrite (absolute_strip _ _ Es).
  - destruct x as [|c' x]; [done|]. assert (c' = c) as ->; [|done]. cbn [Snapshot.strip_slashes] in Es.
    destruct (Snapshot.strip_slashes x); [destruct (is_slash c'); [done|]|]; by injection Es as ->.
Qed.

Section save.
Context (host : host_order) (enumerate : SnapshotState -> list (bytes * list SnapshotRecord)).
Context (path : string) (image : SnapshotImage) (o : os).

Let tmp : string := Snapshot.tmp_path path.
Let data : bytes := Snapshot.file_bytes host enumerate image.

(** The number of the temporary file, and the directory that has it. *)
Definition tmp_inode : nat := default (fresh_inode o) (os_names o !! tmp).
Definition names_tmp : gmap string nat :=
  match os_names o !! tmp with Some _ => os_names o | None => <[tmp := tmp_inode]> (os_names o) end.
Definition log_tmp : list (gmap string nat) :=
  match os_names o !! tmp with Some _ => os_names_log o | None => os_names_log o ++ [os_names o] end.
Definition names_new : gmap string nat := <[path := tmp_inode]> (delete tmp names_tmp).

Definition files_are (o' : os) ino names log : Prop :=
  os_inodes o' = ino /\ os_names o' = names /\ os_names_log o' = log.

Inductive stage := Untouched | Writing | Renamed | Synced.

Definition reached (k : stage) (o' : os) : Prop :=
  match k with
  | Untouched => files_are o' (os_inodes o) (os_names o) (os_names_log o)
  | Writing => exists f, files_are o' (<[tmp_inode := f]> (os_inodes o)) names_tmp log_tmp
  | Renamed => files_are o' (<[tmp_inode := File data []]> (os_inodes o)) names_new (log_tmp ++ [names_tmp])
  | Synced => files_are o' (<[tmp_inode := File data []]> (os_inodes o)) names_new
      (sync_dir (dir_of path) names_new <$> (log_tmp ++ [names_tmp]))
  end.

Definition save_post (r : result bool) (o' : os) : Prop :=
  exists k, reached k o' /\ used (os_script o) (os_script o') 8 /\
    match r with
    | Ret true => k = Synced /\ os_fds o' = os_fds o
    | Ret false => k <> Synced /\ os_fds o' = os_fds o /\ ~ Forall (eq Done) (os_script o)
    | Throw _ => False
    | Halt => os_script o' = []
    end.

(** The end of [save], once the directory refers to the new file. *)
Lemma fsyncParentDir_post o1 n :
  reached Renamed o1 -> os_fds o1 = os_fds o -> used (os_script o) (os_script o1) n -> (n <= 5)%nat ->
  wp (Snapshot.fsyncParentDir path) o1 save_post.
Proof.
  intros Hr Hfds Hu Hn.
  assert (Hle : forall sc m, used (os_script o1) sc m -> (m <= 3)%nat -> used (os_script o) sc 8).
  { intros sc m Hm Hm3. eapply used_le, used_trans; [|exact Hu|exact Hm]. lia. }
  assert (Hbad : forall x sc, os_script o1 = x :: sc -> x <> Done -> ~ Forall (eq Done) (os_script o)).
  { intros x sc E Hx Hall. apply (suffix_Forall _ _ _ (proj1 Hu)) in Hall. rewrite E in Hall.
    by apply Forall_cons in Hall as [<- _]. }
  unfold Snapshot.fsyncParentDir. apply wp_bind. unfold sys_open_dir. rewrite parent_path_dir.
  unfold syscall. apply wp_bind. unfold wp at 1, next.
  destruct (os_script o1) as [|x sc] eqn:Es; cbn [fst snd].
  { exists Renamed. split_and!; [done| |done]. rewrite Es. apply (Hle _ 0%nat); [apply used_refl|lia]. }
  assert (Hu1 : used (os_script o) sc 8) by (apply (Hle _ 1%nat); [apply used_cons, used_refl|lia]).
  assert (Hfail : x <> Done -> save_post (Ret false) (set_script sc o1)).
  { intros Hx. exists Renamed. split_and!; [done|done|done|done|by eapply Hbad]. }
  set (dfd := fresh_fd o1). set (o2 := set_script sc (set_fd dfd (FdDir (dir_of path)) o1)).
  assert (Hgo : wp (r <- sys_fsync dfd ;;
      let ok := negb (WAL.failed r) in sys_close dfd ;;; ret ok) o2 save_post).
  { assert (Hdrop : forall o3, os_fds o3 = <[dfd := FdDir (dir_of path)]> (os_fds o1) -> os_fds (drop_fd dfd o3) = os_fds o).
    { intros o3 E. cbn. rewrite E, delete_insert_id by apply fresh_fd_none. done. }
    assert (Hclose : forall k o3 sc3 ok, reached k o3 -> os_fds o3 = <[dfd := FdDir (dir_of path)]> (os_fds o1) ->
      os_script o3 = sc3 -> used (x :: sc) sc3 2 -> (ok = true -> k = Synced) ->
      (ok = false -> k <> Synced /\ ~ Forall (eq Done) (os_script o)) ->
      wp (sys_close dfd ;;; ret ok) o3 save_post).
    { intros k o3 sc3 ok Hk Hf Es3 Hu3 Ht Hfl. apply wp_bind. unfold sys_close. apply wp_bind. unfold wp at 1, next.
      rewrite Es3. destruct sc3 as [|y sc3]; cbn [fst snd].
      { exists k. split_and!; [done| |done]. rewrite Es3. apply (Hle _ 2%nat); [done|lia]. }
      assert (Hfin : save_post (Ret ok) (drop_fd dfd (set_script sc3 o3))).
      { exists k. split_and!; [by destruct k| |].
        - apply (Hle _ 3%nat); [|lia]. apply (used_trans _ _ _ 2 1 Hu3), used_cons, used_refl.
        - destruct ok; [split; [by apply Ht|by apply Hdrop]|].
          destruct (Hfl eq_refl). split_and!; [done|by apply Hdrop|done]. }
      apply wp_bind, wp_modify. destruct y; apply wp_ret, wp_ret, Hfin. }
    apply wp_bind. unfold sys_fsync, syscall. apply wp_bind. unfold wp at 1, next. cbn [os_script o2 set_script].
    destruct sc as [|y sc]; cbn [fst snd].
    { exists Renamed. by split_and!. }
    assert (Hu2 : used (x :: y :: sc) sc 2) by (do 2 apply used_cons; apply used_refl).
    assert (Hbad2 : y <> Done -> ~ Forall (eq Done) (os_script o)).
    { intros Hy Hall. apply (suffix_Forall _ _ _ (proj1 Hu)) in Hall.
      by apply Forall_cons in Hall as [_ [<- _]%Forall_cons]. }
    assert (Herr : forall e, y <> Done -> wp (let ok := negb (WAL.failed (Fail e)) in sys_close dfd ;;; ret ok)
      (set_script sc (set_script (y :: sc) (set_fd dfd (FdDir (dir_of path)) o1))) save_post).
    { intros e Hy. apply (Hclose Renamed _ sc false); [done|done|done|done|done|].
      intros _. split; [done|by apply Hbad2]. }
    assert (Hok : wp (o <- get ;;
       match os_fds o !! dfd with
       | Some (FdFile i _ _) =>
           match os_inodes o !! i with
           | Some f => modify (set_inode i (f_sync f)) ;;; ret (Rc 0)
           | None => ret (Fail EBADF)
           end
       | Some (FdDir d) => modify (sync_names d) ;;; ret (Rc 0)
       | None => ret (Fail EBADF)
       end) (set_script sc (set_script (y :: sc) (set_fd dfd (FdDir (dir_of path)) o1)))
       (fun r s' => match r with
         | Ret a => wp (let ok := negb (WAL.failed a) in sys_close dfd ;;; ret ok) s' save_post
         | Throw e => save_post (Throw e) s'
         | Halt => save_post Halt s'
         end)).
    { apply wp_bind, wp_get. cbn [os_fds set_script set_fd]. rewrite lookup_insert_eq.
      apply wp_bind, wp_modify, wp_ret. apply (Hclose Synced _ sc true); [|done|done|done|done|done].
      destruct Hr as (H1 & H2 & H3). split_and!; [done..|]. cbn. by rewrite H2, H3. }
    destruct y; [exact Hok|exact Hok|apply wp_ret, Herr; done|apply wp_ret, Herr; done]. }
  destruct x; [| |apply wp_ret, wp_ret, Hfail; done|apply wp_ret, wp_ret, Hfail; done].
  all: apply wp_bind, wp_get, wp_bind, wp_modify, wp_ret; rewrite Nat2Z.id; exact Hgo.
Qed.

(** The system in which the temporary file is written. *)
Definition sys_tmp : os := Os (os_inodes o) names_tmp log_tmp (os_fds o) [].

Lemma names_tmp_lookup : names_tmp !! tmp = Some tmp_inode.
Proof. exact (trunc_names_lookup tmp o). Qed.

Lemma settle_reached f sc : reached Writing (settle sys_tmp tmp_inode f sc).
Proof. by exists f. Qed.

Lemma touch_reached fd off f sc : reached Writing (touch_gen false sys_tmp fd tmp_inode off f sc).
Proof. by exists f. Qed.

(** Opening the temporary file empties it. *)
Lemma wp_open_tmp (Q : result rc -> os -> Prop) :
  (forall i, os_names o !! tmp = Some i -> is_Some (os_inodes o !! i)) ->
  (os_script o = [] -> Q Halt o) ->
  (forall e sc, used (os_script o) sc 1 -> ~ Forall (eq Done) (os_script o) -> Q (Ret (Fail e)) (set_script sc o)) ->
  (forall f sc, f_data f = [] -> used (os_script o) sc 1 ->
    Q (Ret (Rc (Z.of_nat (fresh_fd o)))) (touch_gen false sys_tmp (fresh_fd o) tmp_inode 0 f sc)) ->
  wp (sys_open tmp (OFlags true true false)) o Q.
Proof. exact (wp_open_trunc tmp o Q). Qed.

Lemma save_spec :
  (forall i, os_names o !! tmp = Some i -> is_Some (os_inodes o !! i)) ->
  wp (Snapshot.save host enumerate path image) o save_post.
Proof.
  intros Hi. unfold Snapshot.save. fold tmp data. apply wp_bind, (wp_open_tmp _ Hi).
  { intros E. exists Untouched. split_and!; [done|by eapply used_le, used_refl; lia|done]. }
  { intros e sc Hu Hnd. apply wp_ret. exists Untouched. split_and!; [done|by eapply used_le, Hu; lia|done|done|done]. }
  intros f sc Hf Hu. rewrite Nat2Z.id. set (fd := fresh_fd o).
  assert (Hfd : os_fds sys_tmp !! fd = None) by exact (fresh_fd_none o).
  (* the failing exits: close, and answer [false] *)
  assert (Hfail : forall off f1 sc1 n, used (os_script o) sc1 n -> (n <= 7)%nat -> ~ Forall (eq Done) (os_script o) ->
    wp (sys_close fd ;;; ret false) (touch_gen false sys_tmp fd tmp_inode off f1 sc1) save_post).
  { intros off f1 sc1 n Hu1 Hn Hnd. apply wp_bind, wp_close; [done| |].
    - intros ->. exists Writing. split_and!; [apply touch_reached|by eapply used_le, Hu1; lia|done].
    - intros r sc2 Hu2 _. apply wp_ret. exists Writing.
      split_and!; [apply settle_reached| |done|done|done]. eapply used_le, used_trans; [|exact Hu1|exact Hu2]. lia. }
  assert (Hhalt : forall off f1 n, used (os_script o) [] n -> (n <= 8)%nat ->
    save_post Halt (touch_gen false sys_tmp fd tmp_inode off f1 [])).
  { intros off f1 n Hu1 Hn. exists Writing. split_and!; [apply touch_reached|by eapply used_le, Hu1; lia|done]. }
  assert (Hnd : forall sc1 n, used (os_script o) sc1 n -> ~ Forall (eq Done) sc1 -> ~ Forall (eq Done) (os_script o)).
  { intros sc1 n [Hs _] H Hall. by eapply H, suffix_Forall. }
  apply wp_bind. eapply wp_mono; [apply writeExact_post_gen; right; by rewrite Hf|].
  intros r o1 (off & f1 & sc1 & d & -> & _ & Hg & _ & Hu1 & Hr).
  assert (Hu2 : used (os_script o) sc1 2).
  { eapply used_le, used_trans; [|exact Hu|exact Hu1]. lia. }
  destruct r as [[]|x|]; [| |done|subst sc1; by eapply Hhalt; [exact Hu2|lia]]; cbn [negb]; last first.
  { eapply Hfail; [exact Hu2|lia|]. eapply Hnd; [exact Hu|]. intros H. by apply Hr, benign_done. }
  subst d. apply wp_bind, (fsync_calls false sys_tmp fd tmp_inode off f1 sc1).
  { intros ->. eapply Hhalt; [exact Hu2|lia]. }
  { intros e sc2 Hu3 Hn3. eapply Hfail; [by eapply (used_trans _ _ _ 2 1 Hu2), Hu3|lia|by eapply Hnd]. }
  intros n sc2 Hu3. cbn [WAL.failed]. pose proof (used_trans _ _ _ 2 1 Hu2 Hu3) as Hu4.
  assert (Hsync : f_sync f1 = File data []).
  { unfold f_sync. by rewrite (grows_data _ _ _ Hg), Hf. }
  rewrite Hsync. apply wp_bind, wp_close; [done| |].
  { intros ->. eapply Hhalt; [exact Hu4|lia]. }
  intros r sc3 Hu5 Hr3. pose proof (used_trans _ _ _ 3 1 Hu4 Hu5) as Hu6.
  destruct r as [n3|e]; cbn [WAL.failed]; last first.
  { apply wp_ret. exists Writing. split_and!; [apply settle_reached|by eapply used_le, Hu6; lia|done|done|].
    eapply Hnd, Hr3; [exact Hu4|eauto]. }
  (* the rename *)
  apply wp_bind. unfold sys_rename, syscall. apply wp_bind. unfold wp at 1, next. cbn [settle os_script set_script].
  destruct sc3 as [|y sc4]; cbn [fst snd].
  { exists Writing. split_and!; [apply settle_reached|by eapply used_le, Hu6; lia|done]. }
  pose proof (used_trans _ _ _ 4 1 Hu6 (used_cons y _ _ _ (used_refl sc4))) as Hu7.
  assert (Hbad : y <> Done -> save_post (Ret false) (settle sys_tmp tmp_inode (File data []) sc4)).
  { intros Hy. exists Writing. split_and!; [apply settle_reached|by eapply used_le, Hu7; lia|done|done|].
    eapply Hnd; [exact Hu6|]. by intros [H _]%Forall_cons. }
  assert (Hgo : wp (o <- get ;;
     match os_names o !! tmp with
     | None => ret (Fail ENOENT)
     | Some i => modify (set_names (<[path := i]> (delete tmp (os_names o)))) ;;; ret (Rc 0)
     end) (settle sys_tmp tmp_inode (File data []) sc4)
    (fun r s' => match r with
      | Ret ec => wp (if WAL.failed ec then ret false else Snapshot.fsyncParentDir path) s' save_post
      | Throw e => save_post (Throw e) s'
      | Halt => save_post Halt s'
      end)).
  { apply wp_bind, wp_get. cbn [settle set_script set_inode sys_tmp os_names]. rewrite names_tmp_lookup.
    apply wp_bind, wp_modify, wp_ret. cbn [WAL.failed]. apply (fsyncParentDir_post _ 5); [done|done|exact Hu7|lia]. }
  destruct y; [exact Hgo|exact Hgo|by apply wp_ret, wp_ret, Hbad..].
Qed.
End save.

(** ** Power cuts during [save] *)

(** What [path] can hold when power comes back: some contents, or no file. *)
Definition crash_file (o : os) (path : string) (c : option bytes) : Prop :=
  exists ns, ns ∈ os_names_log o ++ [os_names o] /\
    match ns !! path with
    | Some i => exists f x, os_inodes o !! i = Some f /\ crash_content f x /\ c = Some x
    | None => c = None
    end.

Lemma crash_disk_file o d path : crash_disk o d -> crash_file o path (d !! path).
Proof.
  intros (ns & Hns & Hd). exists ns. split; [done|]. specialize (Hd path).
  destruct (ns !! path) as [i|]; [|done]. destruct Hd as (f & c & H1 & H2 & H3). by exists f, c.
Qed.

Lemma tmp_path_ne path : Snapshot.tmp_path path <> path.
Proof.
  intros E%(f_equal String.length). unfold Snapshot.tmp_path in E. revert E.
  induction path as [|a path IH]; [done|]. intros [=E]. by apply IH.
Qed.

Section crash.
Context (host : host_order) (enumerate : SnapshotState -> list (bytes * list SnapshotRecord)).
Context (path : string) (image : SnapshotImage) (o : os).
Let tmp : string := Snapshot.tmp_path path.
Let data : bytes := Snapshot.file_bytes host enumerate image.

(** A file that is not the temporary one, in any state of the directory. *)
Definition apart (p : string) : Prop :=
  p <> tmp /\ forall ns i, ns ∈ os_names_log o ++ [os_names o] -> ns !! p = Some i ->
    is_Some (os_inodes o !! i) /\ os_names o !! tmp <> Some i.

Lemma apart_inode p ns i f :
  apart p -> ns ∈ os_names_log o ++ [os_names o] -> ns !! p = Some i ->
  <[tmp_inode path o := f]> (os_inodes o) !! i = os_inodes o !! i.
Proof.
  intros [_ Ha] Hns Hi. destruct (Ha ns i Hns Hi) as [[x Hx] Hne]. apply lookup_insert_ne.
  unfold tmp_inode. fold tmp. destruct (os_names o !! tmp) as [j|]; cbn; [congruence|].
  intros E. rewrite <- E, fresh_inode_none in Hx. done.
Qed.

(** The states of the directory that count, seen from such a file. *)
Lemma dir_seen p ns :
  apart p -> ns ∈ log_tmp path o ++ [names_tmp path o] ->
  exists ns0, ns0 ∈ os_names_log o ++ [os_names o] /\ ns !! p = ns0 !! p.
Proof.
  intros [Hp _]. unfold log_tmp, names_tmp. fold tmp. destruct (os_names o !! tmp); [by exists ns|].
  intros [Hin| ->%list_elem_of_singleton]%elem_of_app; [by exists ns|].
  exists (os_names o). split; [apply elem_of_app; right; by left|]. by apply lookup_insert_ne.
Qed.

(** The states after the directory is synchronised. *)
Lemma synced_seen p ns :
  apart p -> ns ∈ (sync_dir (dir_of path) (names_new path o) <$> (log_tmp path o ++ [names_tmp path o])) ++ [names_new path o] ->
  (p = path -> ns !! p = Some (tmp_inode path o)) /\
  (p <> path -> exists ns0, ns0 ∈ os_names_log o ++ [os_names o] /\ ns !! p = ns0 !! p).
Proof.
  intros Ha Hns. assert (Hl : ns !! p = names_new path o !! p \/
    p <> path /\ exists ns1, ns1 ∈ log_tmp path o ++ [names_tmp path o] /\ ns !! p = ns1 !! p).
  { apply elem_of_app in Hns as [(ns1 & -> & Hin)%list_elem_of_fmap| ->%list_elem_of_singleton]; [|by left].
    rewrite lookup_sync_dir. case_decide as Hd; [by left|]. right. split; [congruence|by exists ns1]. }
  split.
  - intros ->. destruct Hl as [->|[Hn _]]; [apply lookup_insert_eq|done].
  - intros Hne. destruct Hl as [->|(_ & ns1 & Hin & ->)]; [|by apply dir_seen].
    unfold names_new. fold tmp. rewrite lookup_insert_ne by done. rewrite lookup_delete_ne by (apply not_eq_sym, Ha).
    apply dir_seen; [done|]. apply elem_of_app. right. by left.
Qed.

Lemma reached_crash k o' p d :
  apart p -> reached host enumerate path image o k o' -> crash_disk o' d ->
  (p = path -> k <> Synced) /\ crash_file o p (d !! p) \/
  p = path /\ (k = Renamed \/ k = Synced) /\ d !! p = Some data.
Proof.
  intros Ha Hk (ns & Hns & Hd). specialize (Hd p). pose proof Ha as [Hne _].
  assert (Hold : forall ns f, ns ∈ log_tmp path o ++ [names_tmp path o] ->
    match ns !! p with
    | Some i => exists g c, <[tmp_inode path o := f]> (os_inodes o) !! i = Some g /\ crash_content g c /\ d !! p = Some c
    | None => d !! p = None
    end -> crash_file o p (d !! p)).
  { intros ns1 f Hin Hl. destruct (dir_seen p ns1 Ha Hin) as (ns0 & Hin0 & E). rewrite E in Hl.
    exists ns0. split; [done|]. destruct (ns0 !! p) as [i|] eqn:Ei; [|done].
    by rewrite (apart_inode p ns0 i f Ha Hin0 Ei) in Hl. }
  assert (Hnew : match names_new path o !! p with
    | Some i => exists g c, <[tmp_inode path o := File data []]> (os_inodes o) !! i = Some g /\ crash_content g c /\ d !! p = Some c
    | None => d !! p = None
    end -> p <> path /\ crash_file o p (d !! p) \/ p = path /\ d !! p = Some data).
  { unfold names_new. fold tmp. destruct (decide (p = path)) as [->|Hpp].
    - rewrite lookup_insert_eq. intros (g & c & Hg & Hc & ->). right. split; [done|].
      rewrite lookup_insert_eq in Hg. injection Hg as <-. by apply (crash_content_sync (File data [])) in Hc as ->.
    - rewrite lookup_insert_ne, lookup_delete_ne by done. intros Hl. left. split; [done|].
      apply (Hold (names_tmp path o) (File data [])); [apply elem_of_app; right; by left|done]. }
  destruct k; cbn [reached] in Hk.
  - destruct Hk as (Hi & Hn & Hlog). rewrite Hi, Hn, Hlog in *. left. split; [done|]. exists ns. split; [done|].
    by destruct (ns !! p).
  - destruct Hk as (f & Hi & Hn & Hlog). rewrite Hi, Hn, Hlog in *. left. split; [done|]. by eapply Hold.
  - destruct Hk as (Hi & Hn & Hlog). rewrite Hi, Hn, Hlog in *.
    apply elem_of_app in Hns as [Hns| ->%list_elem_of_singleton]; [left; split; [done|by eapply Hold]|].
    destruct (Hnew Hd) as [[? ?]|[? ?]]; [left|right]; split_and!; auto.
  - destruct Hk as (Hi & Hn & Hlog). rewrite Hi, Hn, Hlog in *. destruct (synced_seen p ns Ha Hns) as [H1 H2].
    destruct (decide (p = path)) as [->|Hpp]; [right|left].
    + rewrite (H1 eq_refl) in Hd. destruct Hd as (g & c & Hg & Hc & ->). rewrite lookup_insert_eq in Hg. injection Hg as <-.
      apply (crash_content_sync (File data [])) in Hc as ->. by auto.
    + split; [done|]. destruct (H2 Hpp) as (ns0 & Hin0 & E). rewrite E in Hd. exists ns0. split; [done|].
      destruct (ns0 !! p) as [i|] eqn:Ei; [|done]. by rewrite (apart_inode p ns0 i _ Ha Hin0 Ei) in Hd.
Qed.
End crash.
