(* ===== verification/SnapshotSpec.v ===== *)
(** * SnapshotSpec: the properties of snapshots

    The file format is read back as written and nothing else is accepted; the
    file is replaced atomically under every outcome of the system calls and
    every power cut. *)

From stdpp Require Import gmap fin_maps.
From S2P Require Import Prelude Endian CRC32 Exec Posix PosixFacts WAL WALTheory Snapshot SnapshotFacts SaveFacts.

(** ** Iteration over the map *)

(** What the standard promises of iterating over an [std::unordered_map]: every
    entry, once, in some order. *)
Class Enumeration (enumerate : SnapshotState -> list (bytes * list SnapshotRecord)) :=
  enumerate_perm m : enumerate m ≡ₚ map_to_list m.

#[export] Instance map_to_list_enumeration : Enumeration map_to_list.
Proof. intros m. reflexivity. Qed.

(** The image fits the format: lengths and counts are below 2^32. *)
Definition image_ok (image : SnapshotImage) : Prop :=
  is_u64 (si_epoch image) /\ Z.of_nat (size (si_state image)) < 2 ^ 32 /\
  forall key rs, si_state image !! key = Some rs ->
    zlen key < 2 ^ 32 /\ zlen rs < 2 ^ 32 /\ Forall record_ok rs.

Section enumeration.
Context (enumerate : SnapshotState -> list (bytes * list SnapshotRecord)) `{!Enumeration enumerate}.

Lemma push_records_insert key rs rs0 m :
  push_records key rs (<[key := rs0]> m) = <[key := rs0 ++ rs]> m.
Proof.
  assert (H1 : forall r rs0, Snapshot.push_record key r (<[key := rs0]> m) = <[key := rs0 ++ [r]]> m).
  { intros r rs1. unfold Snapshot.push_record. by rewrite lookup_insert_eq, insert_insert_eq. }
  unfold push_records. revert rs0. induction rs as [|r rs IH]; intros rs0; cbn [fold_left]; [by rewrite app_nil_r|].
  by rewrite H1, IH, <- app_assoc.
Qed.

Lemma add_key_insert m kr : m !! kr.1 = None -> add_key m kr = <[kr.1 := kr.2]> m.
Proof.
  intros Hn. unfold add_key, Snapshot.touch_key. rewrite Hn. cbn [default from_option id].
  by rewrite push_records_insert.
Qed.

Lemma state_of_app l m :
  NoDup l.*1 -> (forall k, k ∈ l.*1 -> m !! k = None) -> fold_left add_key l m = list_to_map l ∪ m.
Proof.
  revert m. induction l as [|kr l IH]; intros m Hnd Hm; cbn [fold_left fmap list_fmap] in *.
  - cbn. by rewrite (left_id_L ∅ (∪)).
  - apply NoDup_cons in Hnd as [Hni Hnd]. rewrite add_key_insert by (apply Hm; by left).
    rewrite IH; [|done|].
    + destruct kr as [k v]; cbn [fst snd list_to_map foldr uncurry]. cbn.
      rewrite <- insert_union_l, insert_union_r; [done|]. by apply not_elem_of_list_to_map_1.
    + intros k Hk. rewrite lookup_insert_ne; [apply Hm; by right|]. intros <-. done.
Qed.

Lemma state_of_enumerate m : state_of (enumerate m) = m.
Proof.
  pose proof (enumerate_perm m) as Hp. unfold state_of.
  rewrite state_of_app; [|rewrite Hp; apply NoDup_fst_map_to_list|by intros; apply lookup_empty].
  rewrite (right_id_L ∅ (∪)). rewrite <- (list_to_map_to_list m) at 2. apply list_to_map_proper; [|done].
  rewrite Hp. apply NoDup_fst_map_to_list.
Qed.

Lemma enumerate_ok image :
  image_ok image -> keys_ok (enumerate (si_state image)) /\
    size (si_state image) = length (enumerate (si_state image)).
Proof.
  intros (_ & Hn & Hk). pose proof (enumerate_perm (si_state image)) as Hp.
  assert (Hs : size (si_state image) = length (enumerate (si_state image)))
    by (rewrite Hp; by rewrite length_map_to_list).
  split; [|done]. split; [unfold is_u32; lia|]. rewrite Hp. apply Forall_forall. intros [k rs] Hin%elem_of_map_to_list.
  destruct (Hk k rs Hin) as (H1 & H2 & H3). split_and!; cbn [fst snd]; unfold is_u32; [lia..|done].
Qed.
End enumeration.

(** ** The images of different snapshots differ *)

Lemma le_bytes_i64_inj x y : is_i64 x -> is_i64 y -> le_bytes 8 x = le_bytes 8 y -> x = y.
Proof.
  intros Hx Hy E. rewrite <- (le_bytes_u64 x), <- (le_bytes_u64 y) in E.
  apply le_bytes_inj in E; [|apply u64_range..]. by rewrite <- (i64_u64 x), <- (i64_u64 y), E.
Qed.

Lemma rec_image_inj r r' t t' :
  record_ok r -> record_ok r' -> rec_image r ++ t = rec_image r' ++ t' -> r = r' /\ t = t'.
Proof.
  intros [Ht Hd Hv] [Ht' Hd' Hv']. unfold rec_image. rewrite <- !app_assoc.
  intros [E1 E]%app_inj_1; [|by rewrite !length_le_bytes].
  apply app_inj_1 in E as [E2 E]; [|by rewrite !length_le_bytes].
  apply app_inj_1 in E as [E3 E]; [|by rewrite !length_le_bytes].
  apply le_bytes_i64_inj in E1; [|done..]. apply le_bytes_inj, ieee_bits_inj in E2; [|by (done || apply ieee_bits_range)..].
  apply le_bytes_inj in E3; [|done..]. apply app_inj_1 in E as [E4 E]; [|lia]. destruct r, r'; cbn in *. by subst.
Qed.

Lemma records_inj rs rs' t t' :
  Forall record_ok rs -> Forall record_ok rs' -> length rs = length rs' ->
  concat (rec_image <$> rs) ++ t = concat (rec_image <$> rs') ++ t' -> rs = rs' /\ t = t'.
Proof.
  intros Hok. revert rs'. induction Hok as [|r rs Hr _ IH]; intros [|r' rs'] Hok' Hl; try done.
  apply Forall_cons in Hok' as [Hr' Hok']. cbn [fmap list_fmap concat]. rewrite <- !app_assoc.
  intros [-> E]%rec_image_inj; [|done..]. injection Hl as Hl. by destruct (IH _ Hok' Hl E) as [-> ->].
Qed.

Lemma key_image_inj kr kr' t t' :
  key_ok kr -> key_ok kr' -> key_image kr ++ t = key_image kr' ++ t' -> kr = kr' /\ t = t'.
Proof.
  intros (H1 & H2 & H3) (H1' & H2' & H3'). unfold key_image. rewrite <- !app_assoc.
  intros [E1 E]%app_inj_1; [|by rewrite !length_le_bytes]. apply le_bytes_inj in E1; [|done..].
  apply app_inj_1 in E as [E2 E]; [|lia].
  apply app_inj_1 in E as [E3 E]; [|by rewrite !length_le_bytes]. apply le_bytes_inj in E3; [|done..].
  apply records_inj in E as [E4 E]; [|done..|lia]. destruct kr, kr'; cbn in *. by subst.
Qed.

Lemma keys_inj l l' t t' :
  Forall key_ok l -> Forall key_ok l' -> length l = length l' ->
  concat (key_image <$> l) ++ t = concat (key_image <$> l') ++ t' -> l = l' /\ t = t'.
Proof.
  intros Hok. revert l'. induction Hok as [|kr l Hr _ IH]; intros [|kr' l'] Hok' Hl; try done.
  apply Forall_cons in Hok' as [Hr' Hok']. cbn [fmap list_fmap concat]. rewrite <- !app_assoc.
  intros [-> E]%key_image_inj; [|done..]. injection Hl as Hl. by destruct (IH _ Hok' Hl E) as [-> ->].
Qed.

Lemma payload_image_inj e l t e' l' t' :
  is_u64 e -> is_u64 e' -> keys_ok l -> keys_ok l' ->
  payload_image e l ++ t = payload_image e' l' ++ t' -> e = e' /\ l = l' /\ t = t'.
Proof.
  intros He He' Hl Hl' E. unfold payload_image in E at 1. rewrite <- !app_assoc in E.
  apply payload_image_inv in E as (-> & Ec & E); [|done|apply Hl|done|done]. destruct Hl, Hl'.
  apply keys_inj in E as [-> ->]; [done|done|done|lia].
Qed.

Lemma snap_file_inj p p' : snap_file p = snap_file p' -> p = p'.
Proof.
  unfold snap_file. do 2 (intros [_ E]%app_inj_1; [revert E|by rewrite !length_le_bytes]).
  intros [_ E]%app_inj_1; [done|by rewrite !length_le_bytes].
Qed.

(** A file that holds an image is read as that image. *)
Lemma load_image h e l t image0 :
  is_u64 e -> keys_ok l ->
  Snapshot.load_bytes h (snap_file (payload_image e l ++ t)) image0 = (true, MkSnapshotImage e (state_of l)).
Proof.
  intros He Hl. pose proof (load_bytes_spec h (snap_file (payload_image e l ++ t)) image0) as H.
  destruct (Snapshot.load_bytes _ _ _) as [[] image'].
  - destruct H as (e' & l' & t' & He' & Hl' & E & ->). apply snap_file_inj in E.
    by apply payload_image_inj in E as (-> & -> & _).
  - by destruct (H e l t He Hl).
Qed.

Lemma load_saved (h h' : host_order) (enumerate : SnapshotState -> list (bytes * list SnapshotRecord)) `{!Enumeration enumerate} image image0 :
  image_ok image -> Snapshot.load_bytes h' (Snapshot.file_bytes h enumerate image) image0 = (true, image).
Proof.
  intros Hok. destruct (enumerate_ok enumerate image Hok) as [Hk Hs].
  rewrite file_bytes_image, payload_of_image, <- (app_nil_r (payload_image _ _)) by done.
  rewrite load_image by (done || apply Hok). rewrite state_of_enumerate by done. by destruct image.
Qed.

(** ** Properties of the format *)

(** C16: Snapshots are read back as written.  Whatever order the map is
    enumerated in, and whatever the byte orders of the machine that writes and
    the machine that reads, [load] on the bytes of [save] returns the image. *)
Theorem snapshot_roundtrip (host host' : host_order) (enumerate : SnapshotState -> list (bytes * list SnapshotRecord))
  `{!Enumeration enumerate} image image0 :
  image_ok image ->
  Snapshot.load_bytes host' (Snapshot.file_bytes host enumerate image) image0 = (true, image).
Proof.
  exact (load_saved host host' enumerate image image0).
Qed.

Module SnapDemo.
Definition image : SnapshotImage :=
  MkSnapshotImage 7 {[ [x61] := [MkSnapshotRecord [x31; x32] (Double false 1023 0) 1000;
    MkSnapshotRecord [] (Double true 0 0) (-5)]; [x62] := [MkSnapshotRecord [x33] (Double false 0 1) 0] ]}.

Lemma image_fits : image_ok image.
Proof.
  split_and!; [done|vm_compute; done|]. intros key rs. cbn [image si_state].
  intros [[<- <-]|[_ [<- <-]%lookup_singleton_Some]]%lookup_insert_Some; split_and!; try (vm_compute; done).
  all: repeat constructor; cbn; unfold is_i64, is_u64, is_u32; lia.
Qed.
End SnapDemo.

Lemma snapshot_roundtrip_witness :
  Snapshot.load_bytes BigEndianHost (Snapshot.file_bytes LittleEndianHost map_to_list SnapDemo.image)
    (MkSnapshotImage 0 ∅) = (true, SnapDemo.image).
Proof. apply snapshot_roundtrip; [apply _|apply SnapDemo.image_fits]. Defined.

(** C15: [load] accepts a file exactly when it is the header, with the right
    checksum, before a payload that starts with the encoding of an epoch and a
    list of entries; the image is then that epoch and the map of the entries,
    where the records of a repeated key are joined.  Every other file, of any
    length, is refused. *)
Theorem load_accepts_exactly host c image0 image :
  Snapshot.load_bytes host c image0 = (true, image) <->
  exists epoch l tail, is_u64 epoch /\ keys_ok l /\
    c = snap_file (payload_image epoch l ++ tail) /\ image = MkSnapshotImage epoch (state_of l).
Proof.
  split.
  - intros E. pose proof (load_bytes_spec host c image0) as H. by rewrite E in H.
  - intros (epoch & l & tail & He & Hl & -> & ->). by apply load_image.
Qed.

Lemma drop_flip_lt {A} (l : list A) n j b : (j < n)%nat -> drop n (<[j := b]> l) = drop n l.
Proof. intros H. by apply drop_insert_lt. Qed.

(** C17: A changed byte is detected.  Of a file that [load] accepts, every copy
    with one byte changed, header and checksum included, is refused. *)
Theorem load_detects_byte host host' c image0 image1 j b b' :
  fst (Snapshot.load_bytes host c image0) = true -> c !! j = Some b -> b' <> b ->
  fst (Snapshot.load_bytes host' (<[j := b']> c) image1) = false.
Proof.
  intros Hok Hj Hb. pose proof (load_bytes_spec host c image0) as H1.
  pose proof (load_bytes_spec host' (<[j := b']> c) image1) as H2.
  destruct (Snapshot.load_bytes host c image0) as [ok1 i1]. cbn [fst] in Hok. subst ok1.
  destruct (Snapshot.load_bytes host' _ _) as [[] i2]; [|done]. exfalso.
  destruct H1 as (e1 & l1 & t1 & _ & _ & E1 & _). destruct H2 as (e2 & l2 & t2 & _ & _ & E2 & _).
  set (p1 := payload_image e1 l1 ++ t1) in *. set (p2 := payload_image e2 l2 ++ t2) in *.
  assert (Hd : forall p, drop 12 (snap_file p) = p).
  { intros p. unfold snap_file. change 12%nat with (4 + (4 + 4))%nat.
    by rewrite <- !drop_drop, !drop_app_length' by (by rewrite length_le_bytes). }
  assert (Hlook : <[j := b']> c !! j = Some b') by (apply list_lookup_insert_eq; by eapply lookup_lt_Some).
  destruct (decide (j < 12)%nat) as [Hlt|Hge].
  - assert (p2 = p1) as Ep.
    { rewrite <- (Hd p2), <- E2, drop_flip_lt, E1 by done. apply Hd. }
    rewrite E2, Ep, <- E1, Hj in Hlook. congruence.
  - assert (Hc : CRC32.calculate p1 = CRC32.calculate p2).
    { assert (Ht : take 12 (snap_file p1) = take 12 (snap_file p2))
        by (rewrite <- E1, <- E2; symmetry; apply take_insert_ge; lia).
      unfold snap_file in Ht. rewrite !take_app, !length_le_bytes in Ht. cbn [Nat.sub] in Ht.
      rewrite !take_0, !app_nil_r, !(take_ge (le_bytes _ _)) in Ht by (rewrite length_le_bytes; lia).
      do 2 (apply app_inj_1 in Ht as [_ Ht]; [|by rewrite !length_le_bytes]).
      apply le_bytes_inj in Ht; [done|apply CRC32.calculate_range..]. }
    assert (Ep : p2 = <[(j - 12)%nat := b']> p1).
    { rewrite <- (Hd p2), <- E2, E1, drop_insert_ge by lia. by rewrite Hd. }
    assert (Hj' : p1 !! (j - 12)%nat = Some b).
    { rewrite <- (Hd p1), <- E1, lookup_drop. replace (12 + (j - 12))%nat with j by lia. done. }
    rewrite Ep in Hc. pose proof (lookup_lt_Some _ _ _ Hj') as Hl.
    rewrite insert_take_drop in Hc by done. rewrite <- (take_drop_middle p1 (j - 12)%nat b Hj') in Hc at 1.
    revert Hc. apply CRC32.calculate_one_byte. congruence.
Qed.

(** A bit of the stored checksum. *)
Lemma load_detects_byte_witness :
  fst (Snapshot.load_bytes LittleEndianHost
    (<[8%nat := x00]> (Snapshot.file_bytes LittleEndianHost map_to_list SnapDemo.image)) SnapDemo.image) = false.
Proof.
  apply (load_detects_byte LittleEndianHost LittleEndianHost _ (MkSnapshotImage 0 ∅) _ 8
    (nth 8 (Snapshot.file_bytes LittleEndianHost map_to_list SnapDemo.image) x00)).
  - vm_compute. reflexivity.
  - vm_compute. reflexivity.
  - vm_compute. discriminate.
Defined.

(** ** Properties of saving *)

(** C10: [save] replaces the snapshot atomically.  For all outcomes of its
    system calls and a power cut at any point, during the call or after it, the
    path holds afterwards the complete new file or something it could have held
    before the call, and any other file is as before.  [save] never throws; when
    it returns [true] every later power cut finds the new file, when it returns
    it has closed its descriptors, and nine calls that succeed are enough. *)
Theorem save_is_atomic (host : host_order) (enumerate : SnapshotState -> list (bytes * list SnapshotRecord)) path image o :
  (forall i, os_names o !! Snapshot.tmp_path path = Some i -> is_Some (os_inodes o !! i)) ->
  apart path o path ->
  let '(r, o') := Snapshot.save host enumerate path image o in
  let new := Snapshot.file_bytes host enumerate image in
  (forall d, crash_disk o' d -> d !! path = Some new \/ crash_file o path (d !! path)) /\
  (forall p d, p <> path -> apart path o p -> crash_disk o' d -> crash_file o p (d !! p)) /\
  match r with
  | Ret true => os_fds o' = os_fds o /\ (forall d, crash_disk o' d -> d !! path = Some new)
  | Ret false => os_fds o' = os_fds o
  | Throw _ => False
  | Halt => True
  end /\
  (Forall (eq Done) (os_script o) -> (8 < length (os_script o))%nat -> r = Ret true).
Proof.
  intros Hi Ha. pose proof (save_spec host enumerate path image o Hi) as H. unfold wp in H.
  destruct (Snapshot.save host enumerate path image o) as [r o']. cbn [fst snd] in H.
  destruct H as (k & Hk & [_ Hu] & Hr). cbv zeta. split_and!.
  - intros d Hd. destruct (reached_crash _ _ _ _ _ _ _ _ _ Ha Hk Hd) as [[_ ?]|(_ & _ & ?)]; [by right|by left].
  - intros p d Hp Ha' Hd. by destruct (reached_crash _ _ _ _ _ _ _ _ _ Ha' Hk Hd) as [[_ ?]|(? & _ & ?)].
  - destruct r as [[]|x|]; [|by destruct Hr as (_ & ? & _)|done|done]. destruct Hr as [-> Hf]. split; [done|].
    intros d Hd. destruct (reached_crash _ _ _ _ _ _ _ _ _ Ha Hk Hd) as [[Hn _]|(_ & _ & ?)]; [by destruct Hn|done].
  - intros Hd Hl. specialize (Hu Hd). destruct r as [[]|x|]; [done| |done|].
    + by destruct Hr as (_ & _ & ?).
    + rewrite Hr in Hu. cbn in Hu. lia.
Qed.

Module SaveDemo.
Definition path : string := "store.snap".

(** A directory with one durable snapshot. *)
Definition system (sc : list outcome) : os :=
  Os {[ 0%nat := File (Snapshot.file_bytes LittleEndianHost map_to_list (MkSnapshotImage 3 ∅)) [] ]}
    {[ path := 0%nat ]} [] ∅ sc.

Lemma tmp_new sc i : os_names (system sc) !! Snapshot.tmp_path path = Some i -> is_Some (os_inodes (system sc) !! i).
Proof. assert (E : os_names (system sc) !! Snapshot.tmp_path path = None) by reflexivity. by rewrite E. Qed.

Lemma path_apart sc : apart path (system sc) path.
Proof.
  split; [by apply not_eq_sym, tmp_path_ne|]. intros ns i ->%list_elem_of_singleton Hl.
  change (({[ path := 0%nat ]} : gmap string nat) !! path = Some i) in Hl. apply lookup_singleton_Some in Hl as [_ <-].
  split; [by eexists|discriminate].
Qed.

Definition save (sc : list outcome) : result bool * os :=
  Snapshot.save LittleEndianHost map_to_list path SnapDemo.image (system sc).
End SaveDemo.

(** A short write, a signal, and power lost at the rename. *)
Lemma save_is_atomic_witness :
  let o' := snd (SaveDemo.save [Done; Short 9; Intr; Done; Done; Done]) in
  (forall d, crash_disk o' d ->
     d !! SaveDemo.path = Some (Snapshot.file_bytes LittleEndianHost map_to_list SnapDemo.image) \/
     crash_file (SaveDemo.system []) SaveDemo.path (d !! SaveDemo.path)) /\
  fst (SaveDemo.save (replicate 9 Done)) = Ret true.
Proof.
  cbv zeta.
  pose proof (save_is_atomic LittleEndianHost map_to_list SaveDemo.path SnapDemo.image
    (SaveDemo.system [Done; Short 9; Intr; Done; Done; Done]) (SaveDemo.tmp_new _) (SaveDemo.path_apart _)) as H.
  pose proof (save_is_atomic LittleEndianHost map_to_list SaveDemo.path SnapDemo.image
    (SaveDemo.system (replicate 9 Done)) (SaveDemo.tmp_new _) (SaveDemo.path_apart _)) as H'.
  unfold SaveDemo.save. split.
  - destruct (Snapshot.save _ _ _ _ _) as [r o']. apply H.
  - destruct (Snapshot.save _ _ _ _ (SaveDemo.system (replicate 9 Done))) as [r o']. destruct H' as (_ & _ & _ & Hd).
    apply Hd; [by apply Forall_replicate|by apply Nat.ltb_lt].
Defined.

(** The directory that [save] synchronises, for paths of several forms. *)
Example parent_paths :
  Snapshot.parent_path "store.snap" = ""%string /\ Snapshot.parent_path "data/store.snap" = "data"%string /\
  Snapshot.parent_path "/var//lib/store.snap" = "/var//lib"%string /\ Snapshot.parent_path "/store.snap" = "/"%string /\
  dir_named "." = dir_of "store.snap" /\ dir_named "." <> dir_of "data/store.snap".
Proof. split_and!; [reflexivity..|discriminate]. Qed.

(** C19: A saved snapshot is the one that is loaded.  When [save] returns
    [true], [load] on the same system returns the image if its three calls
    succeed (the file is opened, its header read, and the rest), and so does
    [load] after any power cut and reboot. *)
Theorem save_then_load (host host' : host_order) (enumerate : SnapshotState -> list (bytes * list SnapshotRecord))
  `{!Enumeration enumerate} path image image0 o o' :
  (forall i, os_names o !! Snapshot.tmp_path path = Some i -> is_Some (os_inodes o !! i)) ->
  apart path o path -> image_ok image ->
  Snapshot.save host enumerate path image o = (Ret true, o') ->
  let loads o1 := forall sc, os_script o1 = Done :: Done :: Done :: sc ->
    fst (Snapshot.load host' path image0 o1) = Ret (true, image) in
  loads o' /\ forall d o1, crash_disk o' d -> booted d o1 -> loads o1.
Proof.
  intros Hi Ha Hok E. cbv zeta. pose proof (save_spec host enumerate path image o Hi) as H. unfold wp in H.
  rewrite E in H. cbn [fst snd] in H. destruct H as (k & Hk & _ & -> & _).
  set (new := Snapshot.file_bytes host enumerate image).
  assert (Hgo : forall o1 i f, os_names o1 !! path = Some i -> os_inodes o1 !! i = Some f -> f_data f = new ->
    forall sc, os_script o1 = Done :: Done :: Done :: sc ->
    fst (Snapshot.load host' path image0 o1) = Ret (true, image)).
  { intros o1 i f Hn Hin Hf sc Hsc. apply load_read; [by eexists|]. exists new.
    split; [unfold read_file; by rewrite Hn; cbn; rewrite Hin; cbn; rewrite Hf|].
    exact (load_saved host host' enumerate image image0 Hok). }
  split.
  - destruct Hk as (Hino & Hn & _). eapply (Hgo o'); [rewrite Hn; apply lookup_insert_eq|rewrite Hino; apply lookup_insert_eq|done].
  - intros d o1 Hd (_ & _ & Hb). specialize (Hb path).
    destruct (reached_crash _ _ _ _ _ _ _ _ _ Ha Hk Hd) as [[Hn _]|(_ & _ & Hdp)]; [by destruct Hn|].
    destruct (os_names o1 !! path) as [i|] eqn:Ei; [|congruence]. destruct Hb as (c & Hc & Hdc).
    eapply (Hgo o1); [exact Ei|exact Hc|]. change (c = new). unfold new. congruence.
Qed.

Lemma save_then_load_witness :
  exists o', SaveDemo.save (replicate 12 Done) = (Ret true, o') /\
    fst (Snapshot.load BigEndianHost SaveDemo.path (MkSnapshotImage 0 ∅) o') = Ret (true, SnapDemo.image).
Proof.
  assert (E : fst (SaveDemo.save (replicate 12 Done)) = Ret true) by (vm_compute; reflexivity).
  assert (Es : os_script (snd (SaveDemo.save (replicate 12 Done))) = [Done; Done; Done; Done]) by (vm_compute; reflexivity).
  pose proof (save_then_load LittleEndianHost BigEndianHost map_to_list SaveDemo.path SnapDemo.image (MkSnapshotImage 0 ∅)
    (SaveDemo.system (replicate 12 Done))) as H. unfold SaveDemo.save in *.
  destruct (Snapshot.save _ _ _ _ _) as [r o']. cbn [fst snd] in E, Es. subst r.
  destruct (H o' (SaveDemo.tmp_new _) (SaveDemo.path_apart _) SnapDemo.image_fits eq_refl) as [Hl _].
  exists o'. split; [reflexivity|]. exact (Hl [Done] Es).
Defined.

(** A failed [save] can replace the snapshot.  When only the last step
    fails, the [fsync] of the directory, [save] answers [false] although the
    path already refers to the new file. *)
Theorem failed_save_may_replace :
  exists o', SaveDemo.save [Done; Done; Done; Done; Done; Done; Err; Done; Done; Done; Done] = (Ret false, o') /\
    fst (Snapshot.load LittleEndianHost SaveDemo.path (MkSnapshotImage 0 ∅) o') = Ret (true, SnapDemo.image) /\
    fst (Snapshot.load LittleEndianHost SaveDemo.path (MkSnapshotImage 0 ∅) (SaveDemo.system [Done; Done; Done])) =
      Ret (true, MkSnapshotImage 3 ∅).
Proof. eexists. split; [vm_compute; reflexivity|]. split; vm_compute; reflexivity. Qed.
