(* ===== verification/Engine.v ===== *)
(** * Engine: the storage engine of src/src/StorageEngine.cpp

    Definitions only: the map of histories, the operations of [StorageEngine],
    its recovery from the snapshot and the log.  A public method holds
    [m_mutex] from its first access to a member to its end, so it is one step.
    The clock ([std::chrono::system_clock::now()]) is the argument [now] of the
    methods that read it. *)

From Stdlib Require Import Ascii SpecFloat.
From stdpp Require Import gmap pretty.
From S2P Require Import Prelude Endian Exec Posix LogFormat WAL Snapshot.

(** [struct Record]. *)
Record HistoryRecord := MkRecord { value : bytes; duration : double; timestamp : Z }.

#[export] Instance HistoryRecord_eq_dec : EqDecision HistoryRecord.
Proof. solve_decision. Defined.

Abbreviation data := (bytes_map (list HistoryRecord)).

Module StorageEngine.

(** ** Helpers *)

Definition kUnlimitedHistory : Z := 0.
Definition kMaxFieldSize : Z := WAL.kMaxFieldSize - 8.

Definition serialize (host : host_order) (duration : double) (value : bytes) : bytes :=
  object_of_double host duration ++ value.

Definition deserialize (host : host_order) (blob : bytes) : double * bytes :=
  if zlen blob <? 8 then (Double false 0 0, []) else (double_of_object host (take 8 blob), drop 8 blob).

(** [s] as what precedes and what follows the last occurrence of [c]. *)
Fixpoint split_last (c : Ascii.ascii) (s : string) : option (string * string) :=
  match s with
  | EmptyString => None
  | String a s' =>
      match split_last c s' with
      | Some (p, q) => Some (String a p, q)
      | None => if bool_decide (a = c) then Some (EmptyString, s') else None
      end
  end.

(** [std::filesystem::path], as the source uses it: [filename], [extension] and
    [replace_extension] with an extension that starts with a dot. *)
Definition filename (path : string) : string :=
  match split_last "/"%char path with Some (_, f) => f | None => path end.

Definition extension (path : string) : string :=
  let f := filename path in
  if bool_decide (f = ".."%string) then EmptyString else
  match split_last "."%char f with
  | None | Some (EmptyString, _) => EmptyString
  | Some (_, e) => "." +:+ e
  end.

Definition replace_extension (path ext : string) : string :=
  String.substring 0 (String.length path - String.length (extension path)) path +:+ ext.

Definition makeSnapshotPath (walPath : string) : string :=
  if bool_decide (extension walPath = ".wal"%string) then replace_extension walPath ".snap"
  else walPath +:+ ".snap".

Definition export_record (r : HistoryRecord) : SnapshotRecord :=
  MkSnapshotRecord (value r) (duration r) (timestamp r).

Definition exportSnapshotState (d : data) : SnapshotState :=
  fmap (M := bytes_map) (fmap export_record) d.

(** [appendCapped] on the map. *)
Definition appendCapped (m_maxHistoryPerKey : Z) (key value : bytes) (duration : double) (timestamp : Z)
  (m_data : data) : data :=
  let history := default [] (m_data !! key) in
  let history :=
    if negb (m_maxHistoryPerKey =? kUnlimitedHistory) && (m_maxHistoryPerKey <=? zlen history)
    then drop 1 history else history in
  <[key := history ++ [MkRecord value duration timestamp]]> m_data.

(** ** The object *)

(** The members; [m_wal] is [None] for a null pointer. *)
Record engine := Engine {
  m_data : data;
  m_wal : option WAL.wal;
  m_walPath : string;
  m_snapshotPath : string;
  m_snapshotEpoch : option Z;
  m_maxHistoryPerKey : Z
}.

Definition set_data (d : data) (e : engine) : engine :=
  Engine d (m_wal e) (m_walPath e) (m_snapshotPath e) (m_snapshotEpoch e) (m_maxHistoryPerKey e).
Definition set_wal (w : option WAL.wal) (e : engine) : engine :=
  Engine (m_data e) w (m_walPath e) (m_snapshotPath e) (m_snapshotEpoch e) (m_maxHistoryPerKey e).
Definition set_snapshotEpoch (n : option Z) (e : engine) : engine :=
  Engine (m_data e) (m_wal e) (m_walPath e) (m_snapshotPath e) n (m_maxHistoryPerKey e).

(** A method runs on the object and the system. *)
Record st := St { s_engine : engine; s_os : os }.

Definition this : M st engine := s <- get ;; ret (s_engine s).
Definition sys {A} (m : M os A) : M st A := zoom s_os (fun o s => St (s_engine s) o) m.
Definition update (f : engine -> engine) : M st unit := modify (fun s => St (f (s_engine s)) (s_os s)).

(** A call of a method through the pointer [m_wal]. *)
Definition wal {A} (m : M WAL.st A) : M st A := fun s =>
  match m_wal (s_engine s) with
  | None => (Throw (undefined_behaviour "call through a null m_wal"), s)
  | Some w =>
      let '(r, s') := m (WAL.St w (s_os s)) in
      (r, St (set_wal (Some (WAL.s_wal s')) (s_engine s)) (WAL.s_os s'))
  end.

Section engine.
Context (host : host_order).
Variable enumerate : SnapshotState -> list (bytes * list SnapshotRecord).

(** ** Recovery *)

(** The visitor of [recover]; it mutates [m_data]. *)
Definition replay_entry (m_maxHistoryPerKey : Z) : visitor_of data :=
  fun type key blob timestamp m_data =>
    if bool_decide (type = PUT) then
      let '(duration, value) := deserialize host blob in
      appendCapped m_maxHistoryPerKey key value duration timestamp m_data
    else if bool_decide (type = DELETE) then delete key m_data
    else m_data.

(** The two loops over the state of a snapshot. *)
Definition replay_snapshot (m_maxHistoryPerKey : Z) (state : SnapshotState) (m_data : data) : data :=
  fold_left (fun m_data '(key, history) =>
    fold_left (fun m_data r =>
      appendCapped m_maxHistoryPerKey key (sr_value r) (sr_duration r) (sr_timestamp r) m_data)
      history m_data)
    (enumerate state) m_data.

Definition recover : M st unit :=
  update (set_data ∅) ;;;
  update (set_snapshotEpoch None) ;;;
  e <- this ;;
  let* (ok, image) := sys (Snapshot.load host (m_snapshotPath e) (MkSnapshotImage 0 ∅)) in
  (if ok : bool then
     update (set_snapshotEpoch (Some (si_epoch image))) ;;;
     update (fun e => set_data (replay_snapshot (m_maxHistoryPerKey e) (si_state image) (m_data e)) e) ;;;
     wal (WAL.setEpoch (u64 (si_epoch image + 1)))
   else wal (WAL.setEpoch 0)) ;;;
  e <- this ;;
  let* (result, d) :=
    wal (WAL.recover (replay_entry (m_maxHistoryPerKey e)) (m_snapshotEpoch e) (m_data e)) in
  update (set_data d) ;;;
  let at_ := pretty (r_tamperOffset result) +:+ " (seq " +:+ pretty (r_tamperSeq result) in
  if bool_decide (r_status result = Tampered) then
    throw (runtime_error ("WAL tampering detected at offset " +:+ at_ +:+ ")"))
  else if bool_decide (r_status result = Malformed) then
    throw (runtime_error ("WAL field exceeds the size limit at offset " +:+ at_ +:+
      ") - foreign or stale file"))
  else ret tt.

(** ** Construction and destruction *)

(** The destructor: that of the log closes it. *)
Definition destroy : M st unit := fun s =>
  match m_wal (s_engine s) with None => (Ret tt, s) | Some _ => wal WAL.close s end.

(** The constructor.  If [recover] throws, the members are destroyed. *)
Definition construct (dbPath : string) (maxHistoryPerKey syncEveryN : Z) : M os engine := fun o =>
  match WAL.open dbPath syncEveryN o with
  | (Ret w, o) =>
      let e := Engine ∅ (Some w) dbPath (makeSnapshotPath dbPath) None maxHistoryPerKey in
      match recover (St e o) with
      | (Ret _, s) => (Ret (s_engine s), s_os s)
      | (Halt, s) => (Halt, s_os s)
      | (Throw x, s) =>
          match destroy s with
          | (Halt, s) => (Halt, s_os s)
          | (_, s) => (Throw x, s_os s)
          end
      end
  | (Throw x, o) => (Throw x, o)
  | (Halt, o) => (Halt, o)
  end.

Definition makeInMemory (maxHistoryPerKey : Z) : engine :=
  Engine ∅ None "" "" None maxHistoryPerKey.

(** ** Operations *)

Definition set (key value : bytes) (duration : double) (now : Z) : M st unit :=
  if WAL.kMaxFieldSize <? zlen key then throw (length_error "key exceeds 1048576 bytes") else
  if kMaxFieldSize <? zlen value then throw (length_error "value exceeds 1048568 bytes") else
  e <- this ;;
  (match m_wal e with
   | Some _ =>
       let blob := serialize host duration value in
       wal (WAL.append PUT key blob now)
   | None => ret tt
   end) ;;;
  update (fun e => set_data (appendCapped (m_maxHistoryPerKey e) key value duration now (m_data e)) e).

Definition get (key : bytes) : M st (option bytes) :=
  e <- this ;;
  match m_data e !! key with
  | Some history => ret (value <$> last history)
  | None => ret None
  end.

(** A [double] as a number: zeros and subnormals, infinities and NaNs, normal
    numbers. *)
Definition sf_of_double (d : double) : spec_float :=
  let '(Double sign exponent fraction) := d in
  if exponent =? 0x7FF then (if fraction =? 0 then S754_infinity sign else S754_nan)
  else if exponent =? 0 then
    match fraction with Zpos m => S754_finite sign m (-1074) | _ => S754_zero sign end
  else
    match fraction + 0x10000000000000 with
    | Zpos m => S754_finite sign m (exponent - 1075)
    | _ => S754_nan
    end.

(** [static_cast<double>] of a [size_t]. *)
Definition sf_of_size (n : nat) : spec_float := binary_normalize 53 1024 (Z.of_nat n) 0 false.

Definition getAverage (key : bytes) : M st (option spec_float) :=
  e <- this ;;
  match m_data e !! key with
  | Some [] | None => ret None
  | Some history =>
      let sum := fold_left (fun sum r => SFadd 53 1024 sum (sf_of_double (duration r)))
        history (S754_zero false) in
      ret (Some (SFdiv 53 1024 sum (sf_of_size (length history))))
  end.

Definition snapshot : M st unit :=
  e <- this ;;
  match m_wal e with
  | None => throw (runtime_error "snapshot() called on engine with no WAL")
  | Some _ =>
      epoch <- wal WAL.epoch ;;
      let image := MkSnapshotImage epoch (exportSnapshotState (m_data e)) in
      ok <- sys (Snapshot.save host enumerate (m_snapshotPath e) image) ;;
      if negb ok then throw (runtime_error ("Failed to write snapshot to disk: " +:+ m_snapshotPath e)) else
      update (set_snapshotEpoch (Some (si_epoch image))) ;;;
      wal (WAL.setEpoch (u64 (si_epoch image + 1))) ;;;
      ok <- wal WAL.reset ;;
      if negb ok then throw (runtime_error ("WAL rotation failed after snapshot: " +:+ m_walPath e))
      else ret tt
  end.

Definition remove (key : bytes) (now : Z) : M st bool :=
  e <- this ;;
  (match m_wal e with
   | Some _ => wal (WAL.append DELETE key [] now)
   | None => ret tt
   end) ;;;
  e <- this ;;
  update (set_data (delete key (m_data e))) ;;;
  ret (bool_decide (is_Some (m_data e !! key))).

Definition count : M st Z := e <- this ;; ret (Z.of_nat (size (m_data e))).

Definition historyCount (key : bytes) : M st Z :=
  e <- this ;;
  match m_data e !! key with
  | Some history => ret (zlen history)
  | None => ret 0
  end.
End engine.

End StorageEngine.
