(* ===== verification/EngineFacts.v ===== *)
(** * EngineFacts: the histories of the engine

    What one [appendCapped] does, and the loops of recovery in closed form: what
    a snapshot and a list of log entries make of an empty map. *)

From stdpp Require Import gmap fin_maps.
From S2P Require Import Prelude Endian Exec Posix LogFormat WAL WalkFacts WALTheory Snapshot SnapshotFacts SnapshotSpec Engine.

Import StorageEngine.

(** ** The cap *)

(** The last [cap] records; all of them when there is no cap. *)
Definition keep {A} (cap : Z) (h : list A) : list A :=
  if cap =? kUnlimitedHistory then h else drop (length h - Z.to_nat cap) h.

(** The history of a key, empty when there is none. *)
Definition history (d : data) (key : bytes) : list HistoryRecord := default [] (d !! key).

(** Every key has a history, and no history is over the cap. *)
Definition data_ok (cap : Z) (d : data) : Prop :=
  forall key h, d !! key = Some h -> h <> [] /\ keep cap h = h.

Lemma keep_short {A} cap (h : list A) : cap = kUnlimitedHistory \/ zlen h <= cap -> keep cap h = h.
Proof.
  intros H. unfold keep. destruct (Z.eqb_spec cap kUnlimitedHistory); [done|]. destruct H as [|H]; [done|].
  by replace (length h - Z.to_nat cap)%nat with O by lia.
Qed.

Lemma keep_le {A} cap (h : list A) : keep cap h = h -> cap = kUnlimitedHistory \/ zlen h <= Z.max 0 cap.
Proof.
  unfold keep. destruct (Z.eqb_spec cap kUnlimitedHistory); [by left|]. intros H. right.
  apply (f_equal length) in H. rewrite length_drop in H. lia.
Qed.

Lemma keep_idem {A} cap (h : list A) : keep cap (keep cap h) = keep cap h.
Proof.
  unfold keep. destruct (cap =? kUnlimitedHistory); [done|]. rewrite length_drop.
  replace (length h - (length h - Z.to_nat cap) - Z.to_nat cap)%nat with O by lia. done.
Qed.

Lemma keep_nil {A} cap : keep cap ([] : list A) = [].
Proof. unfold keep. by destruct (cap =? kUnlimitedHistory). Qed.

(** Keeping after each step is keeping at the end. *)
Lemma keep_app {A} cap (h1 h2 : list A) : 0 <= cap -> keep cap (keep cap h1 ++ h2) = keep cap (h1 ++ h2).
Proof.
  intros Hc. unfold keep. destruct (cap =? kUnlimitedHistory); [done|]. rewrite !length_app, length_drop.
  rewrite (drop_app h1), (drop_app (drop _ h1)), drop_drop, length_drop. f_equal; f_equal; lia.
Qed.

Lemma keep_nonnil {A} cap (h : list A) : 0 <= cap -> h <> [] -> keep cap h <> [].
Proof.
  intros Hc Hh. unfold keep, kUnlimitedHistory. destruct (Z.eqb_spec cap 0); [done|].
  intros E%(f_equal length). rewrite length_drop in E. destruct h; [done|]. cbn in E. lia.
Qed.

Lemma length_keep {A} cap (h : list A) :
  0 <= cap -> length (keep cap h) = if cap =? 0 then length h else Nat.min (length h) (Z.to_nat cap).
Proof.
  intros Hc. unfold keep, kUnlimitedHistory. destruct (Z.eqb_spec cap 0); [done|]. rewrite length_drop. lia.
Qed.

(** [appendCapped] on a history that respects the cap. *)
Lemma appendCapped_keep cap key value duration ts d :
  0 <= cap -> keep cap (history d key) = history d key ->
  appendCapped cap key value duration ts d =
    <[key := keep cap (history d key ++ [MkRecord value duration ts])]> d.
Proof.
  intros Hc Hk. unfold appendCapped. fold (history d key). f_equal. unfold keep.
  destruct (keep_le _ _ Hk) as [->|Hle]; [done|]. unfold kUnlimitedHistory.
  destruct (Z.eqb_spec cap 0) as [->|Hne]; [done|]. cbn [negb andb]. rewrite length_app. cbn [length].
  destruct (Z.leb_spec cap (zlen (history d key))).
  - rewrite drop_app_le by lia. f_equal. f_equal. lia.
  - replace (length (history d key) + 1 - Z.to_nat cap)%nat with O by lia. done.
Qed.

Lemma data_ok_history cap d key : data_ok cap d -> keep cap (history d key) = history d key.
Proof.
  intros H. unfold history. destruct (d !! key) as [h|] eqn:E; [by apply (H key)|]. apply keep_nil.
Qed.

Lemma data_ok_empty cap : data_ok cap ∅.
Proof. intros key h H. by rewrite lookup_empty in H. Qed.

Lemma data_ok_insert cap d key h : 0 <= cap -> data_ok cap d -> h <> [] -> data_ok cap (<[key := keep cap h]> d).
Proof.
  intros Hc Hd Hh key' h'. intros [[<- <-]|[_ H]]%lookup_insert_Some; [|by apply (Hd key')].
  split; [by apply keep_nonnil|apply keep_idem].
Qed.

Lemma data_ok_append cap key value duration ts d :
  0 <= cap -> data_ok cap d -> data_ok cap (appendCapped cap key value duration ts d).
Proof.
  intros Hc Hd. rewrite appendCapped_keep by (done || by apply data_ok_history).
  apply data_ok_insert; [done|done|]. by destruct (history d key).
Qed.

Lemma data_ok_delete cap key d : data_ok cap d -> data_ok cap (delete key d).
Proof. intros Hd key' h' [_ H]%lookup_delete_Some. by apply (Hd key'). Qed.

(** ** The snapshot *)

Definition import_record (r : SnapshotRecord) : HistoryRecord :=
  MkRecord (sr_value r) (sr_duration r) (sr_timestamp r).

Definition import_history (cap : Z) (h : list SnapshotRecord) : option (list HistoryRecord) :=
  match h with [] => None | _ => Some (keep cap (import_record <$> h)) end.

(** What the engine makes of the state of a snapshot. *)
Definition import (cap : Z) (state : SnapshotState) : data := omap (import_history cap) state.

Lemma replay_history cap key h d :
  0 <= cap -> keep cap (history d key) = history d key -> h <> [] ->
  fold_left (fun d r => appendCapped cap key (sr_value r) (sr_duration r) (sr_timestamp r) d) h d =
    <[key := keep cap (history d key ++ (import_record <$> h))]> d.
Proof.
  intros Hc. revert d. induction h as [|r h IH]; intros d Hd Hne; [done|]. cbn [fold_left fmap list_fmap].
  rewrite appendCapped_keep by done. fold (import_record r). destruct h as [|r' h]; [done|].
  assert (E : history (<[key := keep cap (history d key ++ [import_record r])]> d) key =
    keep cap (history d key ++ [import_record r])) by (unfold history; by rewrite lookup_insert_eq).
  rewrite IH by (done || by rewrite E, keep_idem). rewrite E, insert_insert_eq, keep_app by done.
  by rewrite <- app_assoc.
Qed.

Lemma import_insert cap (key : bytes) (h : list SnapshotRecord) (state : SnapshotState) :
  import cap (<[key := h]> state) =
    match import_history cap h with Some h' => <[key := h']> (import cap state) | None => delete key (import cap state) end.
Proof.
  unfold import. destruct (import_history cap h) eqn:E; [by apply omap_insert_Some|by apply omap_insert_None].
Qed.

(** The loops over a snapshot in closed form, whatever the order. *)
Lemma replay_snapshot_import (enumerate : SnapshotState -> list (bytes * list SnapshotRecord))
    `{!Enumeration enumerate} cap state :
  0 <= cap -> replay_snapshot enumerate cap state ∅ = import cap state.
Proof.
  intros Hc. pose proof (enumerate_perm state) as Hp. unfold replay_snapshot.
  assert (Hnd : NoDup (enumerate state).*1) by (rewrite Hp; apply NoDup_fst_map_to_list).
  assert (Em : state = list_to_map (enumerate state)).
  { rewrite <- (list_to_map_to_list state) at 1. by apply list_to_map_proper; [rewrite <- Hp|symmetry]. }
  rewrite Em at 2. clear Em Hp. generalize dependent (enumerate state). intros l Hnd.
  assert (H : forall d, (forall k, k ∈ l.*1 -> d !! k = None) ->
    fold_left (fun d '(key, h) => fold_left (fun d r =>
      appendCapped cap key (sr_value r) (sr_duration r) (sr_timestamp r) d) h d) l d =
    import cap (list_to_map l) ∪ d); [|rewrite H by (intros; apply lookup_empty); apply (right_id_L ∅ (∪))].
  induction l as [|[key h] l IH]; intros d Hd.
  { cbn. unfold import. rewrite omap_empty. by rewrite (left_id_L ∅ (∪)). }
  cbn [fmap list_fmap fst] in Hnd, Hd. apply NoDup_cons in Hnd as [Hni Hnd].
  assert (Hn : d !! key = None) by (apply Hd; by left).
  assert (Hi : import cap (list_to_map l) !! key = None).
  { unfold import. rewrite lookup_omap, not_elem_of_list_to_map_1 by done. done. }
  cbn [fold_left list_to_map foldr uncurry fst snd]. change (foldr _ ∅ l) with (list_to_map (M := SnapshotState) l).
  rewrite import_insert. destruct h as [|r h]; cbn [import_history].
  - cbn [fold_left]. rewrite IH; [|done|by intros k Hk; apply Hd; right]. by rewrite delete_id.
  - assert (Hh : history d key = []) by (unfold history; by rewrite Hn).
    rewrite replay_history by (done || by rewrite Hh, keep_nil). rewrite Hh. cbn [app]. rewrite IH; [|done|].
    + rewrite <- insert_union_l, insert_union_r by done. done.
    + intros k Hk. rewrite lookup_insert_ne; [apply Hd; by right|]. by intros <-.
Qed.

Lemma data_ok_import cap state : 0 <= cap -> data_ok cap (import cap state).
Proof.
  intros Hc key h. unfold import. rewrite lookup_omap. destruct (state !! key) as [[|r hs]|]; [done| |done].
  cbn. intros [= <-]. split; [by apply keep_nonnil|apply keep_idem].
Qed.

(** What [snapshot] writes is read as what it was made from. *)
Lemma import_export cap d : data_ok cap d -> import cap (exportSnapshotState d) = d.
Proof.
  intros Hd. apply map_eq. intros key. unfold import, exportSnapshotState. rewrite lookup_omap, lookup_fmap.
  destruct (d !! key) as [h|] eqn:E; [|done]. cbn [fmap option_fmap option_map mbind option_bind].
  destruct (Hd key h E) as [Hne Hk].
  assert (Ei : import_record <$> (export_record <$> h) = h).
  { rewrite <- list_fmap_compose. rewrite <- (list_fmap_id h) at 2. apply list_fmap_ext. by intros ? [] ?. }
  destruct h as [|r h]; [done|]. cbn [import_history fmap list_fmap]. cbn [fmap list_fmap] in Ei. by rewrite Ei, Hk.
Qed.
