(* ===== verification/EngineTheory.v ===== *)
(** * EngineTheory: the engine over its log and its snapshot

    [erep] relates an engine to the entries of its log and the state of its
    snapshot: the histories in memory are what recovery would make of the two.
    Client operations are reduced to requests to the log. *)

From stdpp Require Import gmap fin_maps.
From S2P Require Import Prelude Endian Exec Posix PosixFacts LogFormat LogTheory WAL WALFacts WalkFacts WALTheory Snapshot SnapshotFacts SaveFacts SnapshotSpec Engine EngineFacts.

Import StorageEngine.

(** ** What recovery makes of a snapshot and a log *)

Section contents.
Context (host : host_order).

(** The histories after the state [base] of a snapshot with epoch [min], and
    the entries [es] of a log. *)
Definition contents (cap : Z) (min : option Z) (base : SnapshotState) (es : list entry) : data :=
  visit_all (Some (replay_entry host cap)) min es (import cap base).

Lemma contents_nil cap min base : contents cap min base [] = import cap base.
Proof. done. Qed.

Lemma contents_snoc cap min base es e :
  contents cap min base (es ++ [e]) =
    if is_visited min e
    then replay_entry host cap (e_type e) (e_key e) (e_value e) (e_timestamp e) (contents cap min base es)
    else contents cap min base es.
Proof. unfold contents, visit_all. rewrite fold_left_app. done. Qed.

(** Entries at or below the epoch of the snapshot do not count. *)
Lemma contents_fenced cap m base es :
  Forall (fun e => e_epoch e <= m) es -> contents cap (Some m) base es = import cap base.
Proof.
  intros H. unfold contents, visit_all. generalize (import cap base). induction H as [|e es He _ IH]; intros d; [done|].
  cbn [fold_left]. unfold visit_entry at 2, is_visited. destruct (Z.ltb_spec m (e_epoch e)); [lia|]. apply IH.
Qed.

Lemma data_ok_replay cap type key value ts d :
  0 <= cap -> data_ok cap d -> data_ok cap (replay_entry host cap type key value ts d).
Proof.
  intros Hc Hd. unfold replay_entry. case_bool_decide.
  - destruct (deserialize host value) as [dur v]. by apply data_ok_append.
  - case_bool_decide; [by apply data_ok_delete|done].
Qed.

Lemma data_ok_visit cap min es d :
  0 <= cap -> data_ok cap d -> data_ok cap (visit_all (Some (replay_entry host cap)) min es d).
Proof.
  intros Hc. unfold visit_all. revert d. induction es as [|e es IH]; intros d Hd; [done|]. cbn [fold_left].
  apply IH. unfold visit_entry. destruct (is_visited min e); [by apply data_ok_replay|done].
Qed.

Lemma data_ok_contents cap min base es : 0 <= cap -> data_ok cap (contents cap min base es).
Proof. intros Hc. by apply data_ok_visit, data_ok_import. Qed.
End contents.

(** ** Blobs *)

Lemma length_serialize host d v : zlen (serialize host d v) = 8 + zlen v.
Proof. unfold serialize. rewrite length_app, length_object_of_double. lia. Qed.

Lemma deserialize_serialize host d v : double_ok d -> deserialize host (serialize host d v) = (d, v).
Proof.
  intros Hd. unfold deserialize. rewrite length_serialize. destruct (Z.ltb_spec (8 + zlen v) 8); [lia|].
  unfold serialize. rewrite take_app_length', drop_app_length' by (by rewrite length_object_of_double).
  f_equal. by apply double_of_object_of_double.
Qed.

(** ** Client operations *)

Inductive op :=
  | Set_ (key value : bytes) (duration : double) (now : Z)
  | Remove (key : bytes) (now : Z).

(** The request to the log that an operation makes. *)
Definition op_request (host : host_order) (x : op) : request :=
  match x with
  | Set_ key value duration now => (PUT, key, serialize host duration value, now)
  | Remove key now => (DELETE, key, [], now)
  end.

(** The sizes the code admits, and the ranges of the types. *)
Definition op_ok (x : op) : Prop :=
  match x with
  | Set_ key value duration now =>
      zlen key <= WAL.kMaxFieldSize /\ zlen value <= kMaxFieldSize /\ double_ok duration /\ is_i64 now
  | Remove key now => zlen key <= WAL.kMaxFieldSize /\ is_i64 now
  end.

(** The specification of an operation on the histories. *)
Definition op_spec (cap : Z) (x : op) (d : data) : data :=
  match x with
  | Set_ key value duration now => <[key := keep cap (history d key ++ [MkRecord value duration now])]> d
  | Remove key _ => delete key d
  end.

Definition run_op (host : host_order) (x : op) : M st unit :=
  match x with
  | Set_ key value duration now => set host key value duration now
  | Remove key now => _ <- remove key now ;; ret tt
  end.

Lemma op_request_ok host x : op_ok x -> request_ok (op_request host x).
Proof.
  destruct x as [key value duration now|key now]; cbn.
  - intros (Hk & Hv & _ & Hn). rewrite length_serialize. unfold kMaxFieldSize in Hv. split_and!; [done|done|lia].
  - intros [Hk Hn]. by split_and!.
Qed.

Lemma replay_op host cap x d :
  0 <= cap -> op_ok x -> data_ok cap d ->
  let '(type, key, blob, ts) := op_request host x in replay_entry host cap type key blob ts d = op_spec cap x d.
Proof.
  intros Hc Hx Hd. destruct x as [key value duration now|key now]; cbn [op_request].
  - destruct Hx as (_ & _ & Hdur & _). unfold replay_entry. rewrite bool_decide_eq_true_2 by done.
    rewrite deserialize_serialize by done. by rewrite appendCapped_keep by (done || by apply data_ok_history).
  - unfold replay_entry. by rewrite bool_decide_eq_false_2, bool_decide_eq_true_2 by done.
Qed.

Lemma data_ok_op cap x d : 0 <= cap -> data_ok cap d -> data_ok cap (op_spec cap x d).
Proof.
  intros Hc Hd. destruct x as [key value duration now|key now]; [|by apply data_ok_delete].
  apply data_ok_insert; [done|done|]. by destruct (history d key).
Qed.

(** ** Calls through [m_wal] *)

Lemma wp_wal {A} (m : M WAL.st A) s w (Q : result A -> st -> Prop) :
  m_wal (s_engine s) = Some w ->
  wp m (WAL.St w (s_os s)) (fun r s' =>
    Q r (St (set_wal (Some (WAL.s_wal s')) (s_engine s)) (WAL.s_os s'))) ->
  wp (wal m) s Q.
Proof. intros Hw H. unfold wp, wal in *. rewrite Hw. by destruct (m (WAL.St w (s_os s))). Qed.

Lemma set_wal_same e w : m_wal e = Some w -> set_wal (Some w) e = e.
Proof. destruct e; cbn. by intros ->. Qed.

Lemma run_wal {A} (m : M WAL.st A) s w :
  m_wal (s_engine s) = Some w ->
  wal m s = (fst (m (WAL.St w (s_os s))),
    St (set_wal (Some (WAL.s_wal (snd (m (WAL.St w (s_os s)))))) (s_engine s)) (WAL.s_os (snd (m (WAL.St w (s_os s)))))).
Proof. intros Hw. unfold wal. rewrite Hw. by destruct (m (WAL.St w (s_os s))). Qed.

(** The memory and the log move together: an admissible operation is one
    request to the log, and then its effect on the histories. *)
Lemma run_op_append host x s w :
  m_wal (s_engine s) = Some w -> op_ok x -> 0 <= m_maxHistoryPerKey (s_engine s) ->
  data_ok (m_maxHistoryPerKey (s_engine s)) (m_data (s_engine s)) ->
  let '(type, key, blob, ts) := op_request host x in
  let '(r, s') := WAL.append type key blob ts (WAL.St w (s_os s)) in
  run_op host x s = (r, St (set_data
    (match r with Ret _ => op_spec (m_maxHistoryPerKey (s_engine s)) x (m_data (s_engine s)) | _ => m_data (s_engine s) end)
    (set_wal (Some (WAL.s_wal s')) (s_engine s))) (WAL.s_os s')).
Proof.
  intros Hw Hx Hc Hd. destruct s as [e o]. cbn [s_engine s_os] in *.
  destruct x as [key value duration now|key now]; cbn [op_request run_op].
  - destruct Hx as (Hk & Hv & _). unfold set.
    destruct (Z.ltb_spec WAL.kMaxFieldSize (zlen key)); [lia|]. destruct (Z.ltb_spec kMaxFieldSize (zlen value)); [lia|].
    unfold bind, this, bind, Exec.get, ret. cbn [s_engine]. rewrite Hw.
    rewrite (run_wal _ (St e o) w Hw). cbn [s_engine s_os].
    destruct (WAL.append _ _ _ _ _) as [[[]|y|] s']; cbn [fst snd]; [|done|done].
    unfold update, modify. cbn [s_engine s_os set_wal m_data m_maxHistoryPerKey].
    by rewrite appendCapped_keep by (done || by apply data_ok_history).
  - unfold remove, bind, this, bind, Exec.get, ret. cbn [s_engine]. rewrite Hw.
    rewrite (run_wal _ (St e o) w Hw). cbn [s_engine s_os].
    destruct (WAL.append _ _ _ _ _) as [[[]|y|] s']; cbn [fst snd]; [|done|done]. done.
Qed.

(** ** The representation *)

Record erep (host : host_order) (s : st) (w : WAL.wal) (fd i : nat) (f : file) (es : list entry)
    (base : SnapshotState) : Prop := {
  er_wal : m_wal (s_engine s) = Some w;
  er_rep : rep (WAL.St w (s_os s)) fd i f es;
  er_cap : 0 <= m_maxHistoryPerKey (s_engine s);
  er_epoch : match m_snapshotEpoch (s_engine s) with Some n => WAL.m_epoch w = n + 1 | None => base = ∅ end;
  er_fence : Forall (fun e => e_epoch e <= WAL.m_epoch w) es;
  er_data : m_data (s_engine s) =
    contents host (m_maxHistoryPerKey (s_engine s)) (m_snapshotEpoch (s_engine s)) base es
}.

Lemma erep_data_ok host s w fd i f es base :
  erep host s w fd i f es base -> data_ok (m_maxHistoryPerKey (s_engine s)) (m_data (s_engine s)).
Proof. intros H. rewrite (er_data _ _ _ _ _ _ _ _ H). by eapply data_ok_contents, er_cap. Qed.

(** Entries appended now are above the epoch of the snapshot. *)
Definition entries_of (host : host_order) (w : WAL.wal) (l : list op) : list entry :=
  entry_for (WAL.m_epoch w) <$> (op_request host <$> l).

Definition apply_ops (cap : Z) (l : list op) (d : data) : data := fold_left (fun d x => op_spec cap x d) l d.

Lemma contents_ops host cap min base es w l :
  0 <= cap -> match min with Some n => WAL.m_epoch w = n + 1 | None => True end -> Forall op_ok l ->
  contents host cap min base (es ++ entries_of host w l) = apply_ops cap l (contents host cap min base es).
Proof.
  intros Hc Hm Hl. unfold entries_of. revert Hl. induction l as [|x l IH] using rev_ind; intros Hl; [by rewrite app_nil_r|].
  apply Forall_app in Hl as [Hl Hx]. apply Forall_inv in Hx. specialize (IH Hl).
  rewrite !fmap_app, app_assoc. cbn [fmap list_fmap]. rewrite contents_snoc, IH.
  assert (Hd : data_ok cap (apply_ops cap l (contents host cap min base es)))
    by (rewrite <- IH; by apply data_ok_contents).
  pose proof (replay_op host cap x _ Hc Hx Hd) as Hr. destruct (op_request host x) as [[[type key] blob] ts].
  assert (Hv : is_visited min (entry_for (WAL.m_epoch w) (type, key, blob, ts)) = true).
  { unfold is_visited. destruct min as [n|]; [|done]. apply Z.ltb_lt. cbn. lia. }
  rewrite Hv. cbn [entry_for e_type e_key e_value e_timestamp]. rewrite Hr.
  unfold apply_ops. by rewrite fold_left_app.
Qed.

(** How many operations return, and the state after the last one. *)
Fixpoint run_ops (host : host_order) (l : list op) (s : st) : nat * st :=
  match l with
  | [] => (O, s)
  | x :: l =>
      match run_op host x s with
      | (Ret _, s') => let '(n, s'') := run_ops host l s' in (S n, s'')
      | (_, s') => (O, s')
      end
  end.

(** The engine with the histories [d] and the log object [w]. *)
Definition with_log (d : data) (w : WAL.wal) (e : engine) : engine := set_data d (set_wal (Some w) e).

Lemma run_ops_append host l s w :
  m_wal (s_engine s) = Some w -> Forall op_ok l -> 0 <= m_maxHistoryPerKey (s_engine s) ->
  data_ok (m_maxHistoryPerKey (s_engine s)) (m_data (s_engine s)) ->
  let '(n, s') := run_ops host l s in
  exists w', append_seq (op_request host <$> l) (WAL.St w (s_os s)) = (n, WAL.St w' (s_os s')) /\
    s_engine s' = with_log (apply_ops (m_maxHistoryPerKey (s_engine s)) (take n l) (m_data (s_engine s))) w' (s_engine s).
Proof.
  revert s w. induction l as [|x l IH]; intros s w Hw Hl Hc Hd.
  { exists w. split; [done|]. destruct s as [[] o]. cbn in *. by subst. }
  apply Forall_cons in Hl as [Hx Hl]. cbn [fmap list_fmap append_seq run_ops].
  pose proof (run_op_append host x s w Hw Hx Hc Hd) as Hrun. destruct (op_request host x) as [[[type key] blob] ts].
  destruct (WAL.append type key blob ts (WAL.St w (s_os s))) as [r [w1 o1]]. cbn [WAL.s_wal WAL.s_os] in Hrun.
  rewrite Hrun. destruct r as [[]|y|]; [|by exists w1..].
  set (s1 := St _ o1). specialize (IH s1 w1 eq_refl Hl Hc).
  assert (Hd1 : data_ok (m_maxHistoryPerKey (s_engine s1)) (m_data (s_engine s1)))
    by (by apply data_ok_op).
  specialize (IH Hd1). destruct (run_ops host l s1) as [n s']. destruct IH as (w' & E & Es).
  exists w'. change (s_os s1) with o1 in E. rewrite E. split; [done|]. by rewrite Es.
Qed.

(** ** Reading the snapshot *)

(** The image a file is read as; a file that is absent or not accepted is none. *)
Definition loads (host : host_order) (c : option bytes) : option SnapshotImage :=
  match c with
  | None => None
  | Some c =>
      match Snapshot.load_bytes host c (MkSnapshotImage 0 ∅) with
      | (true, image) => Some image
      | (false, _) => None
      end
  end.

Lemma load_done host path o :
  Forall (eq Done) (os_script o) -> (3 <= length (os_script o))%nat ->
  exists image sc, used (os_script o) sc 3 /\ Snapshot.load host path (MkSnapshotImage 0 ∅) o =
    (Ret (match loads host (read_file o path) with Some im => (true, im) | None => (false, image) end), set_script sc o).
Proof.
  intros Hd Hl. destruct (load_contents host path (MkSnapshotImage 0 ∅) o Hd Hl) as (sc & Hu & ->).
  unfold loads. destruct (read_file o path) as [c|]; [|by exists (MkSnapshotImage 0 ∅), sc].
  destruct (Snapshot.load_bytes host c (MkSnapshotImage 0 ∅)) as [[] im]; by exists im, sc.
Qed.

(** ** [recover] when its calls succeed *)

(** What [recover] makes of the verdict on the log. *)
Definition recover_verdict (res : RecoveryResult) : result unit :=
  let at_ := pretty.pretty (r_tamperOffset res) +:+ " (seq " +:+ pretty.pretty (r_tamperSeq res) in
  match r_status res with
  | Tampered => Throw (runtime_error ("WAL tampering detected at offset " +:+ at_ +:+ ")"))
  | Malformed => Throw (runtime_error ("WAL field exceeds the size limit at offset " +:+ at_ +:+
      ") - foreign or stale file"))
  | _ => Ret tt
  end.

Definition snap_epoch (snap : option SnapshotImage) : option Z := si_epoch <$> snap.
Definition snap_state (snap : option SnapshotImage) : SnapshotState := from_option si_state ∅ snap.

(** The epoch of the entries to come. *)
Definition next_epoch (snap : option SnapshotImage) : Z :=
  match snap with Some im => u64 (si_epoch im + 1) | None => 0 end.

(** The engine after [recover] has read the snapshot [snap] and the file [f]. *)
Definition recovered (host : host_order) (e : engine) (w : WAL.wal) (snap : option SnapshotImage) (f : file) : engine :=
  Engine (contents host (m_maxHistoryPerKey e) (snap_epoch snap) (snap_state snap) (w_entries (walk (log_part f))))
    (Some (adopt (result_for f) (WAL.set_epoch (next_epoch snap) w)))
    (m_walPath e) (m_snapshotPath e) (snap_epoch snap) (m_maxHistoryPerKey e).

Section recover.
Context (host : host_order) (enumerate : SnapshotState -> list (bytes * list SnapshotRecord)).
Context `{!Enumeration enumerate}.

Lemma import_empty cap : import cap ∅ = ∅.
Proof. apply omap_empty. Qed.

Lemma engine_recover_done s w fd i f :
  m_wal (s_engine s) = Some w -> 0 <= m_maxHistoryPerKey (s_engine s) ->
  opened (WAL.St w (s_os s)) fd i f -> (WAL.kHeaderSize <= length (f_data f))%nat -> zlen (f_data f) < 2 ^ 63 ->
  Forall (eq Done) (os_script (s_os s)) -> (length (f_data f) + 13 < length (os_script (s_os s)))%nat ->
  exists off sc, used (os_script (s_os s)) sc (length (f_data f) + 13) /\
    recover host enumerate s = (recover_verdict (result_for f),
      St (recovered host (s_engine s) w (loads host (read_file (s_os s) (m_snapshotPath (s_engine s)))) f)
        (touch (s_os s) fd i off (recovered_file f) sc)).
Proof.
  intros Hw Hc Ho Hh Hz Hd Hl. destruct s as [e o]. cbn [s_engine s_os] in *.
  destruct (load_done host (m_snapshotPath e) o Hd ltac:(lia)) as (im & sc0 & Hu0 & Eload).
  assert (Hd0 : Forall (eq Done) sc0) by (by eapply suffix_Forall; [apply Hu0|]). pose proof (proj2 Hu0 Hd) as Hl0.
  set (snap := loads host (read_file o (m_snapshotPath e))) in *.
  set (w1 := WAL.set_epoch (next_epoch snap) w).
  assert (Ho1 : opened (WAL.St w1 (set_script sc0 o)) fd i f) by exact Ho.
  destruct (recover_done (replay_entry host (m_maxHistoryPerKey e)) (snap_epoch snap)
    (import (m_maxHistoryPerKey e) (snap_state snap)) (WAL.St w1 (set_script sc0 o)) fd i f Ho1 Hh Hz Hd0)
    as (off & sc & Hu & E); [change (os_script _) with sc0; lia|].
  exists off, sc. split; [eapply used_le, used_trans; [|exact Hu0|exact Hu]; lia|].
  unfold recover, bind, update, modify, this, bind, Exec.get, ret, sys, zoom.
  cbn [s_engine s_os m_snapshotPath set_snapshotEpoch set_data]. rewrite Eload.
  assert (Efin : forall m n d s1, m = m_maxHistoryPerKey e -> n = snap_epoch snap ->
    d = import (m_maxHistoryPerKey e) (snap_state snap) -> m_wal (s_engine s1) = Some w1 -> s_os s1 = set_script sc0 o ->
    wal (WAL.recover (replay_entry host m) n d) s1 =
    (Ret (result_for f, m_data (recovered host e w snap f)),
     St (set_wal (Some (adopt (result_for f) w1)) (s_engine s1)) (touch o fd i off (recovered_file f) sc))).
  { intros m n d s1 -> -> -> Hw1 Ho2. by rewrite (run_wal _ _ w1 Hw1), Ho2, E. }
  clear E. destruct snap as [image|]; rewrite ?replay_snapshot_import by done; rewrite (run_wal _ _ w) by done;
    cbn [fst snd s_engine s_os WAL.setEpoch WAL.update modify WAL.s_wal WAL.s_os];
    (rewrite Efin; [|done..|by cbn; rewrite ?import_empty|done|done]); cbn [s_engine s_os]; unfold recover_verdict;
    destruct (r_status (result_for f)); done.
Qed.

(** ** The constructor when its calls succeed *)

Lemma read_file_touch app o fd i off f sc p :
  os_names o !! p <> Some i -> read_file (touch_gen app o fd i off f sc) p = read_file o p.
Proof.
  intros Hp. unfold read_file, touch_gen, set_script, set_fd, set_inode; cbn [os_names os_inodes].
  destruct (os_names o !! p) as [j|]; [|done]. cbn. rewrite lookup_insert_ne by congruence. done.
Qed.

(** What the constructor starts from. *)
Definition new_engine (path : string) (cap : Z) (w : WAL.wal) : engine :=
  Engine ∅ (Some w) path (makeSnapshotPath path) None cap.

Lemma result_for_failed f x : recover_verdict (result_for f) = Throw x -> recovered_file f = f.
Proof.
  unfold recover_verdict, result_for, recovered_file. intros H.
  case_bool_decide as Hs; [|done]. rewrite Hs in H. done.
Qed.

Lemma construct_done path cap N o i f :
  os_names o !! path = Some i -> os_inodes o !! i = Some f ->
  f_data f = [] \/ valid_header (f_data f) = true -> zlen (f_data f) < 2 ^ 63 ->
  os_names o !! makeSnapshotPath path <> Some i -> 0 <= cap ->
  Forall (eq Done) (os_script o) -> (length (f_data f) + 40 <= length (os_script o))%nat ->
  exists f1, (f_data f = [] -> f_data f1 = WAL.header_bytes /\ f_pending f1 = []) /\ (f_data f <> [] -> f1 = f) /\
  let snap := loads host (read_file o (makeSnapshotPath path)) in
  let w := fresh_wal path (fresh_fd o) N in
  match recover_verdict (result_for f1) with
  | Ret _ => exists off sc, construct host enumerate path cap N o =
      (Ret (recovered host (new_engine path cap w) w snap f1), touch o (fresh_fd o) i off (recovered_file f1) sc)
  | Throw x => exists sc, construct host enumerate path cap N o = (Throw x, settle o i f1 sc)
  | Halt => False
  end.
Proof.
  intros Hn Hi Hv Hz Hp Hc Hd Hl.
  destruct (open_ready path N o i f Hn Hi Hv Hd) as (off & f1 & sc & Hu & Eo & Hf1 & Hf2); [lia|].
  exists f1. split_and!; [done|done|]. cbv zeta. set (w := fresh_wal path (fresh_fd o) N) in *.
  set (o1 := touch o (fresh_fd o) i off f1 sc) in *.
  assert (Hf : (WAL.kHeaderSize <= length (f_data f1))%nat /\ zlen (f_data f1) < 2 ^ 63 /\
    (length (f_data f1) + 16 <= length (f_data f) + 32)%nat).
  { destruct (decide (f_data f = [])) as [E|E].
    - destruct (Hf1 E) as [-> _]. rewrite header_bytes_length. unfold WAL.kHeaderSize. lia.
    - rewrite (Hf2 E). split_and!; [|done|lia]. destruct Hv as [|Hv]; [done|].
      unfold valid_header in Hv. apply andb_true_iff in Hv as [[Hv _]%andb_true_iff _].
      apply Nat.leb_le in Hv. exact Hv. }
  destruct Hf as (Hh & Hz1 & Hlen). destruct Hu as [Hsuf Hu]. specialize (Hu Hd).
  destruct (engine_recover_done (St (new_engine path cap w) o1) w (fresh_fd o) i f1) as (off2 & sc2 & Hu2 & E);
    [done|done|by apply opened_intro|done|done|by eapply suffix_Forall|cbn [s_os]; unfold o1; rewrite script_touch; lia|].
  cbn [s_os s_engine new_engine m_snapshotPath] in E. unfold o1 in E at 2.
  rewrite read_file_touch in E by done. unfold o1 in E at 2. rewrite touch_touch in E.
  unfold construct. rewrite Eo. fold (new_engine path cap w). rewrite E.
  destruct (recover_verdict (result_for f1)) as [[]|x|] eqn:Ev; [by exists off2, sc2| |].
  2: { unfold recover_verdict in Ev. by destruct (r_status (result_for f1)). }
  rewrite (result_for_failed _ _ Ev) in *.
  assert (Hne : sc2 <> []).
  { intros ->. destruct Hu2 as [_ Hu2]. cbn [s_os] in Hu2. unfold o1 in Hu2. rewrite script_touch in Hu2.
    specialize (Hu2 (suffix_Forall _ _ _ Hsuf Hd)). cbn in Hu2. lia. }
  destruct sc2 as [|y sc2]; [done|]. exists sc2. unfold destroy. cbn [s_engine recovered m_wal].
  rewrite (run_wal _ _ (adopt (result_for f1) (WAL.set_epoch (next_epoch (loads host (read_file o (makeSnapshotPath path)))) w))) by done.
  cbn [s_os]. set (w2 := adopt _ _).
  assert (Hw2 : WAL.m_fd w2 = Some (fresh_fd o) /\ WAL.m_pendingWrites w2 = 0) by (unfold w2, adopt; by destruct (_ || _)).
  destruct Hw2 as [Hfd Hpend].
  assert (Eclose : WAL.close (WAL.St w2 (touch o (fresh_fd o) i off2 f1 (y :: sc2))) =
    (Ret tt, WAL.St (WAL.set_fd None w2) (settle o i f1 sc2))).
  { unfold WAL.close, WAL.this, bind, Exec.get, ret. cbn [WAL.s_wal]. rewrite Hfd, Hpend. cbn [Z.ltb Z.compare].
    unfold WAL.sys, zoom, sys_close, bind. cbn [WAL.s_os]. rewrite next_touch.
    unfold modify. rewrite drop_touch by apply fresh_fd_none. by destruct y. }
  rewrite Eclose. done.
Qed.
End recover.

(** ** Power cuts *)

(** The states of the directory that a power cut can leave. *)
Definition dirs (o : os) : list (gmap string nat) := os_names_log o ++ [os_names o].

(** The files of an engine that are on disk, whatever power cut comes: the log
    is file [i] in every state of the directory, the snapshot is another file
    and is read as the one the engine goes on from. *)
Record disk_ok (host : host_order) (s : st) (i : nat) (base : SnapshotState) : Prop := {
  do_path : m_snapshotPath (s_engine s) = makeSnapshotPath (m_walPath (s_engine s));
  do_log : forall ns, ns ∈ dirs (s_os s) -> ns !! m_walPath (s_engine s) = Some i;
  do_other : forall ns, ns ∈ dirs (s_os s) -> ns !! m_snapshotPath (s_engine s) <> Some i;
  do_snap : forall c, crash_file (s_os s) (m_snapshotPath (s_engine s)) c ->
    snap_epoch (loads host c) = m_snapshotEpoch (s_engine s) /\ snap_state (loads host c) = base
}.

(** A touched file leaves the others alone. *)
Lemma crash_file_touch app o fd i off f sc p c :
  (forall ns, ns ∈ dirs o -> ns !! p <> Some i) ->
  crash_file (touch_gen app o fd i off f sc) p c -> crash_file o p c.
Proof.
  intros Hp (ns & Hns & Hc). exists ns. split; [done|]. specialize (Hp ns Hns).
  destruct (ns !! p) as [j|]; [|done]. destruct Hc as (g & x & Hg & Hx). exists g, x. split; [|done].
  unfold touch_gen, set_script, set_fd, set_inode in Hg. cbn [os_inodes] in Hg. by rewrite lookup_insert_ne in Hg by congruence.
Qed.

(** What a cut leaves of the touched file. *)
Lemma crash_file_self app o fd i off f sc p c :
  (forall ns, ns ∈ dirs o -> ns !! p = Some i) ->
  crash_file (touch_gen app o fd i off f sc) p c -> exists x, c = Some x /\ crash_content f x.
Proof.
  intros Hp (ns & Hns & Hc). rewrite (Hp ns Hns) in Hc. destruct Hc as (g & x & Hg & Hx & ->).
  unfold touch_gen, set_script, set_fd, set_inode in Hg. cbn [os_inodes] in Hg. rewrite lookup_insert_eq in Hg.
  injection Hg as <-. by exists x.
Qed.

Lemma booted_read d o p : booted d o -> read_file o p = d !! p.
Proof.
  intros (_ & _ & H). specialize (H p). unfold read_file. destruct (os_names o !! p) as [i|]; [|by rewrite H].
  destruct H as (c & Hi & ->). cbn. by rewrite Hi.
Qed.

(** The machine is up again and has the names of two files apart. *)
Definition restarted (d : disk) (path : string) (o : os) : Prop :=
  booted d o /\ Forall (eq Done) (os_script o) /\
  (os_names o !! makeSnapshotPath path = None \/ os_names o !! makeSnapshotPath path <> os_names o !! path) /\
  forall c, d !! path = Some c -> (length c + 40 <= length (os_script o))%nat.

Section restart.
Context (host : host_order) (enumerate : SnapshotState -> list (bytes * list SnapshotRecord)).
Context `{!Enumeration enumerate}.

(** The constructor on the files a power cut left. *)
Lemma restart d path cap N o c :
  restarted d path o -> 0 <= cap -> d !! path = Some c ->
  c = [] \/ valid_header c = true -> zlen c < 2 ^ 63 ->
  let snap := loads host (d !! makeSnapshotPath path) in
  let f1 := File (if decide (c = []) then WAL.header_bytes else c) [] in
  exists o3, match recover_verdict (result_for f1) with
  | Ret _ => exists e, construct host enumerate path cap N o = (Ret e, o3) /\
      m_data e = contents host cap (snap_epoch snap) (snap_state snap) (w_entries (walk (log_part f1))) /\
      m_snapshotEpoch e = snap_epoch snap
  | Throw x => construct host enumerate path cap N o = (Throw x, o3)
  | Halt => False
  end.
Proof.
  intros (Hb & Hd & Hne & Hl) Hc Hdc Hv Hz. cbv zeta. pose proof Hb as (_ & _ & Hboot). specialize (Hboot path).
  destruct (os_names o !! path) as [i|] eqn:En; [|congruence]. destruct Hboot as (c' & Hi & Hdc').
  assert (c' = c) as -> by congruence.
  destruct (construct_done host enumerate path cap N o i (File c []) En Hi Hv Hz) as (f1 & Hf1 & Hf2 & Hx); [|done|done|by apply Hl|].
  { destruct Hne as [-> | Hne]; [done|exact Hne]. }
  change (f_data (File c [])) with c in *. rewrite (booted_read d) in Hx by done.
  set (f2 := File (if decide (c = []) then WAL.header_bytes else c) []).
  assert (E : f_data f1 = f_data f2).
  { unfold f2. destruct (decide (c = [])) as [Ec|Ec]; [exact (proj1 (Hf1 Ec))|by rewrite (Hf2 Ec)]. }
  assert (El : log_part f1 = log_part f2) by (unfold log_part; by rewrite E).
  assert (Er : result_for f1 = result_for f2) by (unfold result_for; by rewrite El).
  rewrite Er in Hx. destruct (recover_verdict (result_for f2)) as [[]|x|]; [| |done].
  - destruct Hx as (off & sc & Hx). eexists. eexists. split; [exact Hx|]. unfold recovered; cbn [m_data m_snapshotEpoch]. by rewrite El.
  - destruct Hx as [sc Hx]. by eexists.
Qed.

Lemma restart_recoverable d path cap N o c es :
  restarted d path o -> 0 <= cap -> d !! path = Some c -> recoverable c es ->
  let snap := loads host (d !! makeSnapshotPath path) in
  exists e o3, construct host enumerate path cap N o = (Ret e, o3) /\
    m_data e = contents host cap (snap_epoch snap) (snap_state snap) es.
Proof.
  intros Hr Hc Hdc Hrec. destruct (header_valid c (proj1 Hrec)) as [Hv Hne].
  destruct (restart d path cap N o c Hr Hc Hdc (or_intror Hv) (proj2 (proj2 (proj2 Hrec)))) as [o3 Hx].
  rewrite decide_False in Hx by done. destruct Hrec as (_ & Hes & Hst & _).
  change (log_part (File c [])) with (drop WAL.kHeaderSize c) in Hx. rewrite Hes in Hx.
  unfold recover_verdict, result_for in Hx. change (log_part (File c [])) with (drop WAL.kHeaderSize c) in Hx.
  destruct Hst as [E|E]; rewrite E in Hx; cbn [r_status result_of] in Hx; destruct Hx as (e & H1 & H2 & _); by exists e, o3.
Qed.

(** Without a valid header the constructor throws. *)
Lemma restart_torn d path cap N o c :
  restarted d path o -> d !! path = Some c -> c <> [] -> valid_header c = false ->
  exists x o3, construct host enumerate path cap N o = (Throw x, o3).
Proof.
  intros (Hb & Hd & _ & Hl) Hdc Hne Hv. pose proof Hb as (_ & _ & Hboot). specialize (Hboot path).
  destruct (os_names o !! path) as [i|] eqn:En; [|congruence]. destruct Hboot as (c' & Hi & Hdc').
  assert (c' = c) as -> by congruence.
  pose proof (open_existing path N o i (File c []) En Hi Hne) as Ho. unfold wp in Ho. unfold construct.
  destruct (WAL.open path N o) as [[w|x|] o1]; cbn [fst snd] in Ho; destruct Ho as (_ & _ & _ & _ & Ho).
  - destruct Ho as [Ho _]. change (f_data (File c [])) with c in Ho. congruence.
  - by exists x, o1.
  - specialize (Ho Hd). specialize (Hl c Hdc). lia.
Qed.
End restart.

(** ** [snapshot] *)

Section snapshot.
Context (host : host_order) (enumerate : SnapshotState -> list (bytes * list SnapshotRecord)).
Context `{!Enumeration enumerate}.
Context (s : st) (w : WAL.wal) (fd i : nat) (f : file) (es : list entry) (base : SnapshotState).

Let e := s_engine s.
Let o := s_os s.
Let path := m_walPath e.
Let snap_path := m_snapshotPath e.
Let cap := m_maxHistoryPerKey e.
Let image := MkSnapshotImage (WAL.m_epoch w) (exportSnapshotState (m_data e)).

Hypothesis He : erep host s w fd i f es base.
Hypothesis Hdisk : disk_ok host s i base.
Hypothesis Hwin : window f es (WAL.m_pendingWrites w).
Hypothesis Himage : image_ok image.
Hypothesis Hepoch : WAL.m_epoch w + 1 < 2 ^ 64.
Hypothesis Htmp : forall j, os_names o !! Snapshot.tmp_path snap_path = Some j -> is_Some (os_inodes o !! j).
Hypothesis Hsnap_apart : apart snap_path o snap_path.
Hypothesis Hlog_apart : apart snap_path o path.

Lemma paths_differ : path <> snap_path.
Proof.
  destruct Hdisk as [_ Hlog Hother _]. intros E.
  assert (Hin : os_names o ∈ dirs o) by (apply elem_of_app; right; by left).
  apply (Hother _ Hin). fold e snap_path. rewrite <- E. by apply Hlog.
Qed.

(** What the next start may find: all the histories, or, before the snapshot is
    in place, those of a log that lacks pending writes. *)
Definition restart_ok (d : disk) (N : Z) (o2 : os) (old : Prop) : Prop :=
  exists e2 o3, construct host enumerate path cap N o2 = (Ret e2, o3) /\
    (m_data e2 = m_data e \/
     old /\ exists es1, es1 `prefix_of` es /\ zlen es - WAL.m_pendingWrites w <= zlen es1 /\
       m_data e2 = contents host cap (m_snapshotEpoch e) base es1).

Lemma loads_image : loads host (Some (Snapshot.file_bytes host enumerate image)) = Some image.
Proof. unfold loads. by rewrite (load_saved host host enumerate image _ Himage). Qed.

(** The new snapshot next to old entries: they are fenced off. *)
Lemma fenced_contents es1 :
  es1 `prefix_of` es -> contents host cap (Some (WAL.m_epoch w)) (exportSnapshotState (m_data e)) es1 = m_data e.
Proof.
  intros [t E]. pose proof (er_fence _ _ _ _ _ _ _ _ He) as Hf. rewrite E in Hf. apply Forall_app in Hf as [Hf _].
  rewrite contents_fenced by done. by apply import_export, (erep_data_ok _ _ _ _ _ _ _ _ He).
Qed.

(** A restart with the new snapshot and what is left of the old log. *)
Lemma restart_new d N o2 c :
  restarted d path o2 -> d !! snap_path = Some (Snapshot.file_bytes host enumerate image) ->
  d !! path = Some c -> crash_content f c ->
  exists e2 o3, construct host enumerate path cap N o2 = (Ret e2, o3) /\ m_data e2 = m_data e.
Proof.
  intros Hre Hs Hc Hcrash. destruct (Hwin c Hcrash) as (es1 & Hpre & Hrec & _).
  destruct (restart_recoverable host enumerate d path cap N o2 c es1 Hre (er_cap _ _ _ _ _ _ _ _ He) Hc Hrec)
    as (e2 & o3 & H1 & H2). exists e2, o3. split; [done|]. rewrite H2.
  unfold path, e. rewrite <- (do_path _ _ _ _ Hdisk). fold e snap_path. rewrite Hs, loads_image.
  cbn [snap_epoch snap_state fmap option_fmap option_map from_option si_epoch si_state image]. by apply fenced_contents.
Qed.

(** The log during [Snapshot::save]. *)
Lemma log_during_save k o1 d :
  reached host enumerate snap_path image o k o1 -> crash_disk o1 d ->
  exists c, d !! path = Some c /\ crash_content f c.
Proof.
  intros Hk Hd. destruct (reached_crash _ _ _ _ _ _ _ path d Hlog_apart Hk Hd) as [[_ Hc]|[E _]]; [|by destruct paths_differ].
  destruct Hc as (ns & Hns & Hc). pose proof (do_log _ _ _ _ Hdisk ns Hns) as Hl. fold e path in Hl. rewrite Hl in Hc. destruct Hc as (g & x & Hg & Hx & ->).
  exists x. split; [done|]. pose proof (rep_opened _ _ _ _ _ (er_rep _ _ _ _ _ _ _ _ He)) as [_ [off Hf]].
  cbn [WAL.s_os] in Hf. unfold file_of in Hf. fold o in Hf. destruct (os_fds o !! fd) as [[j off' app|]|]; [|done..].
  destruct (os_inodes o !! j) eqn:Ej; [|done]. cbn in Hf. injection Hf as E1 _ _ E4.
  assert (g = f) as -> by congruence. done.
Qed.

Lemma save_cut k o1 d N o2 :
  reached host enumerate snap_path image o k o1 -> crash_disk o1 d -> restarted d path o2 -> restart_ok d N o2 True.
Proof.
  intros Hk Hd Hre. destruct (log_during_save k o1 d Hk Hd) as (c & Hc & Hcrash).
  destruct (reached_crash _ _ _ _ _ _ _ snap_path d Hsnap_apart Hk Hd) as [[_ Hold]|(_ & _ & Hnew)].
  - destruct (do_snap _ _ _ _ Hdisk _ Hold) as [H1 H2]. destruct (Hwin c Hcrash) as (es1 & Hpre & Hrec & Hlen).
    destruct (restart_recoverable host enumerate d path cap N o2 c es1 Hre (er_cap _ _ _ _ _ _ _ _ He) Hc Hrec)
      as (e2 & o3 & H3 & H4). exists e2, o3. split; [done|]. right. split; [done|]. exists es1. split_and!; [done|lia|].
    unfold path, e in H4. rewrite <- (do_path _ _ _ _ Hdisk) in H4. fold e snap_path in H4. by rewrite H1, H2 in H4.
  - destruct (restart_new d N o2 c Hre Hnew Hc Hcrash) as (e2 & o3 & H3 & H4). exists e2, o3. split; [done|]. by left.
Qed.

(** The log cut down to a part of its header, which no start accepts. *)
Definition torn_header (d : disk) (N : Z) (o2 : os) : Prop :=
  exists c x o3, d !! path = Some c /\ c `prefix_of` WAL.header_bytes /\ c <> [] /\ c <> WAL.header_bytes /\
    construct host enumerate path cap N o2 = (Throw x, o3).

Lemma torn_header_invalid c : c `prefix_of` WAL.header_bytes -> c <> WAL.header_bytes -> valid_header c = false.
Proof.
  intros Hp Hne. unfold valid_header. destruct (Nat.leb_spec 16 (length c)) as [Hle|]; [|done]. destruct Hne.
  destruct Hp as [t E]. pose proof (f_equal length E) as Hl. rewrite length_app, header_bytes_length in Hl.
  unfold WAL.kHeaderSize in Hl. destruct t; [by rewrite E, app_nil_r|]. cbn in Hl. lia.
Qed.

(** The log while it is reset, and after. *)
Lemma reset_cut o1 off f' sc d N o2 :
  reached host enumerate snap_path image o Synced o1 -> resets f f' ->
  crash_disk (touch o1 fd i off f' sc) d -> restarted d path o2 ->
  restart_ok d N o2 False \/ f_data f' <> WAL.header_bytes /\ torn_header d N o2 \/
    f_pending f' <> [] /\ torn_header d N o2.
Proof.
  intros (Hino & Hnames & Hlog) Hres Hd Hre.
  assert (Hin : os_names o ∈ dirs o) by (apply elem_of_app; right; by left).
  pose proof (do_log _ _ _ _ Hdisk _ Hin) as Hp. fold e path in Hp.
  assert (Hti : tmp_inode snap_path o <> i).
  { destruct Hlog_apart as [_ Ha]. destruct (Ha _ _ Hin Hp) as [[g Hg] Hne]. unfold tmp_inode.
    destruct (os_names o !! Snapshot.tmp_path snap_path); cbn; [congruence|]. intros E. rewrite <- E, fresh_inode_none in Hg. done. }
  assert (Hseen : forall ns, ns ∈ dirs o1 -> ns !! path = Some i /\ ns !! snap_path = Some (tmp_inode snap_path o)).
  { intros ns. unfold dirs. rewrite Hnames, Hlog. intros Hns. split; [|by apply (synced_seen snap_path o)].
    destruct (proj2 (synced_seen snap_path o path ns Hlog_apart Hns) paths_differ) as (ns0 & Hin0 & ->).
    by apply (do_log _ _ _ _ Hdisk). }
  assert (Hdirs : forall ns, ns ∈ dirs o1 -> ns !! path = Some i /\ ns !! snap_path <> Some i).
  { intros ns Hns. destruct (Hseen ns Hns) as [H1 ->]. split; [done|congruence]. }
  pose proof (crash_disk_file _ _ path Hd) as Hc. pose proof (crash_disk_file _ _ snap_path Hd) as Hs.
  apply crash_file_self in Hc as (c & Hc & Hcrash); [|by intros; apply Hdirs].
  apply crash_file_touch in Hs; [|by intros; apply Hdirs].
  assert (Hnew : d !! snap_path = Some (Snapshot.file_bytes host enumerate image)).
  { destruct Hs as (ns & Hns & Hs). rewrite (proj2 (Hseen ns Hns)), Hino, lookup_insert_eq in Hs.
    destruct Hs as (g & x & [= <-] & Hx & ->).
    by apply (crash_content_sync (File (Snapshot.file_bytes host enumerate image) [])) in Hx as ->. }
  destruct (Hres c Hcrash) as [Hold|Hpre].
  { destruct (restart_new d N o2 c Hre Hnew Hc Hold) as (e2 & o3 & H1 & H2). left. exists e2, o3. split; [done|by left]. }
  assert (Hz : zlen c < 2 ^ 63).
  { apply prefix_length in Hpre. rewrite header_bytes_length in Hpre. unfold WAL.kHeaderSize in Hpre. lia. }
  destruct (decide (c = [] \/ c = WAL.header_bytes)) as [Hcase|Hcase].
  - left. assert (Hv : c = [] \/ valid_header c = true) by (destruct Hcase as [->| ->]; [by left|by right]).
    destruct (restart host enumerate d path cap N o2 c Hre (er_cap _ _ _ _ _ _ _ _ He) Hc Hv Hz) as [o3 Hx].
    assert (Ef : (if decide (c = []) then WAL.header_bytes else c) = WAL.header_bytes)
      by (destruct Hcase as [->| ->]; reflexivity).
    rewrite Ef in Hx. assert (Ev : recover_verdict (result_for (File WAL.header_bytes [])) = Ret tt) by (vm_compute; reflexivity).
    rewrite Ev in Hx. destruct Hx as (e2 & Hx & Hdata & _). exists e2, o3. split; [done|]. left. rewrite Hdata.
    unfold path, e. rewrite <- (do_path _ _ _ _ Hdisk). fold e snap_path. rewrite Hnew, loads_image.
    change (w_entries (walk (log_part (File WAL.header_bytes [])))) with (@nil entry).
    exact (fenced_contents [] (prefix_nil _)).
  - right. assert (Hne1 : c <> []) by (intros ->; apply Hcase; by left). assert (Hne2 : c <> WAL.header_bytes) by (intros ->; apply Hcase; by right).
    assert (Ht : torn_header d N o2).
    { destruct (restart_torn host enumerate d path cap N o2 c Hre Hc Hne1 (torn_header_invalid c Hpre Hne2)) as (x & o3 & Hx).
      by exists c, x, o3. }
    destruct (f_pending f') eqn:Ep; [left|right; by split]. split; [|done]. intros Ed.
    apply Hne2. unfold crash_content in Hcrash. unfold f_data in Ed. rewrite Ep in Hcrash, Ed. inversion Hcrash; subst. exact Ed.
Qed.

(** What [snapshot] leaves, for every outcome. *)
Definition snapshot_post (r : result unit) (s' : st) : Prop :=
  m_data (s_engine s') = m_data e /\
  (forall d N o2, crash_disk (s_os s') d -> restarted d path o2 ->
     restart_ok d N o2 (r <> Ret tt) \/ r <> Ret tt /\ torn_header d N o2) /\
  match r with
  | Ret _ => exists w' f', erep host s' w' fd i f' [] (exportSnapshotState (m_data e))
  | _ => Forall (eq Done) (os_script o) -> (length (os_script o) <= 13)%nat
  end.

Lemma snapshot_spec : wp (snapshot host enumerate) s snapshot_post.
Proof.
  pose proof (er_wal _ _ _ _ _ _ _ _ He) as Hw. fold e in Hw.
  assert (Hsave : forall k o1 r e1, reached host enumerate snap_path image o k o1 -> r <> Ret tt ->
    m_data e1 = m_data e -> (Forall (eq Done) (os_script o) -> (length (os_script o) <= 13)%nat) -> snapshot_post r (St e1 o1)).
  { intros k o1 r e1 Hk Hr E1 Hl. split_and!; [done| |by destruct r as [[]| |]]. intros d N o2 Hd Hre. left.
    destruct (save_cut k o1 d N o2 Hk Hd Hre) as (e2 & o3 & H1 & H2). exists e2, o3. split; [done|].
    destruct H2 as [|[_ H2]]; [by left|by right]. }
  apply wp_bind, wp_bind, wp_get, wp_ret. fold e. rewrite Hw. apply wp_bind, (wp_wal _ s w _ Hw).
  apply wp_bind, wp_bind, wp_get, wp_ret, wp_ret. cbn [WAL.s_wal WAL.s_os]. cbv zeta. fold image.
  fold e. rewrite (set_wal_same e w Hw). apply wp_bind, wp_zoom. cbn [s_os s_engine]. fold o snap_path.
  eapply wp_mono; [apply (save_spec host enumerate snap_path image o Htmp)|].
  intros r o1 (k & Hk & [Hsuf Hu] & Hr). destruct r as [[]|x|]; cbn [negb]; [| |done|]; last first.
  { eapply Hsave; [exact Hk|done|done|]. intros Hd. specialize (Hu Hd). rewrite Hr in Hu. cbn in Hu. lia. }
  { eapply wp_throw, Hsave; [exact Hk|done|done|]. intros Hd. by destruct Hr as (_ & _ & Hr). }
  destruct Hr as [-> Hfds]. apply wp_bind, wp_modify, wp_bind.
  apply (wp_wal _ _ w); [exact Hw|]. apply wp_modify. cbn [WAL.s_wal WAL.s_os s_engine s_os].
  set (w1 := WAL.set_epoch (u64 (WAL.m_epoch w + 1)) w). apply wp_bind.
  assert (Hopen : opened (WAL.St w1 o1) fd i f).
  { pose proof (rep_opened _ _ _ _ _ (er_rep _ _ _ _ _ _ _ _ He)) as [Hfd [off Hf]]. split; [exact Hfd|]. exists off.
    cbn [WAL.s_os] in *. fold o in Hf. unfold file_of in *. rewrite Hfds. destruct (os_fds o !! fd) as [[j off' app|]|]; [|done..].
    destruct Hk as (-> & _). destruct (os_inodes o !! j) as [g|] eqn:Ej; [|done]. cbn in Hf. injection Hf as -> -> -> ->.
    assert (Hin : os_names o ∈ dirs o) by (apply elem_of_app; right; by left).
    pose proof (do_log _ _ _ _ Hdisk _ Hin) as Hp. fold e path in Hp.
    by rewrite (apart_inode snap_path o path _ i _ Hlog_apart Hin Hp), Ej. }
  apply (wp_wal _ _ w1); [done|]. eapply wp_mono; [apply (reset_spec _ _ _ _ Hopen)|].
  intros r [w2 o2] (off & f' & sc & Eo & [_ Hu2] & Hres & Hx). cbn [WAL.s_wal WAL.s_os s_engine s_os] in *. subst o2.
  assert (Hcut : forall e1 r, m_data e1 = m_data e ->
    (r = Ret tt -> f_data f' = WAL.header_bytes /\ f_pending f' = [] /\
       exists w', erep host (St e1 (touch o1 fd i off f' sc)) w' fd i f' [] (exportSnapshotState (m_data e))) ->
    (r = Ret tt \/ (Forall (eq Done) (os_script o) -> (length (os_script o) <= 13)%nat)) ->
    snapshot_post r (St e1 (touch o1 fd i off f' sc))).
  { intros e1 r1 E1 Hret Hl. split_and!; [done| |].
    - intros d N o2 Hd Hre. assert (Hr1 : r1 = Ret tt \/ r1 <> Ret tt) by (destruct r1 as [[]| |]; auto).
      destruct (reset_cut o1 off f' sc d N o2 Hk Hres Hd Hre) as [(e2 & o3 & H1 & [H2|[[] _]])|[[H1 H2]|[H1 H2]]].
      + left. exists e2, o3. split; [done|by left].
      + destruct Hr1 as [->|Hr1]; [|by right]. destruct (Hret eq_refl) as [? _]. done.
      + destruct Hr1 as [->|Hr1]; [|by right]. destruct (Hret eq_refl) as (_ & ? & _). done.
    - destruct r1 as [[]| |]; [|by destruct Hl..]. destruct (Hret eq_refl) as (_ & _ & w' & H). by exists w', f'. }
  destruct r as [[]|x|]; cbn [negb]; [apply wp_ret, Hcut; [reflexivity| |by left]|apply wp_throw, Hcut; [reflexivity|discriminate|]|done|apply Hcut; [reflexivity|discriminate|]]; last first.
  { right. intros Hd. specialize (Hu Hd). specialize (Hu2 (suffix_Forall _ _ _ Hsuf Hd)). rewrite Hx in Hu2. cbn in Hu2. lia. }
  { right. intros Hd. destruct Hx as (_ & Hx & _). by destruct (Hx (suffix_Forall _ _ _ Hsuf Hd)). }
  intros _. destruct Hx as (-> & Hf1 & Hf2). split_and!; [done|done|].
  exists (WAL.set_pending 0 (WAL.set_chain 0 SHA256.zero_digest w1)).
  pose proof (rep_members _ _ _ _ _ (er_rep _ _ _ _ _ _ _ _ He)) as [_ _ [Hm _] Hn _]. cbn [WAL.s_wal] in *.
  assert (Eu : u64 (WAL.m_epoch w + 1) = WAL.m_epoch w + 1) by (apply u64_id; split; lia).
  split; cbn; [done| |exact (er_cap _ _ _ _ _ _ _ _ He)|done|by constructor|].
  - split; [by apply opened_intro; apply Hopen|split; [by rewrite Hf1, app_nil_r|constructor|by rewrite Hf1]|].
    split; cbn; [done|done| |done|lia]. apply u64_range.
  - symmetry. exact (fenced_contents [] (prefix_nil _)).
Qed.
End snapshot.
