(* ===== verification/EngineSpec.v ===== *)
(** * EngineSpec: the properties of the storage engine

    The effect of the operations on every outcome of the system calls, what
    readers see, the cap, and the engine across power cuts: the histories after
    a restart are those of a prefix of the operations, before, during and after
    a snapshot. *)

From Stdlib Require Import SpecFloat.
From stdpp Require Import gmap fin_maps.
From S2P Require Import Prelude Endian Exec Posix PosixFacts LogFormat LogTheory WAL WALFacts WalkFacts WALTheory WALSpec Snapshot SnapshotFacts SaveFacts SnapshotSpec Engine EngineFacts EngineTheory.

Import StorageEngine.

(** ** A concrete engine to run *)

Module EngineDemo.
Definition snap_path : string := "wal.log.snap".

Definition base : SnapshotState := {[ [x62] := [MkSnapshotRecord [x33] (Double false 0x405 0x9000000000000) 1] ]}.
Definition image : SnapshotImage := MkSnapshotImage 6 base.

(** A log that is empty and a snapshot with epoch 6, both durable. *)
Definition system (sc : list outcome) : os :=
  Os {[ 0%nat := File WAL.header_bytes [];
        1%nat := File (Snapshot.file_bytes LittleEndianHost map_to_list image) [] ]}
    {[ Demo.path := 0%nat; snap_path := 1%nat ]} [] {[ 0%nat := FdFile 0 16 true ]} sc.

(** At most two records per key, a log that is synchronised every two writes. *)
Definition object : engine := Engine (import 2 base) (Some Demo.object) Demo.path snap_path (Some 6) 2.

Definition start (sc : list outcome) : st := St object (system sc).

Lemma start_erep host sc : erep host (start sc) Demo.object 0 0 (File WAL.header_bytes []) [] base.
Proof.
  split; [done| |done|done|by constructor|done].
  split; [|apply Demo.start_holds|apply (rep_members _ _ _ _ _ (Demo.start_rep sc))].
  split; [done|]. exists 16%nat. reflexivity.
Qed.

(** 142.0, 138.0 and their average. *)
Definition q1 : op := Set_ [x61] [x31; x34; x32] (Double false 0x406 0x1C00000000000) 1000.
Definition q2 : op := Set_ [x61] [x31; x33; x38] (Double false 0x406 0x1400000000000) 2000.
Definition q3 : op := Remove [x62] 3000.

Lemma ops_ok : Forall op_ok [q1; q2; q3].
Proof.
  repeat constructor; cbn; unfold is_i64, is_u64, WAL.kMaxFieldSize, kMaxFieldSize; vm_compute; done.
Qed.

Lemma q1_typed : double_ok (Double false 0x406 0x1C00000000000) /\ is_i64 1000.
Proof. by split. Qed.
End EngineDemo.

(** ** Operations *)

(** The bytes an operation adds to the log. *)
Definition op_size (x : op) : Z := request_size (op_request LittleEndianHost x).

Lemma request_size_host host x : request_size (op_request host x) = op_size x.
Proof. unfold op_size. destruct x; cbn [op_request request_size]; [by rewrite !length_serialize|done]. Qed.

(** A key or a value over the limits. *)
Definition too_long (x : op) : bool :=
  match x with
  | Set_ key value _ _ => (WAL.kMaxFieldSize <? zlen key) || (kMaxFieldSize <? zlen value)
  | Remove key _ => WAL.kMaxFieldSize <? zlen key
  end.

(** The arguments are values of their types. *)
Definition op_typed (x : op) : Prop :=
  match x with Set_ _ _ duration now => double_ok duration /\ is_i64 now | Remove _ now => is_i64 now end.

Lemma op_ok_typed x : op_typed x -> too_long x = false -> op_ok x.
Proof.
  destruct x; cbn.
  - intros [H1 H2] [H3%Z.ltb_ge H4%Z.ltb_ge]%orb_false_iff. by split_and!.
  - intros H1 H2%Z.ltb_ge. by split.
Qed.

Lemma run_op_too_long host x s w :
  m_wal (s_engine s) = Some w -> too_long x = true ->
  exists what, run_op host x s = (Throw (length_error what), s).
Proof.
  intros Hw. destruct s as [e o]. cbn [s_engine] in Hw. destruct x as [key value duration now|key now]; cbn [too_long run_op].
  - intros H. unfold set. destruct (WAL.kMaxFieldSize <? zlen key); [by eexists|]. cbn [orb] in H. rewrite H. by eexists.
  - intros H. unfold remove, bind, this, bind, Exec.get, ret. cbn [s_engine]. rewrite Hw, (run_wal _ _ w) by done.
    unfold WAL.append. rewrite H. cbn [orb fst snd throw s_engine s_os WAL.s_wal WAL.s_os]. eexists. f_equal.
    f_equal. destruct e; cbn in *. by subst.
Qed.

(** C9: The effect of [set] and [remove] on every outcome of the system calls.
    A key or a value over the limits is refused without any effect.  Otherwise,
    if the operation returns, the histories are those of the specification
    (append to the key's history and keep the last records up to the cap; drop
    the key) and the log has one more entry, which recovery turns into the same
    change; if it throws or power is lost, the histories are unchanged.  Three
    calls that succeed are enough for it to return. *)
Theorem operation_effect host x s w fd i f es base :
  erep host s w fd i f es base -> op_typed x -> zlen (f_data f) + op_size x < 2 ^ 63 ->
  let '(r, s') := run_op host x s in
  if too_long x then (exists what, r = Throw (length_error what)) /\ s' = s else
  match r with
  | Ret _ =>
      m_data (s_engine s') = op_spec (m_maxHistoryPerKey (s_engine s)) x (m_data (s_engine s)) /\
      exists w' f', erep host s' w' fd i f' (es ++ entries_of host w [x]) base
  | Throw e =>
      m_data (s_engine s') = m_data (s_engine s) /\
      (e = runtime_error "Failed to write entry to WAL" \/ e = runtime_error "fsync failed")
  | Halt => m_data (s_engine s') = m_data (s_engine s)
  end /\
  (Forall (eq Done) (os_script (s_os s)) -> (2 < length (os_script (s_os s)))%nat -> r = Ret tt).
Proof.
  intros He Hty Hroom. destruct (too_long x) eqn:Elong.
  { destruct (run_op_too_long host x s w (er_wal _ _ _ _ _ _ _ _ He) Elong) as [what ->]. by split; [exists what|]. }
  pose proof (op_ok_typed x Hty Elong) as Hx. pose proof He as [Hw Hr Hc Hep Hfence Hdata].
  pose proof (run_op_append host x s w Hw Hx Hc (erep_data_ok _ _ _ _ _ _ _ _ He)) as Hrun.
  pose proof (op_request_ok host x Hx) as Hq. pose proof (request_size_host host x) as Hsz.
  unfold entries_of; cbn [fmap list_fmap]. pose proof (contents_ops host (m_maxHistoryPerKey (s_engine s))
    (m_snapshotEpoch (s_engine s)) base es w [x] Hc ltac:(by destruct (m_snapshotEpoch (s_engine s)))
    ltac:(by constructor)) as Hcont.
  unfold entries_of in Hcont; cbn [fmap list_fmap] in Hcont.
  destruct (op_request host x) as [[[type key] blob] ts]. destruct Hq as (Ht & Hk & Hv). cbn in Hsz.
  pose proof (append_spec _ fd i f es type key blob ts Hr Ht Hk Hv ltac:(lia)) as Hpost. unfold wp in Hpost.
  destruct (WAL.append type key blob ts (WAL.St w (s_os s))) as [r [w' o']]. cbn [fst snd WAL.s_wal WAL.s_os] in *.
  rewrite Hrun. split.
  - destruct r as [[]|y|]; cbn [s_engine m_data set_data]; [|split; [done|]|done].
    + split; [done|]. destruct (append_rep _ _ _ _ _ _ _ _ _ _ Hr Ht Hk Hv Hpost) as [f' Hr'].
      exists w', f'. destruct Hpost as (off & f2 & sc2 & _ & _ & _ & Hw').
      cbn [WAL.s_wal] in Hw'. assert (Em : WAL.m_epoch w' = WAL.m_epoch w) by (by destruct Hw' as [(-> & _)|(-> & _)]).
      split; cbn; [done|exact Hr'|done|by rewrite Em| |].
      * rewrite Em. apply Forall_app; split; [done|]. constructor; [cbn; lia|done].
      * etrans; [|symmetry; exact Hcont]. by rewrite Hdata.
    + destruct Hpost as (off & f2 & sc2 & _ & _ & [(-> & _)|(-> & _)]); auto.
  - intros Hd Hl. exact (append_done (WAL.St w (s_os s)) fd i f es type key blob ts r _ Hd Hl Hpost).
Qed.

(** A synchronised [set], and one whose write fails half-way. *)
Lemma operation_effect_witness :
  (exists s', run_op LittleEndianHost EngineDemo.q1 (EngineDemo.start [Done; Done; Done]) = (Ret tt, s') /\
     m_data (s_engine s') !! [x61] = Some [MkRecord [x31; x34; x32] (Double false 0x406 0x1C00000000000) 1000]) /\
  (exists e s', run_op LittleEndianHost EngineDemo.q1 (EngineDemo.start [Short 4; Err]) = (Throw e, s') /\
     m_data (s_engine s') = m_data EngineDemo.object).
Proof.
  split.
  - pose proof (operation_effect LittleEndianHost EngineDemo.q1 _ _ _ _ _ _ _ (EngineDemo.start_erep _ [Done; Done; Done])
      EngineDemo.q1_typed eq_refl) as H.
    destruct (run_op _ _ _) as [r s']. destruct H as [H Hd].
    assert (r = Ret tt) as -> by (apply Hd; [by repeat constructor|by apply Nat.ltb_lt]).
    exists s'. split; [done|]. rewrite (proj1 H). vm_compute. reflexivity.
  - pose proof (operation_effect LittleEndianHost EngineDemo.q1 _ _ _ _ _ _ _ (EngineDemo.start_erep _ [Short 4; Err])
      EngineDemo.q1_typed eq_refl) as H.
    assert (E : exists e, fst (run_op LittleEndianHost EngineDemo.q1 (EngineDemo.start [Short 4; Err])) = Throw e)
      by (eexists; vm_compute; reflexivity).
    destruct (run_op _ _ _) as [r s']. destruct E as [e E]. cbn [fst] in E. subst r. exists e, s'. by destruct H as [[H _] _].
Defined.

(** ** Reading *)

(** What the calls of an operation leave alone. *)
Lemma wal_keeps {A} (m : M WAL.st A) s :
  m_data (s_engine (snd (wal m s))) = m_data (s_engine s) /\
  m_maxHistoryPerKey (s_engine (snd (wal m s))) = m_maxHistoryPerKey (s_engine s).
Proof.
  unfold wal. destruct (m_wal (s_engine s)) as [w|]; [|done]. by destruct (m (WAL.St w (s_os s))).
Qed.

Lemma set_result host key value duration now s :
  let '(r, s') := set host key value duration now s in
  m_maxHistoryPerKey (s_engine s') = m_maxHistoryPerKey (s_engine s) /\
  m_data (s_engine s') =
    match r with
    | Ret _ => appendCapped (m_maxHistoryPerKey (s_engine s)) key value duration now (m_data (s_engine s))
    | _ => m_data (s_engine s)
    end.
Proof.
  unfold set. destruct (_ <? _); [done|]. destruct (_ <? _); [done|].
  unfold bind, this, bind, Exec.get, ret. destruct (m_wal (s_engine s)) as [w|]; [|done].
  pose proof (wal_keeps (WAL.append PUT key (serialize host duration value) now) s) as [H1 H2].
  destruct (wal _ s) as [[[]|x|] s1]; cbn [snd] in *; cbn; [by rewrite H1, H2|done|done].
Qed.

Lemma remove_result key now s :
  let '(r, s') := remove key now s in
  m_maxHistoryPerKey (s_engine s') = m_maxHistoryPerKey (s_engine s) /\
  match r with
  | Ret b => m_data (s_engine s') = delete key (m_data (s_engine s)) /\
      b = bool_decide (is_Some (m_data (s_engine s) !! key))
  | _ => m_data (s_engine s') = m_data (s_engine s)
  end.
Proof.
  unfold remove. unfold bind, this, bind, Exec.get, ret. destruct (m_wal (s_engine s)) as [w|]; [|done].
  pose proof (wal_keeps (WAL.append DELETE key [] now) s) as [H1 H2].
  destruct (wal _ s) as [[[]|x|] s1]; cbn [snd] in *; cbn; [by rewrite H1, H2|done|done].
Qed.

(** The reading methods, as functions of the histories. *)
Lemma readers_eq s key :
  get key s = (Ret (value <$> last (history (m_data (s_engine s)) key)), s) /\
  historyCount key s = (Ret (zlen (history (m_data (s_engine s)) key)), s) /\
  count s = (Ret (Z.of_nat (size (m_data (s_engine s)))), s).
Proof.
  unfold get, historyCount, count, history, bind, this, bind, Exec.get, ret.
  by destruct (m_data (s_engine s) !! key).
Qed.

Lemma history_insert key key' h d :
  history (<[key := h]> d) key' = if decide (key = key') then h else history d key'.
Proof.
  unfold history. destruct (decide (key = key')) as [<-|Hne]; [by rewrite lookup_insert_eq|].
  by rewrite lookup_insert_ne.
Qed.

Lemma getAverage_local key s s' :
  m_data (s_engine s) !! key = m_data (s_engine s') !! key -> fst (getAverage key s) = fst (getAverage key s').
Proof.
  intros H. unfold getAverage, bind, this, bind, Exec.get, ret. rewrite H.
  by destruct (m_data (s_engine s') !! key) as [[|]|].
Qed.

Lemma fmap_keep {A B} (f : A -> B) cap h : f <$> keep cap h = keep cap (f <$> h).
Proof. unfold keep. destruct (_ =? _); [done|]. by rewrite fmap_drop, length_fmap. Qed.

Lemma keep_last {A} cap (h : list A) a : 0 <= cap -> last (keep cap (h ++ [a])) = Some a.
Proof.
  intros Hc. unfold keep, kUnlimitedHistory. destruct (Z.eqb_spec cap 0); [apply last_snoc|].
  rewrite length_app. cbn [length]. rewrite drop_app_le by lia. apply last_snoc.
Qed.

(** The mean of some durations: their sum in the order given, each addition
    rounded as IEEE-754 prescribes for binary64, divided by their number. *)
Definition mean (ds : list double) : spec_float :=
  SFdiv 53 1024 (fold_left (SFadd 53 1024) (sf_of_double <$> ds) (S754_zero false))
    (binary_normalize 53 1024 (zlen ds) 0 false).

Lemma sum_fmap h sum :
  fold_left (fun sum r => SFadd 53 1024 sum (sf_of_double (duration r))) h sum =
  fold_left (SFadd 53 1024) (sf_of_double <$> (duration <$> h)) sum.
Proof. revert sum. induction h as [|r h IH]; intros sum; [done|]. cbn [fmap list_fmap fold_left]. apply IH. Qed.

Lemma getAverage_mean key s :
  fst (getAverage key s) =
  Ret (match history (m_data (s_engine s)) key with [] => None | h => Some (mean (duration <$> h)) end).
Proof.
  unfold getAverage, history, bind, this, bind, Exec.get, ret. destruct (m_data (s_engine s) !! key) as [[|r h]|]; [done| |done].
  cbn [default from_option id fst]. unfold mean, sf_of_size. by rewrite sum_fmap, length_fmap.
Qed.

(** C24: Readers see what was written.  After a [set] that returned, with or
    without a log, [get] gives the value, [getAverage] the mean of the durations
    of the history with the new one at its end, cut to the cap, and
    [historyCount] its length; every other key reads as before, and the number
    of keys grows by one if the key is new. *)
Theorem set_is_read host key v duration' now s s' :
  0 <= m_maxHistoryPerKey (s_engine s) ->
  data_ok (m_maxHistoryPerKey (s_engine s)) (m_data (s_engine s)) ->
  set host key v duration' now s = (Ret tt, s') ->
  let cap := m_maxHistoryPerKey (s_engine s) in
  let n := zlen (history (m_data (s_engine s)) key) in
  fst (get key s') = Ret (Some v) /\
  fst (getAverage key s') =
    Ret (Some (mean (keep cap ((duration <$> history (m_data (s_engine s)) key) ++ [duration'])))) /\
  fst (historyCount key s') = Ret (if cap =? kUnlimitedHistory then n + 1 else Z.min (n + 1) cap) /\
  fst (count s') = Ret (Z.of_nat (size (m_data (s_engine s))) + (if n =? 0 then 1 else 0)) /\
  forall key', key' <> key ->
    fst (get key' s') = fst (get key' s) /\ fst (historyCount key' s') = fst (historyCount key' s) /\
    fst (getAverage key' s') = fst (getAverage key' s).
Proof.
  intros Hc Hok E. cbv zeta. pose proof (set_result host key v duration' now s) as H. rewrite E in H.
  destruct H as [_ Hd]. rewrite appendCapped_keep in Hd by (done || by apply data_ok_history).
  set (d := m_data (s_engine s)) in *. set (cap := m_maxHistoryPerKey (s_engine s)) in *.
  set (h := keep cap (history d key ++ [MkRecord v duration' now])) in *.
  destruct (readers_eq s' key) as (-> & -> & ->). rewrite Hd, history_insert, decide_True by done. split_and!.
  - unfold h. by rewrite keep_last.
  - rewrite getAverage_mean, Hd, history_insert, decide_True by done.
    pose proof (keep_last cap (history d key) (MkRecord v duration' now) Hc) as Hl. fold h in Hl.
    assert (Eh : duration <$> h = keep cap ((duration <$> history d key) ++ [duration']))
      by (unfold h; by rewrite fmap_keep, fmap_app).
    rewrite <- Eh. by destruct h.
  - unfold h. rewrite length_keep by done. unfold kUnlimitedHistory. rewrite length_app. cbn [length fst].
    f_equal. destruct (Z.eqb_spec cap 0); lia.
  - cbn [fst]. f_equal. destruct (d !! key) as [h0|] eqn:Ek.
    + rewrite map_size_insert_Some by (by exists h0). unfold history. rewrite Ek. cbn.
      destruct (Hok key h0 Ek) as [Hne _]. destruct h0 as [|r0 h0]; [done|]. cbn [length]. destruct (Z.eqb_spec (Z.of_nat (S (length h0))) 0); lia.
    + rewrite map_size_insert_None by done. unfold history. rewrite Ek. cbn [default from_option length Z.of_nat Z.eqb id]. change (Z.of_nat 0 =? 0) with true. cbv iota. lia.
  - intros key' Hne. destruct (readers_eq s' key') as (-> & -> & _). destruct (readers_eq s key') as (-> & -> & _).
    rewrite Hd, history_insert, decide_False by done. split_and!; [done|done|]. apply getAverage_local.
    rewrite Hd. by apply lookup_insert_ne.
Qed.

(** The example of the README: durations of 142.0 and 138.0, and their mean. *)
Lemma set_is_read_witness :
  let s := snd (run_op LittleEndianHost EngineDemo.q1 (St (makeInMemory 0) (Os ∅ ∅ [] ∅ []))) in
  exists s', set LittleEndianHost [x61] [x31; x33; x38] (Double false 0x406 0x1400000000000) 2000 s = (Ret tt, s') /\
    fst (get [x61] s') = Ret (Some [x31; x33; x38]) /\
    fst (getAverage [x61] s') = Ret (Some (sf_of_double (Double false 0x406 0x1800000000000))) /\
    fst (historyCount [x61] s') = Ret 2 /\ fst (count s') = Ret 1.
Proof.
  cbv zeta. set (s := snd _).
  assert (Hok : data_ok (m_maxHistoryPerKey (s_engine s)) (m_data (s_engine s))).
  { change (m_maxHistoryPerKey (s_engine s)) with 0.
    change (m_data (s_engine s)) with (appendCapped 0 [x61] [x31; x34; x32] (Double false 0x406 0x1C00000000000) 1000 ∅).
    apply data_ok_append; [done|apply data_ok_empty]. }
  eexists. split; [reflexivity|].
  destruct (set_is_read LittleEndianHost [x61] [x31; x33; x38] (Double false 0x406 0x1400000000000) 2000 s _
    (Z.le_refl 0) Hok eq_refl) as (H1 & H2 & H3 & H4 & _).
  split; [exact H1|]. split; [rewrite H2; vm_compute; reflexivity|]. split; [exact H3|exact H4].
Defined.

(** C25: [remove] answers whether the key was there; afterwards, if it returned,
    the key is absent and every other key reads as before. *)
Theorem remove_is_read key now s b s' :
  data_ok (m_maxHistoryPerKey (s_engine s)) (m_data (s_engine s)) ->
  remove key now s = (Ret b, s') ->
  (b = true <-> exists n, fst (historyCount key s) = Ret n /\ 0 < n) /\
  fst (get key s') = Ret None /\ fst (getAverage key s') = Ret None /\ fst (historyCount key s') = Ret 0 /\
  fst (count s') = Ret (Z.of_nat (size (m_data (s_engine s))) - (if b then 1 else 0)) /\
  forall key', key' <> key ->
    fst (get key' s') = fst (get key' s) /\ fst (historyCount key' s') = fst (historyCount key' s) /\
    fst (getAverage key' s') = fst (getAverage key' s).
Proof.
  intros Hok E. pose proof (remove_result key now s) as H. rewrite E in H. destruct H as (_ & Hd & Hb).
  set (d := m_data (s_engine s)) in *.
  destruct (readers_eq s' key) as (-> & -> & ->). destruct (readers_eq s key) as (_ & -> & _). rewrite Hd. fold d.
  assert (Hn : history (delete key d) key = []) by (unfold history; by rewrite lookup_delete_eq).
  rewrite Hn. split_and!; [|done| |done| |].
  - rewrite Hb, bool_decide_eq_true. unfold history. split.
    + intros [h Eh]. rewrite Eh. destruct (Hok key h Eh) as [Hne _]. eexists. split; [done|]. destruct h; [done|]. cbn. lia.
    + intros (n & [= <-] & Hpos). destruct (d !! key); [done|]. cbn in Hpos. lia.
  - unfold getAverage, bind, this, bind, Exec.get, ret. by rewrite Hd, lookup_delete_eq.
  - cbn [fst]. f_equal. rewrite Hb. case_bool_decide as Hs.
    + destruct Hs as [h Eh]. rewrite map_size_delete_Some by (by eexists).
      assert (size d <> O) by (intros H0; apply map_size_empty_inv in H0; by rewrite H0, lookup_empty in Eh). lia.
    + rewrite map_size_delete_None by (by destruct (d !! key); [destruct Hs; eexists|]). lia.
  - intros key' Hne. destruct (readers_eq s' key') as (-> & -> & _). destruct (readers_eq s key') as (-> & -> & _).
    rewrite Hd. unfold history. rewrite lookup_delete_ne by done. split_and!; [done|done|]. apply getAverage_local.
    rewrite Hd. by apply lookup_delete_ne.
Qed.

Lemma remove_is_read_witness :
  exists s', remove [x62] 9 (EngineDemo.start [Done; Done]) = (Ret true, s') /\
    fst (get [x62] s') = Ret None /\ fst (count s') = Ret 0.
Proof.
  assert (E : fst (remove [x62] 9 (EngineDemo.start [Done; Done])) = Ret true) by (vm_compute; reflexivity).
  pose proof (remove_is_read [x62] 9 (EngineDemo.start [Done; Done])) as H.
  destruct (remove _ _ _) as [r s']. cbn [fst] in E. subst r. exists s'.
  destruct (H true s' (erep_data_ok _ _ _ _ _ _ _ _ (EngineDemo.start_erep LittleEndianHost _)) eq_refl) as (_ & H1 & _ & _ & H2 & _).
  by split_and!.
Defined.

(** ** The cap *)

Section reachable.
Context (host : host_order) (enumerate : SnapshotState -> list (bytes * list SnapshotRecord)).
Context `{!Enumeration enumerate}.

(** The engines a program can get, whatever happens to the files and whatever
    the outcomes of the system calls, also after exceptions. *)
Inductive reachable (cap : Z) : st -> Prop :=
  | reach_construct path N o e o' :
      construct host enumerate path cap N o = (Ret e, o') -> reachable cap (St e o')
  | reach_memory o : reachable cap (St (makeInMemory cap) o)
  | reach_system e o o' : reachable cap (St e o) -> reachable cap (St e o')
  | reach_op x s r s' : reachable cap s -> run_op host x s = (r, s') -> reachable cap s'
  | reach_snapshot s r s' : reachable cap s -> snapshot host enumerate s = (r, s') -> reachable cap s'
  | reach_recover s r s' : reachable cap s -> recover host enumerate s = (r, s') -> reachable cap s'.

(** The histories respect the cap [cap] of the engine. *)
Definition capped (cap : Z) (s : st) : Prop :=
  m_maxHistoryPerKey (s_engine s) = cap /\ data_ok cap (m_data (s_engine s)).

Lemma wp_wal_any {A} (m : M WAL.st A) s (P : A -> Prop) (Q : result A -> st -> Prop) :
  (forall w, wp m (WAL.St w (s_os s)) (fun r _ => match r with Ret a => P a | _ => True end)) ->
  (forall r w o, match r with Ret a => P a | _ => True end -> Q r (St (set_wal w (s_engine s)) o)) ->
  wp (wal m) s Q.
Proof.
  intros Hm HQ. unfold wp, wal. destruct (m_wal (s_engine s)) as [w|] eqn:Ew.
  - specialize (Hm w). unfold wp in Hm. destruct (m (WAL.St w (s_os s))) as [r s']. by apply HQ.
  - specialize (HQ (Throw (undefined_behaviour "call through a null m_wal")) None (s_os s) I).
    replace (set_wal None (s_engine s)) with (s_engine s) in HQ by (destruct (s_engine s); cbn in *; by subst).
    by destruct s.
Qed.

Lemma wp_any_wal {A} (m : M WAL.st A) s (Q : result A -> st -> Prop) :
  (forall r w o, Q r (St (set_wal w (s_engine s)) o)) -> wp (wal m) s Q.
Proof. intros HQ. apply (wp_wal_any _ _ (fun _ => True)); [|auto]. intros w. unfold wp. by destruct (fst _). Qed.

Lemma recover_capped s : 0 <= m_maxHistoryPerKey (s_engine s) ->
  wp (recover host enumerate) s (fun _ s' => capped (m_maxHistoryPerKey (s_engine s)) s').
Proof.
  intros Hc. set (cap := m_maxHistoryPerKey (s_engine s)) in *.
  unfold recover. apply wp_bind, wp_modify, wp_bind, wp_modify, wp_bind, wp_bind, wp_get, wp_ret, wp_bind, wp_zoom.
  unfold wp at 1. destruct (Snapshot.load _ _ _ _) as [[[ok image]|x|] o1]; cbn [fst snd s_engine s_os].
  2,3: by split; [|apply data_ok_empty].
  apply wp_bind.
  assert (Hrest : forall s1, capped cap s1 -> wp (e <- this ;;
    let* (result, d) := wal (WAL.recover (replay_entry host (m_maxHistoryPerKey e)) (m_snapshotEpoch e) (m_data e)) in
    update (set_data d) ;;;
    let at_ := pretty.pretty (r_tamperOffset result) +:+ " (seq " +:+ pretty.pretty (r_tamperSeq result) in
    if bool_decide (r_status result = Tampered) then
      throw (runtime_error ("WAL tampering detected at offset " +:+ at_ +:+ ")"))
    else if bool_decide (r_status result = Malformed) then
      throw (runtime_error ("WAL field exceeds the size limit at offset " +:+ at_ +:+ ") - foreign or stale file"))
    else ret tt) s1 (fun _ s' => capped cap s')).
  { intros s1 [Hcap Hd]. apply wp_bind, wp_bind, wp_get, wp_ret, wp_bind.
    apply (wp_wal_any _ _ (fun x => data_ok cap (snd x))).
    - intros w. eapply wp_mono; [apply (recover_inv (data_ok cap))|].
      + intros type key v ts d Hd'. rewrite Hcap. by apply data_ok_replay.
      + done.
      + by intros [[res d]| |] ?.
    - intros [[res d]|x|] w o2 Hres; [|done..]. apply wp_bind, wp_modify. cbn.
      destruct (bool_decide (r_status res = Tampered)); [by split|]. by destruct (bool_decide (r_status res = Malformed)); split. }
  destruct ok.
  - apply wp_bind, wp_modify, wp_bind, wp_modify. cbn [s_engine s_os set_data set_snapshotEpoch m_data m_maxHistoryPerKey].
    rewrite replay_snapshot_import by done. apply wp_any_wal. intros r w o2.
    assert (Hcapped : forall w, capped cap (St (set_wal w (set_data (import cap (si_state image))
      (set_snapshotEpoch (Some (si_epoch image)) (set_data ∅ (s_engine s))))) o2))
      by (intros; split; [done|by apply data_ok_import]).
    destruct r; [apply Hrest, Hcapped|apply Hcapped..].
  - apply wp_any_wal. intros r w o2.
    assert (Hcapped : forall w, capped cap (St (set_wal w (set_snapshotEpoch None (set_data ∅ (s_engine s)))) o2))
      by (intros; split; [done|apply data_ok_empty]).
    destruct r; [apply Hrest, Hcapped|apply Hcapped..].
Qed.

Lemma snapshot_capped cap s : capped cap s -> wp (snapshot host enumerate) s (fun _ s' => capped cap s').
Proof.
  intros [Hcap Hd]. apply wp_bind, wp_bind, wp_get, wp_ret.
  destruct (m_wal (s_engine s)) as [w|]; [|by apply wp_throw]. apply wp_bind, wp_any_wal. intros [n|x|] w1 o1; [|done..].
  apply wp_bind, wp_zoom. unfold wp at 1. destruct (Snapshot.save _ _ _ _ _) as [[ok|x|] o2]; cbn [fst snd]; [|done..].
  destruct ok; cbn [negb]; [|by apply wp_throw]. apply wp_bind, wp_modify, wp_bind, wp_any_wal. intros [[]|x|] w2 o3; [|done..].
  apply wp_bind, wp_any_wal. intros [[]|x|] w3 o4; [|by apply wp_throw|done..]. by apply wp_ret.
Qed.

Lemma run_op_capped cap x s : 0 <= cap -> capped cap s -> capped cap (snd (run_op host x s)).
Proof.
  intros Hc [Hcap Hd]. destruct x as [key v duration now|key now]; cbn [run_op].
  - pose proof (set_result host key v duration now s) as H. destruct (set _ _ _ _ _ _) as [r s']. destruct H as [H1 H2].
    split; cbn [snd]; [congruence|]. rewrite H2, Hcap. destruct r; [by apply data_ok_append|done..].
  - pose proof (remove_result key now s) as H. unfold bind. destruct (remove _ _ _) as [[b|x|] s']; destruct H as [H1 H2];
      (split; cbn [snd ret]; [congruence|]); [destruct H2 as [-> _]; by apply data_ok_delete|by rewrite H2..].
Qed.

Lemma reachable_capped cap s : 0 <= cap -> reachable cap s -> capped cap s.
Proof.
  intros Hc H. induction H as [path N o e o' E|o|e o o' H IH|x s r s' H IH E|s r s' H IH E|s r s' H IH E].
  - unfold construct in E. destruct (WAL.open path N o) as [[w|x|] o1]; [|done..].
    pose proof (recover_capped (St (Engine ∅ (Some w) path (makeSnapshotPath path) None cap) o1) Hc) as Hr.
    unfold wp in Hr. destruct (recover _ _ _) as [[[]|x|] s1]; [|by destruct (destroy s1) as [[]]|done].
    destruct s1. cbn [s_engine s_os] in *. by injection E as <- <-.
  - split; [done|apply data_ok_empty].
  - exact IH.
  - pose proof (run_op_capped cap x s Hc IH) as Hr. by rewrite E in Hr.
  - pose proof (snapshot_capped cap s IH) as Hr. unfold wp in Hr. by rewrite E in Hr.
  - pose proof (recover_capped s) as Hr. destruct IH as [Hcap _]. rewrite Hcap in Hr. unfold wp in Hr. rewrite E in Hr.
    by apply Hr.
Qed.

(** C14: No history is ever over the cap, and none is empty.  This holds of every
    engine a program can get, by any sequence of operations, snapshots and
    recoveries, whatever the files hold, whatever the system calls answer, and
    also after exceptions; so [get] finds a value exactly for the keys that are
    counted. *)
Theorem histories_capped cap s key :
  0 <= cap -> reachable cap s ->
  exists n, fst (historyCount key s) = Ret n /\ (cap <> kUnlimitedHistory -> n <= cap) /\
    (fst (get key s) = Ret None <-> n = 0) /\
    (n = 0 <-> m_data (s_engine s) !! key = None).
Proof.
  intros Hc Hs. destruct (reachable_capped cap s Hc Hs) as [_ Hd]. destruct (readers_eq s key) as (-> & -> & _).
  eexists. split; [done|]. set (d := m_data (s_engine s)) in *.
  assert (Hk : history d key = [] <-> d !! key = None).
  { unfold history. destruct (d !! key) as [h|] eqn:E; [|done]. destruct (Hd key h E) as [Hne _]. cbn. by split. }
  assert (Hn : zlen (history d key) = 0 <-> history d key = []) by (destruct (history d key); cbn; split; [done|done|lia|done]).
  split_and!.
  - intros Hne. destruct (keep_le cap (history d key) (data_ok_history cap d key Hd)) as [|Hle]; [done|lia].
  - rewrite Hn. cbn [fst]. destruct (history d key) as [|r h] using rev_ind; [done|]. rewrite last_snoc. split; [done|].
    intros E%(f_equal length). rewrite length_app in E. cbn in E. lia.
  - by rewrite Hn.
Qed.
End reachable.

Lemma histories_capped_witness :
  exists s, reachable LittleEndianHost map_to_list 1 s /\ fst (historyCount [x61] s) = Ret 1 /\
    exists n, fst (historyCount [x61] s) = Ret n /\ (1 <> kUnlimitedHistory -> n <= 1).
Proof.
  set (s0 := St (makeInMemory 1) (Os ∅ ∅ [] ∅ [])).
  set (s1 := snd (run_op LittleEndianHost EngineDemo.q1 s0)). set (s2 := snd (run_op LittleEndianHost EngineDemo.q2 s1)).
  assert (H2 : reachable LittleEndianHost map_to_list 1 s2).
  { eapply (reach_op _ _ _ EngineDemo.q2 s1 (Ret tt)); [|reflexivity].
    eapply (reach_op _ _ _ EngineDemo.q1 s0 (Ret tt)); [|reflexivity]. apply reach_memory. }
  exists s2. split; [exact H2|]. split; [vm_compute; reflexivity|].
  destruct (histories_capped LittleEndianHost map_to_list 1 s2 [x61] Z.le_0_1 H2) as (n & H & Hn & _). by exists n.
Defined.

(** ** Recovery *)

(** C3: What the constructor makes of the files.  With a log whose header is
    valid it reads the snapshot, if there is one that [load] accepts, and the
    log.  If the log is intact or its tail is torn, it returns an engine whose
    histories are those of the snapshot and then of the entries above the epoch
    of the snapshot, in order, under the cap, whatever the order in which the
    snapshot is enumerated.  If the log was tampered with or is malformed it
    throws, changes nothing in the file and leaves no descriptor open. *)
Theorem construct_judges (host : host_order) (enumerate : SnapshotState -> list (bytes * list SnapshotRecord))
    `{!Enumeration enumerate} path cap N o i f :
  os_names o !! path = Some i -> os_inodes o !! i = Some f ->
  valid_header (f_data f) = true -> zlen (f_data f) < 2 ^ 63 ->
  os_names o !! makeSnapshotPath path <> Some i -> 0 <= cap ->
  Forall (eq Done) (os_script o) -> (length (f_data f) + 40 <= length (os_script o))%nat ->
  let snap := loads host (read_file o (makeSnapshotPath path)) in
  let log := walk (drop WAL.kHeaderSize (f_data f)) in
  match w_status log with
  | Ok | TruncatedTail => exists e o', construct host enumerate path cap N o = (Ret e, o') /\
      m_data e = contents host cap (snap_epoch snap) (snap_state snap) (w_entries log) /\
      m_snapshotEpoch e = snap_epoch snap
  | Tampered | Malformed => exists what o', construct host enumerate path cap N o = (Throw (runtime_error what), o') /\
      os_inodes o' !! i = Some f /\ os_fds o' = os_fds o /\ os_names o' = os_names o
  end.
Proof.
  intros Hn Hi Hv Hz Hp Hc Hd Hl. cbv zeta.
  destruct (construct_done host enumerate path cap N o i f Hn Hi (or_intror Hv) Hz Hp Hc Hd Hl) as (f1 & _ & Hf & Hx).
  assert (f1 = f) as -> by (apply Hf; intros E; by rewrite E in Hv). cbv zeta in Hx.
  unfold recover_verdict, result_for in Hx. change (log_part f) with (drop WAL.kHeaderSize (f_data f)) in Hx.
  destruct (w_status (walk (drop WAL.kHeaderSize (f_data f)))); cbn [r_status result_of] in Hx.
  1,2: destruct Hx as (off & sc & Hx); eexists _, _; split; [exact Hx|done].
  all: destruct Hx as (sc & Hx); eexists _, _; split; [exact Hx|]; split_and!; [apply lookup_insert_eq|done|done].
Qed.

(** The demonstration log, intact and with a byte changed, next to a snapshot. *)
Lemma construct_judges_witness :
  let o c := Os {[ 0%nat := File c []; 1%nat := File (Snapshot.file_bytes LittleEndianHost map_to_list EngineDemo.image) [] ]}
    {[ Demo.path := 0%nat; EngineDemo.snap_path := 1%nat ]} [] ∅ (replicate 300 Done) in
  (exists e o', construct LittleEndianHost map_to_list Demo.path 0 1 (o demo_log) = (Ret e, o') /\ m_snapshotEpoch e = Some 6) /\
  exists what o', construct LittleEndianHost map_to_list Demo.path 0 1 (o (flip demo_log 53 xff)) = (Throw (runtime_error what), o').
Proof.
  intros o. split.
  - pose proof (construct_judges LittleEndianHost map_to_list Demo.path 0 1 (o demo_log) 0 (File demo_log [])) as H.
    assert (Ew : w_status (walk (drop WAL.kHeaderSize (f_data (File demo_log [])))) = Ok) by (vm_compute; reflexivity).
    cbv zeta in H. rewrite Ew in H. destruct H as (e & o' & H1 & _ & H2); [reflexivity|reflexivity|reflexivity|reflexivity|discriminate|lia
      |by apply Forall_replicate|by apply Nat.leb_le; vm_compute|].
    exists e, o'. split; [exact H1|]. rewrite H2. vm_compute. reflexivity.
  - pose proof (construct_judges LittleEndianHost map_to_list Demo.path 0 1 (o (flip demo_log 53 xff)) 0 (File (flip demo_log 53 xff) [])) as H.
    assert (Ew : w_status (walk (drop WAL.kHeaderSize (f_data (File (flip demo_log 53 xff) [])))) = Tampered) by (vm_compute; reflexivity).
    cbv zeta in H. rewrite Ew in H. destruct H as (what & o' & H1 & _); [reflexivity|reflexivity|vm_compute; reflexivity|vm_compute; reflexivity|discriminate|lia
      |by apply Forall_replicate|by apply Nat.leb_le; vm_compute|].
    by exists what, o'.
Defined.

(** ** Power cuts *)

Lemma total_size_ops host l : total_size (op_request host <$> l) = foldr (fun x n => op_size x + n) 0 l.
Proof.
  unfold total_size. induction l as [|x l IH]; [done|]. cbn [fmap list_fmap foldr]. by rewrite request_size_host, IH.
Qed.

(** C1: Acknowledged operations survive power cuts.  A client runs operations
    until the first one that does not return, for any outcomes of the system
    calls; then power is cut.  Whatever the cut leaves on the disk, the next
    start succeeds, and its histories are those of the snapshot and a prefix of
    the entries, which lacks at most [syncEveryN - 1] acknowledged operations.
    When every write is synchronised, the histories are exactly those after the
    acknowledged operations, or after the one that was interrupted as well. *)
Theorem acknowledged_ops_survive (host : host_order) (enumerate : SnapshotState -> list (bytes * list SnapshotRecord))
    `{!Enumeration enumerate} s w fd i f es base l N d o2 :
  erep host s w fd i f es base -> disk_ok host s i base -> window f es (WAL.m_pendingWrites w) ->
  WAL.m_pendingWrites w < WAL.m_syncEveryN w -> Forall op_ok l ->
  zlen (f_data f) + foldr (fun x n => op_size x + n) 0 l < 2 ^ 63 ->
  let path := m_walPath (s_engine s) in
  let cap := m_maxHistoryPerKey (s_engine s) in
  let '(n, s') := run_ops host l s in
  crash_disk (s_os s') d -> restarted d path o2 ->
  exists survivors e o3,
    survivors `prefix_of` es ++ entries_of host w (take (S n) l) /\
    zlen es + Z.of_nat n - (WAL.m_syncEveryN w - 1) <= zlen survivors /\
    construct host enumerate path cap N o2 = (Ret e, o3) /\
    m_data e = contents host cap (m_snapshotEpoch (s_engine s)) base survivors /\
    (WAL.m_syncEveryN w = 1 -> exists k, (k = n \/ k = S n) /\ m_data e = apply_ops cap (take k l) (m_data (s_engine s))).
Proof.
  intros He Hdisk Hwin Hpend Hops Hsize. cbv zeta. pose proof He as [Hw Hr Hc Hep Hfence Hdata].
  set (cap := m_maxHistoryPerKey (s_engine s)) in *.
  pose proof (run_ops_append host l s w Hw Hops Hc (erep_data_ok _ _ _ _ _ _ _ _ He)) as Hrun.
  assert (Hreq : Forall request_ok (op_request host <$> l)) by (apply Forall_fmap; eapply Forall_impl; [exact Hops|intros x; apply op_request_ok]).
  pose proof (append_seq_inv _ _ _ _ _ _ Hr Hwin Hpend Hreq ltac:(by rewrite total_size_ops)) as Hinv.
  pose proof (append_seq_touch (op_request host <$> l) _ fd i f (rep_opened _ _ _ _ _ Hr)) as (off & f2 & sc2 & Eos).
  destruct (run_ops host l s) as [n s']. destruct Hrun as (w' & Eseq & _). rewrite Eseq in Hinv, Eos. cbn [snd WAL.s_os] in Eos.
  destruct Hinv as (Hn & _ & f' & m & Ho' & Hwin' & Hm & _). intros Hcrash Hre. cbn [WAL.s_wal WAL.s_os] in *.
  rewrite length_fmap in Hn. rewrite <- fmap_take in Hwin', Hm. fold (entries_of host w (take (S n) l)) in Hwin', Hm.
  destruct Hdisk as [Hpath Hlog Hother Hsnap].
  pose proof (crash_disk_file _ _ (m_walPath (s_engine s)) Hcrash) as Hcw.
  pose proof (crash_disk_file _ _ (m_snapshotPath (s_engine s)) Hcrash) as Hcs. rewrite Eos in Hcw, Hcs.
  apply crash_file_self in Hcw as (c & Ec & Hc'); [|done]. apply crash_file_touch in Hcs; [|done].
  destruct (Hsnap _ Hcs) as [Hs1 Hs2]. rewrite Hpath in Hs1, Hs2.
  assert (f2 = f') as ->.
  { rewrite Eos in Ho'. destruct Ho' as [_ [off' Hf']]. cbn [WAL.s_os] in Hf'. rewrite file_of_touch in Hf'. by simplify_eq. }
  destruct (Hwin' c Hc') as (survivors & Hpre & Hrec & Hlen).
  destruct (restart_recoverable host enumerate d _ cap N o2 c survivors Hre Hc Ec Hrec) as (e & o3 & Econ & Edata).
  rewrite Hs1, Hs2 in Edata. exists survivors, e, o3. split_and!; [done|lia|done|done|].
  intros Hone. rewrite Edata, Hdata. fold cap.
  pose proof (prefix_length _ _ Hpre) as Hplen. rewrite length_app in Hplen. unfold entries_of in Hplen.
  rewrite !length_fmap, length_take in Hplen.
  set (k := (length survivors - length es)%nat). exists k.
  assert (Hk : (k = n \/ k = S n) /\ (k <= length l)%nat) by (unfold k; lia). split; [apply Hk|].
  rewrite <- (contents_ops host cap _ base es w (take k l) Hc); [|by destruct (m_snapshotEpoch (s_engine s))|by apply Forall_take].
  f_equal. destruct Hpre as [t Hpre]. apply (f_equal (take (length survivors))) in Hpre.
  rewrite take_app_length, take_app in Hpre. rewrite <- Hpre, take_ge by lia. f_equal. unfold entries_of.
  rewrite <- !fmap_take, take_take. f_equal. f_equal. f_equal. unfold k. lia.
Qed.

Module CrashDemo.
Definition snap_bytes : bytes := Snapshot.file_bytes LittleEndianHost map_to_list EngineDemo.image.

Lemma names_cases (P : string -> option nat -> Prop) a b :
  P Demo.path (Some a) -> P EngineDemo.snap_path (Some b) -> (forall p, p <> Demo.path -> p <> EngineDemo.snap_path -> P p None) ->
  forall p, P p (({[ Demo.path := a; EngineDemo.snap_path := b ]} : gmap string nat) !! p).
Proof.
  intros H1 H2 H3 p. destruct (decide (p = Demo.path)) as [->|N1]; [by rewrite lookup_insert_eq|].
  rewrite lookup_insert_ne by done. destruct (decide (p = EngineDemo.snap_path)) as [->|N2]; [by rewrite lookup_singleton_eq|].
  rewrite lookup_singleton_ne by done. by apply H3.
Qed.

Definition disk_of (c s : bytes) : gmap string bytes := {[ Demo.path := c; EngineDemo.snap_path := s ]}.

Lemma disk_of_other c s p : p <> Demo.path -> p <> EngineDemo.snap_path -> disk_of c s !! p = None.
Proof. intros H1 H2. unfold disk_of. rewrite lookup_insert_ne by done. by rewrite lookup_singleton_ne. Qed.

Lemma disk_of_snap c s : disk_of c s !! EngineDemo.snap_path = Some s.
Proof. unfold disk_of. rewrite lookup_insert_ne by discriminate. apply lookup_singleton_eq. Qed.

Lemma disk_of_log c s : disk_of c s !! Demo.path = Some c.
Proof. apply lookup_insert_eq. Qed.

(** A power cut in which everything written reached the disk. *)
Lemma all_reaches_disk o a b f0 f1 :
  os_names o = {[ Demo.path := a; EngineDemo.snap_path := b ]} -> os_inodes o !! a = Some f0 -> os_inodes o !! b = Some f1 ->
  crash_disk o (disk_of (f_data f0) (f_data f1)).
Proof.
  intros Hn H0 H1. exists (os_names o). split; [apply elem_of_app; right; by left|]. rewrite Hn.
  apply (names_cases (fun p r => match r with Some i => _ | None => _ end)).
  - exists f0, (f_data f0). split_and!; [done|apply crash_content_refl|apply disk_of_log].
  - exists f1, (f_data f1). split_and!; [done|apply crash_content_refl|apply disk_of_snap].
  - apply disk_of_other.
Qed.

(** The system after a reboot. *)
Definition rebooted (c s : bytes) : os :=
  Os {[ 3%nat := File c []; 4%nat := File s [] ]} {[ Demo.path := 3%nat; EngineDemo.snap_path := 4%nat ]} [] ∅ (replicate 400 Done).

Lemma rebooted_restarted c s : (length c <= 360)%nat -> restarted (disk_of c s) Demo.path (rebooted c s).
Proof.
  intros Hl. split_and!.
  - split_and!; [done|done|]. unfold rebooted; cbn [os_names os_inodes].
    apply (names_cases (fun p r => match r with Some i => _ | None => _ end)).
    + exists c. split; [reflexivity|apply disk_of_log].
    + exists s. split; [reflexivity|apply disk_of_snap].
    + apply disk_of_other.
  - by apply Forall_replicate.
  - right. discriminate.
  - intros c' Hc'. assert (Some c' = Some c) as [= ->] by (rewrite <- Hc'; apply disk_of_log).
    unfold rebooted; cbn [os_script]. rewrite length_replicate. lia.
Qed.

Lemma start_disk_ok sc : disk_ok LittleEndianHost (EngineDemo.start sc) 0 EngineDemo.base.
Proof.
  split; [reflexivity| | |].
  - intros ns ->%list_elem_of_singleton. reflexivity.
  - intros ns ->%list_elem_of_singleton. discriminate.
  - intros c (ns & ->%list_elem_of_singleton & Hc). destruct Hc as (g & x & [= <-] & ->%(crash_content_sync (File snap_bytes [])) & ->).
    assert (E : loads LittleEndianHost (Some snap_bytes) = Some EngineDemo.image) by (vm_compute; reflexivity).
    change (f_data (File snap_bytes [])) with snap_bytes. rewrite E. split; reflexivity.
Qed.
End CrashDemo.

(** Two operations are acknowledged and power fails during the third. *)
Lemma acknowledged_ops_survive_witness :
  let '(n, s') := run_ops LittleEndianHost [EngineDemo.q1; EngineDemo.q2; EngineDemo.q3] (EngineDemo.start [Done; Done; Done; Short 3]) in
  n = 2%nat /\ exists c e o3 survivors,
    construct LittleEndianHost map_to_list Demo.path 2 1 (CrashDemo.rebooted c CrashDemo.snap_bytes) = (Ret e, o3) /\
    m_data e = contents LittleEndianHost 2 (Some 6) EngineDemo.base survivors /\ 1 <= zlen survivors.
Proof.
  set (run := run_ops LittleEndianHost [EngineDemo.q1; EngineDemo.q2; EngineDemo.q3] (EngineDemo.start [Done; Done; Done; Short 3])).
  assert (En : fst run = 2%nat) by (vm_compute; reflexivity).
  assert (Eo : os_names (s_os (snd run)) = {[ Demo.path := 0%nat; EngineDemo.snap_path := 1%nat ]}) by (vm_compute; reflexivity).
  assert (E0 : os_inodes (s_os (snd run)) !! 0%nat = Some (default empty_file (os_inodes (s_os (snd run)) !! 0%nat)))
    by (vm_compute; reflexivity).
  assert (E1 : os_inodes (s_os (snd run)) !! 1%nat = Some (File CrashDemo.snap_bytes [])) by (vm_compute; reflexivity).
  assert (El : (length (f_data (default empty_file (os_inodes (s_os (snd run)) !! 0%nat))) <=? 360)%nat = true) by (vm_compute; reflexivity).
  pose proof (acknowledged_ops_survive LittleEndianHost map_to_list (EngineDemo.start [Done; Done; Done; Short 3]) Demo.object 0 0
    (File WAL.header_bytes []) [] EngineDemo.base [EngineDemo.q1; EngineDemo.q2; EngineDemo.q3] 1) as H.
  fold run in H. destruct run as [n s']. cbn [fst snd] in *. subst n. split; [done|].
  set (f0 := default empty_file (os_inodes (s_os s') !! 0%nat)) in *.
  specialize (H (CrashDemo.disk_of (f_data f0) (f_data (File CrashDemo.snap_bytes []))) (CrashDemo.rebooted (f_data f0) CrashDemo.snap_bytes)).
  specialize (H (EngineDemo.start_erep _ _) (CrashDemo.start_disk_ok _)).
  specialize (H (window_synced (File WAL.header_bytes []) [] eq_refl Demo.start_holds)).
  assert (Hp : WAL.m_pendingWrites Demo.object < WAL.m_syncEveryN Demo.object) by reflexivity.
  assert (Hz : zlen (f_data (File WAL.header_bytes [])) +
    foldr (fun x n => op_size x + n) 0 [EngineDemo.q1; EngineDemo.q2; EngineDemo.q3] < 2 ^ 63) by (vm_compute; reflexivity).
  specialize (H Hp EngineDemo.ops_ok Hz).
  destruct (H (CrashDemo.all_reaches_disk _ _ _ _ _ Eo E0 E1) (CrashDemo.rebooted_restarted _ _ (proj1 (Nat.leb_le _ _) El)))
    as (survivors & e & o3 & H1 & H2 & H3 & H4 & _).
  exists (f_data f0), e, o3, survivors. split; [exact H3|]. split; [exact H4|]. change (WAL.m_syncEveryN Demo.object) with 2 in H2. cbn in H2. lia.
Defined.

(** C2: [snapshot] loses nothing.  For every outcome of its system calls and a
    power cut at any point, during the call or after it, the next start either
    succeeds, with all the histories or, when the call had not returned, with
    those of the previous snapshot and a log that lacks at most the writes that
    were not yet synchronised; or, when the call had not returned, it is refused
    because the cut left a part of the header of the new log.  The call itself
    never changes the histories; when it returns, the log is empty and the new
    snapshot stands for everything.  Fourteen calls that succeed are enough. *)
Theorem snapshot_loses_nothing (host : host_order) (enumerate : SnapshotState -> list (bytes * list SnapshotRecord))
    `{!Enumeration enumerate} s w fd i f es base :
  let e := s_engine s in
  let path := m_walPath e in
  let cap := m_maxHistoryPerKey e in
  erep host s w fd i f es base -> disk_ok host s i base -> window f es (WAL.m_pendingWrites w) ->
  image_ok (MkSnapshotImage (WAL.m_epoch w) (exportSnapshotState (m_data e))) -> WAL.m_epoch w + 1 < 2 ^ 64 ->
  (forall j, os_names (s_os s) !! Snapshot.tmp_path (m_snapshotPath e) = Some j -> is_Some (os_inodes (s_os s) !! j)) ->
  apart (m_snapshotPath e) (s_os s) (m_snapshotPath e) -> apart (m_snapshotPath e) (s_os s) path ->
  let '(r, s') := snapshot host enumerate s in
  m_data (s_engine s') = m_data e /\
  (forall d N o2, crash_disk (s_os s') d -> restarted d path o2 ->
    (exists e2 o3, construct host enumerate path cap N o2 = (Ret e2, o3) /\
      (m_data e2 = m_data e \/
       r <> Ret tt /\ exists es1, es1 `prefix_of` es /\ zlen es - WAL.m_pendingWrites w <= zlen es1 /\
         m_data e2 = contents host cap (m_snapshotEpoch e) base es1)) \/
    (r <> Ret tt /\ exists c x o3, d !! path = Some c /\ c `prefix_of` WAL.header_bytes /\ c <> [] /\
      c <> WAL.header_bytes /\ construct host enumerate path cap N o2 = (Throw x, o3))) /\
  (r = Ret tt -> exists w' f', erep host s' w' fd i f' [] (exportSnapshotState (m_data e))) /\
  (Forall (eq Done) (os_script (s_os s)) -> (13 < length (os_script (s_os s)))%nat -> r = Ret tt).
Proof.
  intros e path cap He Hdisk Hwin Himage Hep Htmp Ha1 Ha2.
  pose proof (snapshot_spec host enumerate s w fd i f es base He Hdisk Hwin Himage Hep Htmp Ha1 Ha2) as H. unfold wp in H.
  destruct (snapshot host enumerate s) as [r s']. cbn [fst snd] in H. destruct H as (H1 & H2 & H3).
  split_and!; [exact H1|exact H2|by intros ->|]. intros Hd Hl. destruct r as [[]|x|]; [done|..]; specialize (H3 Hd); lia.
Qed.

(** Every call succeeds, and power is cut afterwards; and power is cut between
    the truncation of the log and its new header. *)
Lemma snapshot_loses_nothing_witness :
  let run sc := snapshot LittleEndianHost map_to_list (EngineDemo.start sc) in
  (exists s', run (replicate 14 Done) = (Ret tt, s') /\ m_data (s_engine s') = import 2 EngineDemo.base /\
    exists w' f', erep LittleEndianHost s' w' 0 0 f' [] (exportSnapshotState (import 2 EngineDemo.base))) /\
  m_data (s_engine (snd (run (replicate 11 Done)))) = import 2 EngineDemo.base.
Proof.
  assert (Hgo : forall sc, let '(r, s') := snapshot LittleEndianHost map_to_list (EngineDemo.start sc) in
    m_data (s_engine s') = import 2 EngineDemo.base /\
    (r = Ret tt -> exists w' f', erep LittleEndianHost s' w' 0 0 f' [] (exportSnapshotState (import 2 EngineDemo.base))) /\
    (Forall (eq Done) sc -> (13 < length sc)%nat -> r = Ret tt)).
  { intros sc. pose proof (snapshot_loses_nothing LittleEndianHost map_to_list (EngineDemo.start sc) Demo.object 0 0
      (File WAL.header_bytes []) [] EngineDemo.base) as H. cbv zeta in H.
    assert (Himage : image_ok (MkSnapshotImage 7 (exportSnapshotState (import 2 EngineDemo.base)))).
    { assert (E : exportSnapshotState (import 2 EngineDemo.base) = EngineDemo.base) by (vm_compute; reflexivity). rewrite E.
      split_and!; [done|vm_compute; done|]. cbn [si_state]. unfold EngineDemo.base. intros key rs [<- <-]%lookup_singleton_Some.
      split_and!; [vm_compute; done..|]. repeat constructor; cbn; unfold is_i64, is_u64, is_u32; lia. }
    assert (Htmp : os_names (EngineDemo.system sc) !! Snapshot.tmp_path EngineDemo.snap_path = None) by reflexivity.
    assert (Hapart : forall p, p = Demo.path \/ p = EngineDemo.snap_path -> apart EngineDemo.snap_path (EngineDemo.system sc) p).
    { intros p Hp. split; [by destruct Hp as [->| ->]|]. intros ns j ->%list_elem_of_singleton Hj. rewrite Htmp.
      destruct Hp as [->| ->]; [change (Some 0%nat = Some j) in Hj|change (Some 1%nat = Some j) in Hj]; injection Hj as <-; (split; [by eexists|done]). }
    specialize (H (EngineDemo.start_erep _ _) (CrashDemo.start_disk_ok _) (window_synced (File WAL.header_bytes []) [] eq_refl Demo.start_holds) Himage eq_refl).
    specialize (H ltac:(intros j Hj; change (os_names (EngineDemo.system sc) !! Snapshot.tmp_path EngineDemo.snap_path = Some j) in Hj; by rewrite Htmp in Hj)).
    specialize (H (Hapart _ (or_intror eq_refl)) (Hapart _ (or_introl eq_refl))).
    destruct (snapshot _ _ _) as [r s']. destruct H as (H1 & _ & H2 & H3). by split_and!. }
  cbv zeta. split.
  - specialize (Hgo (replicate 14 Done)). destruct (snapshot _ _ _) as [r s']. destruct Hgo as (H1 & H2 & H3).
    assert (r = Ret tt) as -> by (apply H3; [by apply Forall_replicate|by apply Nat.ltb_lt]). exists s'. split_and!; auto.
  - specialize (Hgo (replicate 11 Done)). destruct (snapshot _ _ _) as [r s']. by destruct Hgo.
Defined.

(** ** The engine without a log *)

(** C36: An engine made by [makeInMemory] keeps its histories in memory only.
    Admissible operations always return, with the effect of the specification
    and without any system call; [snapshot] throws and changes nothing; and
    [recover], which is public, dereferences the null log pointer after it has
    cleared the histories. *)
Theorem memory_engine (host : host_order) (enumerate : SnapshotState -> list (bytes * list SnapshotRecord)) s x sc :
  m_wal (s_engine s) = None -> op_ok x -> 0 <= m_maxHistoryPerKey (s_engine s) ->
  data_ok (m_maxHistoryPerKey (s_engine s)) (m_data (s_engine s)) ->
  os_script (s_os s) = Done :: sc -> os_names (s_os s) !! m_snapshotPath (s_engine s) = None ->
  run_op host x s =
    (Ret tt, St (set_data (op_spec (m_maxHistoryPerKey (s_engine s)) x (m_data (s_engine s))) (s_engine s)) (s_os s)) /\
  snapshot host enumerate s = (Throw (runtime_error "snapshot() called on engine with no WAL"), s) /\
  exists s', recover host enumerate s = (Throw (undefined_behaviour "call through a null m_wal"), s') /\
    m_data (s_engine s') = ∅.
Proof.
  destruct s as [e o]. cbn [s_engine s_os]. intros Hw Hx Hc Hd Hsc Hn. split_and!.
  - destruct x as [key v duration now|key now]; cbn [run_op op_spec].
    + destruct Hx as (Hk & Hv & _). unfold set. destruct (Z.ltb_spec WAL.kMaxFieldSize (zlen key)); [lia|].
      destruct (Z.ltb_spec kMaxFieldSize (zlen v)); [lia|]. unfold bind, this, bind, Exec.get, ret. cbn [s_engine]. rewrite Hw.
      unfold update, modify. cbn [s_engine s_os]. by rewrite appendCapped_keep by (done || by apply data_ok_history).
    + unfold remove, bind, this, bind, Exec.get, ret. cbn [s_engine]. by rewrite Hw.
  - unfold snapshot, bind, this, bind, Exec.get, ret. cbn [s_engine]. by rewrite Hw.
  - pose proof (load_missing host (m_snapshotPath e) (MkSnapshotImage 0 ∅) o Done sc Hsc Hn) as Eload. eexists.
    unfold recover, bind, update, modify, this, bind, Exec.get, ret, sys, zoom.
    cbn [s_engine s_os m_snapshotPath set_snapshotEpoch set_data]. rewrite Eload. unfold wal. cbn [s_engine set_snapshotEpoch set_data m_wal].
    rewrite Hw. by split.
Qed.

Lemma memory_engine_witness :
  let s := St (makeInMemory 5) (Os ∅ ∅ [] ∅ [Done]) in
  run_op LittleEndianHost EngineDemo.q1 s = (Ret tt, St (set_data (op_spec 5 EngineDemo.q1 ∅) (makeInMemory 5)) (s_os s)) /\
  exists s', recover LittleEndianHost map_to_list s = (Throw (undefined_behaviour "call through a null m_wal"), s').
Proof.
  cbv zeta. destruct (memory_engine LittleEndianHost map_to_list (St (makeInMemory 5) (Os ∅ ∅ [] ∅ [Done])) EngineDemo.q1 [])
    as (H1 & _ & s' & H2 & _); [reflexivity|exact (Forall_inv EngineDemo.ops_ok)|discriminate|apply data_ok_empty|reflexivity|reflexivity|].
  split; [exact H1|]. exists s'. exact H2.
Defined.

(** ** Runs in which the code does not do what it means to *)

(** The engine a construction gives, and the system. *)
Definition made (p : result engine * os) : st :=
  match p with (Ret e, o) => St e o | (_, o) => St (makeInMemory 0) o end.

(** Two databases share a snapshot.  The paths [db] and [db.wal] have the
    same snapshot file: a new, empty log [db.wal] starts with the histories that
    another engine folded into the snapshot of [db]. *)
Theorem snapshot_path_collision :
  let o := Os ∅ ∅ [] ∅ (replicate 200 Done) in
  let s1 := made (construct LittleEndianHost map_to_list "db" 0 1 o) in
  let s2 := snd (run_op LittleEndianHost EngineDemo.q1 s1) in
  let '(r, s3) := snapshot LittleEndianHost map_to_list s2 in
  let s4 := made (construct LittleEndianHost map_to_list "db.wal" 0 1 (s_os s3)) in
  makeSnapshotPath "db" = "db.snap"%string /\ makeSnapshotPath "db.wal" = "db.snap"%string /\
  os_names (s_os s3) !! "db.wal"%string = None /\ r = Ret tt /\
  m_walPath (s_engine s4) = "db.wal"%string /\ fst (get [x61] s4) = Ret (Some [x31; x34; x32]).
Proof. vm_compute. repeat split. Qed.

(** A [set] whose [fsync] fails throws and leaves the histories alone, but its
    entry is in the log: the next start shows the value that was refused. *)
Example failed_set_comes_back :
  let o := Os ∅ ∅ [] ∅ (replicate 14 Done) in
  let s1 := made (construct LittleEndianHost map_to_list "db" 0 1 o) in
  let s2 := St (s_engine s1) (set_script ([Done; Err] ++ replicate 200 Done) (s_os s1)) in
  let '(r, s3) := run_op LittleEndianHost EngineDemo.q1 s2 in
  let s4 := made (construct LittleEndianHost map_to_list "db" 0 1 (s_os s3)) in
  r = Throw (runtime_error "fsync failed") /\ fst (get [x61] s3) = Ret None /\
  fst (get [x61] s4) = Ret (Some [x31; x34; x32]).
Proof. vm_compute. repeat split. Qed.

(** The average of 142.0 and 138.0 is 140.0, as in the README. *)
Example average_of_two :
  let s := snd (run_op LittleEndianHost EngineDemo.q2
    (snd (run_op LittleEndianHost EngineDemo.q1 (St (makeInMemory 0) (Os ∅ ∅ [] ∅ []))))) in
  fst (getAverage [x61] s) = Ret (Some (S754_finite false 4925812092436480 (-45))) /\
  sf_of_double (Double false 0x406 0x1800000000000) = S754_finite false 4925812092436480 (-45).
Proof. vm_compute. split; reflexivity. Qed.

(** After a start without the snapshot (here: its file was damaged) the epoch
    counter is zero again, below the epochs in the log.  The next [snapshot]
    then does not fence the log off: when its last step fails, the following
    start applies the entries twice. *)
Example damaged_snapshot_doubles :
  let run o := made (construct LittleEndianHost map_to_list "db" 0 1 (set_script (replicate 200 Done) o)) in
  let s1 := run (Os ∅ ∅ [] ∅ []) in
  let s2 := snd (run_op LittleEndianHost EngineDemo.q1 s1) in
  let s3 := snd (snapshot LittleEndianHost map_to_list s2) in
  let s4 := snd (run_op LittleEndianHost EngineDemo.q2 s3) in
  let i := default 0%nat (os_names (s_os s4) !! "db.snap"%string) in
  let s5 := run (set_inode i (File [] []) (s_os s4)) in
  let '(r, s6) := snapshot LittleEndianHost map_to_list
    (St (s_engine s5) (set_script (replicate 9 Done ++ [Err]) (s_os s5))) in
  let s7 := run (s_os s6) in
  fst (historyCount [x61] s5) = Ret 1 /\ fst (historyCount [x61] s6) = Ret 1 /\
  r = Throw (runtime_error "WAL rotation failed after snapshot: db") /\
  fst (historyCount [x61] s7) = Ret 2.
Proof. vm_compute. repeat split. Qed.

(** An error when the header of the snapshot is read is taken for a missing
    snapshot: the engine starts without the histories that are in it.  An error
    further on is not, if the standard library reports it by an exception: the
    constructor throws and closes the log. *)
Example unreadable_snapshot_is_skipped :
  let o sc := Os {[ 0%nat := File WAL.header_bytes [];
                    1%nat := File (Snapshot.file_bytes LittleEndianHost map_to_list EngineDemo.image) [] ]}
    {[ Demo.path := 0%nat; EngineDemo.snap_path := 1%nat ]} [] ∅ sc in
  let run x := construct LittleEndianHost map_to_list Demo.path 0 1 (o (replicate 5 Done ++ x ++ replicate 40 Done)) in
  fst (get [x62] (made (run [Done; Done]))) = Ret (Some [x33]) /\
  fst (get [x62] (made (run [Err]))) = Ret None /\
  fst (run [Done; Err]) = Throw Snapshot.read_error /\ os_fds (snd (run [Done; Err])) = ∅.
Proof. vm_compute. repeat split. Qed.
