(* ===== verification/Outcomes.v ===== *)
(** * Outcomes: why a call does not return

    A method does not return, [Halt], only when the outcomes of the system calls
    are used up: the power cut of the model.  In particular the loops around
    system calls never run out of the fuel that their definitions give them, for
    every round uses up an outcome. *)

From stdpp Require Import gmap.
From S2P Require Import Prelude Endian Exec Posix LogFormat WAL Snapshot Engine.

(** ** Spending outcomes *)

Section spending.
Context {S : Type} (script : S -> list outcome).

(** From [s], [m] uses up at least [n] outcomes if it returns or throws, and all
    of them if it does not. *)
Definition spends_at {A} (n : nat) (m : M S A) (s : S) : Prop :=
  match m s with
  | (Halt, s') => script s' = []
  | (_, s') => (length (script s') + n <= length (script s))%nat
  end.

Definition spends {A} (n : nat) (m : M S A) : Prop := forall s, spends_at n m s.

Lemma spends_at_le {A} n k (m : M S A) s : (k <= n)%nat -> spends_at n m s -> spends_at k m s.
Proof. unfold spends_at. intros Hk. destruct (m s) as [[a|e|] s']; [lia..|done]. Qed.

Lemma spends_ret {A} (a : A) s : spends_at 0 (ret a) s.
Proof. unfold spends_at, ret. lia. Qed.

Lemma spends_throw {A} e s : spends_at 0 (throw (A := A) e) s.
Proof. unfold spends_at, throw. lia. Qed.

Lemma spends_modify f s : script (f s) = script s -> spends_at 0 (modify f) s.
Proof. unfold spends_at, modify. intros ->. lia. Qed.

Lemma spends_get s : spends_at 0 get s.
Proof. unfold spends_at, get. lia. Qed.

Lemma spends_bind_get {A} n (f : S -> M S A) s : spends_at n (f s) s -> spends_at n (bind get f) s.
Proof. auto. Qed.

(** What follows a call starts with fewer outcomes. *)
Lemma spends_bind {A B} n (m : M S A) (f : A -> M S B) s :
  spends_at n m s ->
  (forall a s', (length (script s') + n <= length (script s))%nat -> spends_at 0 (f a) s') ->
  spends_at n (bind m f) s.
Proof.
  unfold spends_at, bind. intros Hm Hf. destruct (m s) as [[a|e|] s']; [|done..].
  specialize (Hf a s' Hm). destruct (f a s') as [[b|e|] s'']; [lia..|done].
Qed.
End spending.

Lemma spends_zoom {S T A} (f : S -> list outcome) (g : T -> list outcome) sel upd n (m : M T A) s :
  f s = g (sel s) -> (forall t, f (upd t s) = g t) -> spends_at g n m (sel s) -> spends_at f n (zoom sel upd m) s.
Proof.
  unfold spends_at, zoom. intros Hs Hu. destruct (m (sel s)) as [[a|e|] t]; rewrite ?Hs, ?Hu; done.
Qed.

Create HintDb outcomes.

(** Symbolic execution: the hints know the calls, the rest is case analysis. *)
Ltac spend_step :=
  match goal with
  | |- forall _, _ => intro
  | |- spends _ _ _ => intro
  | |- spends_at _ _ (ret _) _ => apply spends_ret
  | |- spends_at _ _ (throw _) _ => apply spends_throw
  | |- spends_at _ _ get _ => apply spends_get
  | |- spends_at _ _ (modify _) _ => apply spends_modify; by repeat case_match
  | |- spends_at _ _ (let _ := _ in _) _ => cbv zeta
  | |- spends_at _ _ (match ?x with _ => _ end) _ => destruct x
  | |- spends_at _ _ (bind get _) _ => apply spends_bind_get
  | |- spends_at _ _ (bind _ _) _ => apply spends_bind
  | |- spends_at _ _ _ _ => solve [eauto 3 with outcomes]
  end.
Ltac spend := repeat spend_step.

(** ** System calls *)

Abbreviation costs n m := (spends os_script n m).

Lemma next_costs : costs 1 next.
Proof.
  intros o. unfold spends_at, next. destruct (os_script o) as [|x l] eqn:E; [done|]. cbn. lia.
Qed.

Lemma costs_0 {A} (m : M os A) s : costs 1 m -> spends_at os_script 0 m s.
Proof. intros H. eapply spends_at_le, H. lia. Qed.

Lemma costs_at {A} n (m : M os A) s : costs n m -> spends_at os_script n m s.
Proof. auto. Qed.

Ltac one_call := intros o; apply spends_bind; [apply next_costs|spend].

Lemma sys_open_costs path fl : costs 1 (sys_open path fl).
Proof. one_call. Qed.
Lemma sys_open_dir_costs dir : costs 1 (sys_open_dir dir).
Proof. one_call. Qed.
Lemma sys_close_costs fd : costs 1 (sys_close fd).
Proof. one_call. Qed.
Lemma sys_write_costs fd d : costs 1 (sys_write fd d).
Proof. one_call. Qed.
Lemma sys_read_costs fd n : costs 1 (sys_read fd n).
Proof. one_call. Qed.
Lemma sys_fsync_costs fd : costs 1 (sys_fsync fd).
Proof. one_call. Qed.
Lemma sys_ftruncate_costs fd n : costs 1 (sys_ftruncate fd n).
Proof. one_call. Qed.
Lemma sys_fstat_costs fd : costs 1 (sys_fstat fd).
Proof. one_call. Qed.
Lemma sys_lseek_costs fd n w : costs 1 (sys_lseek fd n w).
Proof. one_call. Qed.
Lemma sys_rename_costs a b : costs 1 (sys_rename a b).
Proof. one_call. Qed.

#[export] Hint Resolve sys_open_costs sys_open_dir_costs sys_close_costs sys_write_costs sys_read_costs sys_fsync_costs
  sys_ftruncate_costs sys_fstat_costs sys_lseek_costs sys_rename_costs costs_0 costs_at : outcomes.

(** ** The loops of the log *)

(** With fuel for every outcome the loops end before their fuel does. *)
Lemma write_loop_costs fuel fd data written o :
  (length (os_script o) < fuel)%nat -> spends_at os_script 0 (WAL.write_loop fuel fd data written) o.
Proof.
  revert written o. induction fuel as [|fuel IH]; intros written o Hf; [lia|]. cbn [WAL.write_loop].
  destruct (_ <? _)%nat; [|spend]. apply (spends_at_le _ 1); [lia|]. apply spends_bind; [apply sys_write_costs|].
  intros r o' Ho. destruct r as [n|e]; [destruct (_ =? _); [spend|apply IH; lia]|]. destruct e; [apply IH; lia|spend..].
Qed.

Lemma writeExact_costs fd data : costs 0 (WAL.writeExact fd data).
Proof. intros o. apply write_loop_costs. lia. Qed.

Lemma read_loop_costs fuel fd size got o :
  (length (os_script o) < fuel)%nat -> spends_at os_script 0 (WAL.read_loop fuel fd size got) o.
Proof.
  revert got o. induction fuel as [|fuel IH]; intros got o Hf; [lia|]. cbn [WAL.read_loop].
  destruct (_ <? _)%nat; [|spend]. apply (spends_at_le _ 1); [lia|]. apply spends_bind; [apply sys_read_costs|].
  intros [r d] o' Ho. destruct r as [n|e]; [destruct (_ =? _); [spend|apply IH; lia]|]. destruct e; [apply IH; lia|spend..].
Qed.

Lemma readExact_costs fd size : costs 0 (WAL.readExact fd size).
Proof. intros o. apply read_loop_costs. lia. Qed.

#[export] Hint Resolve writeExact_costs readExact_costs : outcomes.

Lemma writeHeader_costs fd : costs 0 (WAL.writeHeader fd).
Proof. unfold WAL.writeHeader. spend. Qed.
#[export] Hint Resolve writeHeader_costs : outcomes.

(** Each entry takes a read at least. *)
Lemma walk_loop_costs {V} visitor minEpoch fuel fd size pos prev seq (v : V) o :
  (length (os_script o) < fuel)%nat ->
  spends_at os_script 0 (WAL.walk_loop visitor minEpoch fuel fd size pos prev seq v) o.
Proof.
  revert pos prev seq v o. induction fuel as [|fuel IH]; intros pos prev seq v o Hf; [lia|]. cbn [WAL.walk_loop].
  destruct (negb _); [spend|].
  repeat match goal with
  | |- spends_at _ 0 (bind (sys_lseek _ _ _) _) _ => apply (spends_at_le _ 1); [lia|]
  | |- spends_at _ _ (WAL.walk_loop _ _ _ _ _ _ _ _ _) _ => apply IH; lia
  | _ => spend_step
  end.
Qed.

(** ** The methods *)

Abbreviation wal_script := (fun s : WAL.st => os_script (WAL.s_os s)).
Abbreviation st_script := (fun s : StorageEngine.st => os_script (StorageEngine.s_os s)).

Lemma wal_sys_costs {A} (m : M os A) s : costs 0 m -> spends_at wal_script 0 (WAL.sys m) s.
Proof. intros H. by apply (spends_zoom _ os_script). Qed.

Lemma wal_sys_at {A} (m : M os A) s : spends_at os_script 0 m (WAL.s_os s) -> spends_at wal_script 0 (WAL.sys m) s.
Proof. intros H. by apply (spends_zoom _ os_script). Qed.

Lemma costs_le {A} (m : M os A) : costs 1 m -> costs 0 m.
Proof. intros H s. by apply costs_0. Qed.

Lemma wal_this_costs s : spends_at wal_script 0 WAL.this s.
Proof. unfold WAL.this. spend. Qed.

Lemma wal_update_costs f s : spends_at wal_script 0 (WAL.update f) s.
Proof. by apply spends_modify. Qed.

#[export] Hint Resolve wal_sys_costs costs_le wal_this_costs wal_update_costs : outcomes.

Lemma append_costs type key value ts : spends wal_script 0 (WAL.append type key value ts).
Proof. unfold WAL.append. spend. Qed.

Lemma reset_costs : spends wal_script 0 WAL.reset.
Proof. unfold WAL.reset. spend. Qed.

Lemma epoch_costs : spends wal_script 0 WAL.epoch.
Proof. unfold WAL.epoch. spend. Qed.

Lemma setEpoch_costs n : spends wal_script 0 (WAL.setEpoch n).
Proof. intros s. apply wal_update_costs. Qed.

Lemma walkChain_costs {V} visitor minEpoch allow (v : V) : spends wal_script 0 (WAL.walkChain visitor minEpoch allow v).
Proof.
  unfold WAL.walkChain. spend. apply wal_sys_at.
  repeat match goal with
  | |- spends_at _ _ (WAL.walk_loop _ _ _ _ _ _ _ _ _) _ => apply walk_loop_costs; lia
  | _ => spend_step
  end.
Qed.

Lemma recover_costs {V} visitor minEpoch (v : V) : spends wal_script 0 (WAL.recover visitor minEpoch v).
Proof. intros s. apply spends_bind; [apply walkChain_costs|spend]. Qed.

Lemma fsyncParentDir_costs path : costs 0 (Snapshot.fsyncParentDir path).
Proof. unfold Snapshot.fsyncParentDir. spend. Qed.
#[export] Hint Resolve fsyncParentDir_costs : outcomes.

Lemma save_costs host enumerate path image : costs 0 (Snapshot.save host enumerate path image).
Proof. unfold Snapshot.save, Snapshot.writeExact. spend. Qed.

Lemma stream_read_costs data : costs 0 (Snapshot.stream_read data).
Proof. intros o. apply (spends_at_le _ 1); [lia|]. apply spends_bind; [apply next_costs|spend]. Qed.
#[export] Hint Resolve stream_read_costs next_costs : outcomes.

Lemma load_costs host path image : costs 0 (Snapshot.load host path image).
Proof. unfold Snapshot.load. spend. Qed.

#[export] Hint Resolve append_costs reset_costs epoch_costs setEpoch_costs recover_costs save_costs load_costs : outcomes.

(** A call through [m_wal], a call of the system, and the members. *)
Lemma st_wal_costs {A} (m : M WAL.st A) s : spends wal_script 0 m -> spends_at st_script 0 (StorageEngine.wal m) s.
Proof.
  intros H. unfold spends_at, StorageEngine.wal. destruct (StorageEngine.m_wal (StorageEngine.s_engine s)) as [w|]; [|cbn; lia].
  specialize (H (WAL.St w (StorageEngine.s_os s))). unfold spends_at in H. by destruct (m _) as [[a|e|] s'].
Qed.

Lemma st_sys_costs {A} (m : M os A) s : costs 0 m -> spends_at st_script 0 (StorageEngine.sys m) s.
Proof. intros H. by apply (spends_zoom _ os_script). Qed.

Lemma st_this_costs s : spends_at st_script 0 StorageEngine.this s.
Proof. unfold StorageEngine.this. spend. Qed.

Lemma st_update_costs f s : spends_at st_script 0 (StorageEngine.update f) s.
Proof. by apply spends_modify. Qed.

#[export] Hint Resolve st_wal_costs st_sys_costs st_this_costs st_update_costs : outcomes.
