(* ===== verification/Concurrent.v ===== *)
(** * Concurrent: threads that share an engine

    Definitions only.  [StorageEngine] guards its members with [m_mutex], an
    [std::shared_mutex]: the reading methods hold a [std::shared_lock], the
    others a [std::unique_lock], from their first access to a member to their
    end.  Here the method bodies are cut into single accesses to the shared
    object, so that the steps of several threads can interleave; the mutex is a
    word in the state of a step relation.  A call of a method of the log is one
    access, for the log has a mutex of its own that each of its methods holds
    from beginning to end; so is a call of [Snapshot::save] or [load], which
    take no part in the sharing. *)

From Stdlib Require Import SpecFloat.
From stdpp Require Import gmap pretty.
From S2P Require Import Prelude Endian Exec Posix LogFormat WAL Snapshot Engine.

Import StorageEngine.

(** ** Programs of single steps *)

(** What is left of the body of a method: its outcome; an access to the shared
    object and what follows; or a loop with local variables [l], each round of
    which is an access that goes on with new values ([inl]) or leaves the loop
    ([inr]).  Nothing in a loop makes it end. *)
Inductive prog (A : Type) : Type :=
  | Finish (r : result A)
  | Act (B : Set) (m : M st B) (k : B -> prog A)
  | Loop (L B : Set) (l : L) (round : L -> M st (L + B)) (k : B -> prog A).
Arguments Finish {A} r.
Arguments Act {A B} m k.
Arguments Loop {A L B} l round k.

(** The next access, and the program after it. *)
Definition next_access {A} (p : prog A) : result A + M st (prog A) :=
  match p with
  | Finish r => inl r
  | Act m k => inr (b <- m ;; ret (k b))
  | Loop l round k => inr (x <- round l ;; ret (match x with inl l => Loop l round k | inr b => k b end))
  end.

(** What follows an access with the given outcome. *)
Definition after {A} (r : result (prog A)) : prog A :=
  match r with
  | Ret p => p
  | Throw e => Finish (Throw e)
  | Halt => Finish Halt
  end.

(** The body without interleaving, if [n] accesses are enough. *)
Fixpoint run {A} (n : nat) (p : prog A) (s : st) : option (result A * st) :=
  match next_access p with
  | inl r => Some (r, s)
  | inr m =>
      match n with
      | O => None
      | S n => let '(r, s) := m s in run n (after r) s
      end
  end.

(** ** The methods *)

Inductive call :=
  | CSet (key value : bytes) (duration : double) (now : Z)
  | CGet (key : bytes)
  | CRemove (key : bytes) (now : Z)
  | CAverage (key : bytes)
  | CSnapshot
  | CCount
  | CHistory (key : bytes)
  | CRecover.

Inductive answer :=
  | AUnit
  | ABool (b : bool)
  | AText (v : option bytes)
  | AAverage (a : option spec_float)
  | ASize (n : Z).

Inductive mode := Shared | Exclusive.

#[export] Instance mode_eq_dec : EqDecision mode.
Proof. solve_decision. Defined.

(** The lock a method takes. *)
Definition call_mode (c : call) : mode :=
  match c with
  | CGet _ | CAverage _ | CCount | CHistory _ => Shared
  | CSet _ _ _ _ | CRemove _ _ | CSnapshot | CRecover => Exclusive
  end.

(** What [set] checks before it takes the lock. *)
Definition guard (c : call) : option exn :=
  match c with
  | CSet key value _ _ =>
      if WAL.kMaxFieldSize <? zlen key then Some (length_error "key exceeds 1048576 bytes")
      else if kMaxFieldSize <? zlen value then Some (length_error "value exceeds 1048568 bytes")
      else None
  | _ => None
  end.

(** One access to the map. *)
Definition on_data (f : Z -> data -> data) : M st unit :=
  update (fun e => set_data (f (m_maxHistoryPerKey e) (m_data e)) e).
Definition read_data {A} (f : data -> A) : M st A := e <- this ;; ret (f (m_data e)).

(** [appendCapped]: [m_data[key]], which creates the entry, [erase] of the
    oldest record, [emplace_back]. *)
Definition find_entry (key : bytes) (_ : Z) (d : data) : data := <[key := default [] (d !! key)]> d.
Definition erase_oldest (key : bytes) (cap : Z) (d : data) : data :=
  alter (fun history =>
    if negb (cap =? kUnlimitedHistory) && (cap <=? zlen history) then drop 1 history else history) key d.
Definition emplace (key : bytes) (r : HistoryRecord) (_ : Z) (d : data) : data :=
  alter (fun history => history ++ [r]) key d.

Definition append_steps (key value : bytes) (duration : double) (now : Z) : prog answer :=
  Act (on_data (find_entry key)) (fun _ =>
  Act (on_data (erase_oldest key)) (fun _ =>
  Act (on_data (emplace key (MkRecord value duration now))) (fun _ =>
  Finish (Ret AUnit)))).

(** A round of the loop of [getAverage]: the iterator is at position [i], the end
    at [n]. *)
Definition sum_round (key : bytes) (n : nat) (l : nat * spec_float) : M st ((nat * spec_float) + spec_float) :=
  let '(i, sum) := l in
  if (i =? n)%nat then ret (inr sum) else
  x <- read_data (fun d => option_map duration (default [] (d !! key) !! i)) ;;
  match x with
  | Some x => ret (inl (S i, SFadd 53 1024 sum (sf_of_double x)))
  | None => throw (undefined_behaviour "iterator past the end")
  end.

Section methods.
Context (host : host_order).
Variable enumerate : SnapshotState -> list (bytes * list SnapshotRecord).

(** The second half of [recover]. *)
Definition recover_log : prog answer :=
  Act this (fun e =>
  Act (wal (WAL.recover (replay_entry host (m_maxHistoryPerKey e)) (m_snapshotEpoch e) (m_data e))) (fun '(result, d) =>
  Act (on_data (fun _ _ => d)) (fun _ =>
  let at_ := pretty (r_tamperOffset result) +:+ " (seq " +:+ pretty (r_tamperSeq result) in
  if bool_decide (r_status result = Tampered) then
    Finish (Throw (runtime_error ("WAL tampering detected at offset " +:+ at_ +:+ ")")))
  else if bool_decide (r_status result = Malformed) then
    Finish (Throw (runtime_error ("WAL field exceeds the size limit at offset " +:+ at_ +:+ ") - foreign or stale file")))
  else Finish (Ret AUnit)))).

(** The part of a method that runs under the lock. *)
Definition body (c : call) : prog answer :=
  match c with
  | CSet key value duration now =>
      Act this (fun e =>
      match m_wal e with
      | Some _ =>
          let blob := serialize host duration value in
          Act (wal (WAL.append PUT key blob now)) (fun _ => append_steps key value duration now)
      | None => append_steps key value duration now
      end)
  | CGet key =>
      Act (read_data (fun d => bool_decide (default [] (d !! key) <> []))) (fun found =>
      if found : bool then
        Act (read_data (fun d => option_map value (last (default [] (d !! key))))) (fun v => Finish (Ret (AText v)))
      else Finish (Ret (AText None)))
  | CRemove key now =>
      Act this (fun e =>
      let erase := Act (e <- this ;; ret (bool_decide (is_Some (m_data e !! key)))) (fun b =>
        Act (on_data (fun _ => delete key)) (fun _ => Finish (Ret (ABool b)))) in
      match m_wal e with
      | Some _ => Act (wal (WAL.append DELETE key [] now)) (fun _ => erase)
      | None => erase
      end)
  | CAverage key =>
      Act (read_data (fun d => length (default [] (d !! key)))) (fun n =>
      if (n =? 0)%nat then Finish (Ret (AAverage None)) else
      Loop (0%nat, S754_zero false) (sum_round key n) (fun sum =>
      Act (read_data (fun d => length (default [] (d !! key)))) (fun size =>
      Finish (Ret (AAverage (Some (SFdiv 53 1024 sum (sf_of_size size))))))))
  | CSnapshot =>
      Act this (fun e =>
      match m_wal e with
      | None => Finish (Throw (runtime_error "snapshot() called on engine with no WAL"))
      | Some _ =>
          Act (wal WAL.epoch) (fun epoch =>
          Act (read_data exportSnapshotState) (fun state =>
          let image := MkSnapshotImage epoch state in
          Act (sys (Snapshot.save host enumerate (m_snapshotPath e) image)) (fun ok =>
          if negb ok then Finish (Throw (runtime_error ("Failed to write snapshot to disk: " +:+ m_snapshotPath e))) else
          Act (update (set_snapshotEpoch (Some (si_epoch image)))) (fun _ =>
          Act (wal (WAL.setEpoch (u64 (si_epoch image + 1)))) (fun _ =>
          Act (wal WAL.reset) (fun ok =>
          if negb ok then Finish (Throw (runtime_error ("WAL rotation failed after snapshot: " +:+ m_walPath e)))
          else Finish (Ret AUnit)))))))
      end)
  | CCount => Act (read_data (fun d => Z.of_nat (size d))) (fun n => Finish (Ret (ASize n)))
  | CHistory key => Act (read_data (fun d => zlen (default [] (d !! key)))) (fun n => Finish (Ret (ASize n)))
  | CRecover =>
      Act (update (set_data ∅)) (fun _ =>
      Act (update (set_snapshotEpoch None)) (fun _ =>
      Act this (fun e =>
      Act (sys (Snapshot.load host (m_snapshotPath e) (MkSnapshotImage 0 ∅))) (fun '(ok, image) =>
      if ok : bool then
        Act (update (set_snapshotEpoch (Some (si_epoch image)))) (fun _ =>
        Act (on_data (fun cap => replay_snapshot enumerate cap (si_state image))) (fun _ =>
        Act (wal (WAL.setEpoch (u64 (si_epoch image + 1)))) (fun _ => recover_log)))
      else Act (wal (WAL.setEpoch 0)) (fun _ => recover_log)))))
  end.

(** The methods of Engine.v, which run in one step. *)
Definition sequential (c : call) : M st answer :=
  match c with
  | CSet key value duration now => set host key value duration now ;;; ret AUnit
  | CGet key => v <- get key ;; ret (AText v)
  | CRemove key now => b <- remove key now ;; ret (ABool b)
  | CAverage key => a <- getAverage key ;; ret (AAverage a)
  | CSnapshot => snapshot host enumerate ;;; ret AUnit
  | CCount => n <- count ;; ret (ASize n)
  | CHistory key => n <- historyCount key ;; ret (ASize n)
  | CRecover => recover host enumerate ;;; ret AUnit
  end.

(** ** Threads *)

Inductive status :=
  | Ready                               (** between two calls *)
  | Waiting (c : call)                  (** in the constructor of the lock *)
  | Inside (c : call) (p : prog answer). (** holding the lock *)

Record thread := Thread {
  t_todo : list call;
  t_status : status;
  t_done : list (call * result answer)
}.

(** The mutex: whether a writer holds it, and how many readers do. *)
Record mutex := Mutex { x_writer : bool; x_readers : nat }.

(** All threads, the shared object, and the calls that have returned, in the
    order in which they did. *)
Record conf := Conf {
  c_power : bool;
  c_state : st;
  c_mutex : mutex;
  c_threads : list thread;
  c_log : list (nat * call * result answer)
}.

Definition set_thread (i : nat) (t : thread) (c : conf) : conf :=
  Conf (c_power c) (c_state c) (c_mutex c) (<[i := t]> (c_threads c)) (c_log c).
Definition set_state (s : st) (c : conf) : conf :=
  Conf (c_power c) s (c_mutex c) (c_threads c) (c_log c).
Definition set_mutex (x : mutex) (c : conf) : conf :=
  Conf (c_power c) (c_state c) x (c_threads c) (c_log c).
Definition returned (i : nat) (k : call) (r : result answer) (c : conf) : conf :=
  Conf (c_power c) (c_state c) (c_mutex c) (c_threads c) (c_log c ++ [(i, k, r)]).
Definition power_off (c : conf) : conf :=
  Conf false (c_state c) (c_mutex c) (c_threads c) (c_log c).

(** [lock_shared], [lock], and their release. *)
Definition acquire (m : mode) (x : mutex) : option mutex :=
  match m with
  | Shared => if x_writer x then None else Some (Mutex false (S (x_readers x)))
  | Exclusive => if x_writer x || negb (x_readers x =? 0)%nat then None else Some (Mutex true 0)
  end.
Definition release (m : mode) (x : mutex) : mutex :=
  match m with
  | Shared => Mutex (x_writer x) (pred (x_readers x))
  | Exclusive => Mutex false (x_readers x)
  end.

(** A step of thread [i]. *)
Inductive step (i : nat) : conf -> conf -> Prop :=
  | step_refuse c k todo l e :
      c_power c = true -> c_threads c !! i = Some (Thread (k :: todo) Ready l) -> guard k = Some e ->
      step i c (returned i k (Throw e) (set_thread i (Thread todo Ready (l ++ [(k, Throw e)])) c))
  | step_call c k todo l :
      c_power c = true -> c_threads c !! i = Some (Thread (k :: todo) Ready l) -> guard k = None ->
      step i c (set_thread i (Thread todo (Waiting k) l) c)
  | step_lock c k todo l x :
      c_power c = true -> c_threads c !! i = Some (Thread todo (Waiting k) l) ->
      acquire (call_mode k) (c_mutex c) = Some x ->
      step i c (set_mutex x (set_thread i (Thread todo (Inside k (body k)) l) c))
  | step_act c k todo l p m r s :
      c_power c = true -> c_threads c !! i = Some (Thread todo (Inside k p) l) ->
      next_access p = inr m -> m (c_state c) = (r, s) -> r <> Halt ->
      step i c (set_state s (set_thread i (Thread todo (Inside k (after r)) l) c))
  | step_power_cut c k todo l p m s :
      c_power c = true -> c_threads c !! i = Some (Thread todo (Inside k p) l) ->
      next_access p = inr m -> m (c_state c) = (Halt, s) ->
      step i c (power_off (set_state s (set_thread i (Thread todo (Inside k (Finish Halt)) l) c)))
  | step_return c k todo l r :
      c_power c = true -> c_threads c !! i = Some (Thread todo (Inside k (Finish r)) l) ->
      step i c (returned i k r (set_mutex (release (call_mode k) (c_mutex c))
        (set_thread i (Thread todo Ready (l ++ [(k, r)])) c))).

Inductive steps : conf -> conf -> Prop :=
  | steps_refl c : steps c c
  | steps_step c1 i c2 c3 : steps c1 c2 -> step i c2 c3 -> steps c1 c3.

(** Threads with their calls to make, on an engine that nobody uses yet. *)
Definition init (progs : list (list call)) (s : st) : conf :=
  Conf true s (Mutex false 0) ((fun p => Thread p Ready []) <$> progs) [].

(** The calls in the given order, one after the other. *)
Fixpoint replay (l : list call) (s : st) : list (result answer) * st :=
  match l with
  | [] => ([], s)
  | k :: l =>
      let '(r, s) := sequential k s in
      let '(rs, s) := replay l s in (r :: rs, s)
  end.
End methods.
