(* ===== verification/ConcurrentFacts.v ===== *)
(** * ConcurrentFacts: the invariant of threads that share an engine

    The bodies of the methods against the methods of Engine.v, the mutex word
    against the threads that hold it, and the invariant of the step relation:
    the calls that have returned, replayed one after the other, give their
    results and the state that the threads inside started from. *)

From Stdlib Require Import SpecFloat.
From stdpp Require Import gmap.
From S2P Require Import Prelude Endian Exec Posix LogFormat WAL Snapshot Engine EngineFacts Concurrent.

Import StorageEngine.

(** ** Bodies *)

Lemma run_act {A} n (B : Set) (m : M st B) (k : B -> prog A) s :
  run (S n) (Act m k) s =
  match m s with (Ret b, s') => run n (k b) s' | (Throw e, s') => Some (Throw e, s') | (Halt, s') => Some (Halt, s') end.
Proof. cbn [run next_access]. unfold bind. destruct (m s) as [[b|e|] s']; [done|by destruct n..]. Qed.

Lemma run_loop {A} n (L B : Set) (l : L) (round : L -> M st (L + B)) (k : B -> prog A) s :
  run (S n) (Loop l round k) s =
  match round l s with
  | (Ret (inl l), s') => run n (Loop l round k) s'
  | (Ret (inr b), s') => run n (k b) s'
  | (Throw e, s') => Some (Throw e, s')
  | (Halt, s') => Some (Halt, s')
  end.
Proof. cbn [run next_access]. unfold bind. destruct (round l s) as [[[l'|b]|e|] s']; [done|done|by destruct n..]. Qed.

Lemma run_finish {A} n (r : result A) s : run n (Finish r) s = Some (r, s).
Proof. by destruct n. Qed.

(** One access of a run. *)
Lemma run_access {A} n (p : prog A) m s x :
  next_access p = inr m -> run n p s = Some x -> exists n', n = S n' /\ run n' (after (m s).1) (m s).2 = Some x.
Proof. intros Hp H. destruct n as [|n]; cbn [run] in H; rewrite Hp in H; [done|]. exists n. by destruct (m s). Qed.

(** The accesses of [appendCapped] together. *)
Lemma append_steps_run n key v duration now s :
  run (S (S (S n))) (append_steps key v duration now) s =
  Some (Ret AUnit, St (set_data (appendCapped (m_maxHistoryPerKey (s_engine s)) key v duration now (m_data (s_engine s)))
    (s_engine s)) (s_os s)).
Proof.
  unfold append_steps. rewrite run_act. unfold on_data at 1, update at 1, modify. rewrite run_act.
  unfold on_data at 1, update at 1, modify. rewrite run_act. unfold on_data, update, modify. rewrite run_finish.
  cbn [s_engine s_os set_data m_data m_maxHistoryPerKey].
  unfold emplace, erase_oldest, find_entry, appendCapped. by rewrite !alter_insert_eq.
Qed.

(** The loop of [getAverage]. *)
Lemma sum_loop_run {A} key n (k : spec_float -> prog A) s m i sum :
  (i + m = length (default [] (m_data (s_engine s) !! key)))%nat ->
  run (S m + n) (Loop (i, sum) (sum_round key (i + m)) k) s =
  run n (k (fold_left (fun sum r => SFadd 53 1024 sum (sf_of_double (duration r)))
    (drop i (default [] (m_data (s_engine s) !! key))) sum)) s.
Proof.
  set (h := default [] (m_data (s_engine s) !! key)). revert i sum. induction m as [|m IH]; intros i sum Hm.
  - rewrite Nat.add_0_r, drop_ge by lia. cbn [Nat.add]. rewrite run_loop. unfold sum_round. by rewrite Nat.eqb_refl.
  - cbn [Nat.add]. rewrite run_loop. unfold sum_round at 1. destruct (Nat.eqb_spec i (i + S m)); [lia|].
    unfold read_data, this, bind, Exec.get, ret. fold h.
    destruct (lookup_lt_is_Some_2 h i ltac:(lia)) as [r Hr]. rewrite Hr. cbn [option_map].
    replace (i + S m)%nat with (S i + m)%nat by lia. rewrite (drop_S _ _ _ Hr). apply IH. lia.
Qed.

Lemma wal_epoch s w : m_wal (s_engine s) = Some w -> wal WAL.epoch s = (Ret (WAL.m_epoch w), s).
Proof.
  intros Hw. unfold wal, WAL.epoch, WAL.this, bind, Exec.get, ret, set_wal. rewrite Hw. cbn [WAL.s_wal WAL.s_os].
  rewrite <- Hw. by destruct s as [[] ].
Qed.

(** How many accesses a method makes at most. *)
Definition accesses (c : call) (s : st) : nat :=
  match c with
  | CSet _ _ _ _ => 5
  | CGet _ => 2
  | CRemove _ _ => 4
  | CAverage key => length (default [] (m_data (s_engine s) !! key)) + 3
  | CSnapshot => 7
  | CCount | CHistory _ => 1
  | CRecover => 10
  end.

Section bodies.
Context (host : host_order) (enumerate : SnapshotState -> list (bytes * list SnapshotRecord)).

Lemma recover_log_run n s :
  run (S (S (S n))) (recover_log host) s =
  Some (((e <- this ;;
   let* (result, d) :=
     wal (WAL.recover (replay_entry host (m_maxHistoryPerKey e)) (m_snapshotEpoch e) (m_data e)) in
   update (set_data d) ;;;
   let at_ := pretty.pretty (r_tamperOffset result) +:+ " (seq " +:+ pretty.pretty (r_tamperSeq result) in
   if bool_decide (r_status result = Tampered) then
     throw (runtime_error ("WAL tampering detected at offset " +:+ at_ +:+ ")"))
   else if bool_decide (r_status result = Malformed) then
     throw (runtime_error ("WAL field exceeds the size limit at offset " +:+ at_ +:+ ") - foreign or stale file"))
   else ret tt) ;;; ret AUnit) s).
Proof.
  unfold recover_log. rewrite run_act. unfold this, bind, Exec.get, ret. rewrite run_act.
  destruct (wal _ s) as [[[result d]|x|] s1]; [|done..]. rewrite run_act. unfold on_data, update, modify.
  by destruct (bool_decide _); [|destruct (bool_decide _)]; rewrite run_finish.
Qed.

Lemma average_run key s :
  run (accesses (CAverage key) s) (body host enumerate (CAverage key)) s = Some (sequential host enumerate (CAverage key) s).
Proof.
  cbn [body sequential accesses].
  rewrite Nat.add_comm. cbn [Nat.add]. rewrite run_act.
  unfold read_data at 1, getAverage, this, bind, Exec.get, ret.
  set (k := fun sum : spec_float => Act (read_data (fun d => length (default [] (d !! key)))) (fun size =>
    Finish (Ret (AAverage (Some (SFdiv 53 1024 sum (sf_of_size size))))))).
  pose proof (sum_loop_run key 1 k s (length (default [] (m_data (s_engine s) !! key))) 0 (S754_zero false) eq_refl) as H.
  rewrite Nat.add_comm in H. cbn [Nat.add] in H. fold k.
  destruct (m_data (s_engine s) !! key) as [[|r h]|] eqn:E; [done| |done]. cbn [default from_option id length Nat.eqb] in *.
  rewrite H. unfold k. rewrite run_act. unfold read_data, this, bind, Exec.get, ret. by rewrite E.
Qed.

Lemma recover_run s : run (accesses CRecover s) (body host enumerate CRecover) s = Some (sequential host enumerate CRecover s).
Proof.
  cbn [body sequential accesses].
  unfold recover, bind, update, modify, this, Exec.get, ret, bind. do 4 (rewrite run_act; cbv beta iota).
  cbn [s_engine s_os set_data set_snapshotEpoch m_snapshotPath].
  destruct (sys _ _) as [[[[] image]|x|] s1]; [| |done..]; rewrite run_act.
  + unfold on_data, update, modify. cbv beta iota. do 2 (rewrite run_act; cbv beta iota).
    destruct (wal _ _) as [[[]|x|] s2]; [|done..]. by rewrite recover_log_run.
  + destruct (wal _ s1) as [[[]|x|] s2]; [|done..]. by rewrite recover_log_run.
Qed.

(** Without interleaving, the body of a method ends, and is the method. *)
Lemma body_run k s :
  guard k = None -> run (accesses k s) (body host enumerate k) s = Some (sequential host enumerate k s).
Proof.
  destruct k as [key v duration now|key|key now|key| | |key|]; cbn [guard body sequential accesses].
  2-8: intros _.
  - unfold set. destruct (WAL.kMaxFieldSize <? zlen key); [done|]. destruct (kMaxFieldSize <? zlen v); [done|]. intros _.
    rewrite run_act. unfold bind at 1, this, bind, Exec.get, ret. destruct (m_wal (s_engine s)) as [w|].
    + rewrite run_act. unfold bind. destruct (wal _ s) as [[[]|x|] s1]; [|done..]. by rewrite append_steps_run.
    + by rewrite append_steps_run.
  - rewrite run_act. unfold read_data, get, bind, this, bind, Exec.get, ret.
    destruct (m_data (s_engine s) !! key) as [[|r h]|] eqn:E; cbn [default from_option id]; case_bool_decide as Hn; try reflexivity.
    1, 4: by destruct Hn.
    + by rewrite run_act, E, run_finish.
    + discriminate Hn.
  - rewrite run_act. unfold remove, bind, this, bind, Exec.get, ret. destruct (m_wal (s_engine s)) as [w|]; [|done].
    rewrite run_act. unfold bind. by destruct (wal _ s) as [[[]|x|] s1].
  - apply average_run.
  - rewrite run_act. unfold snapshot, bind, this, bind, Exec.get, ret. destruct (m_wal (s_engine s)) as [w|] eqn:Ew; [|done].
    rewrite run_act, (wal_epoch s w Ew). rewrite run_act. unfold read_data, this, bind, Exec.get, ret, bind. rewrite run_act.
    destruct (sys _ s) as [[[]|x|] s1]; [|done..]. cbn [negb]. rewrite run_act.
    destruct (update _ s1) as [[[]|x|] s2]; [|done..]. rewrite run_act.
    destruct (wal _ s2) as [[[]|x|] s3]; [|done..]. rewrite run_act.
    by destruct (wal WAL.reset s3) as [[[]|x|] s4].
  - done.
  - rewrite run_act. unfold read_data, historyCount, bind, this, bind, Exec.get, ret. by destruct (m_data (s_engine s) !! key).
  - apply recover_run.
Qed.
End bodies.

(** ** Readers *)

(** A program none of whose accesses changes the shared object. *)
Fixpoint quiet {A} (p : prog A) : Prop :=
  match p with
  | Finish _ => True
  | Act m k => (forall s, snd (m s) = s) /\ forall b, quiet (k b)
  | Loop l round k => (forall l s, snd (round l s) = s) /\ forall b, quiet (k b)
  end.

Lemma quiet_access {A} (p : prog A) m s : quiet p -> next_access p = inr m -> snd (m s) = s /\ quiet (after (m s).1).
Proof.
  destruct p as [r|B m0 k|L B l round k]; cbn [next_access quiet]; intros Hq [= <-]; destruct Hq as [H1 H2]; unfold bind, ret.
  - specialize (H1 s). destruct (m0 s) as [[b|e|] s1]; cbn in *; by subst.
  - pose proof (H1 l s) as H. destruct (round l s) as [[[l'|b]|e|] s1]; cbn in *; by subst.
Qed.

Lemma read_data_quiet {A} (f : data -> A) s : snd (read_data f s) = s.
Proof. done. Qed.

Lemma sum_round_quiet key n l s : snd (sum_round key n l s) = s.
Proof.
  unfold sum_round. destruct l as [i sum]. destruct (_ =? _)%nat; [done|].
  unfold read_data, this, bind, Exec.get, ret. by destruct (option_map _ _).
Qed.

Create HintDb quiet.
#[export] Hint Resolve read_data_quiet sum_round_quiet I : quiet.

Lemma body_quiet host enumerate k : call_mode k = Shared -> quiet (body host enumerate k).
Proof.
  destruct k; intros Hk; try discriminate Hk; cbn [body quiet]; (split; [auto with quiet|]).
  - intros []; cbn [quiet]; auto with quiet.
  - intros n. destruct (n =? 0)%nat; cbn [quiet]; auto with quiet.
  - done.
  - done.
Qed.

(** ** The threads that hold the mutex *)

Definition holds_mode (m : mode) (t : thread) : bool :=
  match t_status t with Inside k _ => bool_decide (call_mode k = m) | _ => false end.

Fixpoint holders (m : mode) (l : list thread) : nat :=
  match l with [] => 0 | t :: l => Nat.b2n (holds_mode m t) + holders m l end.

Lemma holders_insert m l i t t' :
  l !! i = Some t ->
  (holders m (<[i := t']> l) + Nat.b2n (holds_mode m t) = holders m l + Nat.b2n (holds_mode m t'))%nat.
Proof.
  revert i. induction l as [|u l IH]; intros i Hi; [done|]. destruct i as [|i].
  - injection Hi as ->. change (<[0%nat := t']> (t :: l)) with (t' :: l). cbn [holders]. lia.
  - specialize (IH i Hi). change (<[S i := t']> (u :: l)) with (u :: <[i := t']> l). cbn [holders]. lia.
Qed.

Lemma holders_pos m l i t : l !! i = Some t -> holds_mode m t = true -> (1 <= holders m l)%nat.
Proof.
  revert i. induction l as [|u l IH]; intros i Hi Ht; [done|]. destruct i as [|i]; cbn in *.
  - injection Hi as ->. rewrite Ht. cbn. lia.
  - specialize (IH i Hi Ht). lia.
Qed.

Lemma holders_two m l i j t u :
  l !! i = Some t -> l !! j = Some u -> i <> j -> holds_mode m t = true -> holds_mode m u = true ->
  (2 <= holders m l)%nat.
Proof.
  intros Hi Hj Hne Ht Hu. set (idle := Thread [] Ready []).
  pose proof (holders_insert m l i t idle Hi) as Hins. rewrite Ht in Hins. cbn in Hins.
  assert (Hj' : <[i := idle]> l !! j = Some u) by (by rewrite list_lookup_insert_ne).
  pose proof (holders_pos m _ j u Hj' Hu). lia.
Qed.

Lemma holders_none m l : (forall i t, l !! i = Some t -> holds_mode m t = false) -> holders m l = 0%nat.
Proof.
  induction l as [|t l IH]; intros H; [done|]. cbn. rewrite (H 0%nat t eq_refl). cbn. apply IH. intros i. apply (H (S i)).
Qed.

(** The mutex word counts its holders. *)
Record mutex_ok (x : mutex) (l : list thread) : Prop := {
  mx_readers : holders Shared l = x_readers x;
  mx_writer : holders Exclusive l = Nat.b2n (x_writer x);
  mx_apart : x_writer x = true -> x_readers x = 0%nat
}.

Lemma writer_word x l i t k p :
  mutex_ok x l -> l !! i = Some t -> t_status t = Inside k p -> call_mode k = Exclusive -> x_writer x = true.
Proof.
  intros [_ H _] Hi Ht Hk.
  assert (Ht1 : holds_mode Exclusive t = true) by (unfold holds_mode; rewrite Ht; by apply bool_decide_eq_true_2).
  pose proof (holders_pos _ _ _ _ Hi Ht1) as Hpos. rewrite H in Hpos. by destruct (x_writer x); cbn in Hpos; [|lia].
Qed.

Lemma reader_word x l i t k p :
  mutex_ok x l -> l !! i = Some t -> t_status t = Inside k p -> call_mode k = Shared -> x_writer x = false.
Proof.
  intros [H _ H3] Hi Ht Hk.
  assert (Ht1 : holds_mode Shared t = true) by (unfold holds_mode; rewrite Ht; by apply bool_decide_eq_true_2).
  pose proof (holders_pos _ _ _ _ Hi Ht1) as Hpos. destruct (x_writer x); [|done]. rewrite H, (H3 eq_refl) in Hpos. lia.
Qed.

(** A thread that holds the mutex alone. *)
Lemma writer_alone x l i j t u k p :
  mutex_ok x l -> l !! i = Some t -> t_status t = Inside k p -> call_mode k = Exclusive ->
  l !! j = Some u -> j <> i -> forall k' p', t_status u <> Inside k' p'.
Proof.
  intros [H1 H2 H3] Hi Ht Hk Hj Hne k' p' Hu.
  assert (Ht1 : holds_mode Exclusive t = true) by (unfold holds_mode; rewrite Ht; by apply bool_decide_eq_true_2).
  pose proof (writer_word _ _ _ _ _ _ (Build_mutex_ok _ _ H1 H2 H3) Hi Ht Hk) as Ew. rewrite Ew in *.
  destruct (call_mode k') eqn:Ek'.
  - assert (Hu1 : holds_mode Shared u = true) by (unfold holds_mode; rewrite Hu; by apply bool_decide_eq_true_2).
    pose proof (holders_pos _ _ _ _ Hj Hu1). specialize (H3 eq_refl). lia.
  - assert (Hu1 : holds_mode Exclusive u = true) by (unfold holds_mode; rewrite Hu; by apply bool_decide_eq_true_2).
    pose proof (holders_two _ _ _ _ _ _ Hi Hj (not_eq_sym Hne) Ht1 Hu1). rewrite H2 in *. cbn in *. lia.
Qed.

(** Steps that leave the holders alone, that acquire and that release. *)
Lemma mutex_ok_same x l i t t' :
  mutex_ok x l -> l !! i = Some t -> (forall m, holds_mode m t' = holds_mode m t) -> mutex_ok x (<[i := t']> l).
Proof.
  intros [H1 H2 H3] Hi Hs. split; [| |done].
  - pose proof (holders_insert Shared l i t t' Hi) as H. rewrite Hs in H. lia.
  - pose proof (holders_insert Exclusive l i t t' Hi) as H. rewrite Hs in H. lia.
Qed.

(** [lia] where the holders are counted. *)
Ltac count_lia :=
  cbn [Nat.b2n pred x_writer x_readers] in *;
  repeat match goal with
  | H : context [Nat.b2n (bool_decide (?a = ?b))] |- _ =>
      let v := eval vm_compute in (Nat.b2n (bool_decide (a = b))) in change (Nat.b2n (bool_decide (a = b))) with v in H
  end; lia.

Lemma mutex_ok_acquire m x x' l i t t' :
  mutex_ok x l -> l !! i = Some t -> (forall m, holds_mode m t = false) ->
  (forall m', holds_mode m' t' = bool_decide (m = m')) -> acquire m x = Some x' -> mutex_ok x' (<[i := t']> l).
Proof.
  intros [H1 H2 H3] Hi Hn Hm Hx.
  pose proof (holders_insert Shared l i t t' Hi) as Hs. pose proof (holders_insert Exclusive l i t t' Hi) as He.
  rewrite Hn, Hm in Hs, He. destruct x as [[] n]; [by destruct m|]. destruct m; cbn in Hx.
  - injection Hx as <-. split; [count_lia|count_lia|done].
  - destruct n; [|done]. injection Hx as <-. split; [count_lia|count_lia|done].
Qed.

Lemma mutex_ok_release m x l i t t' :
  mutex_ok x l -> l !! i = Some t -> (forall m', holds_mode m' t = bool_decide (m = m')) ->
  (forall m, holds_mode m t' = false) -> mutex_ok (release m x) (<[i := t']> l).
Proof.
  intros [H1 H2 H3] Hi Hm Hn.
  pose proof (holders_insert Shared l i t t' Hi) as Hs. pose proof (holders_insert Exclusive l i t t' Hi) as He.
  rewrite Hn, Hm in Hs, He. destruct x as [w n]. destruct m; cbn [release]; (split; [count_lia| |]).
  - count_lia.
  - cbn in *. intros ->. by rewrite (H3 eq_refl).
  - destruct w; count_lia.
  - done.
Qed.

(** ** The invariant *)

(** The calls of thread [i] in the log, with their results. *)
Definition results_of (i : nat) (log : list (nat * call * result answer)) : list (call * result answer) :=
  (fun x => (x.1.2, x.2)) <$> filter (fun x => x.1.1 = i) log.

Lemma results_of_snoc i log j k r :
  results_of i (log ++ [(j, k, r)]) = results_of i log ++ (if decide (j = i) then [(k, r)] else []).
Proof.
  unfold results_of. rewrite filter_app, fmap_app. f_equal. rewrite filter_cons; cbn [fst]. by destruct (decide (j = i)).
Qed.

(** The call a thread is in. *)
Definition current (u : status) : list call :=
  match u with Ready => [] | Waiting k | Inside k _ => [k] end.

Section invariant.
Context (host : host_order) (enumerate : SnapshotState -> list (bytes * list SnapshotRecord)).
Abbreviation sequential := (sequential host enumerate).
Abbreviation replay := (replay host enumerate).
Abbreviation step := (step host enumerate).
Abbreviation steps := (steps host enumerate).

Lemma replay_snoc l k s :
  replay (l ++ [k]) s =
  ((replay l s).1 ++ [(sequential k (replay l s).2).1], (sequential k (replay l s).2).2).
Proof.
  revert s. induction l as [|k' l IH]; intros s; cbn [app Concurrent.replay fst snd].
  - by destruct (sequential k s).
  - destruct (sequential k' s) as [r s1]. rewrite IH. by destruct (replay l s1) as [rs s2].
Qed.

(** The state from which the threads inside started. *)
Definition base_state (s0 : st) (c : conf) : st := (replay ((fun x => x.1.2) <$> c_log c) s0).2.

(** What a thread still has to do gives the outcome of its call from [s]. *)
Definition thread_ok (s cur : st) (u : status) : Prop :=
  match u with
  | Ready => True
  | Waiting k => guard k = None
  | Inside k p => guard k = None /\ (call_mode k = Shared -> quiet p) /\
      exists n, (n <= accesses k s)%nat /\ run n p cur = Some (sequential k s)
  end.

Record inv (progs : list (list call)) (s0 : st) (c : conf) : Prop := {
  inv_mutex : mutex_ok (c_mutex c) (c_threads c);
  inv_replay : (replay ((fun x => x.1.2) <$> c_log c) s0).1 = (fun x => x.2) <$> c_log c;
  inv_state : x_writer (c_mutex c) = false -> c_state c = base_state s0 c;
  inv_threads : forall i t, c_threads c !! i = Some t -> thread_ok (base_state s0 c) (c_state c) (t_status t);
  inv_program : forall i t, c_threads c !! i = Some t ->
    progs !! i = Some ((t_done t).*1 ++ current (t_status t) ++ t_todo t) /\ t_done t = results_of i (c_log c);
  inv_length : length (c_threads c) = length progs;
  inv_power : c_power c = false -> exists i t k, c_threads c !! i = Some t /\ t_status t = Inside k (Finish Halt)
}.

Lemma inv_init progs s0 : inv progs s0 (init progs s0).
Proof.
  assert (Hi : forall i t, c_threads (init progs s0) !! i = Some t -> exists p, progs !! i = Some p /\ t = Thread p Ready []).
  { intros i t Ht. cbn in Ht. rewrite list_lookup_fmap in Ht. destruct (progs !! i) as [p|]; [|done].
    injection Ht as <-. by exists p. }
  split.
  - split; [| |done]; cbn [init c_mutex x_readers x_writer Nat.b2n]; apply holders_none; by intros i t (p & _ & ->)%Hi.
  - done.
  - done.
  - by intros i t (p & _ & ->)%Hi.
  - by intros i t (p & Hp & ->)%Hi.
  - cbn. by rewrite length_fmap.
  - done.
Qed.

(** The threads after a change of thread [i], one by one. *)
Lemma lookup_set_thread (l : list thread) i t t' j u :
  l !! i = Some t -> <[i := t']> l !! j = Some u -> (j = i /\ u = t') \/ (j <> i /\ l !! j = Some u).
Proof.
  intros Hi Hj. destruct (decide (j = i)) as [->|Hne].
  - rewrite list_lookup_insert_eq in Hj by (by eapply lookup_lt_Some). injection Hj as <-. by left.
  - rewrite list_lookup_insert_ne in Hj by done. by right.
Qed.

(** A step that returns nothing: the log is the same. *)
Lemma inv_silent progs s0 c i t u x s pw :
  inv progs s0 c -> c_power c = true -> c_threads c !! i = Some t ->
  let c' := Conf pw s x (<[i := u]> (c_threads c)) (c_log c) in
  mutex_ok x (c_threads c') ->
  t_done u = t_done t -> current (t_status u) ++ t_todo u = current (t_status t) ++ t_todo t ->
  (x_writer x = false -> s = base_state s0 c) ->
  thread_ok (base_state s0 c) s (t_status u) ->
  (s = c_state c \/ forall j v k p, j <> i -> c_threads c !! j = Some v -> t_status v <> Inside k p) ->
  (pw = false -> exists k, t_status u = Inside k (Finish Halt)) ->
  inv progs s0 c'.
Proof.
  intros [H1 H2 H3 H4 H5 H6 H7] Hpw Hi c' Hm Hd Hp Hs Hu Ho Hoff. split.
  - exact Hm.
  - exact H2.
  - exact Hs.
  - intros j v Hj. destruct (lookup_set_thread _ _ _ _ _ _ Hi Hj) as [[-> ->]|[Hne Hj']]; [exact Hu|].
    specialize (H4 j v Hj'). destruct Ho as [->|Ho]; [exact H4|].
    destruct (t_status v) as [|k|k p] eqn:Ev; [done|done|by destruct (Ho j v k p Hne Hj')].
  - intros j v Hj. destruct (lookup_set_thread _ _ _ _ _ _ Hi Hj) as [[-> ->]|[Hne Hj']]; [|by apply H5].
    rewrite Hd, Hp. by apply H5.
  - cbn. by rewrite length_insert.
  - cbn. intros E. destruct (Hoff E) as [k Hk]. exists i, u, k. split; [|done].
    apply list_lookup_insert_eq. by eapply lookup_lt_Some.
Qed.

(** A step that returns from a call: the log grows. *)
Lemma inv_return progs s0 c i t todo k r x :
  inv progs s0 c -> c_power c = true -> c_threads c !! i = Some t ->
  current (t_status t) ++ t_todo t = k :: todo ->
  let c' := Conf true (c_state c) x (<[i := Thread todo Ready (t_done t ++ [(k, r)])]> (c_threads c)) (c_log c ++ [(i, k, r)]) in
  mutex_ok x (c_threads c') ->
  (sequential k (base_state s0 c)).1 = r ->
  (x_writer x = false -> c_state c = (sequential k (base_state s0 c)).2) ->
  ((sequential k (base_state s0 c)).2 = base_state s0 c \/
   forall j v k p, j <> i -> c_threads c !! j = Some v -> t_status v <> Inside k p) ->
  inv progs s0 c'.
Proof.
  intros [H1 H2 H3 H4 H5 H6 H7] Hpw Hi Hk c' Hm Hr Hs Ho.
  assert (Hb : base_state s0 c' = (sequential k (base_state s0 c)).2).
  { unfold base_state, c'; cbn [c_log]. rewrite fmap_app. cbn [fmap list_fmap]. by rewrite replay_snoc. }
  split.
  - exact Hm.
  - unfold c'; cbn [c_log]. rewrite !fmap_app. cbn [fmap list_fmap]. rewrite replay_snoc. cbn [fst]. by rewrite H2, <- Hr.
  - rewrite Hb. exact Hs.
  - intros j v Hj. rewrite Hb. destruct (lookup_set_thread _ _ _ _ _ _ Hi Hj) as [[-> ->]|[Hne Hj']]; [done|].
    specialize (H4 j v Hj'). destruct Ho as [->|Ho]; [exact H4|].
    destruct (t_status v) as [|k'|k' p] eqn:Ev; [done|done|by destruct (Ho j v k' p Hne Hj')].
  - intros j v Hj. unfold c'; cbn [c_log]. rewrite results_of_snoc.
    destruct (lookup_set_thread _ _ _ _ _ _ Hi Hj) as [[-> ->]|[Hne Hj']].
    + destruct (H5 i t Hi) as [Hp Hd]. rewrite Hk in Hp. rewrite decide_True by done. cbn [t_done t_status t_todo current app].
      rewrite fmap_app. cbn. rewrite <- app_assoc. by rewrite <- Hd.
    + rewrite decide_False by done. rewrite app_nil_r. by apply H5.
  - cbn. by rewrite length_insert.
  - done.
Qed.
End invariant.
