(* ===== verification/ConcurrentSpec.v ===== *)
(** * ConcurrentSpec: the properties of threads that share an engine

    Concurrent runs against sequential ones, mutual exclusion, the absence of
    deadlocks, and the end of every run, whose loops are not bounded by their
    definition.  [run_step] is the step relation as a function, for examples. *)

From stdpp Require Import gmap.
From S2P Require Import Prelude Endian Exec Posix LogFormat WAL Snapshot Engine EngineFacts Concurrent ConcurrentFacts EngineSpec Outcomes.

Import StorageEngine.

Section spec.
Context (host : host_order) (enumerate : SnapshotState -> list (bytes * list SnapshotRecord)).
Abbreviation sequential := (sequential host enumerate).
Abbreviation replay := (replay host enumerate).
Abbreviation step := (step host enumerate).
Abbreviation steps := (steps host enumerate).

Lemma guard_sequential k e s : guard k = Some e -> sequential k s = (Throw e, s).
Proof.
  destruct k as [key v duration now| | | | | | |]; try done. cbn [guard Concurrent.sequential]. unfold set.
  destruct (WAL.kMaxFieldSize <? zlen key); [by intros [= ->]|]. by destruct (kMaxFieldSize <? zlen v); [intros [= ->]|].
Qed.

(** An access leaves a thread on its way, with one access less to make. *)
Lemma access_ok s cur k p m r cur' :
  thread_ok host enumerate s cur (Inside k p) -> next_access p = inr m -> m cur = (r, cur') ->
  thread_ok host enumerate s cur' (Inside k (after r)) /\ (call_mode k = Shared -> cur' = cur).
Proof.
  intros (Hg & Hq & n & Hn & Hrun) Hp Hr. apply (run_access n p m cur) in Hrun as (n' & -> & Hrun); [|done].
  rewrite Hr in Hrun. cbn [fst snd] in Hrun.
  assert (Hquiet : call_mode k = Shared -> cur' = cur /\ quiet (after r)).
  { intros Hk. destruct (quiet_access p m cur (Hq Hk) Hp) as [H1 H2]. by rewrite Hr in H1, H2. }
  split; [|by apply Hquiet]. split_and!; [done|by apply Hquiet|]. exists n'. split; [lia|done].
Qed.

Lemma access_inv progs s0 i c k todo l p m r s pw :
  inv host enumerate progs s0 c -> c_power c = true ->
  c_threads c !! i = Some (Thread todo (Inside k p) l) -> next_access p = inr m ->
  m (c_state c) = (r, s) -> (pw = false -> r = Halt) ->
  inv host enumerate progs s0
    (Conf pw s (c_mutex c) (<[i := Thread todo (Inside k (after r)) l]> (c_threads c)) (c_log c)).
Proof.
  intros Hc Hp Hi Hm1 Hr Hpw. pose proof (inv_mutex _ _ _ _ _ Hc) as Hm. pose proof (inv_state _ _ _ _ _ Hc) as Hs.
  pose proof (inv_threads _ _ _ _ _ Hc i _ Hi) as Hin. pose proof (access_ok _ _ _ _ _ _ _ Hin Hm1 Hr) as Hu.
  apply (inv_silent host enumerate progs s0 c i _ _ _ _ _ Hc Hp Hi); try done; cbn.
  - by apply (mutex_ok_same _ _ _ _ _ Hm Hi).
  - intros Hw. destruct (call_mode k) eqn:Hk; [rewrite (proj2 Hu eq_refl); by apply Hs|].
    by rewrite (writer_word _ _ _ _ _ _ Hm Hi eq_refl Hk) in Hw.
  - apply Hu.
  - destruct (call_mode k) eqn:Hk; [left; by apply (proj2 Hu)|right].
    intros j v k' p' Hne Hj. by eapply (writer_alone _ _ _ _ _ _ _ _ Hm Hi eq_refl Hk Hj).
  - intros E. rewrite (Hpw E). by exists k.
Qed.

Lemma step_inv progs s0 i c c' : inv host enumerate progs s0 c -> step i c c' -> inv host enumerate progs s0 c'.
Proof.
  intros Hc Hstep. pose proof (inv_mutex _ _ _ _ _ Hc) as Hm. pose proof (inv_state _ _ _ _ _ Hc) as Hs.
  destruct Hstep as [c k todo l e Hp Hi Hg|c k todo l Hp Hi Hg|c k todo l x Hp Hi Hx|c k todo l p m r s Hp Hi Hm1 Hr Hh
    |c k todo l p m s Hp Hi Hm1 Hr|c k todo l r Hp Hi].
  - unfold returned, set_thread; cbn [c_power c_state c_mutex c_threads c_log]. rewrite Hp.
    apply (inv_return host enumerate progs s0 c i (Thread (k :: todo) Ready l) todo k (Throw e)); try done.
    + by apply (mutex_ok_same _ _ _ _ _ Hm Hi).
    + by rewrite (guard_sequential _ _ _ Hg).
    + rewrite (guard_sequential _ _ _ Hg). exact Hs.
    + left. by rewrite (guard_sequential _ _ _ Hg).
  - apply (inv_silent host enumerate progs s0 c i _ _ _ _ _ Hc Hp Hi); try done; [|by left|cbn; congruence].
    by apply (mutex_ok_same _ _ _ _ _ Hm Hi).
  - assert (Hw : c_state c = base_state host enumerate s0 c).
    { apply Hs. unfold acquire in Hx. by destruct (x_writer (c_mutex c)), (call_mode k). }
    apply (inv_silent host enumerate progs s0 c i _ _ _ _ _ Hc Hp Hi); try done; [| |by left|cbn; congruence].
    + by apply (mutex_ok_acquire (call_mode k) _ _ _ _ _ _ Hm Hi).
    + pose proof (inv_threads _ _ _ _ _ Hc i _ Hi) as Hg. cbn in Hg. split_and!; [done|apply body_quiet|].
      exists (accesses k (base_state host enumerate s0 c)). split; [done|].
      change (c_state (set_thread _ _ c)) with (c_state c). rewrite Hw. by apply body_run.
  - unfold set_state, set_thread; cbn. rewrite Hp. by apply (access_inv _ _ _ _ _ _ _ _ _ _ _ _ Hc Hp Hi Hm1 Hr).
  - by apply (access_inv _ _ _ _ _ _ _ _ _ _ _ false Hc Hp Hi Hm1 Hr).
  - pose proof (inv_threads _ _ _ _ _ Hc i _ Hi) as (Hg & Hq & n & _ & Hrun). rewrite run_finish in Hrun. injection Hrun as Hrun.
    unfold returned, set_mutex, set_thread; cbn [c_power c_state c_mutex c_threads c_log]. rewrite Hp.
    apply (inv_return host enumerate progs s0 c i (Thread todo (Inside k (Finish r)) l)); try done; cbn [t_done].
    + by apply (mutex_ok_release _ _ _ _ _ _ Hm Hi).
    + by rewrite <- Hrun.
    + by rewrite <- Hrun.
    + rewrite <- Hrun. cbn [snd]. destruct (call_mode k) eqn:Hk.
      * left. apply Hs. by apply (reader_word _ _ _ _ _ _ Hm Hi eq_refl Hk).
      * right. intros j v k' p' Hne Hj. by eapply (writer_alone _ _ _ _ _ _ _ _ Hm Hi eq_refl Hk Hj).
Qed.

Lemma steps_inv progs s0 c : steps (init progs s0) c -> inv host enumerate progs s0 c.
Proof.
  intros H. remember (init progs s0) as c0 eqn:E. induction H as [c|c1 i c2 c3 H IH Hs]; subst.
  - apply inv_init.
  - by eapply step_inv; [apply IH|].
Qed.

Lemma step_log i c c' : step i c c' -> c_log c `prefix_of` c_log c'.
Proof. intros []; cbn; by try apply prefix_app_r. Qed.

Lemma steps_log c c' : steps c c' -> c_log c `prefix_of` c_log c'.
Proof. induction 1 as [c|c1 i c2 c3 H IH Hs]; [done|]. etrans; [exact IH|by eapply step_log]. Qed.

(** ** Running a schedule *)

(** The step of thread [i], if it has one. *)
Definition run_step (i : nat) (c : conf) : option conf :=
  if negb (c_power c) then None else
  match c_threads c !! i with
  | None => None
  | Some (Thread todo u l) =>
      match u with
      | Ready =>
          match todo with
          | [] => None
          | k :: todo =>
              match guard k with
              | Some e => Some (returned i k (Throw e) (set_thread i (Thread todo Ready (l ++ [(k, Throw e)])) c))
              | None => Some (set_thread i (Thread todo (Waiting k) l) c)
              end
          end
      | Waiting k =>
          match acquire (call_mode k) (c_mutex c) with
          | Some x => Some (set_mutex x (set_thread i (Thread todo (Inside k (body host enumerate k)) l) c))
          | None => None
          end
      | Inside k p =>
          match next_access p with
          | inl r =>
              Some (returned i k r (set_mutex (release (call_mode k) (c_mutex c)) (set_thread i (Thread todo Ready (l ++ [(k, r)])) c)))
          | inr m =>
              match m (c_state c) with
              | (Halt, s) => Some (power_off (set_state s (set_thread i (Thread todo (Inside k (Finish Halt)) l) c)))
              | (r, s) => Some (set_state s (set_thread i (Thread todo (Inside k (after r)) l) c))
              end
          end
      end
  end.

Definition run_schedule (l : list nat) (c : conf) : option conf :=
  fold_left (fun c i => match c with Some c => run_step i c | None => None end) l (Some c).

(** The function is the relation. *)
Lemma run_step_iff i c c' : step i c c' <-> run_step i c = Some c'.
Proof.
  unfold run_step. split.
  - intros [c1 k todo l e -> -> ->|c1 k todo l -> -> ->|c1 k todo l x -> -> ->|c1 k todo l p m r s -> -> -> -> Hr
      |c1 k todo l p m s -> -> -> ->|c1 k todo l r -> ->]; try done. by destruct r.
  - destruct (c_power c) eqn:Hp; [cbn [negb]|done]. destruct (c_threads c !! i) as [[todo u l]|] eqn:Hi; [|done].
    destruct u as [|k|k p].
    + destruct todo as [|k todo]; [done|]. destruct (guard k) as [e|] eqn:Hg; intros [= <-].
      * by apply (step_refuse _ _ _ _ _ todo).
      * by apply step_call.
    + destruct (acquire _ _) as [x|] eqn:Hx; [|done]. intros [= <-]. by apply step_lock.
    + destruct (next_access p) as [r|m] eqn:Hm1.
      { destruct p as [r'| |]; [|done..]. injection Hm1 as ->. intros [= <-]. by apply step_return. }
      destruct (m (c_state c)) as [[b|e|] s] eqn:Hr; intros [= <-].
      * by apply (step_act _ _ _ c k todo l p m (Ret b)).
      * by apply (step_act _ _ _ c k todo l p m (Throw e)).
      * by apply (step_power_cut _ _ _ c k todo l p m).
Qed.

Lemma run_schedule_steps l c0 c : run_schedule l c0 = Some c -> steps c0 c.
Proof.
  unfold run_schedule. revert c. induction l as [|i l IH] using rev_ind; intros c; [intros [= ->]; constructor|].
  rewrite fold_left_app. cbn [fold_left]. destruct (fold_left _ l _) as [c1|]; [|done].
  intros H%run_step_iff. eapply steps_step; [by apply IH|exact H].
Qed.

(** ** Linearizability *)

(** C6: Concurrent calls take effect one after the other.  However the steps of
    the threads interleave, the calls that have returned, in the order in which
    they did, give the same results when the methods run one at a time from the
    first state; each thread has got the results of its own calls, in the order
    of its program; what has returned stays, so a call that returned before
    another began is before it.  Between calls of writers the shared object is
    in the state of the sequential run.  If power was cut, then during the next
    call of that run, in the state in which it is cut there. *)
Theorem linearizable progs s0 c :
  steps (init progs s0) c ->
  exists s, replay ((fun x => x.1.2) <$> c_log c) s0 = ((fun x => x.2) <$> c_log c, s) /\
    (forall i p, progs !! i = Some p -> exists t, c_threads c !! i = Some t /\
      t_done t = results_of i (c_log c) /\ (t_done t).*1 ++ current (t_status t) ++ t_todo t = p) /\
    (forall c', steps c c' -> c_log c `prefix_of` c_log c') /\
    (x_writer (c_mutex c) = false -> c_state c = s) /\
    (c_power c = false -> exists k, sequential k s = (Halt, c_state c)).
Proof.
  intros H%steps_inv. destruct H as [_ H2 H3 H4 H5 H6 H7]. exists (base_state host enumerate s0 c). split_and!.
  - rewrite <- H2. unfold base_state. by destruct (replay _ s0).
  - intros i p Hp. destruct (lookup_lt_is_Some_2 (c_threads c) i) as [t Ht].
    { rewrite H6. by eapply lookup_lt_Some. }
    exists t. destruct (H5 i t Ht) as [Hq Hd]. rewrite Hp in Hq. injection Hq as ->. by split_and!.
  - apply steps_log.
  - exact H3.
  - intros Hp. destruct (H7 Hp) as (i & t & k & Ht & Hu). exists k. specialize (H4 i t Ht). rewrite Hu in H4.
    destruct H4 as (_ & _ & n & _ & H4). rewrite run_finish in H4. by injection H4.
Qed.

(** ** Mutual exclusion *)

(** An access that changes the shared object is that of a writer, alone. *)
Lemma access_alone progs s0 c i k todo l p m :
  inv host enumerate progs s0 c -> c_threads c !! i = Some (Thread todo (Inside k p) l) -> next_access p = inr m ->
  snd (m (c_state c)) <> c_state c ->
  call_mode k = Exclusive /\ forall j u k' p', j <> i -> c_threads c !! j = Some u -> t_status u <> Inside k' p'.
Proof.
  intros H Hi Hm1 Hne. destruct (call_mode k) eqn:Hk.
  - pose proof (inv_threads _ _ _ _ _ H i _ Hi) as Hin. destruct (m (c_state c)) as [r s] eqn:Hr.
    destruct (access_ok _ _ _ _ _ _ _ Hin Hm1 Hr) as [_ Hsame]. by rewrite (Hsame Hk) in Hne.
  - split; [done|]. intros j u k' p' Hj Hu.
    by apply (writer_alone _ _ _ _ _ _ _ _ (inv_mutex _ _ _ _ _ H) Hi eq_refl Hk Hu Hj).
Qed.

(** C21: The mutex keeps writers apart.  Two threads are inside at the same time
    only if both run reading methods; the mutex word counts them; and a step
    changes the shared object only if it is the step of a thread that is inside
    a writing method, alone. *)
Theorem mutual_exclusion progs s0 c :
  steps (init progs s0) c ->
  (forall i j t u k k' p p', i <> j -> c_threads c !! i = Some t -> c_threads c !! j = Some u ->
    t_status t = Inside k p -> t_status u = Inside k' p' -> call_mode k = Shared /\ call_mode k' = Shared) /\
  holders Shared (c_threads c) = x_readers (c_mutex c) /\
  holders Exclusive (c_threads c) = Nat.b2n (x_writer (c_mutex c)) /\
  (forall i c', step i c c' -> c_state c' <> c_state c ->
    exists t k p, c_threads c !! i = Some t /\ t_status t = Inside k p /\ call_mode k = Exclusive /\
      forall j u k' p', j <> i -> c_threads c !! j = Some u -> t_status u <> Inside k' p').
Proof.
  intros H%steps_inv. pose proof (inv_mutex _ _ _ _ _ H) as Hm. split_and!; [|apply Hm|apply Hm|].
  - intros i j t u k k' p p' Hne Hi Hj Ht Hu. destruct (call_mode k) eqn:Hk.
    + destruct (call_mode k') eqn:Hk'; [done|]. by destruct (writer_alone _ _ _ _ _ _ _ _ Hm Hj Hu Hk' Hi Hne _ _ Ht).
    + by destruct (writer_alone _ _ _ _ _ _ _ _ Hm Hi Ht Hk Hj (not_eq_sym Hne) _ _ Hu).
  - intros i c' Hs Hne. destruct Hs as [| | |c k todo l p m r s Hp Hi Hm1 Hr Hh|c k todo l p m s Hp Hi Hm1 Hr|]; try done.
    all: destruct (access_alone _ _ _ _ _ _ _ _ _ H Hi Hm1) as [Hk Ho]; [by rewrite Hr|]; eexists _, k, _; by split_and!.
Qed.

(** ** Progress *)

Definition finished (t : thread) : Prop := t_status t = Ready /\ t_todo t = [].

Definition is_inside (t : thread) : bool := match t_status t with Inside _ _ => true | _ => false end.
Definition is_finished (t : thread) : bool := match t_status t, t_todo t with Ready, [] => true | _, _ => false end.

(** A list of threads all of which satisfy a test, or one that does not. *)
Lemma all_or_one (f : thread -> bool) l : Forall (fun t => f t = true) l \/ exists i t, l !! i = Some t /\ f t = false.
Proof.
  induction l as [|t l [IH|(i & u & Hi & Hu)]]; [by left| |right; by exists (S i), u].
  destruct (f t) eqn:E; [left; by constructor|right; by exists 0%nat, t].
Qed.

Lemma progress progs s0 c :
  inv host enumerate progs s0 c -> c_power c = true -> Forall finished (c_threads c) \/ exists i c', step i c c'.
Proof.
  intros H Hp. destruct (all_or_one is_finished (c_threads c)) as [Hall|(i & [todo u l] & Hi & Hf)].
  { left. eapply Forall_impl; [exact Hall|]. intros [todo u l]. unfold is_finished, finished; cbn. by destruct u, todo. }
  right. destruct (all_or_one (fun t => negb (is_inside t)) (c_threads c)) as [Hall|(j & [todo' u' l'] & Hj & Hin)].
  - assert (Hx : forall m, holders m (c_threads c) = 0%nat).
    { intros m. apply holders_none. intros j t Ht. pose proof (proj1 (Forall_lookup _ _) Hall j t Ht) as Hin.
      unfold is_inside in Hin. unfold holds_mode. by destruct (t_status t). }
    destruct (inv_mutex _ _ _ _ _ H) as [H1 H2 _]. rewrite Hx in H1, H2.
    assert (Hacq : forall m, is_Some (acquire m (c_mutex c))).
    { intros m. unfold acquire. destruct (c_mutex c) as [w n]. cbn in *. subst n. destruct w; [done|]. destruct m; by eexists. }
    destruct u as [|k|k p].
    + destruct todo as [|k todo]; [done|]. exists i. destruct (guard k) as [e|] eqn:Hg.
      * eexists. by apply (step_refuse _ _ _ _ k todo l e).
      * eexists. by apply step_call.
    + destruct (Hacq (call_mode k)) as [x Hx']. exists i. eexists. by apply step_lock.
    + by pose proof (proj1 (Forall_lookup _ _) Hall i _ Hi).
  - destruct u' as [| |k p]; [done|done|]. exists j. destruct (next_access p) as [r|m] eqn:Hm1.
    { destruct p as [r'| |]; [|done..]. eexists. by apply step_return. }
    destruct (m (c_state c)) as [[b|e|] s] eqn:Hr; eexists.
    + by apply (step_act _ _ _ c k todo' l' p m (Ret b)).
    + by apply (step_act _ _ _ c k todo' l' p m (Throw e)).
    + by apply (step_power_cut _ _ _ c k todo' l' p m).
Qed.

(** C23: There is no deadlock, and no call is left without an answer.  As long as
    the machine has power and some thread has not got through its program, some
    thread has a step; when no thread has one, every thread holds the results of
    all the calls of its program. *)
Theorem no_deadlock progs s0 c :
  steps (init progs s0) c -> c_power c = true ->
  (Forall finished (c_threads c) \/ exists i c', step i c c') /\
  ((forall i c', ~ step i c c') -> forall i p, progs !! i = Some p ->
    exists t, c_threads c !! i = Some t /\ (t_done t).*1 = p).
Proof.
  intros H%steps_inv Hp. pose proof (progress _ _ _ H Hp) as Hdead.
  split; [exact Hdead|]. intros Hno i p Hip. destruct Hdead as [Hf|(j & c' & Hs)]; [|by destruct (Hno j c')].
  destruct (lookup_lt_is_Some_2 (c_threads c) i) as [t Ht].
  { rewrite (inv_length _ _ _ _ _ H). by eapply lookup_lt_Some. }
  exists t. split; [done|]. destruct (inv_program _ _ _ _ _ H i t Ht) as [Hq _]. rewrite Hip in Hq. injection Hq as ->.
  destruct (proj1 (Forall_lookup _ _) Hf i t Ht) as [-> ->]. by rewrite app_nil_r.
Qed.

(** ** Termination *)

(** The calls a thread has still to make, and where it is in the first. *)
Definition weight (t : thread) : nat :=
  3 * length (t_todo t) + match t_status t with Ready => 0 | Waiting _ => 2 | Inside _ _ => 1 end.

Lemma sum_insert (l : list thread) i t t' :
  l !! i = Some t -> (sum_list_with weight (<[i := t']> l) + weight t = sum_list_with weight l + weight t')%nat.
Proof.
  revert i. induction l as [|u l IH]; intros i Hi; [done|]. destruct i as [|i].
  - injection Hi as ->. change (<[0%nat := t']> (t :: l)) with (t' :: l). cbn [sum_list_with]. lia.
  - specialize (IH i Hi). change (<[S i := t']> (u :: l)) with (u :: <[i := t']> l). cbn [sum_list_with]. lia.
Qed.

Lemma sum_insert_nat (l : list nat) i n n' :
  l !! i = Some n -> (sum_list (<[i := n']> l) + n = sum_list l + n')%nat.
Proof.
  revert i. induction l as [|u l IH]; intros i Hi; [done|]. destruct i as [|i].
  - injection Hi as ->. change (<[0%nat := n']> (n :: l)) with (n' :: l). cbn. lia.
  - specialize (IH i Hi). change (<[S i := n']> (u :: l)) with (u :: <[i := n']> l). cbn in *. lia.
Qed.

(** [n] accesses are enough for what the thread is doing. *)
Definition enough (s : st) (t : thread) (n : nat) : Prop :=
  match t_status t with Inside _ p => is_Some (run n p s) | _ => True end.

Lemma inv_enough progs s0 c :
  inv host enumerate progs s0 c -> exists ns, Forall2 (enough (c_state c)) (c_threads c) ns.
Proof.
  intros H. assert (Ht : Forall (fun t => exists n, enough (c_state c) t n) (c_threads c)).
  { apply Forall_lookup. intros i t Hi. pose proof (inv_threads _ _ _ _ _ H i t Hi) as Hok. unfold enough.
    destruct (t_status t) as [|k|k p]; [by exists O..|]. destruct Hok as (_ & _ & n & _ & Hn). exists n. by eexists. }
  induction Ht as [|t l [n Hn] _ [ns IH]]; [by exists []|]. exists (n :: ns). by constructor.
Qed.

(** An access takes one of its thread's, and none of the others'. *)
Lemma access_enough progs s0 c i k todo l p m r s ns :
  inv host enumerate progs s0 c -> c_threads c !! i = Some (Thread todo (Inside k p) l) -> next_access p = inr m ->
  m (c_state c) = (r, s) -> Forall2 (enough (c_state c)) (c_threads c) ns ->
  exists ns', Forall2 (enough s) (<[i := Thread todo (Inside k (after r)) l]> (c_threads c)) ns' /\
    (sum_list ns' < sum_list ns)%nat.
Proof.
  intros H Hi Hm Hr Hns. destruct (Forall2_lookup_l _ _ _ _ _ Hns Hi) as (n & Hn & [x Hrun]).
  apply (run_access n p m (c_state c)) in Hrun as (n' & -> & Hrun); [|done]. rewrite Hr in Hrun. cbn [fst snd] in Hrun.
  exists (<[i := n']> ns). pose proof (sum_insert_nat ns i (S n') n' Hn). split; [|lia].
  apply Forall2_same_length_lookup in Hns as [Hlen Hns]. apply Forall2_same_length_lookup. split; [by rewrite !length_insert|].
  intros j t b Hj Hb. destruct (lookup_set_thread _ _ _ _ _ _ Hi Hj) as [[-> ->]|[Hne Hj']].
  - rewrite list_lookup_insert_eq in Hb by (by eapply lookup_lt_Some). injection Hb as <-. by eexists.
  - rewrite list_lookup_insert_ne in Hb by done. specialize (Hns j t b Hj' Hb). unfold enough in *.
    destruct (t_status t) as [|k'|k' p'] eqn:Ht; [done..|].
    destruct (call_mode k) eqn:Hk; [|by destruct (writer_alone _ _ _ _ _ _ _ _ (inv_mutex _ _ _ _ _ H) Hi eq_refl Hk Hj' Hne k' p')].
    pose proof (inv_threads _ _ _ _ _ H i _ Hi) as Hin. destruct (access_ok _ _ _ _ _ _ _ Hin Hm Hr) as [_ Hsame].
    by rewrite (Hsame Hk).
Qed.

(** A step brings a call further, or is an access. *)
Lemma step_decreases progs s0 i c c' ns :
  inv host enumerate progs s0 c -> step i c c' -> Forall2 (enough (c_state c)) (c_threads c) ns ->
  (sum_list_with weight (c_threads c') < sum_list_with weight (c_threads c))%nat \/
  (sum_list_with weight (c_threads c') = sum_list_with weight (c_threads c) /\
   exists ns', Forall2 (enough (c_state c')) (c_threads c') ns' /\ (sum_list ns' < sum_list ns)%nat).
Proof.
  intros H Hstep Hns.
  assert (Hsum : forall t t', c_threads c !! i = Some t ->
    (sum_list_with weight (<[i := t']> (c_threads c)) + weight t = sum_list_with weight (c_threads c) + weight t')%nat).
  { intros t t'. apply sum_insert. }
  destruct Hstep as [c k todo l e Hp Hi Hg|c k todo l Hp Hi Hg|c k todo l x Hp Hi Hx|c k todo l p m r s Hp Hi Hm Hr Hh
    |c k todo l p m s Hp Hi Hm Hr|c k todo l r Hp Hi];
    cbn [c_threads c_state set_thread returned set_mutex set_state power_off].
  1,2,3,6: left; match goal with |- context [<[_ := ?t']> _] => pose proof (Hsum _ t' Hi) as Hw end;
    unfold weight in Hw at 2 4; cbn [t_todo t_status length] in Hw; lia.
  all: right; split;
    [match goal with |- context [<[_ := ?t']> _] => pose proof (Hsum _ t' Hi) as Hw end;
     unfold weight in Hw at 2 4; cbn [t_todo t_status] in Hw; lia|].
  all: exact (access_enough _ _ _ _ _ _ _ _ _ _ _ _ H Hi Hm Hr Hns).
Qed.

Lemma inv_acc progs s0 c : inv host enumerate progs s0 c -> Acc (fun c' c => exists i, step i c c') c.
Proof.
  remember (sum_list_with weight (c_threads c)) as w eqn:Ew. revert c Ew.
  induction w as [w IHw] using lt_wf_ind. intros c Ew H. destruct (inv_enough _ _ _ H) as [ns Hns].
  remember (sum_list ns) as n eqn:En. revert c ns Ew En H Hns.
  induction n as [n IHn] using lt_wf_ind. intros c ns -> -> H Hns. constructor. intros c' [i Hs].
  pose proof (step_inv _ _ _ _ _ H Hs) as H'.
  destruct (step_decreases _ _ _ _ _ _ H Hs Hns) as [Hlt|(Heq & ns' & Hns' & Hlt)].
  - by apply (IHw _ Hlt c').
  - by apply (IHn _ Hlt c' ns').
Qed.

(** A method halts only when the outcomes are used up. *)
Lemma sequential_costs k : spends (fun s => os_script (s_os s)) 0 (sequential k).
Proof.
  destruct k; cbn [Concurrent.sequential]; unfold set, get, remove, getAverage, snapshot, count, historyCount, recover; spend.
Qed.

(** C22: Every run ends.  Loops are loops here, and nothing in the steps makes
    them end; yet from every configuration that threads can reach there is no
    infinite sequence of steps, however they are scheduled.  A call that holds
    the lock, if it is left alone, answers as the method does from the state it
    started in, after a number of accesses that is bounded by a constant, for
    [getAverage] by the length of the history.  A run that can go no further has
    answered all calls, unless the outcomes of the system calls are used up. *)
Theorem runs_end progs s0 c :
  steps (init progs s0) c ->
  Acc (fun c' c => exists i, step i c c') c /\
  (forall i t k p, c_threads c !! i = Some t -> t_status t = Inside k p ->
    let s := (replay ((fun x => x.1.2) <$> c_log c) s0).2 in
    exists n, (n <= accesses k s)%nat /\ run n p (c_state c) = Some (sequential k s)) /\
  ((forall i c', ~ step i c c') -> Forall finished (c_threads c) \/ os_script (s_os (c_state c)) = []).
Proof.
  intros H%steps_inv. split_and!; [by eapply inv_acc| |].
  - intros i t k p Hi Ht. pose proof (inv_threads _ _ _ _ _ H i t Hi) as Hok. rewrite Ht in Hok. by destruct Hok as (_ & _ & Hn).
  - intros Hno. destruct (c_power c) eqn:Hp.
    { destruct (progress _ _ _ H Hp) as [Hf|(i & c' & Hs)]; [by left|by destruct (Hno i c')]. }
    right. destruct (inv_power _ _ _ _ _ H Hp) as (i & t & k & Hi & Ht).
    pose proof (inv_threads _ _ _ _ _ H i t Hi) as Hok. rewrite Ht in Hok. destruct Hok as (_ & _ & n & _ & Hn).
    rewrite run_finish in Hn. injection Hn as Hn. pose proof (sequential_costs k (base_state host enumerate s0 c)) as Hc.
    unfold spends_at in Hc. by rewrite <- Hn in Hc.
Qed.
End spec.

(** ** Three threads on an engine in memory *)

Module ThreadsDemo.
Definition progs : list (list call) :=
  [ [CSet [x61] [x31] (Double false 0x406 0x1C00000000000) 1; CRemove [x61] 2]; [CAverage [x61]; CGet [x61]]; [CGet [x61]] ].
Definition start : conf := init progs (St (makeInMemory 0) (Os ∅ ∅ [] ∅ [])).

(** A reader waits for the writer; then two readers overlap; then the writer
    comes back and a reader waits again. *)
Definition schedule : list nat :=
  [1; 0; 0; 0; 2; 0; 0; 0; 0; 1; 2; 1; 2; 1; 2; 1; 2; 1; 1; 0; 0; 1; 0; 0; 0; 0; 1; 1; 1]%nat.

Definition run (l : list nat) : conf := default start (run_schedule LittleEndianHost map_to_list l start).

Lemma run_steps l :
  (if run_schedule LittleEndianHost map_to_list l start is Some _ then true else false) = true ->
  steps LittleEndianHost map_to_list start (run l).
Proof.
  intros H. apply (run_schedule_steps _ _ l). unfold run.
  by destruct (run_schedule LittleEndianHost map_to_list l start).
Qed.

Lemma schedule_ok : steps LittleEndianHost map_to_list start (run schedule).
Proof. apply run_steps. vm_compute. reflexivity. Qed.

(** In the middle, two readers are inside. *)
Lemma middle_ok : steps LittleEndianHost map_to_list start (run (take 12 schedule)).
Proof. apply run_steps. vm_compute. reflexivity. Qed.
End ThreadsDemo.


(** The calls in the order in which they returned. *)
Lemma linearizable_witness :
  c_log (ThreadsDemo.run ThreadsDemo.schedule) !! 0%nat =
    Some (0%nat, CSet [x61] [x31] (Double false 0x406 0x1C00000000000) 1, Ret AUnit) /\
  exists s, (replay LittleEndianHost map_to_list ((fun x => x.1.2) <$> c_log (ThreadsDemo.run ThreadsDemo.schedule))
    (c_state ThreadsDemo.start)).2 = s /\ c_state (ThreadsDemo.run ThreadsDemo.schedule) = s.
Proof.
  split; [vm_compute; reflexivity|].
  destruct (linearizable LittleEndianHost map_to_list ThreadsDemo.progs _ _ ThreadsDemo.schedule_ok) as (s & H & _ & _ & Hs & _).
  exists s. split; [exact (f_equal snd H)|]. apply Hs. vm_compute. reflexivity.
Defined.

Lemma mutual_exclusion_witness :
  x_readers (c_mutex (ThreadsDemo.run (take 12 ThreadsDemo.schedule))) = 2%nat /\
  holders Shared (c_threads (ThreadsDemo.run (take 12 ThreadsDemo.schedule))) = 2%nat.
Proof.
  assert (E : x_readers (c_mutex (ThreadsDemo.run (take 12 ThreadsDemo.schedule))) = 2%nat) by (vm_compute; reflexivity).
  split; [exact E|].
  destruct (mutual_exclusion LittleEndianHost map_to_list ThreadsDemo.progs _ _ ThreadsDemo.middle_ok) as (_ & H & _).
  exact (eq_trans H E).
Defined.

Lemma no_deadlock_witness :
  Forall finished (c_threads (ThreadsDemo.run (take 12 ThreadsDemo.schedule))) \/
  exists i c', step LittleEndianHost map_to_list i (ThreadsDemo.run (take 12 ThreadsDemo.schedule)) c'.
Proof.
  apply (no_deadlock LittleEndianHost map_to_list ThreadsDemo.progs _ _ ThreadsDemo.middle_ok). vm_compute. reflexivity.
Defined.

(** A reader in its loop has four accesses to make: two rounds, and the size
    before and after. *)
Lemma runs_end_witness :
  Acc (fun c' c => exists i, step LittleEndianHost map_to_list i c c') (ThreadsDemo.run (take 12 ThreadsDemo.schedule)) /\
  exists t p, c_threads (ThreadsDemo.run (take 12 ThreadsDemo.schedule)) !! 1%nat = Some t /\
    t_status t = Inside (CAverage [x61]) p /\
    exists n, (n <= 4)%nat /\ option_map fst (Concurrent.run n p (c_state (ThreadsDemo.run (take 12 ThreadsDemo.schedule)))) =
      Some (Ret (AAverage (Some (sf_of_double (Double false 0x406 0x1C00000000000))))).
Proof.
  destruct (runs_end LittleEndianHost map_to_list ThreadsDemo.progs _ _ ThreadsDemo.middle_ok) as (Hacc & Hrun & _).
  split; [exact Hacc|].
  assert (Hin : option_map (fun t => (is_inside t, current (t_status t)))
    (c_threads (ThreadsDemo.run (take 12 ThreadsDemo.schedule)) !! 1%nat) = Some (true, [CAverage [x61]])) by (vm_compute; reflexivity).
  destruct (c_threads (ThreadsDemo.run (take 12 ThreadsDemo.schedule)) !! 1%nat) as [t|] eqn:Ht; [|discriminate Hin].
  destruct t as [todo u l]. destruct u as [|k|k p]; [discriminate Hin..|]. injection Hin as ->. eexists _, p. split_and!; [done..|].
  destruct (Hrun _ _ _ _ Ht eq_refl) as (n & Hn & Hr). exists n. rewrite Hr. split; [|vm_compute; reflexivity].
  etrans; [exact Hn|]. vm_compute. lia.
Defined.
