(* ===== verification/Tools.v ===== *)
(** * Tools: the verifier of src/tools/verify.cpp

    The exit code of [litespeed-verify] against the verdict on the log, for any
    file and any outcomes of the system calls.  What the program prints is left
    out, except the hexadecimal form of a hash. *)

From stdpp Require Import gmap.
From S2P Require Import Prelude Endian SHA256 Exec Posix PosixFacts LogFormat LogTheory WAL WALFacts WalkFacts WALTheory WALSpec Snapshot Engine.

Module Verify.

Definition hex (n : Z) : byte := nth (Z.to_nat n)
  [x30; x31; x32; x33; x34; x35; x36; x37; x38; x39; x61; x62; x63; x64; x65; x66] x00.

Definition toHex (d : Sha256Digest) : bytes :=
  fold_left (fun s b =>
    let s := s ++ [hex (Z.shiftr (Z_of_byte b) 4)] in
    s ++ [hex (Z.land (Z_of_byte b) 0x0F)]) d [].

(** [std::filesystem::exists]: [stat] is not interrupted by signals; when it fails
    for another reason than that there is no such file, the call throws. *)
Definition exists_error : exn := runtime_error "filesystem error: cannot get file status".

Definition exists_ (path : string) : M os bool :=
  x <- next ;;
  match x with
  | Err => throw exists_error
  | Done | Short _ | Intr => o <- get ;; ret (bool_decide (is_Some (os_names o !! path)))
  end.

(** The exit code for the result of [verify]. *)
Definition exit_code (r : RecoveryResult) : Z :=
  match r_status r with
  | Ok => 0
  | TruncatedTail => 0
  | Malformed => 2
  | Tampered => 1
  end.

(** The [try] block: the log is closed when the block is left, and an
    exception of the library gives exit code 2. *)
Definition check (path : string) : M os Z := fun o =>
  match WAL.open path 1 o with
  | (Ret w, o) =>
      match WAL.verify (WAL.St w o) with
      | (Ret r, s) =>
          match WAL.close s with
          | (Halt, s) => (Halt, WAL.s_os s)
          | (_, s) => (Ret (exit_code r), WAL.s_os s)
          end
      | (Throw _, s) =>
          match WAL.close s with
          | (Halt, s) => (Halt, WAL.s_os s)
          | (_, s) => (Ret 2, WAL.s_os s)
          end
      | (Halt, s) => (Halt, WAL.s_os s)
      end
  | (Throw _, o) => (Ret 2, o)
  | (Halt, o) => (Halt, o)
  end.

(** [main]; [args] is [argv] with the name of the program.  [exists] is called
    before the [try] block: a [Throw] of [main] ends the program by
    [std::terminate]. *)
Definition main (args : list string) : M os Z :=
  match args with
  | [_; path] =>
      ok <- exists_ path ;;
      if negb ok then ret 2 else check path
  | _ => ret 2
  end.

End Verify.

(** ** What is printed *)

(** The digits of a byte give it back. *)
Lemma hex_digits b :
  16 * Z.shiftr (Z_of_byte b) 4 + Z.land (Z_of_byte b) 0x0F = Z_of_byte b /\
  0 <= Z.shiftr (Z_of_byte b) 4 < 16 /\ 0 <= Z.land (Z_of_byte b) 0x0F < 16.
Proof.
  pose proof (Z_of_byte_range b). change 0x0F with (Z.ones 4). rewrite Z.land_ones, Z.shiftr_div_pow2 by lia.
  change (2 ^ 4) with 16. mod_lia.
Qed.

Lemma hex_inj n m : 0 <= n < 16 -> 0 <= m < 16 -> Verify.hex n = Verify.hex m -> n = m.
Proof.
  intros Hn Hm. assert (H : forall k, (k < 16)%nat -> forall j, (j < 16)%nat ->
    Verify.hex (Z.of_nat k) = Verify.hex (Z.of_nat j) -> k = j).
  { intros k Hk j Hj. do 16 (destruct k as [|k]; [do 16 (destruct j as [|j]; [done|]); lia|]). lia. }
  intros E. specialize (H (Z.to_nat n) ltac:(lia) (Z.to_nat m) ltac:(lia)). rewrite !Z2Nat.id in H by lia.
  apply H in E. lia.
Qed.

Lemma toHex_app d s :
  fold_left (fun s b =>
    let s := s ++ [Verify.hex (Z.shiftr (Z_of_byte b) 4)] in s ++ [Verify.hex (Z.land (Z_of_byte b) 0x0F)]) d s =
  s ++ Verify.toHex d.
Proof.
  unfold Verify.toHex. revert s. induction d as [|b d IH]; intros s; cbn [fold_left]; [by rewrite app_nil_r|].
  rewrite IH. rewrite (IH ([] ++ _ ++ _)) || rewrite (IH (([] ++ _) ++ _)). by rewrite <- !app_assoc.
Qed.

(** What the verifier prints identifies the hash. *)
Lemma toHex_inj d1 d2 : Verify.toHex d1 = Verify.toHex d2 -> d1 = d2.
Proof.
  revert d2. assert (Hc : forall b d, Verify.toHex (b :: d) =
    Verify.hex (Z.shiftr (Z_of_byte b) 4) :: Verify.hex (Z.land (Z_of_byte b) 0x0F) :: Verify.toHex d).
  { intros b d. unfold Verify.toHex at 1. cbn [fold_left]. by rewrite toHex_app. }
  induction d1 as [|b1 d1 IH]; intros [|b2 d2]; rewrite ?Hc; [done|done|done|]. intros [= E1 E2 E].
  destruct (hex_digits b1) as (D1 & R1 & S1). destruct (hex_digits b2) as (D2 & R2 & S2).
  apply hex_inj in E1; [|done..]. apply hex_inj in E2; [|done..].
  f_equal; [|by apply IH]. apply Z_of_byte_inj. lia.
Qed.

(** ** The exit code *)

(** The exit code the walk of a file calls for. *)
Definition verdict_code (f : file) : Z :=
  if valid_header (f_data f) then
    match w_status (walk (log_part f)) with Ok | TruncatedTail => 0 | Tampered => 1 | Malformed => 2 end
  else 2.

Lemma exit_code_range r : Verify.exit_code r = 0 \/ Verify.exit_code r = 1 \/ Verify.exit_code r = 2.
Proof. unfold Verify.exit_code. destruct (r_status r); auto. Qed.

(** Closing a log with nothing pending uses one call and puts the system back. *)
Lemma close_idle w o fd i off f sc :
  WAL.m_fd w = Some fd -> WAL.m_pendingWrites w = 0 -> os_fds o !! fd = None ->
  WAL.close (WAL.St w (touch o fd i off f sc)) =
  match sc with
  | [] => (Halt, WAL.St w (touch o fd i off f []))
  | _ :: sc => (Ret tt, WAL.St (WAL.set_fd None w) (settle o i f sc))
  end.
Proof.
  intros Hfd Hp Hn. unfold WAL.close, WAL.this, bind, Exec.get, ret. cbn [WAL.s_wal]. rewrite Hfd, Hp. cbn [Z.ltb Z.compare].
  unfold WAL.sys, zoom, sys_close, bind. cbn [WAL.s_os]. rewrite next_touch. destruct sc as [|x sc]; [done|].
  unfold modify. rewrite drop_touch by done. by destruct x.
Qed.

(** [verify] uses a bounded number of calls. *)
Lemma verify_run s fd i f :
  opened s fd i f -> (WAL.kHeaderSize <= length (f_data f))%nat -> zlen (f_data f) < 2 ^ 63 ->
  wp WAL.verify s (fun r s' => (forall x, r <> Throw x) /\ WAL.s_wal s' = WAL.s_wal s /\
    exists off sc, WAL.s_os s' = touch (WAL.s_os s) fd i off f sc /\
      used (os_script (WAL.s_os s)) sc (length (f_data f) + 10)).
Proof.
  intros Ho Hh Hz. apply (verify_post s fd i f); [done..|].
  intros r o' (off & sc & f' & es & tail & -> & Hu & Hr & Hf & Hx). split_and!; [|done|].
  - intros x. by destruct r as [[]| |].
  - assert (f' = f) as -> by (by destruct Hf as [|[]]). exists off, sc. split; [done|].
    eapply used_le; [|exact Hu]. pose proof (encode_count zero_digest 0 es) as Hc.
    destruct Hr as [Hl _]. apply (f_equal length) in Hl. unfold log_part in Hl.
    rewrite length_drop, length_app in Hl. unfold encode_log in Hl. lia.
Qed.

(** The answer to a file: nothing is wrong with an empty one. *)
Definition answer (f : file) : Z := if decide (f_data f = []) then 0 else verdict_code f.

Lemma answer_headed f f' :
  headed f f' -> valid_header (f_data f') = true -> (f_data f = [] -> f_data f' = WAL.header_bytes) ->
  verdict_code f' = answer f /\ (verdict_code f' = 1 -> f' = f).
Proof.
  intros Hf Hv He. unfold answer. case_decide as Hn.
  - unfold verdict_code, log_part. rewrite (He Hn). by split.
  - destruct Hf as [->|[? _]]; done.
Qed.

(** The verifier on a file that exists. *)
Lemma check_spec path o i f :
  os_names o !! path = Some i -> os_inodes o !! i = Some f -> zlen (f_data f) < 2 ^ 63 ->
  let '(r, o') := Verify.check path o in
  exists f', headed f f' /\ os_inodes o' = <[i := f']> (os_inodes o) /\ os_names o' = os_names o /\
  match r with
  | Ret code => os_fds o' = os_fds o /\ (code = 0 \/ code = 1 \/ code = 2) /\ (code = 1 -> f' = f /\ verdict_code f = 1)
  | Throw _ => False
  | Halt => True
  end /\
  (Forall (eq Done) (os_script o) -> (length (f_data f) + 40 <= length (os_script o))%nat ->
    r = Ret (answer f) /\ (f_data f = [] -> f_data f' = WAL.header_bytes)).
Proof.
  intros Hn Hi Hz. unfold Verify.check.
  pose proof (open_any path 1 o i f Hn Hi) as Hopen. unfold wp in Hopen.
  destruct (WAL.open path 1 o) as [[w|x|] o1]; cbn [fst snd] in Hopen;
    destruct Hopen as (f' & Hf & H1 & H2 & _ & Hu & Hx).
  3: exists f'; split_and!; [done..|intros Hd Hl; specialize (Hx Hd); lia].
  2: { destruct Hx as [Hfd Hx]. exists f'. split_and!; [done|done|done|done|auto|done|]. intros Hd _. destruct (Hx Hd) as [Hne Hv].
       unfold answer. rewrite decide_False by done. unfold verdict_code. by rewrite Hv. }
  destruct Hx as (-> & Hv & He & off & sc & Eo). destruct (answer_headed f f' Hf Hv He) as [Ha Hone].
  assert (Ho : opened (WAL.St (fresh_wal path (fresh_fd o) 1) o1) (fresh_fd o) i f') by (rewrite Eo; by apply opened_intro).
  assert (Hh : (WAL.kHeaderSize <= length (f_data f'))%nat) by
    (unfold valid_header in Hv; apply andb_true_iff in Hv as [[Hv' _]%andb_true_iff _]; by apply Nat.leb_le in Hv').
  assert (Hlf : (length (f_data f') <= length (f_data f) + 16)%nat).
  { destruct Hf as [->|[_ Hp%prefix_length]]; [lia|]. rewrite header_bytes_length in Hp. unfold WAL.kHeaderSize in Hp. lia. }
  assert (Hz' : zlen (f_data f') < 2 ^ 63).
  { destruct Hf as [->|[_ Hp%prefix_length]]; [done|]. rewrite header_bytes_length in Hp. unfold WAL.kHeaderSize in Hp. lia. }
  set (s := WAL.St _ o1) in *. pose proof (verify_run s _ i f' Ho Hh Hz') as Hrun.
  pose proof (verify_alarm s _ i f' Ho Hh Hz') as Hal. pose proof (verify_done s _ i f' Ho Hh Hz') as Hdone. unfold wp in Hrun.
  assert (Hback : forall off' sc', touch o1 (fresh_fd o) i off' f' sc' = touch o (fresh_fd o) i off' f' sc')
    by (intros; by rewrite Eo, touch_touch).
  destruct (WAL.verify s) as [r [w1 o2]]. cbn [fst snd WAL.s_wal WAL.s_os s] in *.
  destruct Hrun as (Hnt & -> & off2 & sc2 & -> & Hu2). rewrite Hback.
  assert (Hclose := close_idle (fresh_wal path (fresh_fd o) 1) o (fresh_fd o) i off2 f' sc2 eq_refl eq_refl (fresh_fd_none o)).
  assert (Hleft : Forall (eq Done) (os_script o) ->
    (length (os_script o) <= length (os_script o1) + 7)%nat /\ (length (os_script o1) <= length sc2 + (length (f_data f') + 10))%nat).
  { intros Hd. split; [by apply Hu|]. by apply Hu2, (suffix_Forall _ _ _ (proj1 Hu)). }
  destruct r as [res|x|]; [|by destruct (Hnt x)|].
  - rewrite Hclose. destruct sc2 as [|y sc2]; cbn [WAL.s_os]; exists f'.
    + split_and!; [done|done|done|done|]. intros Hd Hl. exfalso. specialize (Hleft Hd). cbn in Hleft. lia.
    + split_and!; [done|done|done|done|apply exit_code_range| |].
      * intros Hc. assert (Ht : r_status res = Tampered) by (unfold Verify.exit_code in Hc; by destruct (r_status res)).
        specialize (Hal res eq_refl (or_introl Ht)). subst res.
        assert (Hv1 : verdict_code f' = 1) by (unfold verdict_code; rewrite Hv; unfold result_for in Ht; by destruct (w_status _)).
        pose proof (Hone Hv1) as E. subst f'. by split.
      * intros Hd Hl. specialize (Hleft Hd). specialize (Hdone (suffix_Forall _ _ _ (proj1 Hu) Hd) ltac:(lia)).
        injection Hdone as ->. split; [|done]. rewrite <- Ha. unfold verdict_code. rewrite Hv.
        unfold Verify.exit_code, result_for. by destruct (w_status _).
  - exists f'. split_and!; [done|done|done|done|]. intros Hd Hl. specialize (Hleft Hd).
    specialize (Hdone (suffix_Forall _ _ _ (proj1 Hu) Hd) ltac:(lia)). done.
Qed.

(** C33: The exit code of the verifier.  It answers 2 for a wrong number of
    arguments and for a file that does not exist, which it does not create.  On
    a file that exists, for any outcomes of the system calls: no name changes,
    no other file, and not this one either unless it is empty, which gets (the
    start of) a header; every exception of the library becomes an exit code,
    with the descriptor closed; exit code 1 is given only for a log that was
    tampered with.  Only an error of [exists], outside the [try] block, gets out
    of [main], before the file is touched.  When enough calls succeed the answer
    is 0 for an intact or torn log and for an empty file, 1 for a tampered log,
    and 2 for a malformed log or a file that is no log. *)
Theorem verify_tool_exit prog path o :
  (forall args, length args <> 2%nat -> Verify.main args o = (Ret 2, o)) /\
  (os_names o !! path = None ->
    Verify.main [prog; path] o =
    match os_script o with
    | [] => (Halt, o)
    | x :: sc => (if decide (x = Err) then Throw Verify.exists_error else Ret 2, set_script sc o)
    end) /\
  forall i f, os_names o !! path = Some i -> os_inodes o !! i = Some f -> zlen (f_data f) < 2 ^ 63 ->
    let '(r, o') := Verify.main [prog; path] o in
    exists f', (f' = f \/ f_data f = [] /\ f_data f' `prefix_of` WAL.header_bytes) /\
    os_inodes o' = <[i := f']> (os_inodes o) /\ os_names o' = os_names o /\
    match r with
    | Ret code => os_fds o' = os_fds o /\ (code = 0 \/ code = 1 \/ code = 2) /\ (code = 1 -> f' = f /\ verdict_code f = 1)
    | Throw x => x = Verify.exists_error /\ exists sc, os_script o = Err :: sc /\ o' = set_script sc o
    | Halt => True
    end /\
    (Forall (eq Done) (os_script o) -> (length (f_data f) + 41 <= length (os_script o))%nat ->
      r = Ret (if decide (f_data f = []) then 0 else verdict_code f) /\ (f_data f = [] -> f_data f' = WAL.header_bytes)).
Proof.
  split_and!.
  - intros [|a1 [|a2 [|a3 args]]] H; cbn in *; done || lia.
  - intros Hn. unfold Verify.main, Verify.exists_, bind, next, get, ret. destruct (os_script o) as [|x sc]; [done|].
    destruct x; cbn [os_names set_script]; rewrite ?Hn; by try case_decide.
  - intros i f Hn Hi Hz. unfold Verify.main, Verify.exists_, bind, next, get, ret.
    assert (Hid : os_inodes o = <[i := f]> (os_inodes o)) by (symmetry; by apply insert_id).
    destruct (os_script o) as [|x sc] eqn:Es; [exists f; split_and!; [by left|done|done|done|]; cbn; lia|].
    assert (Hgo : x <> Err -> let '(r, o') := Verify.check path (set_script sc o) in
      exists f', headed f f' /\ os_inodes o' = <[i := f']> (os_inodes o) /\ os_names o' = os_names o /\
      match r with
      | Ret code => os_fds o' = os_fds o /\ (code = 0 \/ code = 1 \/ code = 2) /\ (code = 1 -> f' = f /\ verdict_code f = 1)
      | Throw x => x = Verify.exists_error /\ exists sc', Done :: sc = Err :: sc' /\ o' = set_script sc' o
      | Halt => True
      end /\
      (Forall (eq Done) (x :: sc) -> (length (f_data f) + 41 <= length (x :: sc))%nat ->
        r = Ret (answer f) /\ (f_data f = [] -> f_data f' = WAL.header_bytes))).
    { intros _. pose proof (check_spec path (set_script sc o) i f Hn Hi Hz) as H.
      destruct (Verify.check path (set_script sc o)) as [r o']. destruct H as (f' & H1 & H2 & H3 & H4 & H5).
      exists f'. split_and!; [done|done|done|by destruct r|]. intros [_ Hd]%Forall_cons Hl. apply H5; [done|]. cbn in *. lia. }
    destruct x; [| | |exists f; split_and!; [by left|done|done|done|by exists sc|by intros [? _]%Forall_cons]].
    all: cbn [os_names set_script]; rewrite Hn, bool_decide_eq_true_2 by (by eexists); specialize (Hgo ltac:(done));
      cbn [negb]; destruct (Verify.check path _) as [r o']; destruct Hgo as (f' & H1 & H2 & H3 & H4 & H5);
      exists f'; split_and!; try done; destruct r; try done; by destruct H4 as (_ & ? & ? & _).
Qed.

(** The demonstration log, a copy with one byte changed, and an empty file. *)
Lemma verify_tool_exit_witness :
  let run c := fst (Verify.main ["litespeed-verify"%string; Demo.path] (Demo.rebooted c (replicate 200 Done))) in
  run demo_log = Ret 0 /\ run (flip demo_log 53 xff) = Ret 1 /\ run [] = Ret 0.
Proof.
  cbv zeta. split_and!.
  all: match goal with |- fst (Verify.main _ (Demo.rebooted ?c _)) = Ret ?n =>
    pose proof (verify_tool_exit "litespeed-verify"%string Demo.path (Demo.rebooted c (replicate 200 Done))) as (_ & _ & H);
    specialize (H 3%nat (File c []) (lookup_singleton_eq _ _) (lookup_singleton_eq _ _) ltac:(vm_compute; reflexivity));
    assert (El : (length (f_data (File c [])) + 41 <=? 200)%nat = true) by (vm_compute; reflexivity);
    assert (Ev : (if decide (f_data (File c []) = []) then 0 else verdict_code (File c [])) = n) by (vm_compute; reflexivity)
  end.
  all: rewrite Ev in H; destruct (Verify.main _ _) as [r o']; cbn [fst];
    destruct H as (f' & _ & _ & _ & _ & H); apply H; [by apply Forall_replicate|by apply Nat.leb_le].
Defined.

(** On a file that exists but is empty the verifier does write: the constructor
    of the log completes it with a header. *)
Example empty_file_gets_header :
  let '(r, o) := Verify.main ["litespeed-verify"%string; Demo.path] (Demo.rebooted [] (replicate 20 Done)) in
  r = Ret 0 /\ option_map f_data (os_inodes o !! 3%nat) = Some WAL.header_bytes.
Proof. vm_compute. by split. Qed.
