(* ===== verification/Programs.v ===== *)
(** * Programs: the demonstration and the fuzz drivers

    tools/demo.cpp, fuzz/fuzz_wal.cpp and fuzz/fuzz_snapshot.cpp on the library:
    what the demonstration prints, and that the drivers never fail on any
    input, but for a read error of the snapshot that is an exception. *)

From stdpp Require Import gmap pretty.
From S2P Require Import Prelude Endian CRC32 SHA256 Exec Posix PosixFacts LogFormat LogTheory WAL WALFacts WalkFacts WALTheory WALSpec Snapshot SnapshotFacts Tools.

(** A block [{ WAL log(path, n); body }]: the destructor closes the log also
    when the body throws. *)
Definition with_log {A} (path : string) (syncEveryN : Z) (body : M WAL.st A) : M os A := fun o =>
  match WAL.open path syncEveryN o with
  | (Ret w, o) =>
      match body (WAL.St w o) with
      | (Halt, s) => (Halt, WAL.s_os s)
      | (r, s) =>
          match WAL.close s with
          | (Halt, s) => (Halt, WAL.s_os s)
          | (_, s) => (r, WAL.s_os s)
          end
      end
  | (Throw x, o) => (Throw x, o)
  | (Halt, o) => (Halt, o)
  end.

(** ** The demonstration *)

Module Demonstration.
Definition kDemoWal : string := "/tmp/litespeed_demo.wal".

(** What [std::cout] has got, and the system. *)
Record io := Io { io_out : string; io_os : os }.
Definition sys {A} (m : M os A) : M io A := zoom io_os (fun o s => Io (io_out s) o) m.
Definition print (text : string) : M io unit := modify (fun s => Io (io_out s +:+ text) (io_os s)).

Definition newline : string := String (Ascii.ascii_of_nat 10) EmptyString.
Definition literal (s : string) : bytes := String.list_byte_of_string s.

Definition toHexPrefix (d : Sha256Digest) (n : nat) : bytes :=
  fold_left (fun s b =>
    let s := s ++ [Verify.hex (Z.shiftr (Z_of_byte b) 4)] in
    s ++ [Verify.hex (Z.land (Z_of_byte b) 0x0F)]) (take n d) [].

Definition printVerify (r : RecoveryResult) : M io unit :=
  match r_status r with
  | Ok => print ("[verify]   chain intact - " +:+ pretty (r_entriesVerified r) +:+ " entries verified  [OK]" +:+ newline)
  | TruncatedTail => print ("[verify]   torn tail after " +:+ pretty (r_entriesVerified r) +:+ " entries" +:+ newline)
  | Malformed => print ("[verify]   field over the size limit at offset " +:+ pretty (r_tamperOffset r) +:+
      " - foreign or stale file" +:+ newline)
  | Tampered => print ("[verify]   TAMPERING DETECTED at offset " +:+ pretty (r_tamperOffset r) +:+ " (after " +:+
      pretty (r_entriesVerified r) +:+ " valid entries)  [FAIL]" +:+ newline)
  end.

(** [std::search]. *)
Fixpoint search (l pattern : bytes) : option nat :=
  if bool_decide (take (length pattern) l = pattern) then Some O else
  match l with [] => None | _ :: l => option_map S (search l pattern) end.

(** An [ifstream] read to its end, and an [ofstream] that replaces the file. *)
Definition read_all (path : string) : M os bytes :=
  x <- next ;;
  match x with
  | Intr | Err => ret []
  | Done | Short _ =>
      o <- get ;;
      ret (match os_names o !! path with
           | Some i => match os_inodes o !! i with Some f => f_data f | None => [] end
           | None => []
           end)
  end.

Definition write_all (path : string) (data : bytes) : M os unit :=
  r <- sys_open path (OFlags true true false) ;;
  match r with
  | Fail _ => ret tt
  | Rc fd => WAL.writeExact (Z.to_nat fd) data ;;; sys_close (Z.to_nat fd) ;;; ret tt
  end.

Definition firstValue : bytes := literal "C:\Temp\evil.exe".

Definition agent : M WAL.st Checkpoint :=
  WAL.append PUT (literal "process.start") firstValue 1 ;;;
  WAL.append PUT (literal "net.connect") (literal "203.0.113.7:443") 2 ;;;
  WAL.append PUT (literal "file.delete") (literal "C:\Windows\prefetch\evil.pf") 3 ;;;
  WAL.head.

Definition attacker : M io unit :=
  content <- sys (read_all kDemoWal) ;;
  match search content firstValue with
  | None => ret tt
  | Some target =>
      let content := alter (fun b => byte_of_Z (Z.lxor (Z_of_byte b) 0x20)) target content in
      sys (write_all kDemoWal content) ;;;
      print ("[attacker] flipped 1 byte at offset " +:+ pretty (Z.of_nat target) +:+
        " (inside event #0's recorded data)" +:+ newline +:+ newline)
  end.

Definition main : M io Z :=
  sys (sys_unlink kDemoWal) ;;;
  print ("LiteSpeedStore - tamper-evidence demo" +:+ newline +:+ "=====================================" +:+ newline +:+ newline) ;;;
  cp <- sys (with_log kDemoWal 1 agent) ;;
  print ("[agent]    recorded 3 events to " +:+ kDemoWal +:+ newline +:+
    "[agent]    checkpoint to anchor remotely:  seq=" +:+ pretty (cp_seq cp) +:+ "  head=" +:+
    String.string_of_list_byte (toHexPrefix (cp_head cp) 8) +:+ "..." +:+ newline +:+ newline) ;;;
  r <- sys (with_log kDemoWal 1 WAL.verify) ;;
  printVerify r ;;;
  print newline ;;;
  attacker ;;;
  r <- sys (with_log kDemoWal 1 WAL.verify) ;;
  printVerify r ;;;
  print (newline +:+ "The edited entry breaks its own hash, and every later entry chains" +:+ newline +:+
    "onto the old value - so a single byte invalidates the rest." +:+ newline) ;;;
  sys (sys_unlink kDemoWal) ;;;
  ret 0.
End Demonstration.

(** The transcript of the README, with the hash it shows, when no call fails. *)
Example demonstration_transcript :
  let '(r, s) := Demonstration.main (Demonstration.Io "" (Os ∅ ∅ [] ∅ (replicate 300 Done))) in
  r = Ret 0 /\ os_names (Demonstration.io_os s) = ∅ /\ Demonstration.io_out s =
"LiteSpeedStore - tamper-evidence demo
=====================================

[agent]    recorded 3 events to /tmp/litespeed_demo.wal
[agent]    checkpoint to anchor remotely:  seq=3  head=d04cb4dfd191108f...

[verify]   chain intact - 3 entries verified  [OK]

[attacker] flipped 1 byte at offset 66 (inside event #0's recorded data)

[verify]   TAMPERING DETECTED at offset 16 (after 0 valid entries)  [FAIL]

The edited entry breaks its own hash, and every later entry chains
onto the old value - so a single byte invalidates the rest.
"%string.
Proof. vm_compute. repeat split. Qed.

(** ** The fuzz drivers *)

(** [try { m } catch (...) { }]. *)
Definition try_ {S} (m : M S unit) : M S unit := fun s =>
  match m s with (Throw _, s) => (Ret tt, s) | p => p end.

(** The write loop of the drivers gives up on the first call that moves
    nothing; the fuel is that of [writeExact]. *)
Fixpoint write_rest (fuel : nat) (fd : nat) (buf : bytes) : M os unit :=
  match fuel with
  | O => halt
  | S fuel =>
      if (0 <? length buf)%nat then
        r <- sys_write fd buf ;;
        match r with
        | Fail _ => ret tt
        | Rc n => if n <=? 0 then ret tt else write_rest fuel fd (drop (Z.to_nat n) buf)
        end
      else ret tt
  end.

Definition writeAll (fd : nat) (buf : bytes) : M os unit :=
  o <- get ;; write_rest (S (length (os_script o))) fd buf.

Module FuzzWal.
Definition path (pid : Z) : string := "/tmp/fuzz_wal_" +:+ pretty pid +:+ ".wal".

Definition header : bytes :=
  [x57; x53; x4c; x31; x02; x00; x00; x00; x00; x00; x00; x00; x00; x00; x00; x00].

Definition TestOneInput (pid : Z) (data : bytes) : M os Z :=
  let path := path pid in
  r <- sys_open path (OFlags true true false) ;;
  match r with
  | Fail _ => ret 0
  | Rc n =>
      let fd := Z.to_nat n in
      writeAll fd header ;;;
      writeAll fd data ;;;
      sys_close fd ;;;
      try_ (with_log path 1 (WAL.recover (fun _ _ _ _ v => v) None tt ;;; ret tt)) ;;;
      sys_unlink path ;;;
      ret 0
  end.
End FuzzWal.

Module FuzzSnapshot.
Definition path (pid : Z) : string := "/tmp/fuzz_snap_" +:+ pretty pid +:+ ".snap".

Definition file (data : bytes) : bytes :=
  let file := putLE32 [] 0x534E4150 in
  let file := putLE32 file 1 in
  let file := putLE32 file (CRC32.calculate data) in
  file ++ data.

Definition TestOneInput (host : host_order) (pid : Z) (data : bytes) : M os Z :=
  let path := path pid in
  let file := file data in
  r <- sys_open path (OFlags true true false) ;;
  match r with
  | Fail _ => ret 0
  | Rc n =>
      let fd := Z.to_nat n in
      writeAll fd file ;;;
      sys_close fd ;;;
      Snapshot.load host path (MkSnapshotImage 0 ∅) ;;;
      sys_unlink path ;;;
      ret 0
  end.
End FuzzSnapshot.

(** The header of the driver is the one the library writes. *)
Lemma fuzz_header : FuzzWal.header = WAL.header_bytes.
Proof. vm_compute. reflexivity. Qed.

(** What the write loop leaves: the file has grown by at most the buffer. *)
Lemma write_rest_post fuel o fd i f sc buf (Q : result unit -> os -> Prop) :
  (length sc < fuel)%nat ->
  (forall f' sc', (length (f_data f') <= length (f_data f) + length buf)%nat -> used sc sc' (1 `min` length buf) ->
    Q (Ret tt) (touch_gen false o fd i (length (f_data f')) f' sc')) ->
  (forall f', ~ (Forall (eq Done) sc /\ (1 `min` length buf <= length sc)%nat) ->
    Q Halt (touch_gen false o fd i (length (f_data f')) f' [])) ->
  wp (write_rest fuel fd buf) (touch_gen false o fd i (length (f_data f)) f sc) Q.
Proof.
  revert f sc buf. induction fuel as [|fuel IH]; intros f sc buf Hlen HQ HH; [lia|]. cbn [write_rest].
  destruct (Nat.ltb_spec 0 (length buf)) as [Hb|Hb]; [|apply wp_ret, HQ; [lia|by eapply used_le, used_refl; lia]].
  apply wp_bind. unfold wp at 1. destruct sc as [|x sc]; [apply HH; intros [_ H]; cbn [length] in H; lia|]. rewrite sys_write_touch by auto.
  assert (Hstop : x <> Done -> used (x :: sc) sc (1 `min` length buf)) by (intros Hx; apply used_retry; [done|]; eapply used_le, used_refl; lia).
  set (n := transfer x (length buf)). set (f1 := f_update (FWrite (length (f_data f)) (take n buf)) f).
  assert (Hf1 : length (f_data f1) = (length (f_data f) + length (take n buf))%nat)
    by (unfold f1; by rewrite f_data_update, apply_append, length_app).
  assert (Hn : (n <= length buf)%nat) by (unfold n; destruct x; cbn; lia). rewrite length_take in Hf1.
  assert (Hgo : x = Done \/ x <> Done -> wp (if Z.of_nat n <=? 0 then ret tt else write_rest fuel fd (drop (Z.to_nat (Z.of_nat n)) buf))
    (touch_gen false o fd i (length (f_data f) + n) f1 sc) Q).
  { intros Hx. replace (length (f_data f) + n)%nat with (length (f_data f1)) by lia. rewrite Nat2Z.id.
    assert (Hdone : x = Done -> n = length buf) by (by unfold n; intros ->).
    destruct (Z.leb_spec (Z.of_nat n) 0) as [Hz|Hz].
    - apply wp_ret, HQ; [lia|]. apply Hstop. intros E. specialize (Hdone E). lia.
    - apply IH; rewrite ?length_drop; [cbn in Hlen; lia| |].
      + intros f' sc' Hf' Hu. apply HQ; [lia|]. destruct Hx as [E|E].
        * eapply used_le, used_cons, Hu. rewrite (Hdone E). lia.
        * apply used_retry; [done|]. eapply used_le, Hu. lia.
      + intros f' Hbad. apply HH. intros [[<- Hd]%Forall_cons Hl]. apply Hbad. split; [done|]. rewrite (Hdone eq_refl). lia. }
  destruct x; cbn [fst snd]; [apply Hgo; auto|apply Hgo; auto|..].
  all: apply wp_ret, (HQ f); [lia|by apply Hstop].
Qed.

Lemma writeAll_post o fd i f sc buf (Q : result unit -> os -> Prop) :
  (forall f' sc', (length (f_data f') <= length (f_data f) + length buf)%nat -> used sc sc' 1 ->
    Q (Ret tt) (touch_gen false o fd i (length (f_data f')) f' sc')) ->
  (forall f', ~ (Forall (eq Done) sc /\ (1 <= length sc)%nat) ->
    Q Halt (touch_gen false o fd i (length (f_data f')) f' [])) ->
  wp (writeAll fd buf) (touch_gen false o fd i (length (f_data f)) f sc) Q.
Proof.
  intros HQ HH. apply wp_bind, wp_get. rewrite script_touch. apply write_rest_post; [lia| |].
  - intros f' sc' Hf Hu. apply HQ; [done|]. eapply used_le, Hu. lia.
  - intros f' Hbad. apply HH. intros [H1 H2]. apply Hbad. split; [done|lia].
Qed.

(** What a block that recovers the log of file [i] leaves: no exception gets
    out, no descriptor stays open, and only file [i] may have changed. *)
Definition recovered_block (o : os) (i : nat) (n : nat) (r : result unit) (o' : os) : Prop :=
  os_names o' = os_names o /\ (forall j, j <> i -> os_inodes o' !! j = os_inodes o !! j) /\
  match r with
  | Ret _ => os_fds o' = os_fds o /\ used (os_script o) (os_script o') n
  | Throw _ => False
  | Halt => Forall (eq Done) (os_script o) -> (length (os_script o) <= n)%nat
  end.

Lemma block_settled o i n f sc : used (os_script o) sc n -> recovered_block o i n (Ret tt) (settle o i f sc).
Proof. intros Hu. split_and!; [done| |done|done]. intros j Hj. by apply lookup_insert_ne. Qed.

Lemma block_halted o i n fd off f sc :
  (Forall (eq Done) (os_script o) -> (length (os_script o) <= n)%nat) -> recovered_block o i n Halt (touch o fd i off f sc).
Proof. intros Hu. split_and!; [done| |done]. intros j Hj. by apply lookup_insert_ne. Qed.

(** The recovery and the destructor, once the log is open. *)
Lemma recover_and_close path o i off f sc n :
  (WAL.kHeaderSize <= length (f_data f))%nat -> zlen (f_data f) < 2 ^ 63 -> used (os_script o) sc n ->
  let body := (WAL.recover (fun _ _ _ _ v => v) None tt ;;; ret tt) (WAL.St (fresh_wal path (fresh_fd o) 1) (touch o (fresh_fd o) i off f sc)) in
  match body with
  | (Halt, s) => recovered_block o i (n + length (f_data f) + 11) Halt (WAL.s_os s)
  | (_, s) => let '(r, s) := WAL.close s in
      recovered_block o i (n + length (f_data f) + 11) (match r with Halt => Halt | _ => Ret tt end) (WAL.s_os s)
  end.
Proof.
  intros Hh Hz Hu. set (w := fresh_wal path (fresh_fd o) 1). set (s := WAL.St w _).
  assert (Ho : opened s (fresh_fd o) i f) by (split; [done|]; exists off; apply file_of_touch).
  cbv zeta. unfold bind. pose proof (recover_post (fun _ _ _ _ v => v) None tt s (fresh_fd o) i f
    (fun r s' => match r with Throw _ => False | _ => True end /\ exists off' f' sc',
       s' = WAL.St (match r with Ret (res, _) => adopt res w | _ => w end) (touch o (fresh_fd o) i off' f' sc') /\
       used sc sc' (length (f_data f) + 10) /\
       match r with Halt => Forall (eq Done) sc -> (length sc <= length (f_data f) + 10)%nat | _ => True end) Ho Hz Hh) as Hrun.
  unfold wp in Hrun.
  destruct (WAL.recover _ _ _ s) as [r s']. cbn [fst snd] in Hrun. destruct Hrun as (Hnt & off' & f' & sc' & -> & Hu' & Hr).
  { intros r0 o' (off' & sc' & f' & es & tail & -> & Hu' & Hread & _ & Hx). split; [by destruct r0|].
    assert (Hle : (6 * length es + 10 <= length (f_data f) + 10)%nat).
    { pose proof (encode_count zero_digest 0 es) as Hc. destruct Hread as [Hl _]. apply (f_equal length) in Hl.
      unfold log_part in Hl. rewrite length_drop, length_app in Hl. unfold encode_log in Hl. lia. }
    exists off', f', sc'. split_and!.
    - unfold s; cbn [WAL.s_os]. rewrite touch_touch. by destruct r0 as [[]| |].
    - by eapply used_le.
    - destruct r0; [done..|]. intros Hd. specialize (Hx Hd). cbn in Hx. lia. }
  destruct r as [[res []]|x|]; [|done|].
  - cbn [ret WAL.s_os]. rewrite close_idle; [|by unfold adopt; destruct (_ || _)|by unfold adopt; destruct (_ || _)|apply fresh_fd_none].
    pose proof (used_trans _ _ _ _ _ Hu Hu') as Hu2. destruct sc' as [|y sc']; cbn [WAL.s_os].
    + apply block_halted. intros Hd. destruct Hu2 as [_ Hl]. specialize (Hl Hd). cbn [length] in Hl. lia.
    + apply block_settled. eapply used_le, used_trans; [|exact Hu2|apply used_cons, used_refl]. lia.
  - cbn [WAL.s_os]. apply block_halted. intros Hd. destruct Hu as [Hsuf Hl]. specialize (Hl Hd).
    specialize (Hr (suffix_Forall _ _ _ Hsuf Hd)). lia.
Qed.

Lemma recover_block_post path o i f :
  os_names o !! path = Some i -> os_inodes o !! i = Some f -> zlen (f_data f) < 2 ^ 63 ->
  wp (try_ (with_log path 1 (WAL.recover (fun _ _ _ _ v => v) None tt ;;; ret tt))) o
    (recovered_block o i (length (f_data f) + 40)).
Proof.
  intros Hn Hi Hz. set (N := (length (f_data f) + 40)%nat).
  set (Q := fun (r : result WAL.wal) o1 => match r with
    | Ret w => w = fresh_wal path (fresh_fd o) 1 /\ exists off f1 sc, o1 = touch o (fresh_fd o) i off f1 sc /\
        used (os_script o) sc 7 /\ (WAL.kHeaderSize <= length (f_data f1))%nat /\ zlen (f_data f1) < 2 ^ 63 /\
        (length (f_data f1) <= length (f_data f) + 16)%nat
    | Throw _ => recovered_block o i N (Ret tt) o1
    | Halt => recovered_block o i N Halt o1
    end).
  assert (Hopen : wp (WAL.open path 1) o Q).
  { pose proof (open_spec path 1 o Q) as Ho. unfold open_file, open_system in Ho. rewrite Hn, Hi in Ho.
    cbn [default from_option id] in Ho. apply Ho; clear Ho.
    - intros j [= <-]. by eexists.
    - intros x sc Hnd Hsuf. split_and!; [done|done|done|]. split; [done|by intros Hd].
    - intros E. split_and!; [done|done|]. rewrite E. cbn. lia.
    - intros r o1 sc Hu _ (off & f1 & sc1 & Hu1 & Hho & Hr). pose proof (used_trans _ _ _ _ _ Hu Hu1) as Hu2.
      destruct r as [w|x|].
      + destruct Hr as (-> & -> & Hf). split; [done|]. exists off, f1, sc1. split_and!; [done|exact Hu2| | |].
        all: destruct (decide (f_data f = [])) as [E|E]; [rewrite (proj1 Hf), header_bytes_length; unfold WAL.kHeaderSize; lia|].
        all: destruct Hf as [-> Hv]; try lia.
        unfold valid_header in Hv. apply andb_true_iff in Hv as [[Hv _]%andb_true_iff _]. by apply Nat.leb_le in Hv.
      + destruct Hr as [-> _]. rewrite drop_touch by apply fresh_fd_none. apply block_settled. eapply used_le, Hu2. lia.
      + destruct Hr as [-> ->]. apply block_halted. intros Hd. destruct Hu2 as [_ Hl]. specialize (Hl Hd). cbn [length] in Hl. lia. }
  unfold wp, try_, with_log in *. destruct (WAL.open path 1 o) as [[w|x|] o1]; cbn [fst snd] in Hopen; [|exact Hopen|exact Hopen].
  destruct Hopen as (-> & off & f1 & sc & -> & Hu & Hh & Hz1 & Hl).
  pose proof (recover_and_close path o i off f1 sc 7 Hh Hz1 Hu) as Hend. cbv zeta in Hend.
  assert (Hmore : forall r o', recovered_block o i (7 + length (f_data f1) + 11) r o' -> recovered_block o i N r o').
  { intros r o' (H1 & H2 & H3). split_and!; [done|done|]. destruct r; [|done|].
    - destruct H3 as [H3 H4]. split; [done|]. eapply used_le, H4. lia.
    - intros Hd. specialize (H3 Hd). lia. }
  destruct (bind _ _ _) as [[[]|x|] s]; [| |by apply Hmore].
  all: destruct (WAL.close s) as [[[]|y|] s2]; by apply Hmore.
Qed.

(** No name but [path] and no file but its own has changed. *)
Definition only_file (path : string) (o o' : os) : Prop :=
  (forall p, p <> path -> os_names o' !! p = os_names o !! p) /\
  (forall j, j <> trunc_inode path o -> os_inodes o' !! j = os_inodes o !! j).

Section drivers.
(** The exceptions that get out of a driver. *)
Variable err : exn -> Prop.

(** What a run of a driver may leave; [n] calls that succeed are enough for it
    to return. *)
Definition driver_post (path : string) (o : os) (n : nat) (r : result Z) (o' : os) : Prop :=
  only_file path o o' /\
  match r with
  | Ret code => code = 0 /\ os_fds o' = os_fds o
  | Throw x => err x
  | Halt => Forall (eq Done) (os_script o) -> (length (os_script o) < n)%nat
  end.

Lemma only_touch app path o fd off f sc :
  only_file path o (touch_gen app (trunc_system path o) fd (trunc_inode path o) off f sc).
Proof.
  split; [|intros j Hj; by apply lookup_insert_ne]. intros p Hp. cbn. unfold trunc_names.
  destruct (os_names o !! path); [done|by apply lookup_insert_ne].
Qed.

Lemma only_settle path o f sc : only_file path o (settle (trunc_system path o) (trunc_inode path o) f sc).
Proof. exact (only_touch false path o 0 0 f sc). Qed.

(** The last step of a driver: the file is removed. *)
Lemma unlink_post path o o1 k n :
  only_file path o o1 -> os_fds o1 = os_fds o -> used (os_script o) (os_script o1) k -> (k < n)%nat ->
  wp (sys_unlink path ;;; ret 0) o1 (driver_post path o n).
Proof.
  intros [Ho1 Ho2] Hf [Hsuf Hu] Hk. apply wp_bind. unfold sys_unlink, syscall. apply wp_bind. unfold wp at 1, next.
  destruct (os_script o1) as [|x sc]; cbn [fst snd].
  { split; [done|]. intros Hd. specialize (Hu Hd). cbn in Hu. lia. }
  destruct x; [| |apply wp_ret, wp_ret; by split..].
  all: apply wp_bind, wp_get; cbn [os_names set_script]; destruct (os_names o1 !! path) as [i|]; [apply wp_bind, wp_modify|];
    apply wp_ret, wp_ret; (split; [|done]); (split; [|exact Ho2]); intros p Hp; cbn; rewrite ?lookup_delete_ne by done; by apply Ho1.
Qed.

(** A driver up to the point where its file is written and closed. *)
Lemma driver_open path o n (k : nat -> M os Z) :
  (forall i, os_names o !! path = Some i -> is_Some (os_inodes o !! i)) -> (2 < n)%nat ->
  (forall f sc, f_data f = [] -> used (os_script o) sc 1 ->
    wp (k (fresh_fd o)) (touch_gen false (trunc_system path o) (fresh_fd o) (trunc_inode path o) (length (f_data f)) f sc)
      (driver_post path o n)) ->
  wp (r <- sys_open path (OFlags true true false) ;;
      match r with Fail _ => ret 0 | Rc m => k (Z.to_nat m) end) o (driver_post path o n).
Proof.
  intros Hi Hn Hk. apply wp_bind, (wp_open_trunc path o).
  - exact Hi.
  - intros E. split; [done|]. intros _. rewrite E. cbn. lia.
  - intros e sc _ _. apply wp_ret. done.
  - intros f sc Hf Hu. rewrite Nat2Z.id. specialize (Hk f sc Hf Hu). rewrite Hf in Hk. exact Hk.
Qed.

Lemma driver_halt path o n off f sc sc' m :
  used (os_script o) sc m -> (m < n)%nat -> ~ (Forall (eq Done) sc /\ (1 <= length sc)%nat) ->
  driver_post path o n Halt (touch_gen false (trunc_system path o) (fresh_fd o) (trunc_inode path o) off f sc').
Proof.
  intros [Hsuf Hu] Hm Hbad. split; [apply only_touch|]. intros Hd. specialize (Hu Hd).
  assert (length sc = 0%nat); [|lia]. destruct sc as [|x sc]; [done|]. destruct Hbad.
  split; [by eapply suffix_Forall|cbn; lia].
Qed.

Lemma driver_close path o n f sc m (k : M os Z) :
  used (os_script o) sc m -> (m + 1 < n)%nat ->
  (forall sc, used (os_script o) sc (m + 1) ->
    wp k (settle (trunc_system path o) (trunc_inode path o) f sc) (driver_post path o n)) ->
  wp (sys_close (fresh_fd o) ;;; k)
    (touch_gen false (trunc_system path o) (fresh_fd o) (trunc_inode path o) (length (f_data f)) f sc) (driver_post path o n).
Proof.
  intros Hu Hm Hk. apply wp_bind, wp_close; [exact (fresh_fd_none o)| |].
  - intros ->. eapply driver_halt; [exact Hu|lia|cbn; lia].
  - intros r sc' Hu' _. apply Hk. eapply used_trans; [exact Hu|exact Hu'].
Qed.
End drivers.

(** C40: The fuzz driver of the log never fails.  Whatever bytes it is given as a
    log after a valid header, whatever the outcomes of the system calls: no
    exception gets out and the answer is 0, unless power is lost; every
    descriptor is closed again; no other name and no other file is touched; and
    it returns when enough calls succeed. *)
Theorem fuzz_wal_safe pid data o :
  let path := FuzzWal.path pid in
  (forall i, os_names o !! path = Some i -> is_Some (os_inodes o !! i)) -> zlen data + 16 < 2 ^ 63 ->
  let '(r, o') := FuzzWal.TestOneInput pid data o in
  only_file path o o' /\ (r = Ret 0 /\ os_fds o' = os_fds o \/ r = Halt) /\
  (Forall (eq Done) (os_script o) -> (length data + 70 <= length (os_script o))%nat -> r = Ret 0).
Proof.
  intros path Hi Hz. assert (Hpost : wp (FuzzWal.TestOneInput pid data) o (driver_post (fun _ => False) path o (length data + 70))).
  { apply (driver_open _ path o _ (fun fd => writeAll fd FuzzWal.header ;;; writeAll fd data ;;; sys_close fd ;;;
      try_ (with_log path 1 (WAL.recover (fun _ _ _ _ v => v) None tt ;;; ret tt)) ;;; sys_unlink path ;;; ret 0)); [done|lia|]. intros f sc Hf Hu. rewrite fuzz_header.
    apply wp_bind, writeAll_post; [|intros f' Hbad; by eapply driver_halt; [exact Hu|lia|]].
    intros f1 sc1 Hf1 Hu1. pose proof (used_trans _ _ _ _ _ Hu Hu1) as Hu2.
    apply wp_bind, writeAll_post; [|intros f' Hbad; by eapply driver_halt; [exact Hu2|lia|]].
    intros f2 sc2 Hf2 Hu3. apply (driver_close _ _ _ _ _ _ 3); [exact (used_trans _ _ _ _ _ Hu2 Hu3)|lia|].
    clear dependent sc sc1 sc2. intros sc Hu. rewrite Hf, header_bytes_length in Hf1. unfold WAL.kHeaderSize in Hf1. cbn [length] in Hf1.
    set (o1 := settle (trunc_system path o) (trunc_inode path o) f2 sc).
    apply wp_bind. eapply wp_mono; [apply (recover_block_post path o1 (trunc_inode path o) f2)|].
    - exact (trunc_names_lookup path o).
    - apply lookup_insert_eq.
    - lia.
    - intros r o2 (Hn & Ho & Hr). pose proof (only_settle path o f2 sc) as [H1 H2]. fold o1 in H1, H2.
      assert (Honly : only_file path o o2).
      { split; [intros p Hp; rewrite Hn; by apply H1|]. intros j Hj. rewrite Ho by done. by apply H2. }
      destruct r as [[]|x|]; [|done|].
      + destruct Hr as [Hfds Hu4]. eapply unlink_post; [exact Honly|exact Hfds|exact (used_trans _ _ _ _ _ Hu Hu4)|lia].
      + split; [exact Honly|]. intros Hd. destruct Hu as [Hsuf Hu]. specialize (Hu Hd).
        specialize (Hr (suffix_Forall _ _ _ Hsuf Hd)). cbn [os_script o1 settle set_script] in Hr. lia. }
  unfold wp in Hpost. destruct (FuzzWal.TestOneInput pid data o) as [r o']. cbn [fst snd] in Hpost.
  destruct Hpost as [H1 H2]. split; [exact H1|]. destruct r as [code|x|]; [destruct H2 as [-> H2]; by auto|done|].
  split; [by right|]. intros Hd Hl. specialize (H2 Hd). lia.
Qed.

(** A run on bytes that are no entries, in which every call succeeds. *)
Lemma fuzz_wal_safe_witness :
  fst (FuzzWal.TestOneInput 7 [x01; x02; x03] (Os ∅ ∅ [] ∅ (replicate 80 Done))) = Ret 0.
Proof.
  pose proof (fuzz_wal_safe 7 [x01; x02; x03] (Os ∅ ∅ [] ∅ (replicate 80 Done))) as H. cbv zeta in H.
  specialize (H ltac:(intros i Hi; cbn [os_names] in Hi; by rewrite lookup_empty in Hi) ltac:(reflexivity)).
  destruct (FuzzWal.TestOneInput _ _ _) as [r o']. destruct H as (_ & _ & H). apply H; [by apply Forall_replicate|].
  apply Nat.leb_le. reflexivity.
Defined.

(** The fuzz driver of the snapshots, in the same sense; but an error of the read
    of the payload gets out of it where the standard library reports it by an
    exception. *)
Lemma fuzz_snapshot_safe host pid data o :
  let path := FuzzSnapshot.path pid in
  (forall i, os_names o !! path = Some i -> is_Some (os_inodes o !! i)) ->
  wp (FuzzSnapshot.TestOneInput host pid data) o
    (driver_post (fun x => x = Snapshot.read_error /\ ~ Forall (eq Done) (os_script o)) path o 8).
Proof.
  intros path Hi. apply (driver_open _ path o _ (fun fd => writeAll fd (FuzzSnapshot.file data) ;;; sys_close fd ;;;
    Snapshot.load host path (MkSnapshotImage 0 ∅) ;;; sys_unlink path ;;; ret 0)); [done|lia|]. intros f sc Hf Hu.
  apply wp_bind, writeAll_post; [|intros f' Hbad; by eapply driver_halt; [exact Hu|lia|]].
  intros f1 sc1 _ Hu1. apply (driver_close _ _ _ _ _ _ 2); [exact (used_trans _ _ _ _ _ Hu Hu1)|lia|].
  clear dependent sc sc1. intros sc Hu. apply wp_bind, load_frame. cbn [os_script settle set_script]. intros r sc' Hu' Hr.
  pose proof (used_trans _ _ _ _ _ Hu Hu') as Hu2. destruct r as [x|x|].
  - apply (unlink_post _ _ _ _ 6); [exact (only_settle path o f1 sc')|done|exact Hu2|lia].
  - split; [exact (only_settle path o f1 sc')|]. destruct Hr as [-> Hnd]. split; [done|].
    intros Hd. by apply Hnd, (suffix_Forall _ _ _ (proj1 Hu)).
  - subst sc'. split; [exact (only_settle path o f1 [])|]. intros Hd. destruct Hu2 as [_ Hu2]. specialize (Hu2 Hd).
    cbn in Hu2. lia.
Qed.
