(* ===== verification/Trace.v ===== *)
(** * Trace: the scoped timer of src/include/FastTrace.hpp

    A [Timer] reads the clock when it is made and when it is destroyed, and
    hands the milliseconds between to its callback; [TRACE_SCOPE] records them
    in an engine, as text and as the duration.  The readings of the clocks are
    arguments. *)

From Stdlib Require Import SpecFloat.
From stdpp Require Import gmap pretty.
From S2P Require Import Prelude Endian Exec Posix LogFormat WAL Snapshot Engine EngineFacts EngineSpec.

Import StorageEngine.

Module FastTrace.

(** The [double] of a number; the inverse of [sf_of_double]. *)
Definition double_of_sf (x : spec_float) : double :=
  match x with
  | S754_zero s => Double s 0 0
  | S754_infinity s => Double s 0x7FF 0
  | S754_nan => Double false 0x7FF 0x8000000000000
  | S754_finite s m e =>
      if Zpos m <? 2 ^ 52 then Double s 0 (Zpos m) else Double s (e + 1075) (Zpos m - 2 ^ 52)
  end.

(** [std::chrono::duration<double, std::milli>] of a number of nanoseconds. *)
Definition sf_of_Z (n : Z) : spec_float := binary_normalize 53 1024 n 0 false.
Definition milliseconds (ns : Z) : spec_float := SFdiv 53 1024 (sf_of_Z ns) (sf_of_Z 1000000).

(** [std::to_string] of a [double], the format [%f]: six decimals, the exact
    value rounded half to even. *)
Definition round_half_even (n d : Z) : Z :=
  let q := n / d in
  let r := n mod d in
  if 2 * r <? d then q else if d <? 2 * r then q + 1 else if Z.even q then q else q + 1.

Definition millionths (m : positive) (e : Z) : Z :=
  if 0 <=? e then Zpos m * 1000000 * 2 ^ e else round_half_even (Zpos m * 1000000) (2 ^ (- e)).

Definition fixed6 (n : Z) : string :=
  pretty (n / 1000000) +:+ "." +:+ String.substring 1 6 (pretty (1000000 + n mod 1000000)).

Definition to_string (x : spec_float) : string :=
  let sign (s : bool) := if s then "-"%string else EmptyString in
  match x with
  | S754_zero s => sign s +:+ fixed6 0
  | S754_infinity s => sign s +:+ "inf"
  | S754_nan => "nan"
  | S754_finite s m e => sign s +:+ fixed6 (millionths m e)
  end.

(** [class Timer]. *)
Record Timer := MkTimer { m_start : Z; m_callback : spec_float -> M st unit }.

Definition make (callback : spec_float -> M st unit) (now : Z) : Timer := MkTimer now callback.

(** The destructor is [noexcept]: an exception of the callback ends the
    program, and nothing more runs. *)
Definition destroy (t : Timer) (now : Z) : M st unit := fun s =>
  let elapsed := milliseconds (now - m_start t) in
  match m_callback t elapsed s with
  | (Throw _, s) => (Halt, s)
  | p => p
  end.

(** The callback of [TRACE_SCOPE(name, engine)]; [now] is the time [set] reads. *)
Definition record (host : host_order) (name : bytes) (now : Z) (ms : spec_float) : M st unit :=
  set host name (String.list_byte_of_string (to_string ms +:+ " ms")) (double_of_sf ms) now.

(** A block that starts with [TRACE_SCOPE(name, engine)]; the timer also runs
    when the rest of the block throws. *)
Definition trace_scope {A} (host : host_order) (name : bytes) (start finish now : Z) (body : M st A) : M st A := fun s =>
  let timer := make (record host name now) start in
  match body s with
  | (Halt, s) => (Halt, s)
  | (r, s) =>
      match destroy timer finish s with
      | (Halt, s) => (Halt, s)
      | (_, s) => (r, s)
      end
  end.

End FastTrace.

(** ** Properties *)

(** The rounding is to a nearest number. *)
Lemma round_half_even_near n d :
  0 < d -> Z.abs (2 * (FastTrace.round_half_even n d * d - n)) <= d.
Proof.
  intros Hd. unfold FastTrace.round_half_even. pose proof (Z.div_mod n d ltac:(lia)) as E.
  pose proof (Z.mod_pos_bound n d Hd) as Hr. set (q := n / d) in *. set (r := n mod d) in *.
  destruct (Z.ltb_spec (2 * r) d); [nia|]. destruct (Z.ltb_spec d (2 * r)); [nia|]. destruct (Z.even q); nia.
Qed.

(** The text is within half a nanosecond of the number [m * 2 ^ e]. *)
Lemma millionths_near m e :
  e <= 0 -> Z.abs (2 * (FastTrace.millionths m e * 2 ^ (- e) - Zpos m * 1000000)) <= 2 ^ (- e).
Proof.
  intros He. assert (Hp : 0 < 2 ^ (- e)) by (apply Z.pow_pos_nonneg; lia). unfold FastTrace.millionths.
  destruct (Z.leb_spec 0 e).
  - replace e with 0 in * by lia. cbn. lia.
  - by apply round_half_even_near.
Qed.

(** The engine counts the digits of a significand in binary. *)
Lemma digits_bound m : 2 ^ (Z.pos (digits2_pos m) - 1) <= Zpos m < 2 ^ Z.pos (digits2_pos m).
Proof.
  induction m as [m IH|m IH|]; cbn [digits2_pos]; rewrite ?Pos2Z.inj_succ; [..|by cbn].
  all: replace (Z.succ (Z.pos (digits2_pos m)) - 1) with (Z.succ (Z.pos (digits2_pos m) - 1)) by lia;
    rewrite !Z.pow_succ_r by lia; lia.
Qed.

(** The fields of a [double] give back its value. *)
Lemma double_roundtrip x :
  valid_binary 53 1024 x = true -> sf_of_double (FastTrace.double_of_sf x) = x.
Proof.
  destruct x as [s|s| |s m e]; cbn [valid_binary].
  1,2: intros _; by destruct s.
  1: by intros _.
  intros [Hc He%Z.leb_le]%andb_true_iff. apply Z.eqb_eq in Hc. unfold fexp, emin in *.
  pose proof (digits_bound m) as Hm. set (d := Z.pos (digits2_pos m)) in *.
  assert (Hd : (d = 53 \/ d < 53 /\ e = -1074) /\ -1074 <= e <= 971) by lia. clear Hc He.
  unfold FastTrace.double_of_sf. destruct (Z.ltb_spec (Z.pos m) (2 ^ 52)) as [Hlt|Hge].
  - assert (He : e = -1074) by (destruct Hd as [[Ed|[_ Ed]] _]; [rewrite Ed in Hm; lia|done]).
    cbn. by rewrite He.
  - assert (Hm2 : Z.pos m < 2 ^ 53).
    { destruct Hd as [[Ed|[Ed _]] _]; [rewrite Ed in Hm; lia|]. etrans; [apply Hm|]. apply Z.pow_lt_mono_r; lia. }
    unfold sf_of_double.
    destruct (Z.eqb_spec (e + 1075) 0x7FF); [lia|]. destruct (Z.eqb_spec (e + 1075) 0); [lia|].
    replace (Z.pos m - 2 ^ 52 + 0x10000000000000) with (Z.pos m) by lia. f_equal. lia.
Qed.

(** What the macro leaves: the block's own outcome, and the duration as the last
    value of the name, for an engine without a log. *)
Lemma trace_scope_records {A} host name start finish now (body : M st A) s a s1 :
  body s = (Ret a, s1) -> m_wal (s_engine s1) = None -> zlen name <= WAL.kMaxFieldSize ->
  0 <= m_maxHistoryPerKey (s_engine s1) -> data_ok (m_maxHistoryPerKey (s_engine s1)) (m_data (s_engine s1)) ->
  let ms := FastTrace.milliseconds (finish - start) in
  let text := String.list_byte_of_string (FastTrace.to_string ms +:+ " ms") in
  zlen text <= kMaxFieldSize ->
  exists s2, FastTrace.trace_scope host name start finish now body s = (Ret a, s2) /\
    last (history (m_data (s_engine s2)) name) = Some (MkRecord text (FastTrace.double_of_sf ms) now) /\
    forall key, key <> name -> m_data (s_engine s2) !! key = m_data (s_engine s1) !! key.
Proof.
  intros E Hw Hn Hc Hd ms text Ht. unfold FastTrace.trace_scope. rewrite E. unfold FastTrace.destroy; cbn [FastTrace.make FastTrace.m_callback FastTrace.m_start].
  unfold FastTrace.record. fold ms text.
  pose proof (set_result host name text (FastTrace.double_of_sf ms) now s1) as Hset.
  assert (Eset : exists s2, set host name text (FastTrace.double_of_sf ms) now s1 = (Ret tt, s2)).
  { unfold set. destruct (Z.ltb_spec WAL.kMaxFieldSize (zlen name)); [lia|]. destruct (Z.ltb_spec kMaxFieldSize (zlen text)); [lia|].
    unfold bind, this, bind, Exec.get, ret. rewrite Hw. by eexists. }
  destruct Eset as [s2 Eset]. rewrite Eset in *. exists s2. destruct Hset as [_ Hdata].
  rewrite appendCapped_keep in Hdata by (done || by apply data_ok_history). rewrite Hdata. split_and!; [done| |].
  - rewrite history_insert, decide_True by done. by apply keep_last.
  - intros key Hk. by apply lookup_insert_ne.
Qed.

(** A scope of fifty milliseconds and a half. *)
Example trace_scope_text :
  let '(r, s) := FastTrace.trace_scope LittleEndianHost [x61] 1000 50501000 7 (ret tt) (St (makeInMemory 0) (Os ∅ ∅ [] ∅ [])) in
  r = Ret tt /\ m_data (s_engine s) !! [x61] =
    Some [MkRecord (String.list_byte_of_string "50.500000 ms") (Double false 0x404 0x9400000000000) 7] /\
  fst (getAverage [x61] s) = Ret (Some (sf_of_double (Double false 0x404 0x9400000000000))).
Proof. vm_compute. repeat split. Qed.

(** An exception in the destructor ends the program: here the name is too long. *)
Example trace_scope_terminates :
  fst (FastTrace.trace_scope LittleEndianHost (replicate (Z.to_nat 1048577) x61) 0 1 7 (ret tt)
    (St (makeInMemory 0) (Os ∅ ∅ [] ∅ []))) = Halt.
Proof. vm_compute. reflexivity. Qed.
